(* ===== verification/_CoqProject ===== *)
-Q . S2P
Prelude.v
Mem.v
Subr.v
Librt.v
Pages.v
Memalloc.v
Heap.v
Iface.v
Alloc.v
MemallocTest.v
Sched.v
SchedThms.v
Cells.v
Tailq.v
TailqOps.v
Queues.v
Lists.v
Circleq.v
QueueDebug.v
Foreach.v
SchedMem.v
Fiber.v
FiberThms.v
FiberMem.v
Console.v
Machdep.v
Intr.v
Pci.v
Rumpuser.v
Libc.v
Hypmacros.v
Boot.v
ThreadCreate.v
OneMemory.v
Locore.v
Switch.v
System.v
App.v
