(* ===== verification/Prelude.v ===== *)
(** * Verification of the rump kernel bare metal hypervisor layer

    The program is the layer a rump kernel needs in order to run on a bare
    i386 machine: it boots from a multiboot loader, manages memory, threads
    and interrupts, and offers them to the rump kernel as the "rumpuser"
    hypercalls.  It runs on one processor with cooperative threads: a thread
    runs until it calls [bmk_sched]; only interrupt handlers run in between.

    ** The parts and the files that model them

    - Prelude: machine integers ([wrap], [sext]), the result type [outcome]
      ([Halt] is a failed [assert], a [panic] or an endless loop), constants
      and page rounding of include/bmk/kernel.h.
    - Mem: byte-addressed memory with little-endian words and C strings.
    - Subr: subr.c.  Librt: the division routines of librt/.
    - Pages: [bmk_allocpg] of kernel.c.  Memalloc: memalloc.c on top of it.
      Heap: the abstract heap (blocks, each free or in use), its relation
      [heap_ok] to the memory and the bucket lists, and the specifications
      [alloc_spec] and [free_spec].  Alloc: the theorems about the allocator.
      MemallocTest: its statistics (MSTATS) and its test build and program
      (MEMALLOC_TESTING).
    - Iface: the classes [HeapOps] and [HeapLaws], what the other components
      use of the allocator.  Alloc provides the instances; scheduler, locks
      and interrupts are proved against the classes.
    - Sched: sched.c and arch/i386/cpu_sched.c.  SchedThms: its step relation
      and theorems.
    - Cells: words in memory that do not overlap.  On them the macros of
      include/bmk/queue.h as programs over memory, with the proof that they
      implement lists: Tailq and TailqOps (TAILQ), Queues (SLIST, SIMPLEQ and
      STAILQ, the last two as instances of one record of operations), Lists
      (LIST) and Circleq (CIRCLEQ); QueueDebug the operations with the checks
      of QUEUEDEBUG, Foreach the traversals that tolerate removal and the
      initializers.  SchedMem and FiberMem put these macros to work; the
      other files use lists for the queues.
    - SchedMem: the operations of sched.c on thread structures in memory with
      the queue macros in place of lists, and the refinement to Sched.
      ThreadCreate: [bmk_sched_create] there, with structure and stack from
      memalloc.c in the same memory.  OneMemory: scheduler, allocator and
      other clients in one memory, with the release of zombies and the start
      by [bmk_sched_init].
    - Fiber: rumpfiber.c and the upcall wrappers of include/rumpuser_int.h.
      FiberThms: its theorems.  FiberMem: the locks of rumpfiber.c at their
      addresses in memory, wait queues linked through the [struct waiter]s on
      the stacks, and the refinement to Fiber.  Hypmacros: the macros of
      rumpuser_int.h.
    - Console: the text console of kernel.c.  Machdep: arch/i386/machdep.c and
      include/arch/i386/md.h.  Intr: intr.c.  Pci: rumppci.c.
    - Rumpuser: rumpuser.c.  Libc: libc_malloc.c, libc_emul.c, libc_errno.c
      and undefs.c.
    - Boot: [parsemem] and [bmk_main] of kernel.c, which bring the parts up.
    - Locore: the assembly of arch/i386/locore32.S as programs of a small i386
      interpreter: entry from the boot loader, segment loading, interrupt
      stubs, first steps of a thread and context switch.  Switch: [sched_switch]
      on the memory of SchedMem executed by that assembly.  System: the threads
      of OneMemory on that machine, from boot on.
    - App: the demonstration application app.c, with the system calls and MD5
      as the class [Services] and their documented behaviour on a disk as the
      class [DiskLaws].

    ** How the state corresponds to the code

    Static variables of a C file are the fields of one record: [pgstate],
    [mstate], [sched], [fib], [isrst], [cpu], [cons].  Pointers are their
    addresses.  Threads and lock objects are records in maps from addresses;
    allocator blocks, strings, the queue macros, the boot loader's map and the
    PCI interrupt table are laid out in byte memory, because there
    overlap and bounds matter.  A C function is one definition; a function
    that calls [bmk_sched] in the middle is cut there: the first part
    yields the state at the call, a second definition ("resumed") continues
    from the state in which the thread runs again, and the step relations
    interleave such parts with the rest of the system.  The hardware is a trace
    of port writes and privileged instructions; the clock, interrupts that
    arrive in the idle loop, upcalls into the rump kernel, interrupt handlers
    and devices are parameters.

    ** What the theorems show

    - Allocator: on every well-formed heap allocation and release refine the
      specification, reallocation is described on every branch, and a client
      that respects its allocations is safe from boot on.  This is shown for
      requests that are [servable]: size plus header below 4 GB and no overflow
      of the page counter, neither of which the code checks; what happens
      beyond is stated by theorems of its own.  Pages are never handed out
      twice as long as the page counter does not overflow.
    - Scheduler: the dispatched thread is the first that may run, no sleeper
      runs early, the idle loop ends, waiting is bounded by the threads in
      front and the threads created meanwhile; in every reachable state threads own their memory and the reaper releases exactly the
      zombies; the hand-shake of join and exit loses no wake-up (and
      cannot be reached, because creation drops its flags).  The list model
      is what the pointer code computes on thread structures in memory
      ([scheduler_memory_refinement], [creation_memory_refinement]), also when
      the allocator works in the same memory and other clients run in between
      ([one_memory_simulation]): released structures are overwritten with free
      lists, new ones are carved from them, and the queues stay intact.
    - Context switch: a thread that is switched away from and back continues
      with its registers and stack, a new thread enters its function with its
      argument, interrupt stubs are transparent to the code they interrupt,
      and the entry point runs [bmk_init] and then [bmk_main] or a message, and
      halts.  Of the C functions called there only the calling convention is
      assumed, in the states in which they are called.  Put together with scheduler and allocator in one memory
      ([system_keeps_contexts]): over every interleaving of creation, exit,
      release, allocation, work on the own stack, stores to the waiters on
      other stacks and [bmk_sched], each thread
      that does not run keeps its context on a stack of its own, and when it is
      chosen the assembly continues exactly there.
    - Locks: wait queues are first-in first-out, stop and release exactly the
      threads they should, and distinguish wake-up from timeout; a mutex excludes, and loses no wake-up; reader/writer locks and
      condition variables behave as stated on every branch.  The list model is
      what the code computes on bytes ([locks_memory_refinement]), over every
      sequence of hypercalls, thread switches, creations and destructions.
    - Interrupts: with interrupts between any two statements of the delivery
      thread at which the processor accepts them, no raised line is lost and
      its handlers run within seven statements of that thread; delivery serves
      exactly the marked lines, registration accepts exactly the lines the machine has.
    - Statistics and tests: what [mstats] prints is the number of blocks in the
      heap, the test build finds every overwritten byte of padding, and the
      test program runs without a failed assertion on an allocator that keeps
      its contract (and overruns a block on this one).
    - Arithmetic and data: the division routines compute quotient and
      remainder at their width, every queue family of queue.h implements
      lists, its debugging checks are silent on lists and stop misuse, the console is a terminal, strings, parameters, random numbers,
      sleeping, DMA memory and PCI addresses are as stated.
    - Boot: what [bmk_main] brings up satisfies the invariants the theorems
      above start from.
    - Application: what [bmk_app_main] prints and what it leaves on the disk,
      with a disk, with one that is too short and without one, and that the
      result sector can be read back.
    - Several theorems state defects of the code precisely: [bmk_strcmp] at
      the last character, [bmk_strncpy] of long strings, size overflows, lost
      bytes in reallocation, undetected double release, pages lost by a failed
      request, writers that ignore readers, a clock stub that clobbers
      registers, LIST_MOVE, unterminated answers in the application, and
      others.

    ** Fuel and bounds

    Loops whose length the code does not bound by a variable take fuel and
    return [None] without it: the string functions (the length of the string
    suffices, and theorems with a result ask for no more), the search of the
    memory map (the number of entries), the queue traversals (the length of
    the queue; [wakeup_all] is proved to end with it, on memory with the number
    of threads), the bucket search of the
    allocator (32 doublings of a 32-bit number), the digits of the memory
    limit (the 63 places of the array the code checks itself), the searches in
    the REMOVE macros (the elements before the one removed) and the disk loop
    of the application (the number of sectors).  Machine programs run for a
    number of instructions that the theorems give.  The idle loop of the
    scheduler takes the list of clock readings; [sched_dispatch_returns] says
    when it ends.

    ** Assumptions of the step relations

    The initial thread does not exit (its structure is static and would be
    released); requests of memory are servable; a thread's name has at most 15
    bytes, since [bmk_strncpy] of a longer one does not return; other threads
    leave the interrupt depth as they found it.

    ** Not modelled

    The range checks of memalloc.c (RCHECK, compiled out), which change the
    layout of the block header, the floating point unions of
    librt/int_types.h, prototypes and type names, and the rump kernel itself.

    ** Further work

    One transition system of all threads with the continuations of the cut
    functions, and from it progress of the reader/writer locks and of the
    condition variables with upcalls; threads on stacks given from outside and
    the hand-shake of join (which no thread can reach) in the memory of
    OneMemory; the wrappers of the locks around upcalls on bytes; interrupts
    between the steps of System. *)
From stdpp Require Export base tactics decidable list numbers gmap strings.
From Stdlib Require Export ZArith Lia.

#[global] Open Scope Z_scope.

(** ** Machine integers

    Every C object is a [Z]; arithmetic that the source performs at a
    width is followed by the truncation written out.  [wrap w] is the
    conversion to an unsigned [w]-bit type, [sext w] the conversion to the
    signed one (two's complement, as gcc defines it). *)

Definition wrap (w x : Z) : Z := x mod 2 ^ w.
Definition sext (w x : Z) : Z := (x + 2 ^ (w - 1)) mod 2 ^ w - 2 ^ (w - 1).

Abbreviation u8 := (wrap 8).
Abbreviation u16 := (wrap 16).
Abbreviation u32 := (wrap 32).
Abbreviation u64 := (wrap 64).
Abbreviation i8 := (sext 8).
Abbreviation i32 := (sext 32).
Abbreviation i64 := (sext 64).

(** Membership in the unsigned range of a width. *)
Definition urange (w x : Z) : Prop := 0 <= x < 2 ^ w.
Definition srange (w x : Z) : Prop := - 2 ^ (w - 1) <= x < 2 ^ (w - 1).

#[global] Instance urange_dec w x : Decision (urange w x).
Proof. unfold urange; apply _. Defined.
#[global] Instance srange_dec w x : Decision (srange w x).
Proof. unfold srange; apply _. Defined.



Lemma wrap_range w x : 0 <= w -> urange w (wrap w x).
Proof. intros; unfold urange, wrap; apply Z.mod_pos_bound; lia. Qed.

Lemma wrap_id w x : urange w x -> wrap w x = x.
Proof. unfold urange, wrap; intros; by apply Z.mod_small. Qed.

Lemma wrap_wrap w x : 0 <= w -> wrap w (wrap w x) = wrap w x.
Proof. intros; apply wrap_id; by apply wrap_range. Qed.

Lemma sext_id w x : srange w x -> 0 < w -> sext w x = x.
Proof.
  unfold srange, sext; intros Hr Hw.
  assert (2 ^ w = 2 * 2 ^ (w - 1)) as Hp
    by (rewrite <- Z.pow_succ_r by lia; f_equal; lia).
  rewrite Z.mod_small; lia.
Qed.

Lemma sext_range w x : 0 < w -> srange w (sext w x).
Proof.
  unfold srange, sext; intros Hw.
  assert (2 ^ w = 2 * 2 ^ (w - 1)) as Hp
    by (rewrite <- Z.pow_succ_r by lia; f_equal; lia).
  pose proof (Z.mod_pos_bound (x + 2 ^ (w - 1)) (2 ^ w) ltac:(lia)); lia.
Qed.

Lemma wrap_add_l w x y : wrap w (wrap w x + y) = wrap w (x + y).
Proof. unfold wrap; by rewrite Zplus_mod_idemp_l. Qed.
Lemma wrap_add_r w x y : wrap w (x + wrap w y) = wrap w (x + y).
Proof. unfold wrap; by rewrite Zplus_mod_idemp_r. Qed.

(** [unwrap] exposes the arithmetic behind the conversions for [lia]. *)
Ltac unwrap := unfold wrap, sext, urange, srange in *.
Ltac zlia := unwrap; change (2 ^ 8) with 256 in *; change (2 ^ 16) with 65536 in *;
  change (2 ^ 32) with 4294967296 in *; change (2 ^ 64) with 18446744073709551616 in *;
  Z.div_mod_to_equations; lia.

(** Equality of results componentwise, leaving the leaves to [lia]. *)
Ltac tuple_eq :=
  repeat match goal with
  | |- Some _ = Some _ => apply f_equal
  | |- (_, _) = (_, _) => apply (f_equal2 pair)
  end; try lia; try done.

Create HintDb bmk.
#[export] Hint Resolve wrap_range sext_range : bmk.

(** ** Outcomes

    [panic] and [assert] of include/bmk/kernel.h print a message and then
    spin in [for (;;)]: the call never returns.  A function that may do so
    has a result of type [outcome]; [Halt msg] is the spin, [msg] the text
    that was printed. *)
Inductive outcome (A : Type) : Type :=
| Ret (a : A)
| Halt (msg : string).
Arguments Ret {_} _.
Arguments Halt {_} _.

#[global] Instance outcome_ret : MRet outcome := @Ret.
#[global] Instance outcome_bind : MBind outcome :=
  fun A B k m => match m with Ret a => k a | Halt s => Halt s end.

(** [assert] and [panic]. *)
Definition c_assert (b : bool) (msg : string) : outcome unit :=
  if b then Ret tt else Halt msg.
Definition c_panic {A} (msg : string) : outcome A := Halt msg.

Lemma outcome_bind_Ret {A B} (m : outcome A) (k : A -> outcome B) b :
  (m ≫= k) = Ret b <-> exists a, m = Ret a /\ k a = Ret b.
Proof.
  destruct m; simpl; split; [eauto | by intros (? & [= ->] & ?) | done | by intros (? & ? & ?)].
Qed.

Lemma c_assert_Ret b msg : c_assert b msg = Ret tt <-> b = true.
Proof. destruct b; simpl; naive_solver. Qed.

(** The constants of include/bmk/kernel.h. *)
Definition MEMSTART : Z := 0x100000.
Definition PAGE_SIZE : Z := 0x1000.
Definition ENOMEM : Z := 1.
Definition EBUSY : Z := 2.
Definition EINVAL : Z := 3.
Definition EGENERIC : Z := EINVAL.
Definition ETIMEDOUT : Z := 4.
Definition BMK_MAXINTR : Z := 32.
Definition NULL : Z := 0.

(** [round_page] and [trunc_page] on 32-bit unsigned operands. *)
Definition trunc_page (x : Z) : Z := Z.land x (u32 (Z.lnot (PAGE_SIZE - 1))).
Definition round_page (x : Z) : Z :=
  Z.land (u32 (x + (PAGE_SIZE - 1))) (u32 (Z.lnot (PAGE_SIZE - 1))).

(** ** Bit arithmetic *)

Lemma testbit_above x w i : 0 <= x < 2 ^ w -> w <= i -> Z.testbit x i = false.
Proof.
  intros Hx Hi; destruct (Z.eq_dec x 0) as [->|]; [apply Z.bits_0|].
  apply Z.bits_above_log2; [lia|].
  assert (Z.log2 x < w) by (apply Z.log2_lt_pow2; lia); lia.
Qed.

Lemma land_wrap_r w x y : 0 <= w -> urange w x -> Z.land x (wrap w y) = Z.land x y.
Proof.
  intros Hw Hx; apply Z.bits_inj'; intros i Hi; rewrite !Z.land_spec; unfold wrap.
  destruct (decide (i < w)).
  - by rewrite Z.mod_pow2_bits_low.
  - rewrite (testbit_above x w i) by (done || lia); done.
Qed.

Lemma lor_disjoint a b k : 0 <= k -> 0 <= b < 2 ^ k -> Z.lor (a * 2 ^ k) b = a * 2 ^ k + b.
Proof.
  intros Hk Hb; symmetry; apply Z.add_nocarry_lor, Z.bits_inj'; intros i Hi.
  rewrite Z.land_spec, Z.bits_0; destruct (decide (i < k)).
  - by rewrite Z.mul_pow2_bits_low.
  - rewrite (testbit_above b k i) by lia; apply andb_false_r.
Qed.

Lemma shiftr_div x k : 0 <= k -> Z.shiftr x k = x / 2 ^ k.
Proof. apply Z.shiftr_div_pow2. Qed.

(** [x & (x - 1)] is zero exactly on the powers of two. *)
Lemma pow2_test x : 0 < x -> Z.land x (x - 1) = 0 -> x = 2 ^ Z.log2 x.
Proof.
  intros Hx Hl; pose proof (Z.log2_spec x Hx) as [Hlo Hhi].
  destruct (Z.eq_dec x (2 ^ Z.log2 x)) as [|Hne]; [done|exfalso].
  pose proof (Z.log2_nonneg x).
  assert (Z.log2 (x - 1) = Z.log2 x) as Hk by (apply Z.log2_unique; lia).
  assert (0 < x - 1) by (assert (0 < 2 ^ Z.log2 x) by (apply Z.pow_pos_nonneg; lia); lia).
  assert (Z.testbit (Z.land x (x - 1)) (Z.log2 x) = true) as Hb.
  { rewrite Z.land_spec, Z.bit_log2 by lia; rewrite <- Hk, Z.bit_log2 by lia; done. }
  rewrite Hl, Z.bits_0 in Hb; done.
Qed.

Lemma land_pred_pow2 x k : 0 <= k -> Z.land x (2 ^ k - 1) = x mod 2 ^ k.
Proof. intros; rewrite <- Z.land_ones by done; by rewrite Z.ones_equiv, Z.sub_1_r. Qed.

Lemma pow2_test_pow k : 0 <= k -> Z.land (2 ^ k) (2 ^ k - 1) = 0.
Proof. intros; rewrite land_pred_pow2 by done; apply Z_mod_same_full. Qed.

(** [x & ~(2^k - 1)] rounds down to a multiple of [2^k]. *)
Lemma align_down w x k :
  0 <= k <= w -> urange w x ->
  Z.land x (wrap w (Z.lnot (2 ^ k - 1))) = x - x mod 2 ^ k.
Proof.
  intros Hk Hx; rewrite land_wrap_r by (done || lia).
  rewrite <- Z.ldiff_land. replace (2 ^ k - 1) with (Z.ones k) by (rewrite Z.ones_equiv; lia).
  rewrite Z.ldiff_ones_r, Z.shiftl_mul_pow2, shiftr_div by lia.
  pose proof (Z.div_mod x (2 ^ k) ltac:(apply Z.pow_nonzero; lia)); lia.
Qed.

Lemma round_page_spec x :
  0 <= x -> x + PAGE_SIZE <= 2 ^ 32 ->
  x <= round_page x < x + PAGE_SIZE /\ round_page x mod PAGE_SIZE = 0.
Proof.
  unfold round_page, PAGE_SIZE; intros Hx Hb; rewrite wrap_id by zlia.
  change (0x1000 - 1) with (2 ^ 12 - 1).
  rewrite (align_down 32 _ 12) by zlia.
  change (2 ^ 12) with 4096; change 0x1000 with 4096; zlia.
Qed.
