(* ===== verification/Mem.v ===== *)
(** * Mem: the flat byte memory the kernel runs on

    The kernel runs unpaged on physical memory, so every address is
    readable and writable.  Memory is a finite map from addresses to
    bytes; a byte never written reads as 0.  Multi-byte accesses are
    little-endian (i386). *)
From S2P Require Import Prelude.

Abbreviation mem := (gmap Z Z).

Definition rd8 (m : mem) (a : Z) : Z := u8 (default 0 (m !! a)).
Definition wr8 (m : mem) (a v : Z) : mem := <[a := u8 v]> m.

Definition rd32 (m : mem) (a : Z) : Z :=
  rd8 m a + 2 ^ 8 * rd8 m (a + 1) + 2 ^ 16 * rd8 m (a + 2) + 2 ^ 24 * rd8 m (a + 3).
Definition wr32 (m : mem) (a v : Z) : mem :=
  wr8 (wr8 (wr8 (wr8 m a v) (a + 1) (Z.shiftr v 8)) (a + 2) (Z.shiftr v 16))
    (a + 3) (Z.shiftr v 24).

(** The [n] bytes from [a] on. *)
Definition ld (m : mem) (a : Z) (n : nat) : list Z :=
  (fun i => rd8 m (a + Z.of_nat i)) <$> seq 0 n.

(** [cstr m a s]: a NUL-terminated C string with the characters [s] is
    stored at [a]. *)
Definition cstr (m : mem) (a : Z) (s : list Z) : Prop :=
  ld m a (length s) = s /\ rd8 m (a + Z.of_nat (length s)) = 0 /\ Forall (fun c => c <> 0) s.

#[global] Instance cstr_dec m a s : Decision (cstr m a s).
Proof. unfold cstr; apply _. Defined.

(** [only_in m m' lo hi]: [m'] differs from [m] at most in [lo, hi). *)
Definition only_in (m m' : mem) (lo hi : Z) : Prop :=
  forall x, ~ (lo <= x < hi) -> rd8 m' x = rd8 m x.

(** ** Byte accesses *)

Lemma rd8_range m a : 0 <= rd8 m a < 256.
Proof. unfold rd8; zlia. Qed.

Lemma rd8_wr8_eq m a v : rd8 (wr8 m a v) a = u8 v.
Proof. unfold rd8, wr8; rewrite lookup_insert_eq; simpl; by apply wrap_wrap. Qed.

Lemma rd8_wr8_ne m a b v : a <> b -> rd8 (wr8 m a v) b = rd8 m b.
Proof. intros; unfold rd8, wr8; by rewrite lookup_insert_ne. Qed.

Lemma rd8_wr8 m a b v : rd8 (wr8 m a v) b = if decide (a = b) then u8 v else rd8 m b.
Proof. case_decide; subst; [apply rd8_wr8_eq | by apply rd8_wr8_ne]. Qed.

Lemma rd8_wr8_copy m a b c : rd8 (wr8 m a (rd8 m b)) c = if decide (a = c) then rd8 m b else rd8 m c.
Proof.
  rewrite rd8_wr8; case_decide; [|done].
  apply wrap_id; pose proof (rd8_range m b); zlia.
Qed.

(** ** Word accesses *)

Lemma rd32_range m a : urange 32 (rd32 m a).
Proof.
  unfold rd32; pose proof (rd8_range m a); pose proof (rd8_range m (a + 1));
  pose proof (rd8_range m (a + 2)); pose proof (rd8_range m (a + 3)).
  unfold urange; change (2 ^ 8) with 256; change (2 ^ 16) with 65536;
  change (2 ^ 24) with 16777216; change (2 ^ 32) with 4294967296; lia.
Qed.

Lemma rd32_wr32_eq m a v : rd32 (wr32 m a v) a = u32 v.
Proof.
  unfold rd32, wr32.
  repeat (rewrite rd8_wr8_eq || rewrite rd8_wr8_ne by lia).
  rewrite !Z.shiftr_div_pow2 by lia; unfold wrap.
  change (2 ^ 8) with 256; change (2 ^ 16) with 65536;
  change (2 ^ 24) with 16777216; change (2 ^ 32) with 4294967296.
  Z.div_mod_to_equations; lia.
Qed.

Lemma rd8_wr32_ne m a v b : b < a \/ a + 4 <= b -> rd8 (wr32 m a v) b = rd8 m b.
Proof. intros; unfold wr32; by rewrite !rd8_wr8_ne by lia. Qed.

Lemma rd32_wr32_ne m a v b : b + 4 <= a \/ a + 4 <= b -> rd32 (wr32 m a v) b = rd32 m b.
Proof. intros; unfold rd32; by rewrite !rd8_wr32_ne by lia. Qed.

Lemma rd32_wr8_ne m a v b : a < b \/ b + 4 <= a -> rd32 (wr8 m a v) b = rd32 m b.
Proof. intros; unfold rd32; by rewrite !rd8_wr8_ne by lia. Qed.

(** ** Frames *)

Lemma only_in_refl m lo hi : only_in m m lo hi.
Proof. by intros x _. Qed.

Lemma only_in_weaken m m' lo hi lo' hi' :
  only_in m m' lo hi -> lo' <= lo -> hi <= hi' -> only_in m m' lo' hi'.
Proof. intros H ?? x ?; apply H; lia. Qed.

Lemma only_in_trans m1 m2 m3 lo hi :
  only_in m1 m2 lo hi -> only_in m2 m3 lo hi -> only_in m1 m3 lo hi.
Proof. intros H1 H2 x ?; by rewrite H2, H1. Qed.

(** Two writes into a common range. *)
Lemma only_in_chain m1 m2 m3 a b c d lo hi :
  only_in m1 m2 a b -> only_in m2 m3 c d ->
  lo <= a -> b <= hi -> lo <= c -> d <= hi -> only_in m1 m3 lo hi.
Proof. intros H1 H2 ???? x ?; by rewrite H2, H1 by lia. Qed.

Lemma only_in_wr8 m a v : only_in m (wr8 m a v) a (a + 1).
Proof. intros x ?; apply rd8_wr8_ne; lia. Qed.

Lemma only_in_wr32 m a v : only_in m (wr32 m a v) a (a + 4).
Proof. intros x ?; apply rd8_wr32_ne; lia. Qed.

Lemma rd32_same m m' a : (forall x, a <= x < a + 4 -> rd8 m' x = rd8 m x) -> rd32 m' a = rd32 m a.
Proof. intros Hx; unfold rd32; by rewrite !Hx by lia. Qed.

Lemma rd32_only_in m m' lo hi a :
  only_in m m' lo hi -> a + 4 <= lo \/ hi <= a -> rd32 m' a = rd32 m a.
Proof. intros H ?; unfold rd32; by rewrite !H by lia. Qed.

(** ** Byte strings *)

Lemma ld_length m a n : length (ld m a n) = n.
Proof. unfold ld; by rewrite length_fmap, length_seq. Qed.

Lemma ld_lookup m a n i : (i < n)%nat -> ld m a n !! i = Some (rd8 m (a + Z.of_nat i)).
Proof. intros; unfold ld; rewrite list_lookup_fmap, lookup_seq_lt by done; done. Qed.

Lemma ld_ext m m' a a' n :
  (forall i, (i < n)%nat -> rd8 m (a + Z.of_nat i) = rd8 m' (a' + Z.of_nat i)) ->
  ld m a n = ld m' a' n.
Proof.
  intros H; apply list_eq; intros i.
  destruct (decide (i < n)%nat).
  - by rewrite !ld_lookup, H.
  - by rewrite !lookup_ge_None_2 by (rewrite ld_length; lia).
Qed.

Lemma ld_S m a n : ld m a (S n) = rd8 m a :: ld m (a + 1) n.
Proof.
  unfold ld; simpl. f_equal; [f_equal; lia|].
  rewrite <- fmap_S_seq, <- list_fmap_compose; apply list_fmap_ext.
  intros i x _; simpl; f_equal; lia.
Qed.

Lemma ld_only_in m m' lo hi a n :
  only_in m m' lo hi -> a + Z.of_nat n <= lo \/ hi <= a -> ld m' a n = ld m a n.
Proof. intros H ?; apply ld_ext; intros; apply H; lia. Qed.

Lemma cstr_nil m a : cstr m a [] <-> rd8 m a = 0.
Proof.
  unfold cstr; simpl; rewrite Z.add_0_r; split; [by intros (_ & ? & _)|].
  intros; split_and!; [done|done|constructor].
Qed.

Lemma cstr_cons m a c s :
  cstr m a (c :: s) <-> rd8 m a = c /\ c <> 0 /\ cstr m (a + 1) s.
Proof.
  unfold cstr; simpl length; rewrite ld_S, Forall_cons.
  replace (a + Z.of_nat (S (length s))) with (a + 1 + Z.of_nat (length s)) by lia.
  split; [intros (Heq & ? & ? & ?); simplify_eq; naive_solver | intros (-> & ? & -> & ?); naive_solver].
Qed.

Lemma cstr_app m a p s :
  cstr m a (p ++ s) <->
  (ld m a (length p) = p /\ Forall (fun c => c <> 0) p) /\ cstr m (a + Z.of_nat (length p)) s.
Proof.
  revert a; induction p as [|c p IH]; intros a; simpl.
  - rewrite Z.add_0_r; naive_solver.
  - rewrite cstr_cons, IH, ld_S, Forall_cons.
    replace (a + Z.of_nat (S (length p))) with (a + 1 + Z.of_nat (length p)) by lia.
    split; [intros (-> & ? & (-> & ?) & ?); done|].
    intros ((Heq & ? & ?) & ?); simplify_eq; naive_solver.
Qed.

Lemma cstr_head m a s : cstr m a s -> rd8 m a = default 0 (head s).
Proof. destruct s; [rewrite cstr_nil|rewrite cstr_cons]; naive_solver. Qed.

Lemma cstr_only_in m m' lo hi a s :
  only_in m m' lo hi -> a + Z.of_nat (length s) < lo \/ hi <= a -> cstr m a s -> cstr m' a s.
Proof.
  intros Ho Hd (Hl & Hz & Hf); split_and!; [|by rewrite Ho by lia|done].
  by rewrite (ld_only_in m m' lo hi) by (done || lia).
Qed.

#[export] Hint Resolve rd8_range rd32_range only_in_refl only_in_wr8 only_in_wr32 : bmk.
