(* ===== verification/Subr.v ===== *)
(** * Subr: the string and memory routines of subr.c

    Pointers are addresses, the memory is threaded through, and a loop that
    scans for a NUL byte runs on fuel ([None]: the fuel was too small).
    [char] is signed on i386, so the comparison results are differences of
    sign-extended bytes. *)
From S2P Require Import Prelude Mem.

(** ** The routines *)

Fixpoint strlen_loop (fuel : nat) (m : mem) (str rv : Z) : option Z :=
  match fuel with
  | O => None
  | S fuel => if rd8 m str =? 0 then Some rv else strlen_loop fuel m (str + 1) (u32 (rv + 1))
  end.
Definition bmk_strlen (fuel : nat) (m : mem) (str : Z) : option Z := strlen_loop fuel m str 0.

(** [while ( *a && *a++ == *b++ ) continue;] — the pointers move past the
    two characters compared, also when they differ. *)
Fixpoint strcmp_loop (fuel : nat) (m : mem) (a b : Z) : option (Z * Z) :=
  match fuel with
  | O => None
  | S fuel =>
      if rd8 m a =? 0 then Some (a, b)
      else if rd8 m a =? rd8 m b then strcmp_loop fuel m (a + 1) (b + 1)
      else Some (a + 1, b + 1)
  end.
Definition bmk_strcmp (fuel : nat) (m : mem) (a b : Z) : option Z :=
  '(a, b) ← strcmp_loop fuel m a b;
  let '(a, b) := if negb (rd8 m a =? 0) then (a - 1, b - 1) else (a, b) in
  Some (i8 (rd8 m a) - i8 (rd8 m b)).

Fixpoint strcpy_loop (fuel : nat) (m : mem) (d s : Z) : option mem :=
  match fuel with
  | O => None
  | S fuel =>
      let c := rd8 m s in
      let m := wr8 m d c in
      if c =? 0 then Some m else strcpy_loop fuel m (d + 1) (s + 1)
  end.
Definition bmk_strcpy (fuel : nat) (m : mem) (d s : Z) : option (mem * Z) :=
  m ← strcpy_loop fuel m d s; Some (m, d).

(** [while (n--) *v++ = (uint8_t)c;] *)
Fixpoint memset_loop (n : nat) (m : mem) (v c : Z) : mem :=
  match n with
  | O => m
  | S n => memset_loop n (wr8 m v c) (v + 1) c
  end.
Definition bmk_memset (m : mem) (b c n : Z) : mem * Z := (memset_loop (Z.to_nat n) m b c, b).

(** [while (( *d++ = *s++ ) && n--) continue;] returns the memory, the
    advanced [d] and the value left in [n]: the test of [n] that ends the
    loop decrements [n] below zero, which wraps. *)
Fixpoint strncpy_copy (fuel : nat) (m : mem) (d s n : Z) : option (mem * Z * Z) :=
  match fuel with
  | O => None
  | S fuel =>
      let c := rd8 m s in
      let m := wr8 m d c in
      if c =? 0 then Some (m, d + 1, n)
      else if n =? 0 then Some (m, d + 1, u32 (n - 1))
      else strncpy_copy fuel m (d + 1) (s + 1) (u32 (n - 1))
  end.
Definition bmk_strncpy (fuel : nat) (m : mem) (d s n : Z) : option (mem * Z) :=
  '(m, d', n') ← strncpy_copy fuel m d s n;
  Some (memset_loop (Z.to_nat n') m d' 0, d).

(** [while (n--) *dp++ = *sp++;] — byte by byte, upwards. *)
Fixpoint memcpy_loop (n : nat) (m : mem) (dp sp : Z) : mem :=
  match n with
  | O => m
  | S n => memcpy_loop n (wr8 m dp (rd8 m sp)) (dp + 1) (sp + 1)
  end.
Definition bmk_memcpy (m : mem) (d src n : Z) : mem * Z := (memcpy_loop (Z.to_nat n) m d src, d).

(** ** Lemmas on the loops *)

Lemma strlen_loop_ok s m fuel str rv :
  cstr m str s -> (length s < fuel)%nat -> 0 <= rv ->
  rv + Z.of_nat (length s) < 2 ^ 32 ->
  strlen_loop fuel m str rv = Some (rv + Z.of_nat (length s)).
Proof.
  revert fuel str rv; induction s as [|c s IH]; intros fuel str rv Hs Hf Hrv Hb;
    (destruct fuel as [|fuel]; [simpl in Hf; lia|]); simpl.
  - apply cstr_nil in Hs; rewrite Hs, Z.eqb_refl; f_equal; lia.
  - apply cstr_cons in Hs as (-> & Hc & Hs); simpl in *.
    rewrite (proj2 (Z.eqb_neq _ 0)) by done.
    rewrite wrap_id by zlia. rewrite IH; [f_equal|..]; auto; lia.
Qed.

Lemma memset_loop_rd8 n m v c x :
  rd8 (memset_loop n m v c) x = if decide (v <= x < v + Z.of_nat n) then u8 c else rd8 m x.
Proof.
  revert m v; induction n as [|n IH]; intros m v; simpl.
  - rewrite decide_False by lia; done.
  - rewrite IH, rd8_wr8; repeat case_decide; try lia; done.
Qed.

Lemma memset_only_in n m v c : only_in m (memset_loop n m v c) v (v + Z.of_nat n).
Proof. intros x ?; rewrite memset_loop_rd8, decide_False by lia; done. Qed.

Lemma memcpy_loop_rd8 n m dp sp x :
  dp + Z.of_nat n <= sp \/ sp + Z.of_nat n <= dp ->
  rd8 (memcpy_loop n m dp sp) x =
    if decide (dp <= x < dp + Z.of_nat n) then rd8 m (sp + (x - dp)) else rd8 m x.
Proof.
  revert m dp sp; induction n as [|n IH]; intros m dp sp Hd; simpl.
  - rewrite decide_False by lia; done.
  - rewrite IH, !rd8_wr8_copy by lia; repeat case_decide; try lia; subst; try done; f_equal; lia.
Qed.

Lemma strcpy_loop_ok s m fuel d src :
  cstr m src s -> (length s < fuel)%nat ->
  d + Z.of_nat (length s) < src \/ src + Z.of_nat (length s) < d ->
  exists m', strcpy_loop fuel m d src = Some m' /\ cstr m' d s /\
             only_in m m' d (d + Z.of_nat (length s) + 1).
Proof.
  revert m fuel d src; induction s as [|c s IH]; intros m fuel d src Hs Hf Hd;
    (destruct fuel as [|fuel]; [simpl in Hf; lia|]); simpl.
  - apply cstr_nil in Hs; rewrite Hs, Z.eqb_refl; eexists; split; [done|].
    rewrite cstr_nil, rd8_wr8_eq; split; [done|].
    simpl; eapply only_in_weaken; [apply only_in_wr8|lia..].
  - apply cstr_cons in Hs as (Hc & Hn & Hs); rewrite Hc; simpl in *.
    rewrite (proj2 (Z.eqb_neq _ 0)) by done.
    destruct (IH (wr8 m d c) fuel (d + 1) (src + 1)) as (m' & -> & Hs' & Ho);
      [eapply cstr_only_in; [apply only_in_wr8| |done]; lia | lia | lia |].
    exists m'; split; [done|]; split.
    + apply cstr_cons; split_and!; [|done|done].
      rewrite Ho by lia. rewrite <- Hc, rd8_wr8_eq; apply wrap_id.
      pose proof (rd8_range m src); zlia.
    + eapply only_in_chain; [apply only_in_wr8|apply Ho|lia..].
Qed.

(** The copy loop of [bmk_strncpy] when the string fits. *)
Lemma strncpy_copy_fits s m fuel d src n :
  cstr m src s -> Z.of_nat (length s) <= n < 2 ^ 32 -> (length s < fuel)%nat ->
  d + n < src \/ src + Z.of_nat (length s) < d ->
  exists m', strncpy_copy fuel m d src n =
               Some (m', d + Z.of_nat (length s) + 1, n - Z.of_nat (length s)) /\
             cstr m' d s /\ only_in m m' d (d + Z.of_nat (length s) + 1).
Proof.
  revert m fuel d src n; induction s as [|c s IH]; intros m fuel d src n Hs Hn Hf Hd;
    (destruct fuel as [|fuel]; [simpl in Hf; lia|]); simpl.
  - apply cstr_nil in Hs; rewrite Hs, Z.eqb_refl; eexists; split; [tuple_eq|].
    rewrite cstr_nil, rd8_wr8_eq; split; [done|].
    simpl; eapply only_in_weaken; [apply only_in_wr8|lia..].
  - apply cstr_cons in Hs as (Hc & Hz & Hs); rewrite Hc; simpl in *.
    rewrite (proj2 (Z.eqb_neq _ 0)) by done. rewrite (proj2 (Z.eqb_neq n 0)) by lia.
    rewrite wrap_id by zlia.
    destruct (IH (wr8 m d c) fuel (d + 1) (src + 1) (n - 1)) as (m' & -> & Hs' & Ho);
      [eapply cstr_only_in; [apply only_in_wr8| |done]; lia | lia | lia | lia |].
    exists m'; split; [tuple_eq|]; split.
    + apply cstr_cons; split_and!; [|done|done].
      rewrite Ho by lia. rewrite <- Hc, rd8_wr8_eq; apply wrap_id.
      pose proof (rd8_range m src); zlia.
    + eapply only_in_chain; [apply only_in_wr8|apply Ho|lia..].
Qed.

(** The copy loop when the string is longer than [n]: [n + 1] characters
    are copied and [n] is left at [2^32 - 1]. *)
Lemma strncpy_copy_long s m fuel d src n :
  cstr m src s -> 0 <= n < Z.of_nat (length s) -> n < 2 ^ 32 -> (Z.to_nat n < fuel)%nat ->
  d + n < src \/ src + Z.of_nat (length s) < d ->
  exists m', strncpy_copy fuel m d src n = Some (m', d + n + 1, 2 ^ 32 - 1).
Proof.
  revert m fuel d src n; induction s as [|c s IH]; intros m fuel d src n Hs Hn Hb Hf Hd;
    (destruct fuel as [|fuel]; [lia|]); simpl in *; [lia|].
  apply cstr_cons in Hs as (Hc & Hz & Hs); rewrite Hc.
  rewrite (proj2 (Z.eqb_neq _ 0)) by done.
  destruct (Z.eqb_spec n 0) as [->|].
  - eexists; tuple_eq.
  - rewrite wrap_id by zlia.
    destruct (IH (wr8 m d c) fuel (d + 1) (src + 1) (n - 1)) as (m' & ->);
      [eapply cstr_only_in; [apply only_in_wr8| |done]; lia | lia | lia | lia | lia |].
    exists m'; tuple_eq.
Qed.

(** The comparison loop: it runs over the common prefix [p]; [x] and [y] are
    the characters after it ([x = 0]: the first string ended). *)
Lemma strcmp_loop_prefix p m fuel a b :
  ld m a (length p) = p -> ld m b (length p) = p -> Forall (fun c => c <> 0) p ->
  strcmp_loop (length p + fuel) m a b =
  strcmp_loop fuel m (a + Z.of_nat (length p)) (b + Z.of_nat (length p)).
Proof.
  revert a b; induction p as [|c p IH]; intros a b Ha Hb Hp.
  - simpl; by rewrite !Z.add_0_r.
  - simpl length in *; rewrite ld_S in Ha, Hb; injection Ha as Hc Ha; injection Hb as Hc' Hb.
    apply Forall_cons in Hp as [Hc0 Hp].
    simpl. rewrite Hc, Hc', (proj2 (Z.eqb_neq _ 0)), Z.eqb_refl by done.
    rewrite IH by done; f_equal; lia.
Qed.

Lemma strcmp_loop_diff p m fuel a b :
  ld m a (length p) = p -> ld m b (length p) = p -> Forall (fun c => c <> 0) p ->
  rd8 m (a + Z.of_nat (length p)) <> 0 ->
  rd8 m (a + Z.of_nat (length p)) <> rd8 m (b + Z.of_nat (length p)) ->
  (length p < fuel)%nat ->
  strcmp_loop fuel m a b =
  Some (a + Z.of_nat (length p) + 1, b + Z.of_nat (length p) + 1).
Proof.
  intros Ha Hb Hp Hx Hxy Hf.
  replace fuel with (length p + S (fuel - length p - 1))%nat by lia.
  rewrite strcmp_loop_prefix by done; simpl.
  by rewrite (proj2 (Z.eqb_neq _ 0)), (proj2 (Z.eqb_neq _ _)) by done.
Qed.

Lemma i8_inj x y : 0 <= x < 256 -> 0 <= y < 256 -> i8 x - i8 y = 0 <-> x = y.
Proof. intros; split; unfold sext; simpl; Z.div_mod_to_equations; lia. Qed.

Lemma i8_zero : i8 0 = 0.
Proof. done. Qed.

(** ** The reference comparison

    [strcmp_ref] is what strcmp(3) promises, with the difference of the
    first two characters that differ as the result.  [blind s t] holds when
    the first difference is at the last character of [s]. *)
Fixpoint strcmp_ref (s t : list Z) : Z :=
  match s, t with
  | [], t => 0 - i8 (default 0 (head t))
  | x :: _, [] => i8 x
  | x :: s, y :: t => if x =? y then strcmp_ref s t else i8 x - i8 y
  end.

Fixpoint blind (s t : list Z) : bool :=
  match s, t with
  | [], _ => false
  | x :: s, [] => bool_decide (s = [])
  | x :: s, y :: t => if x =? y then blind s t else bool_decide (s = [])
  end.

Lemma common_prefix (s t : list Z) :
  exists p s' t', s = p ++ s' /\ t = p ++ t' /\ (s' <> [] -> head s' <> head t').
Proof.
  revert t; induction s as [|x s IH]; intros t.
  - exists [], [], t; naive_solver.
  - destruct t as [|y t]; [exists [], (x :: s), []; naive_solver|].
    destruct (decide (x = y)) as [->|Hne].
    + destruct (IH t) as (p & s' & t' & -> & -> & ?); exists (y :: p), s', t'; done.
    + exists [], (x :: s), (y :: t); split_and!; [done..|simpl; congruence].
Qed.

Lemma strcmp_ref_app p s t : strcmp_ref (p ++ s) (p ++ t) = strcmp_ref s t.
Proof. induction p as [|c p IH]; simpl; [done|]; by rewrite Z.eqb_refl. Qed.

Lemma blind_app p s t : blind (p ++ s) (p ++ t) = blind s t.
Proof. induction p as [|c p IH]; simpl; [done|]; by rewrite Z.eqb_refl. Qed.

Lemma strcmp_ref_diff x s t :
  head t <> Some x -> strcmp_ref (x :: s) t = i8 x - i8 (default 0 (head t)).
Proof.
  destruct t as [|y t]; simpl; intros H; [rewrite i8_zero; lia|].
  rewrite (proj2 (Z.eqb_neq x y)); [done|congruence].
Qed.

Lemma blind_diff x s t : head t <> Some x -> blind (x :: s) t = bool_decide (s = []).
Proof.
  destruct t as [|y t]; simpl; intros H; [done|].
  rewrite (proj2 (Z.eqb_neq x y)); [done|congruence].
Qed.

(** The value [bmk_strcmp] returns on two strings with common prefix [p]. *)
Lemma strcmp_split p s t m a b fuel :
  cstr m a (p ++ s) -> cstr m b (p ++ t) -> (length (p ++ s) < fuel)%nat ->
  (s <> [] -> head s <> head t) ->
  bmk_strcmp fuel m a b =
    match s with
    | [] => Some (0 - i8 (default 0 (head t)))
    | [x] => Some (0 - i8 (rd8 m (b + Z.of_nat (length p) + 1)))
    | x :: _ => Some (i8 x - i8 (default 0 (head t)))
    end.
Proof.
  rewrite !cstr_app, length_app; intros [[Hla Hp] Hs] [[Hlb _] Ht] Hf Hne.
  pose proof (cstr_head _ _ _ Hs) as Hhs; pose proof (cstr_head _ _ _ Ht) as Hht.
  unfold bmk_strcmp; destruct s as [|x s].
  - replace fuel with (length p + S (fuel - length p - 1))%nat by (simpl in Hf; lia).
    rewrite strcmp_loop_prefix by done; simpl in *.
    rewrite Hhs, Z.eqb_refl; simpl; by rewrite Hhs, Z.eqb_refl; simpl; rewrite Hht, Hhs, i8_zero.
  - apply cstr_cons in Hs as (Hx & Hx0 & Hs).
    rewrite (strcmp_loop_diff p) by (try done; simpl in *;
      rewrite ?Hx, ?Hht; try done; try lia; specialize (Hne ltac:(done));
      destruct t; simpl in *; congruence).
    simpl. pose proof (cstr_head _ _ _ Hs) as Hh'.
    destruct s as [|z s]; simpl in Hh'; rewrite Hh'.
    + simpl. by rewrite Hh', i8_zero.
    + apply cstr_cons in Hs as (_ & Hz & _). rewrite (proj2 (Z.eqb_neq z 0)) by done; simpl.
      rewrite !Z.add_simpl_r, Hht; by rewrite Hx.
Qed.

(** ** Correctness *)

(** C37: [bmk_strcmp] agrees with the reference comparison on any two C
    strings, unless the first difference is at the last character of the
    first string. *)
Theorem bmk_strcmp_correct m a b s t fuel :
  cstr m a s -> cstr m b t -> (length s < fuel)%nat -> blind s t = false ->
  bmk_strcmp fuel m a b = Some (strcmp_ref s t).
Proof.
  intros Hs Ht Hf Hb; destruct (common_prefix s t) as (p & s' & t' & -> & -> & Hne).
  rewrite blind_app in Hb; rewrite strcmp_ref_app, (strcmp_split p s' t') by done.
  destruct s' as [|x s']; [done|].
  assert (head t' <> Some x) by (intros ?; by apply Hne).
  rewrite blind_diff in Hb by done; rewrite strcmp_ref_diff by done.
  destruct s'; [done|done].
Qed.

Definition demo_mem : mem :=
  list_to_map [(16, 97); (17, 98); (18, 99); (32, 97); (33, 120); (48, 97); (49, 98); (50, 100)].

Lemma bmk_strcmp_correct_witness :
  bmk_strcmp 4 demo_mem 16 32 = Some (strcmp_ref [97; 98; 99] [97; 120]).
Proof.
  apply (bmk_strcmp_correct demo_mem 16 32 [97; 98; 99] [97; 120] 4);
    [vm_compute; repeat constructor; discriminate .. | simpl; lia | reflexivity].
Defined.

(** [bmk_strcmp] reports two different strings as equal: when they have
    the same length and differ only in their last character it returns 0,
    the result that means equality. *)
Theorem bmk_strcmp_last_char m a b p x y fuel :
  cstr m a (p ++ [x]) -> cstr m b (p ++ [y]) -> x <> y -> (length p + 1 < fuel)%nat ->
  bmk_strcmp fuel m a b = Some 0.
Proof.
  intros Ha Hb Hxy Hf. rewrite (strcmp_split p [x] [y]); [|done|done| |simpl; congruence].
  - apply cstr_app in Hb as [_ Hb]. apply cstr_cons in Hb as (_ & _ & Hb).
    apply cstr_nil in Hb; by rewrite Hb, i8_zero.
  - rewrite length_app; simpl; lia.
Qed.

Lemma bmk_strcmp_last_char_witness : bmk_strcmp 4 demo_mem 16 48 = Some 0.
Proof.
  apply (bmk_strcmp_last_char demo_mem 16 48 [97; 98] 99 100 4);
    [vm_compute; repeat constructor; discriminate .. | lia | simpl; lia].
Defined.

(** When the source string fits in [n] characters, [bmk_strncpy] stores
    it, pads with NUL up to and including byte [n] of the destination, and
    changes nothing outside those [n + 1] bytes. *)
Theorem bmk_strncpy_fits m d src s n fuel :
  cstr m src s -> Z.of_nat (length s) <= n < 2 ^ 32 -> (length s < fuel)%nat ->
  d + n < src \/ src + Z.of_nat (length s) < d ->
  exists m', bmk_strncpy fuel m d src n = Some (m', d) /\
    cstr m' d s /\
    (forall i, Z.of_nat (length s) <= i <= n -> rd8 m' (d + i) = 0) /\
    only_in m m' d (d + n + 1).
Proof.
  intros Hs Hn Hf Hd; destruct (strncpy_copy_fits s m fuel d src n) as (m' & Hc & Hs' & Ho); auto.
  unfold bmk_strncpy; rewrite Hc; simpl; eexists; split; [done|].
  set (k := n - Z.of_nat (length s)) in *; split_and!.
  - eapply cstr_only_in; [apply memset_only_in| |done]; lia.
  - intros i Hi; rewrite memset_loop_rd8; case_decide; [done|].
    replace i with (Z.of_nat (length s)) by lia; by destruct Hs' as (_ & ? & _).
  - eapply only_in_chain; [apply Ho|apply memset_only_in|lia..].
Qed.

Lemma bmk_strncpy_fits_witness :
  exists m', bmk_strncpy 9 demo_mem 64 16 5 = Some (m', 64) /\
    cstr m' 64 [97; 98; 99] /\
    (forall i, 3 <= i <= 5 -> rd8 m' (64 + i) = 0) /\ only_in demo_mem m' 64 70.
Proof.
  apply (bmk_strncpy_fits demo_mem 64 16 [97; 98; 99] 5 9);
    [vm_compute; repeat constructor; discriminate | simpl; lia | simpl; lia | simpl; lia].
Defined.

(** When the source string is longer than [n], the copy loop leaves [n]
    wrapped to [2^32 - 1] and [bmk_strncpy] goes on to clear every byte above
    [d + n], to the end of the address space. *)
Theorem bmk_strncpy_runaway m d src s n fuel :
  cstr m src s -> 0 <= n < Z.of_nat (length s) -> n < 2 ^ 32 -> (Z.to_nat n < fuel)%nat ->
  0 <= d -> d + n < src \/ src + Z.of_nat (length s) < d ->
  exists m', bmk_strncpy fuel m d src n = Some (m', d) /\
    forall x, d + n < x < 2 ^ 32 -> rd8 m' x = 0.
Proof.
  intros Hs Hn Hb Hf Hd0 Hd.
  destruct (strncpy_copy_long s m fuel d src n) as (m' & Hc); auto.
  unfold bmk_strncpy; rewrite Hc; cbv beta iota delta [mbind option_bind].
  eexists; split; [done|]; intros x Hx.
  rewrite memset_loop_rd8, decide_True; [done|].
  rewrite Z2Nat.id; lia.
Qed.

Lemma bmk_strncpy_runaway_witness :
  exists m', bmk_strncpy 3 demo_mem 64 16 2 = Some (m', 64) /\
    forall x, 66 < x < 2 ^ 32 -> rd8 m' x = 0.
Proof.
  apply (bmk_strncpy_runaway demo_mem 64 16 [97; 98; 99] 2 3);
    [vm_compute; repeat constructor; discriminate | simpl; lia | lia | simpl; lia | lia | simpl; lia].
Defined.

(** [bmk_memcpy] of disjoint ranges copies the [n] source bytes, returns
    the destination, and changes nothing else. *)
Theorem bmk_memcpy_correct m d src n :
  0 <= n -> d + n <= src \/ src + n <= d ->
  let '(m', r) := bmk_memcpy m d src n in
  r = d /\ ld m' d (Z.to_nat n) = ld m src (Z.to_nat n) /\ only_in m m' d (d + n).
Proof.
  intros Hn Hd; simpl; split_and!; [done| |].
  - apply ld_ext; intros i Hi; rewrite memcpy_loop_rd8, decide_True by lia; f_equal; lia.
  - intros x Hx; rewrite memcpy_loop_rd8, decide_False by lia; done.
Qed.

Lemma bmk_memcpy_correct_witness :
  let '(m', r) := bmk_memcpy demo_mem 64 16 3 in
  r = 64 /\ ld m' 64 3 = ld demo_mem 16 3 /\ only_in demo_mem m' 64 67.
Proof. apply (bmk_memcpy_correct demo_mem 64 16 3); lia. Defined.

Lemma bmk_strlen_correct m a s fuel :
  cstr m a s -> Z.of_nat (length s) < 2 ^ 32 -> (length s < fuel)%nat ->
  bmk_strlen fuel m a = Some (Z.of_nat (length s)).
Proof. intros; unfold bmk_strlen; rewrite (strlen_loop_ok s); auto; lia. Qed.

Lemma bmk_strcpy_correct m d src s fuel :
  cstr m src s -> (length s < fuel)%nat ->
  d + Z.of_nat (length s) < src \/ src + Z.of_nat (length s) < d ->
  exists m', bmk_strcpy fuel m d src = Some (m', d) /\ cstr m' d s /\
             only_in m m' d (d + Z.of_nat (length s) + 1).
Proof.
  intros Hs Hf Hd; destruct (strcpy_loop_ok s m fuel d src) as (m' & Hc & ? & ?); auto.
  exists m'; unfold bmk_strcpy; by rewrite Hc.
Qed.

Lemma bmk_memset_correct m b c n :
  0 <= n ->
  let '(m', r) := bmk_memset m b c n in
  r = b /\ (forall x, b <= x < b + n -> rd8 m' x = u8 c) /\ only_in m m' b (b + n).
Proof.
  intros Hn; simpl; split_and!; [done| |].
  - intros; rewrite memset_loop_rd8, decide_True by lia; done.
  - intros x ?; rewrite memset_loop_rd8, decide_False by lia; done.
Qed.
