(* ===== verification/Librt.v ===== *)
(** * Librt: the 64-bit and 32-bit division routines of librt/

    [udwords] is the union of int_types.h: a 64-bit value seen as its two
    32-bit halves ([hi], [lo], [all]).  A hardware division by zero is the
    divide fault [None].  The optional remainder pointer becomes the second
    component of the result. *)
From S2P Require Import Prelude.

(** ** Data: [udwords] and the compiler builtins *)

Definition hi (x : Z) : Z := Z.shiftr x 32.
Definition lo (x : Z) : Z := u32 x.
Definition all (h l : Z) : Z := h * 2 ^ 32 + l.

(** [__builtin_clz] and [__builtin_ctz] on a non-zero 32-bit operand. *)
Definition clz (x : Z) : Z := 31 - Z.log2 x.
Definition ctz (x : Z) : Z := Z.log2 (Z.land x (- x)).

(** [a / b] and [a % b] of the hardware. *)
Definition hwdiv (a b : Z) : option (Z * Z) :=
  if b =? 0 then None else Some (a / b, a mod b).

(** ** [__udivmoddi4] *)

(** The shift-and-subtract loop: [r:q = (r:q << 1) | carry], then a
    branch-free conditional subtraction. *)
Fixpoint udivmod_loop (sr : nat) (d rh rl qh ql carry : Z) : Z * Z :=
  match sr with
  | O => (u64 (Z.lor (Z.shiftl (all qh ql) 1) carry), all rh rl)
  | S sr =>
      let rh := Z.lor (u32 (Z.shiftl rh 1)) (Z.shiftr rl 31) in
      let rl := Z.lor (u32 (Z.shiftl rl 1)) (Z.shiftr qh 31) in
      let qh := Z.lor (u32 (Z.shiftl qh 1)) (Z.shiftr ql 31) in
      let ql := Z.lor (u32 (Z.shiftl ql 1)) carry in
      let r := all rh rl in
      let s := Z.shiftr (i64 (u64 (d - r - 1))) 63 in
      let carry := u32 (Z.land s 1) in
      let r := u64 (r - Z.land d (u64 s)) in
      udivmod_loop sr d (hi r) (lo r) qh ql carry
  end.

Definition udivmoddi4 (a b : Z) : option (Z * Z) :=
  let nh := hi a in let nl := lo a in
  let dh := hi b in let dl := lo b in
  (* q.all = n.all << (64 - sr), r.all = n.all >> sr, for 1 <= sr < 32 *)
  let shift_lo sr :=
    udivmod_loop (Z.to_nat sr) b
      (Z.shiftr nh sr) (Z.lor (u32 (Z.shiftl nh (32 - sr))) (Z.shiftr nl sr))
      (u32 (Z.shiftl nl (32 - sr))) 0 0 in
  (* the same for sr = 32 *)
  let shift_32 := udivmod_loop 32 b 0 nh nl 0 0 in
  (* the same for 32 < sr *)
  let shift_hi sr :=
    udivmod_loop (Z.to_nat sr) b
      0 (Z.shiftr nh (sr - 32))
      (Z.lor (u32 (Z.shiftl nh (64 - sr))) (Z.shiftr nl (sr - 32)))
      (u32 (Z.shiftl nl (64 - sr))) 0 in
  if nh =? 0 then
    if dh =? 0 then hwdiv nl dl
    else Some (0, nl)
  else if dl =? 0 then
    if dh =? 0 then hwdiv nh dl
    else if nl =? 0 then
      '(q, r) ← hwdiv nh dh; Some (q, all r 0)
    else if Z.land dh (u32 (dh - 1)) =? 0 then
      Some (Z.shiftr nh (ctz dh), all (Z.land nh (u32 (dh - 1))) nl)
    else
      let sr := u32 (clz dh - clz nh) in
      if 32 - 2 <? sr then Some (0, a)
      else Some (shift_lo (sr + 1))
  else
    if dh =? 0 then
      if Z.land dl (u32 (dl - 1)) =? 0 then
        let rem := Z.land nl (u32 (dl - 1)) in
        if dl =? 1 then Some (a, rem)
        else
          let sr := ctz dl in
          Some (all (Z.shiftr nh sr)
                    (Z.lor (u32 (Z.shiftl nh (32 - sr))) (Z.shiftr nl sr)), rem)
      else
        let sr := u32 (1 + 32 + clz dl - clz nh) in
        if sr =? 32 then Some shift_32
        else if sr <? 32 then Some (shift_lo sr)
        else Some (shift_hi sr)
    else
      let sr := u32 (clz dh - clz nh) in
      if 32 - 1 <? sr then Some (0, a)
      else
        let sr := sr + 1 in
        if sr =? 32 then Some shift_32 else Some (shift_lo sr).

Definition udivdi3 (a b : Z) : option Z := fst <$> udivmoddi4 a b.
Definition umoddi3 (a b : Z) : option Z := snd <$> udivmoddi4 a b.

(** The signed versions; operands and results are [di_int], that is in
    [srange 64]. *)
Definition divdi3 (a b : Z) : option Z :=
  let s_a := Z.shiftr a 63 in
  let s_b := Z.shiftr b 63 in
  let a := i64 (Z.lxor a s_a - s_a) in
  let b := i64 (Z.lxor b s_b - s_b) in
  let s_a := Z.lxor s_a s_b in
  '(q, _) ← udivmoddi4 (u64 a) (u64 b);
  Some (i64 (Z.lxor q (u64 s_a) - u64 s_a)).

Definition moddi3 (a b : Z) : option Z :=
  let s := Z.shiftr b 63 in
  let b := i64 (Z.lxor b s - s) in
  let s := Z.shiftr a 63 in
  let a := i64 (Z.lxor a s - s) in
  '(_, r) ← udivmoddi4 (u64 a) (u64 b);
  Some (i64 (Z.lxor (i64 r) s - s)).

(** ** [__udivsi3] *)

Fixpoint udivsi3_loop (sr : nat) (d r q carry : Z) : Z :=
  match sr with
  | O => Z.lor (u32 (Z.shiftl q 1)) carry
  | S sr =>
      let r := Z.lor (u32 (Z.shiftl r 1)) (Z.shiftr q 31) in
      let q := Z.lor (u32 (Z.shiftl q 1)) carry in
      let s := Z.shiftr (i32 (u32 (d - r - 1))) 31 in
      let carry := u32 (Z.land s 1) in
      let r := u32 (r - Z.land d (u32 s)) in
      udivsi3_loop sr d r q carry
  end.

Definition udivsi3 (n d : Z) : Z :=
  if d =? 0 then 0
  else if n =? 0 then 0
  else
    let sr := u32 (clz d - clz n) in
    if 32 - 1 <? sr then 0
    else if sr =? 32 - 1 then n
    else
      let sr := sr + 1 in
      udivsi3_loop (Z.to_nat sr) d (Z.shiftr n sr) (u32 (Z.shiftl n (32 - sr))) 0.

Example udivmoddi4_ex1 : udivmoddi4 0xfedcba9876543210 0x123456789 = Some (0xfedcba9876543210 / 0x123456789, 0xfedcba9876543210 mod 0x123456789).
Proof. vm_compute. reflexivity. Qed.
Example udivmoddi4_ex2 : udivmoddi4 0xfedcba9876543210 1000 = Some (0xfedcba9876543210 / 1000, 0xfedcba9876543210 mod 1000).
Proof. vm_compute. reflexivity. Qed.
Example divdi3_ex : divdi3 (-1000000000007) 1000 = Some (-1000000000) /\ moddi3 (-1000000000007) 1000 = Some (-7)
  /\ divdi3 (-2^63) (-1) = Some (-2^63).
Proof. vm_compute. auto. Qed.

(** ** The loop as long division

    [aloop W] is the loop on whole [W]-bit values, with the sign test of the
    source: the difference [d - r - 1] has its top bit set. *)
Definition tst (W d r : Z) : bool := 2 ^ (W - 1) <=? (d - r - 1) mod 2 ^ W.

Fixpoint aloop (W : Z) (k : nat) (d r q carry : Z) : Z * Z :=
  match k with
  | O => (wrap W (2 * q + carry), r)
  | S k =>
      let r1 := wrap W (2 * r + q / 2 ^ (W - 1)) in
      let q1 := wrap W (2 * q + carry) in
      if tst W d r1 then aloop W k d (wrap W (r1 - d)) q1 1 else aloop W k d r1 q1 0
  end.

Lemma double_half x b : 0 <= b <= 1 -> (2 * x + b) / 2 = x /\ (2 * x + b) mod 2 = b.
Proof. intros; Z.div_mod_to_equations; lia. Qed.

Section Aloop.
Context (W n d : Z) (HW : 1 < W) (Hd : 0 < d < 2 ^ W) (Hn : 0 <= n < 2 ^ W).

Lemma tst_ge r :
  0 <= r < 2 ^ W -> r < 2 * d -> d <= 2 ^ (W - 1) \/ 2 ^ (W - 1) <= r ->
  tst W d r = (d <=? r).
Proof.
  intros Hr Hr2 Hc; unfold tst.
  assert (2 ^ W = 2 * 2 ^ (W - 1)) by (rewrite <- Z.pow_succ_r by lia; f_equal; lia).
  set (h := 2 ^ (W - 1)) in *.
  destruct (Z.leb_spec d r).
  - rewrite <- (Z_mod_plus_full _ 1), Z.mod_small by lia; lia.
  - rewrite Z.mod_small by lia; lia.
Qed.

(** One bit of the dividend: halving and its inverse. *)
Lemma half_step k : 0 < k <= W ->
  exists b, 0 <= b <= 1 /\ n / 2 ^ (k - 1) = 2 * (n / 2 ^ k) + b /\
            n mod 2 ^ k = b * 2 ^ (k - 1) + n mod 2 ^ (k - 1).
Proof.
  intros Hk; exists ((n / 2 ^ (k - 1)) mod 2).
  pose proof (Z.mod_pos_bound (n / 2 ^ (k - 1)) 2 ltac:(lia)).
  assert (0 < 2 ^ (k - 1)) by (apply Z.pow_pos_nonneg; lia).
  assert (2 ^ k = 2 ^ (k - 1) * 2) as E
    by (replace k with (Z.succ (k - 1)) at 1 by lia; rewrite Z.pow_succ_r by lia; lia).
  rewrite E, <- Z.div_div, Z.rem_mul_r by lia.
  pose proof (Z.div_mod (n / 2 ^ (k - 1)) 2 ltac:(lia)); lia.
Qed.

(** The loop state with [k] bits still to bring down, and the step. *)
Definition quot (k : Z) : Z := (n / 2 ^ k) / d.
Definition qreg (k : Z) : Z := (n mod 2 ^ k) * 2 ^ (W - k) + quot k / 2.

Lemma quot_bound k : 0 <= k <= W -> 0 <= quot k < 2 ^ (W - k).
Proof.
  intros Hk; unfold quot.
  assert (0 < 2 ^ k) by (apply Z.pow_pos_nonneg; lia).
  assert (2 ^ W = 2 ^ k * 2 ^ (W - k)) by (rewrite <- Z.pow_add_r by lia; f_equal; lia).
  assert (0 <= n / 2 ^ k < 2 ^ (W - k)).
  { split; [apply Z.div_pos; lia|]. apply Z.div_lt_upper_bound; lia. }
  split; [apply Z.div_pos; lia|].
  apply Z.le_lt_trans with (n / 2 ^ k); [|lia].
  apply Z.div_le_upper_bound; nia.
Qed.

Lemma qreg_step k b : 0 < k <= W -> 0 <= b <= 1 ->
  n mod 2 ^ k = b * 2 ^ (k - 1) + n mod 2 ^ (k - 1) ->
  qreg k / 2 ^ (W - 1) = b /\
  wrap W (2 * qreg k + quot k mod 2) = (n mod 2 ^ (k - 1)) * 2 ^ (W - (k - 1)) + quot k.
Proof.
  intros Hk Hb E; unfold qreg, wrap; rewrite E.
  pose proof (quot_bound k ltac:(lia)) as HQ.
  set (h := 2 ^ (W - k)) in *. set (p := 2 ^ (k - 1)).
  assert (0 < p) by (apply Z.pow_pos_nonneg; lia).
  pose proof (Z.mod_pos_bound n p ltac:(lia)) as Hm. set (mm := n mod p) in *.
  assert (2 ^ (W - 1) = p * h) as -> by (unfold p, h; rewrite <- Z.pow_add_r by lia; f_equal; lia).
  assert (2 ^ (W - (k - 1)) = 2 * h) as ->
    by (unfold h; rewrite <- Z.pow_succ_r by lia; f_equal; lia).
  assert (2 ^ W = 2 * (p * h)) as ->
    by (unfold p, h; rewrite <- Z.pow_add_r, <- Z.pow_succ_r by lia; f_equal; lia).
  pose proof (Z.div_mod (quot k) 2 ltac:(lia)) as HQ2.
  pose proof (Z.mod_pos_bound (quot k) 2 ltac:(lia)).
  set (Q := quot k) in *. set (Q2 := Q / 2) in *.
  assert (0 <= mm * h + Q2 < p * h) by (split; [nia|]; nia).
  split.
  - symmetry; apply Z.div_unique with (mm * h + Q2); [lia|ring].
  - symmetry; apply Z.mod_unique with b; [left; nia|]; nia.
Qed.

Lemma quot_step k b : 0 < k <= W -> 0 <= b <= 1 ->
  n / 2 ^ (k - 1) = 2 * (n / 2 ^ k) + b ->
  let r1 := 2 * ((n / 2 ^ k) mod d) + b in
  0 <= r1 < 2 * d /\ r1 <= n / 2 ^ (k - 1) /\
  (if d <=? r1
   then quot (k - 1) = 2 * quot k + 1 /\ (n / 2 ^ (k - 1)) mod d = r1 - d
   else quot (k - 1) = 2 * quot k /\ (n / 2 ^ (k - 1)) mod d = r1).
Proof.
  intros Hk Hb E r1; unfold quot; rewrite E.
  assert (0 < 2 ^ k) by (apply Z.pow_pos_nonneg; lia).
  pose proof (Z.div_mod (n / 2 ^ k) d ltac:(lia)) as Hdm.
  pose proof (Z.mod_pos_bound (n / 2 ^ k) d ltac:(lia)).
  assert (0 <= n / 2 ^ k) by (apply Z.div_pos; lia).
  assert (0 <= (n / 2 ^ k) / d) by (apply Z.div_pos; lia).
  split_and!; [lia..|].
  destruct (Z.leb_spec d r1); split; symmetry.
  - apply Z.div_unique with (r1 - d); lia.
  - apply Z.mod_unique with (2 * ((n / 2 ^ k) / d) + 1); lia.
  - apply Z.div_unique with r1; lia.
  - apply Z.mod_unique with (2 * ((n / 2 ^ k) / d)); lia.
Qed.

Lemma aloop_divides (k : nat) :
  Z.of_nat k <= W -> d <= 2 ^ (W - 1) \/ ((k <= 1)%nat /\ 2 ^ (W - 1) <= n) ->
  aloop W k d ((n / 2 ^ Z.of_nat k) mod d) (qreg (Z.of_nat k)) (quot (Z.of_nat k) mod 2)
  = (n / d, n mod d).
Proof.
  induction k as [|k IH]; intros Hk Hc.
  - simpl aloop. pose proof (quot_bound 0 ltac:(lia)) as HQ.
    unfold qreg, quot in *; rewrite Z.pow_0_r, Z.div_1_r, Z.mod_1_r in *.
    pose proof (Z.div_mod (n / d) 2 ltac:(lia)). rewrite Z.sub_0_r in HQ.
    rewrite Z.mul_0_l, Z.add_0_l, wrap_id by (unfold urange; lia). tuple_eq.
  - cbn [aloop]. set (kz := Z.of_nat (S k)) in *.
    assert (Z.of_nat k = kz - 1) as Hkk by lia; rewrite Hkk in IH.
    destruct (half_step kz ltac:(lia)) as (b & Hb & E1 & E2).
    destruct (qreg_step kz b) as [-> ->]; [lia..|done|].
    destruct (quot_step kz b) as (Hr & Hrn & Hq); [lia..|done|].
    set (r1 := 2 * ((n / 2 ^ kz) mod d) + b) in *.
    assert (n / 2 ^ (kz - 1) <= n).
    { apply Z.div_le_upper_bound; [apply Z.pow_pos_nonneg; lia|].
      assert (0 < 2 ^ (kz - 1)) by (apply Z.pow_pos_nonneg; lia). nia. }
    rewrite wrap_id by (unfold urange; lia).
    assert (2 ^ W = 2 * 2 ^ (W - 1)) by (rewrite <- Z.pow_succ_r by lia; f_equal; lia).
    rewrite tst_ge; [|lia|lia|].
    2:{ destruct Hc as [|[Hk1 Hn1]]; [by left|].
        destruct (decide (d <= 2 ^ (W - 1))); [by left|right].
        assert (kz = 1) as Ek by lia. rewrite Ek, Z.sub_diag, Z.pow_0_r, Z.div_1_r in E1.
        unfold r1; rewrite Ek, Z.mod_small; [lia|]. change (2 ^ 1) with 2 in *.
        Z.div_mod_to_equations; lia. }
    destruct (Z.leb_spec d r1); destruct Hq as [Hq Hm].
    + destruct (double_half (quot kz) 1) as [D1 D2]; [lia|].
      rewrite wrap_id by (unfold urange; lia).
      unfold qreg in IH; rewrite Hm, Hq, D1, D2 in IH.
      apply IH; [lia|]. destruct Hc as [|[]]; [by left|right; lia].
    + destruct (double_half (quot kz) 0) as [D1 D2]; [lia|]; rewrite Z.add_0_r in D1, D2.
      unfold qreg in IH; rewrite Hm, Hq, D1, D2 in IH.
      apply IH; [lia|]. destruct Hc as [|[]]; [by left|right; lia].
Qed.

(** Entry of the loop: the high part of the dividend is below [d]. *)
Lemma aloop_start (k : nat) :
  Z.of_nat k <= W -> d <= 2 ^ (W - 1) \/ ((k <= 1)%nat /\ 2 ^ (W - 1) <= n) ->
  n / 2 ^ Z.of_nat k < d ->
  aloop W k d (n / 2 ^ Z.of_nat k) ((n mod 2 ^ Z.of_nat k) * 2 ^ (W - Z.of_nat k)) 0
  = (n / d, n mod d).
Proof.
  intros Hk Hc Hs; rewrite <- (aloop_divides k) by done.
  assert (0 < 2 ^ Z.of_nat k) by (apply Z.pow_pos_nonneg; lia).
  assert (0 <= n / 2 ^ Z.of_nat k) by (apply Z.div_pos; lia).
  unfold qreg, quot.
  rewrite (Z.div_small (n / 2 ^ Z.of_nat k) d), (Z.mod_small (n / 2 ^ Z.of_nat k) d) by lia.
  f_equal; rewrite Z.div_0_l; lia.
Qed.
End Aloop.

(** ** From halves to whole values *)

Ltac pow2s := change (2 ^ 32) with 4294967296 in *; change (2 ^ 31) with 2147483648 in *;
  change (2 ^ 63) with 9223372036854775808 in *; change (2 ^ 64) with 18446744073709551616 in *.

Lemma all_hi_lo x : all (hi x) (lo x) = x.
Proof.
  unfold all, hi, lo, wrap; rewrite shiftr_div by lia.
  pose proof (Z.div_mod x (2 ^ 32) ltac:(lia)); lia.
Qed.

Lemma hi_range x : urange 64 x -> urange 32 (hi x).
Proof. unfold hi, urange; rewrite shiftr_div by lia; pow2s; intros; Z.div_mod_to_equations; lia. Qed.

Lemma lo_range x : urange 32 (lo x).
Proof. unfold lo; auto with bmk lia. Qed.

Lemma all_range h l : urange 32 h -> urange 32 l -> urange 64 (all h l).
Proof. unfold all, urange; pow2s; lia. Qed.

(** [(x << 1) | b] on a 32-bit word. *)
Lemma shl1_or x b : urange 32 x -> 0 <= b <= 1 ->
  Z.lor (u32 (Z.shiftl x 1)) b = u32 (2 * x + b) /\ urange 32 (u32 (2 * x + b)).
Proof.
  intros Hx Hb; rewrite Z.shiftl_mul_pow2 by lia; change (2 ^ 1) with 2.
  assert (u32 (x * 2) = (x mod 2 ^ 31) * 2 ^ 1) as ->
    by (unfold wrap; pow2s; change (2 ^ 1) with 2; Z.div_mod_to_equations; lia).
  rewrite lor_disjoint by lia; unfold wrap, urange; pow2s; change (2 ^ 1) with 2.
  split; Z.div_mod_to_equations; lia.
Qed.

Lemma top_bit x : urange 32 x -> 0 <= Z.shiftr x 31 <= 1.
Proof. unfold urange; rewrite shiftr_div by lia; pow2s; intros; Z.div_mod_to_equations; lia. Qed.

(** Shifting a pair of words left by one, with a bit coming in. *)
Lemma shl1_pair h l b : urange 32 h -> urange 32 l -> 0 <= b <= 1 ->
  all (Z.lor (u32 (Z.shiftl h 1)) (Z.shiftr l 31)) (Z.lor (u32 (Z.shiftl l 1)) b)
  = u64 (2 * all h l + b).
Proof.
  intros Hh Hl Hb; destruct (shl1_or h (Z.shiftr l 31)) as [-> _]; [done|by apply top_bit|].
  destruct (shl1_or l b) as [-> _]; [done..|].
  rewrite shiftr_div by lia; unfold all, wrap, urange in *; pow2s.
  Z.div_mod_to_equations; lia.
Qed.

Lemma top_bit_all h l : urange 32 h -> urange 32 l -> all h l / 2 ^ 63 = Z.shiftr h 31.
Proof.
  intros Hh Hl; rewrite shiftr_div by lia; unfold all, urange in *; pow2s.
  Z.div_mod_to_equations; lia.
Qed.

(** The branch-free comparison. *)
Lemma sign_mask W x : 1 < W ->
  Z.shiftr (sext W (wrap W x)) (W - 1) = if 2 ^ (W - 1) <=? x mod 2 ^ W then -1 else 0.
Proof.
  intros HW; rewrite shiftr_div by lia; unfold sext, wrap.
  assert (2 ^ W = 2 * 2 ^ (W - 1)) as E by (rewrite <- Z.pow_succ_r by lia; f_equal; lia).
  assert (0 < 2 ^ (W - 1)) by (apply Z.pow_pos_nonneg; lia).
  pose proof (Z.mod_pos_bound x (2 ^ W) ltac:(lia)) as Hm.
  set (y := x mod 2 ^ W) in *; set (h := 2 ^ (W - 1)) in *; rewrite E in *.
  destruct (Z.leb_spec h y).
  - rewrite <- (Z_mod_plus_full _ (-1)), Z.mod_small by lia.
    symmetry; apply Z.div_unique with (y - h); lia.
  - rewrite Z.mod_small by lia; apply Z.div_small; lia.
Qed.

Lemma land_mask W d : 0 <= W -> urange W d -> Z.land d (wrap W (-1)) = d.
Proof. intros; rewrite land_wrap_r by done; apply Z.land_m1_r. Qed.

Lemma udivmod_loop_aloop k d rh rl qh ql carry :
  urange 64 d -> urange 32 rh -> urange 32 rl -> urange 32 qh -> urange 32 ql -> 0 <= carry <= 1 ->
  udivmod_loop k d rh rl qh ql carry = aloop 64 k d (all rh rl) (all qh ql) carry.
Proof.
  revert rh rl qh ql carry; induction k as [|k IH]; intros rh rl qh ql carry Hd H1 H2 H3 H4 Hc.
  - simpl; tuple_eq. rewrite Z.shiftl_mul_pow2, lor_disjoint by lia.
    f_equal; change (2 ^ 1) with 2; lia.
  - cbn [udivmod_loop aloop]. rewrite !shl1_pair, (top_bit_all qh) by (done || by apply top_bit).
    set (r1 := u64 (2 * all rh rl + _)). set (q1 := u64 (2 * all qh ql + carry)).
    rewrite (sign_mask 64) by lia. fold (tst 64 d r1).
    assert (Hq : forall r c, urange 64 r -> 0 <= c <= 1 ->
      udivmod_loop k d (hi r) (lo r)
        (Z.lor (u32 (Z.shiftl qh 1)) (Z.shiftr ql 31)) (Z.lor (u32 (Z.shiftl ql 1)) carry) c
      = aloop 64 k d r q1 c).
    { intros r c Hr Hcc; rewrite IH; [|done|by apply hi_range|apply lo_range| | |done].
      - rewrite all_hi_lo; f_equal; unfold q1; by rewrite <- shl1_pair.
      - destruct (shl1_or qh (Z.shiftr ql 31)) as [-> ?]; auto using top_bit.
      - destruct (shl1_or ql carry) as [-> ?]; auto. }
    destruct (tst 64 d r1).
    + rewrite land_mask by (done || lia). apply Hq; [auto with bmk lia|done].
    + change (u64 0) with 0; rewrite Z.land_0_r, Z.sub_0_r.
      rewrite Hq; [|auto with bmk lia|done]. unfold r1; by rewrite wrap_wrap.
Qed.

(** ** The starting values of the loop *)

(** The words of a double word shifted right by less than 32. *)
Lemma funnel nh nl sr : urange 32 nh -> urange 32 nl -> 0 < sr < 32 ->
  Z.lor (u32 (Z.shiftl nh (32 - sr))) (Z.shiftr nl sr)
  = (nh mod 2 ^ sr) * 2 ^ (32 - sr) + nl / 2 ^ sr /\
  urange 32 ((nh mod 2 ^ sr) * 2 ^ (32 - sr) + nl / 2 ^ sr) /\
  u32 (Z.shiftl nl (32 - sr)) = (nl mod 2 ^ sr) * 2 ^ (32 - sr) /\
  urange 32 ((nl mod 2 ^ sr) * 2 ^ (32 - sr)) /\
  urange 32 (nh / 2 ^ sr).
Proof.
  intros Hh Hl Hsr.
  assert (2 ^ 32 = 2 ^ sr * 2 ^ (32 - sr)) as E by (rewrite <- Z.pow_add_r by lia; f_equal; lia).
  assert (0 < 2 ^ sr) by (apply Z.pow_pos_nonneg; lia).
  assert (0 < 2 ^ (32 - sr)) by (apply Z.pow_pos_nonneg; lia).
  assert (Hs : forall x, u32 (Z.shiftl x (32 - sr)) = (x mod 2 ^ sr) * 2 ^ (32 - sr)).
  { intros x; unfold wrap; rewrite Z.shiftl_mul_pow2, E by lia; apply Zmult_mod_distr_r. }
  rewrite !Hs, shiftr_div by lia; unfold urange in *; rewrite E in *.
  pose proof (Z.mod_pos_bound nh (2 ^ sr) ltac:(lia)).
  pose proof (Z.mod_pos_bound nl (2 ^ sr) ltac:(lia)).
  assert (0 <= nl / 2 ^ sr < 2 ^ (32 - sr))
    by (split; [apply Z.div_pos; lia|apply Z.div_lt_upper_bound; lia]).
  assert (0 <= nh / 2 ^ sr < 2 ^ (32 - sr))
    by (split; [apply Z.div_pos; lia|apply Z.div_lt_upper_bound; lia]).
  split_and!; [apply lor_disjoint; lia|nia..].
Qed.

Lemma all_shiftr nh nl sr : 0 < sr < 32 ->
  all (nh / 2 ^ sr) ((nh mod 2 ^ sr) * 2 ^ (32 - sr) + nl / 2 ^ sr) = all nh nl / 2 ^ sr.
Proof.
  intros Hsr; unfold all.
  assert (2 ^ 32 = 2 ^ sr * 2 ^ (32 - sr)) as E by (rewrite <- Z.pow_add_r by lia; f_equal; lia).
  assert (0 < 2 ^ sr) by (apply Z.pow_pos_nonneg; lia). rewrite E.
  replace (nh * (2 ^ sr * 2 ^ (32 - sr)) + nl) with (nl + (nh * 2 ^ (32 - sr)) * 2 ^ sr) by ring.
  rewrite Z.div_add by lia.
  pose proof (Z.div_mod nh (2 ^ sr) ltac:(lia)). nia.
Qed.

Lemma all_mod nh nl sr : 0 < sr <= 32 -> all nh nl mod 2 ^ sr = nl mod 2 ^ sr.
Proof.
  intros Hsr; unfold all.
  replace (2 ^ 32) with (2 ^ (32 - sr) * 2 ^ sr)
    by (rewrite <- Z.pow_add_r by lia; f_equal; lia).
  rewrite Z.add_comm, Z.mul_assoc; apply Z_mod_plus_full.
Qed.

Section Start.
Context (a b : Z) (Ha : urange 64 a) (Hb : 0 < b < 2 ^ 64).
Context (sr : Z) (Hlt : a / 2 ^ sr < b).
Context (Hbig : b <= 2 ^ 63 \/ (sr <= 1 /\ 2 ^ 63 <= a)).

Lemma start_lo : 0 < sr < 32 ->
  udivmod_loop (Z.to_nat sr) b
    (Z.shiftr (hi a) sr) (Z.lor (u32 (Z.shiftl (hi a) (32 - sr))) (Z.shiftr (lo a) sr))
    (u32 (Z.shiftl (lo a) (32 - sr))) 0 0 = (a / b, a mod b).
Proof.
  intros Hsr; destruct (funnel (hi a) (lo a) sr) as (-> & H1 & -> & H2 & H3);
    [by apply hi_range|apply lo_range|done|].
  rewrite shiftr_div, udivmod_loop_aloop by (done || lia || unfold urange; lia).
  rewrite all_shiftr by done. rewrite all_hi_lo.
  rewrite <- (aloop_start 64 a b ltac:(lia) Hb Ha (Z.to_nat sr)) by (rewrite ?Z2Nat.id; lia).
  rewrite Z2Nat.id by lia; f_equal; unfold all.
  rewrite <- (all_hi_lo a) at 2; rewrite all_mod by lia.
  replace (64 - sr) with (32 - sr + 32) by lia; rewrite Z.pow_add_r by lia; lia.
Qed.

Lemma start_32 : sr = 32 -> udivmod_loop 32 b 0 (hi a) (lo a) 0 0 = (a / b, a mod b).
Proof.
  intros ->; pose proof (hi_range a Ha); pose proof (lo_range a).
  rewrite udivmod_loop_aloop by (done || unfold urange; lia).
  rewrite <- (aloop_start 64 a b ltac:(lia) Hb Ha 32) by (done || change (Z.of_nat 32) with 32; lia).
  change (Z.of_nat 32) with 32; change (64 - 32) with 32; unfold all, hi, lo, wrap.
  rewrite shiftr_div, Z.mul_0_l, Z.add_0_l, Z.add_0_r by lia; done.
Qed.

Lemma start_hi : 32 < sr < 64 ->
  udivmod_loop (Z.to_nat sr) b
    0 (Z.shiftr (hi a) (sr - 32))
    (Z.lor (u32 (Z.shiftl (hi a) (64 - sr))) (Z.shiftr (lo a) (sr - 32)))
    (u32 (Z.shiftl (lo a) (64 - sr))) 0 = (a / b, a mod b).
Proof.
  intros Hsr; destruct (funnel (hi a) (lo a) (sr - 32)) as (E1 & H1 & E2 & H2 & H3);
    [by apply hi_range|apply lo_range|lia|].
  replace (32 - (sr - 32)) with (64 - sr) in * by lia. rewrite E1, E2.
  rewrite shiftr_div, udivmod_loop_aloop by (done || lia || unfold urange; lia).
  rewrite <- (aloop_start 64 a b ltac:(lia) Hb Ha (Z.to_nat sr)) by (rewrite ?Z2Nat.id; lia).
  rewrite Z2Nat.id by lia.
  assert (2 ^ sr = 2 ^ 32 * 2 ^ (sr - 32)) as Ep by (rewrite <- Z.pow_add_r by lia; f_equal; lia).
  assert (0 < 2 ^ (sr - 32)) by (apply Z.pow_pos_nonneg; lia).
  f_equal.
  - unfold all, hi; rewrite shiftr_div, Ep, Z.div_div by lia; lia.
  - rewrite Ep, Z.rem_mul_r by lia. unfold all, hi, lo, wrap in *.
    rewrite shiftr_div in * by lia.
    assert (2 ^ 32 = 2 ^ (sr - 32) * 2 ^ (64 - sr)) as E
      by (rewrite <- Z.pow_add_r by lia; f_equal; lia).
    set (x := a mod 2 ^ 32). set (y := (a / 2 ^ 32) mod 2 ^ (sr - 32)).
    set (P := 2 ^ (sr - 32)) in *; set (S := 2 ^ (64 - sr)) in *.
    transitivity ((2 ^ 32 * y + (P * (x / P) + x mod P)) * S);
      [rewrite E; ring | rewrite <- Z.div_mod by lia; ring].
Qed.
End Start.

(** ** The branches of [__udivmoddi4] *)

Lemma log2_u32 x : urange 32 x -> x <> 0 -> 0 <= Z.log2 x <= 31 /\ 2 ^ Z.log2 x <= x < 2 ^ (Z.log2 x + 1).
Proof.
  intros Hx Hx0; unfold urange in Hx; pose proof (Z.log2_spec x ltac:(lia)).
  assert (Z.log2 x < 32) by (apply Z.log2_lt_pow2; lia).
  pose proof (Z.log2_nonneg x); lia.
Qed.

Lemma ctz_pow2 k : 0 <= k -> ctz (2 ^ k) = k.
Proof.
  intros Hk; unfold ctz. replace (- 2 ^ k) with (Z.lnot (Z.ones k)).
  - rewrite <- Z.ldiff_land, Z.ldiff_ones_r, shiftr_div, Z_div_same_full by
      (done || apply Z.pow_nonzero; lia).
    rewrite Z.shiftl_1_l; by apply Z.log2_pow2.
  - rewrite Z.ones_equiv; unfold Z.lnot; lia.
Qed.

(** The power-of-two test of the source on a non-zero word. *)
Lemma pow2_branch x : urange 32 x -> x <> 0 ->
  Z.land x (u32 (x - 1)) = 0 ->
  exists k, 0 <= k <= 31 /\ x = 2 ^ k /\ ctz x = k /\ u32 (x - 1) = 2 ^ k - 1.
Proof.
  intros Hx Hx0 Hl; destruct (log2_u32 x Hx Hx0) as [Hk _].
  rewrite (wrap_id 32 (x - 1)) in * by (unfold urange in *; lia).
  unfold urange in Hx; pose proof (pow2_test x ltac:(lia) Hl) as E.
  exists (Z.log2 x); split_and!; [lia|lia|done| |lia].
  rewrite E at 1; apply ctz_pow2; lia.
Qed.

(** [sr = clz d - clz n] is the difference of the bit lengths. *)
Lemma sr_value x y : urange 32 x -> x <> 0 -> urange 32 y -> y <> 0 ->
  let sr := u32 (clz x - clz y) in
  (Z.log2 y < Z.log2 x /\ 31 < sr) \/
  (Z.log2 x <= Z.log2 y /\ sr = Z.log2 y - Z.log2 x).
Proof.
  intros Hx Hx0 Hy Hy0; destruct (log2_u32 x Hx Hx0) as [? _], (log2_u32 y Hy Hy0) as [? _].
  unfold clz; replace (31 - Z.log2 x - (31 - Z.log2 y)) with (Z.log2 y - Z.log2 x) by lia.
  destruct (decide (Z.log2 y < Z.log2 x)); [left|right]; (split; [lia|]).
  - unfold wrap; pow2s; Z.div_mod_to_equations; lia.
  - apply wrap_id; unfold urange; pow2s; lia.
Qed.

Section Branches.
Context (a b : Z) (Ha : urange 64 a) (Hb : 0 < b < 2 ^ 64).

Lemma halves : a = hi a * 2 ^ 32 + lo a /\ b = hi b * 2 ^ 32 + lo b /\
  urange 32 (hi a) /\ urange 32 (lo a) /\ urange 32 (hi b) /\ urange 32 (lo b).
Proof.
  pose proof (all_hi_lo a); pose proof (all_hi_lo b); unfold all in *.
  split_and!; auto using hi_range, lo_range; apply hi_range; unfold urange; lia.
Qed.

(** The divisor has a high word: the range of the shift count. *)
Lemma sr_high : hi a <> 0 -> hi b <> 0 ->
  let sr := u32 (clz (hi b) - clz (hi a)) in
  (31 < sr /\ a < b) \/
  (0 <= sr <= 31 /\ a / 2 ^ (sr + 1) < b /\
   (b <= 2 ^ 63 \/ (sr + 1 <= 1 /\ 2 ^ 63 <= a)) /\ (sr = 31 -> hi b = 1)).
Proof.
  intros Hna Hnb; destruct halves as (Ea & Eb & H1 & H2 & H3 & H4).
  destruct (log2_u32 _ H1 Hna) as [La [La1 La2]], (log2_u32 _ H3 Hnb) as [Lb [Lb1 Lb2]].
  unfold urange in *.
  destruct (sr_value (hi b) (hi a)) as [[Hl Hs]|[Hl Hs]]; auto; rewrite ?Hs; [left|right].
  - split; [done|].
    assert (2 ^ (Z.log2 (hi a) + 1) <= 2 ^ Z.log2 (hi b)) by (apply Z.pow_le_mono_r; lia). lia.
  - set (x := Z.log2 (hi a)) in *; set (y := Z.log2 (hi b)) in *.
    assert (a < 2 ^ (x + 33)).
    { replace (x + 33) with ((x + 1) + 32) by lia; rewrite Z.pow_add_r by lia. nia. }
    assert (2 ^ (y + 32) <= b) by (rewrite Z.pow_add_r by lia; nia).
    split_and!; [lia|lia| | |].
    + apply Z.lt_le_trans with (2 ^ (y + 32)); [|done].
      apply Z.div_lt_upper_bound; [apply Z.pow_pos_nonneg; lia|].
      rewrite <- Z.pow_add_r by lia; eapply Z.lt_le_trans; [done|].
      apply Z.pow_le_mono_r; lia.
    + destruct (decide (y = 31)) as [E|].
      * right; split; [lia|]. assert (x = 31) as E' by lia; rewrite E' in La1; pow2s; lia.
      * left. assert (2 ^ (y + 1) <= 2 ^ 31) by (apply Z.pow_le_mono_r; lia). pow2s; lia.
    + intros ?; assert (y = 0) as E by lia; rewrite E in *.
      change (2 ^ 0) with 1 in *; change (2 ^ (0 + 1)) with 2 in *; lia.
Qed.

Lemma small_quotient : a < b -> Some (0, a) = Some (a / b, a mod b).
Proof. intros; unfold urange in Ha; by rewrite Z.div_small, Z.mod_small by lia. Qed.

Lemma branch_high (lim : Z) : hi a <> 0 -> hi b <> 0 -> lim = 30 \/ lim = 31 ->
  (lim = 30 -> hi b <> 1) ->
  let sr := u32 (clz (hi b) - clz (hi a)) in
  (if lim <? sr then a < b
   else 0 < sr + 1 <= 32 /\ (lim = 30 -> sr + 1 < 32) /\ a / 2 ^ (sr + 1) < b /\
        (b <= 2 ^ 63 \/ (sr + 1 <= 1 /\ 2 ^ 63 <= a))).
Proof.
  intros Hna Hnb Hlim Hne; pose proof (sr_high Hna Hnb) as Hsr; cbv zeta in *.
  set (sr := u32 (clz (hi b) - clz (hi a))) in *.
  destruct Hsr as [[Hs ?]|(Hs & ? & ? & H31)].
  - by rewrite (proj2 (Z.ltb_lt lim sr)) by lia.
  - destruct (Z.ltb_spec lim sr).
    + exfalso; apply Hne; [lia|apply H31; lia].
    + split_and!; try done; lia.
Qed.

(** The divisor is a single word that is not a power of two. *)
Lemma sr_low : hi a <> 0 -> hi b = 0 -> Z.land (lo b) (u32 (lo b - 1)) <> 0 ->
  let sr := u32 (1 + 32 + clz (lo b) - clz (hi a)) in
  2 <= sr <= 63 /\ a / 2 ^ sr < b /\ b <= 2 ^ 63.
Proof.
  intros Hna Hnb Hp; destruct halves as (Ea & Eb & H1 & H2 & H3 & H4).
  assert (lo b <> 0) as Hlb by lia.
  destruct (log2_u32 _ H1 Hna) as [La [La1 La2]], (log2_u32 _ H4 Hlb) as [Lb [Lb1 Lb2]].
  assert (Z.log2 (lo b) <> 0).
  { intros E; rewrite E in *; change (2 ^ 0) with 1 in *; change (2 ^ (0 + 1)) with 2 in *.
    apply Hp; by replace (lo b) with 1 by lia. }
  unfold clz; set (x := Z.log2 (hi a)) in *; set (y := Z.log2 (lo b)) in *.
  replace (1 + 32 + (31 - y) - (31 - x)) with (33 + x - y) by lia.
  rewrite wrap_id by (unfold urange; pow2s; lia). unfold urange in *.
  split_and!; [lia|lia| |rewrite Hnb in Eb; pow2s; lia].
  apply Z.lt_le_trans with (2 ^ y); [|rewrite Hnb in Eb; lia].
  apply Z.div_lt_upper_bound; [apply Z.pow_pos_nonneg; lia|].
  rewrite <- Z.pow_add_r by lia. replace (33 + x - y + y) with ((x + 1) + 32) by lia.
  rewrite Z.pow_add_r by lia. nia.
Qed.

Lemma branch_pow2_high k : lo b = 0 -> hi b = 2 ^ k -> 0 <= k ->
  Some (Z.shiftr (hi a) k, all (Z.land (hi a) (2 ^ k - 1)) (lo a)) = Some (a / b, a mod b).
Proof.
  intros Hlb Hhb Hk; destruct halves as (Ea & Eb & H1 & H2 & H3 & H4).
  assert (0 < 2 ^ k) by (apply Z.pow_pos_nonneg; lia).
  rewrite land_pred_pow2, shiftr_div by done; unfold all, urange in *.
  pose proof (Z.div_mod (hi a) (2 ^ k) ltac:(lia)).
  pose proof (Z.mod_pos_bound (hi a) (2 ^ k) ltac:(lia)).
  set (q := hi a / 2 ^ k) in *; set (r := hi a mod 2 ^ k) in *.
  assert (0 <= r * 2 ^ 32 + lo a < b) by (rewrite Eb, Hlb, Hhb; nia).
  assert (a = b * q + (r * 2 ^ 32 + lo a)) by (rewrite Ea at 1; rewrite Eb, Hlb, Hhb; nia).
  tuple_eq; [eapply Z.div_unique|eapply Z.mod_unique]; eauto.
Qed.

Lemma branch_pow2_low k : hi b = 0 -> lo b = 2 ^ k -> 0 < k < 32 ->
  Some (all (Z.shiftr (hi a) k)
            (Z.lor (u32 (Z.shiftl (hi a) (32 - k))) (Z.shiftr (lo a) k)),
        Z.land (lo a) (2 ^ k - 1)) = Some (a / b, a mod b).
Proof.
  intros Hhb Hlb Hk; destruct halves as (Ea & Eb & H1 & H2 & H3 & H4).
  destruct (funnel (hi a) (lo a) k) as (-> & _); [done..|].
  rewrite land_pred_pow2, shiftr_div, all_shiftr, all_hi_lo by lia.
  replace b with (2 ^ k) by lia. tuple_eq.
  rewrite <- (all_hi_lo a) at 2; symmetry; apply all_mod; lia.
Qed.
End Branches.

(** ** Correctness *)

Lemma udivmoddi4_divides a b : urange 64 a -> 0 < b < 2 ^ 64 ->
  udivmoddi4 a b = Some (a / b, a mod b).
Proof.
  intros Ha Hb; destruct (halves a b Ha Hb) as (Ea & Eb & H1 & H2 & H3 & H4).
  unfold udivmoddi4; cbv zeta.
  destruct (Z.eqb_spec (hi a) 0) as [Eha|Nha].
  { destruct (Z.eqb_spec (hi b) 0) as [Ehb|Nhb].
    - unfold hwdiv; rewrite (proj2 (Z.eqb_neq (lo b) 0)) by lia.
      replace (lo a) with a by lia; by replace (lo b) with b by lia.
    - replace (lo a) with a by lia; apply small_quotient; auto.
      unfold urange in *; nia. }
  destruct (Z.eqb_spec (lo b) 0) as [Elb|Nlb].
  { rewrite (proj2 (Z.eqb_neq (hi b) 0)) by lia.
    destruct (Z.eqb_spec (lo a) 0) as [Ela|Nla].
    { unfold hwdiv; rewrite (proj2 (Z.eqb_neq (hi b) 0)) by lia; simpl.
      replace a with (hi a * 2 ^ 32) at 3 4 by lia.
      replace b with (hi b * 2 ^ 32) at 3 4 by lia.
      rewrite Z.div_mul_cancel_r, Zmult_mod_distr_r by lia. unfold all; tuple_eq. }
    destruct (Z.eqb_spec (Z.land (hi b) (u32 (hi b - 1))) 0) as [Ep|Np].
    { destruct (pow2_branch (hi b)) as (k & Hk & E1 & -> & ->); [done|lia|done|].
      apply branch_pow2_high; auto; lia. }
    change (32 - 2) with 30.
    pose proof (branch_high a b Ha Hb 30 Nha ltac:(lia) ltac:(lia)) as Hsr.
    specialize (Hsr ltac:(intros _ E; apply Np; rewrite E; reflexivity)); cbv zeta in Hsr.
    destruct (30 <? u32 (clz (hi b) - clz (hi a))); [by apply small_quotient|].
    destruct Hsr as (Hr1 & Hr2 & Hlt & Hbig); apply f_equal.
    exact (start_lo a b Ha Hb _ Hlt Hbig ltac:(lia)). }
  destruct (Z.eqb_spec (hi b) 0) as [Ehb|Nhb].
  { destruct (Z.eqb_spec (Z.land (lo b) (u32 (lo b - 1))) 0) as [Ep|Np].
    - destruct (pow2_branch (lo b)) as (k & Hk & E1 & -> & ->); [done|lia|done|].
      destruct (Z.eqb_spec (lo b) 1) as [E|].
      + replace b with 1 by lia; rewrite Z.div_1_r, Z.mod_1_r.
        replace k with 0; [simpl; by rewrite Z.land_0_r|].
        rewrite E1 in E; destruct (decide (k = 0)) as [|]; [done|].
        assert (2 ^ 1 <= 2 ^ k) by (apply Z.pow_le_mono_r; lia). lia.
      + apply branch_pow2_low; auto. destruct (decide (k = 0)) as [->|]; [done|lia].
    - pose proof (sr_low a b Ha Hb Nha Ehb Np) as Hsr; cbv zeta in Hsr.
      set (sr := u32 (1 + 32 + clz (lo b) - clz (hi a))) in *.
      destruct Hsr as (Hr & Hlt & Hbig); assert (Hbig' := or_introl (B := sr <= 1 /\ 2 ^ 63 <= a) Hbig).
      destruct (Z.eqb_spec sr 32) as [E|]; [|destruct (Z.ltb_spec sr 32)]; apply f_equal;
        [exact (start_32 a b Ha Hb sr Hlt Hbig' E)
        |exact (start_lo a b Ha Hb sr Hlt Hbig' ltac:(lia))
        |exact (start_hi a b Ha Hb sr Hlt Hbig' ltac:(lia))]. }
  change (32 - 1) with 31.
  pose proof (branch_high a b Ha Hb 31 Nha Nhb ltac:(lia) ltac:(lia)) as Hsr; cbv zeta in Hsr.
  destruct (31 <? u32 (clz (hi b) - clz (hi a))); [by apply small_quotient|].
  destruct Hsr as (Hr1 & _ & Hlt & Hbig).
  set (sr := u32 (clz (hi b) - clz (hi a)) + 1) in *.
  destruct (Z.eqb_spec sr 32) as [E|]; apply f_equal;
    [exact (start_32 a b Ha Hb sr Hlt Hbig E)|exact (start_lo a b Ha Hb sr Hlt Hbig ltac:(lia))].
Qed.

(** *** The 32-bit routine *)

Lemma udivsi3_loop_aloop k d r q carry :
  urange 32 d -> urange 32 r -> urange 32 q -> 0 <= carry <= 1 ->
  udivsi3_loop k d r q carry = fst (aloop 32 k d r q carry).
Proof.
  revert r q carry; induction k as [|k IH]; intros r q carry Hd Hr Hq Hc.
  - cbn [udivsi3_loop aloop fst]; by destruct (shl1_or q carry) as [-> _].
  - cbn [udivsi3_loop aloop].
    destruct (shl1_or r (Z.shiftr q 31)) as [-> _]; [done|by apply top_bit|].
    destruct (shl1_or q carry) as [-> ?]; [done..|].
    rewrite (shiftr_div q) by lia. change (32 - 1) with 31.
    set (r1 := u32 (2 * r + q / 2 ^ 31)). set (q1 := u32 (2 * q + carry)).
    rewrite (sign_mask 32) by lia. fold (tst 32 d r1).
    destruct (tst 32 d r1).
    + rewrite land_mask by (done || lia). apply IH; (done || auto with bmk lia).
    + change (u32 0) with 0; rewrite Z.land_0_r, Z.sub_0_r.
      rewrite IH; [|done || auto with bmk lia..]. unfold r1; by rewrite wrap_wrap.
Qed.

Lemma udivsi3_divides n d : urange 32 n -> 0 < d < 2 ^ 32 -> udivsi3 n d = n / d.
Proof.
  intros Hn Hd; unfold udivsi3; rewrite (proj2 (Z.eqb_neq d 0)) by lia.
  destruct (Z.eqb_spec n 0) as [->|Hn0]; [by rewrite Z.div_0_l by lia|].
  assert (urange 32 d) as Hd' by (unfold urange; lia).
  destruct (log2_u32 n Hn Hn0) as [Ln [Ln1 Ln2]], (log2_u32 d Hd' ltac:(lia)) as [Ld [Ld1 Ld2]].
  pose proof (sr_value d n Hd' ltac:(lia) Hn Hn0) as Hsr; cbv zeta in *.
  change (32 - 1) with 31. set (sr := u32 (clz d - clz n)) in *.
  set (x := Z.log2 n) in *; set (y := Z.log2 d) in *; unfold urange in Hn.
  destruct Hsr as [[Hl Hs]|[Hl Hs]].
  - rewrite (proj2 (Z.ltb_lt 31 sr)) by lia. symmetry; apply Z.div_small.
    assert (2 ^ (x + 1) <= 2 ^ y) by (apply Z.pow_le_mono_r; lia). lia.
  - rewrite (proj2 (Z.ltb_ge 31 sr)) by lia. destruct (Z.eqb_spec sr 31).
    + assert (y = 0) as E by lia; rewrite E in *; change (2 ^ (0 + 1)) with 2 in *.
      replace d with 1 by lia; by rewrite Z.div_1_r.
    + assert (0 < 2 ^ (sr + 1)) by (apply Z.pow_pos_nonneg; lia).
      destruct (funnel 0 n (sr + 1)) as (_ & _ & -> & ? & _); [done|done|lia|].
      rewrite shiftr_div by lia. rewrite udivsi3_loop_aloop; [|done| |done|lia].
      2:{ split; [apply Z.div_pos; lia|]. apply Z.div_lt_upper_bound; [lia|]; unfold urange in *; nia. }
      assert (n / 2 ^ (sr + 1) < d).
      { apply Z.lt_le_trans with (2 ^ y); [|lia]. apply Z.div_lt_upper_bound; [lia|].
        rewrite <- Z.pow_add_r by lia. by replace (sr + 1 + y) with (x + 1) by lia. }
      pose proof (aloop_start 32 n d ltac:(lia) Hd Hn (Z.to_nat (sr + 1))) as Hloop.
      rewrite Z2Nat.id in Hloop by lia. rewrite Hloop; [done|lia| |done].
      destruct (decide (y = 31)) as [E|].
      * right; split; [lia|]. assert (x = 31) as E' by lia; rewrite E' in Ln1; exact Ln1.
      * left; change (32 - 1) with 31.
        assert (2 ^ (y + 1) <= 2 ^ 31) by (apply Z.pow_le_mono_r; lia). lia.
Qed.

(** *** The signed routines *)

Lemma sign_word a : srange 64 a -> Z.shiftr a 63 = if a <? 0 then -1 else 0.
Proof.
  unfold srange; change (64 - 1) with 63; intros Ha; rewrite shiftr_div by lia; pow2s.
  destruct (Z.ltb_spec a 0); Z.div_mod_to_equations; lia.
Qed.

Lemma abs_trick a : srange 64 a ->
  u64 (i64 (Z.lxor a (Z.shiftr a 63) - Z.shiftr a 63)) = Z.abs a.
Proof.
  intros Ha; rewrite sign_word by done; unfold srange in Ha; change (64 - 1) with 63 in Ha.
  unfold wrap, sext; change (64 - 1) with 63; pow2s.
  destruct (Z.ltb_spec a 0).
  - rewrite Z.lxor_m1_r; unfold Z.lnot; Z.div_mod_to_equations; lia.
  - rewrite Z.lxor_0_r; Z.div_mod_to_equations; lia.
Qed.

(** Conditional negation by exclusive-or with the sign word. *)
Lemma lxor_neg q : urange 64 q -> Z.lxor q (u64 (-1)) - u64 (-1) = - q.
Proof.
  intros Hq; assert (Z.lxor q (u64 (-1)) = u64 (Z.lnot q)) as ->.
  { apply Z.bits_inj'; intros i Hi; rewrite Z.lxor_spec; unfold wrap.
    destruct (decide (i < 64)).
    - rewrite !Z.mod_pow2_bits_low, Z.lnot_spec, Z.bits_m1 by lia; by destruct (Z.testbit q i).
    - rewrite !Z.mod_pow2_bits_high by lia; by rewrite (testbit_above q 64 i) by (done || lia). }
  unfold wrap, urange, Z.lnot in *; pow2s; Z.div_mod_to_equations; lia.
Qed.

Lemma signs a b : srange 64 a -> srange 64 b ->
  Z.lxor (Z.shiftr a 63) (Z.shiftr b 63) = if Bool.eqb (a <? 0) (b <? 0) then 0 else -1.
Proof. intros; rewrite !sign_word by done; by destruct (a <? 0), (b <? 0). Qed.

(** C22: [__udivmoddi4], the shift-and-subtract 64-bit division with all its
    special cases, returns the quotient and the remainder of its operands
    for every dividend and every non-zero divisor; a zero divisor ends in the
    hardware divide fault. *)
Theorem udivmoddi4_correct a b :
  urange 64 a -> urange 64 b ->
  udivmoddi4 a b = if b =? 0 then None else Some (a / b, a mod b).
Proof.
  intros Ha Hb; destruct (Z.eqb_spec b 0) as [->|].
  - unfold udivmoddi4; change (hi 0) with 0; change (lo 0) with 0; cbv zeta.
    rewrite !Z.eqb_refl; by destruct (hi a =? 0).
  - apply udivmoddi4_divides; [done|unfold urange in Hb; lia].
Qed.

Lemma udivmoddi4_correct_witness :
  udivmoddi4 0xfedcba9876543210 0x123456789 = Some (0xfedcba9876543210 / 0x123456789, 0xfedcba9876543210 mod 0x123456789).
Proof. apply (udivmoddi4_correct 0xfedcba9876543210 0x123456789); by vm_compute. Defined.

(** C23: the signed 64-bit routines truncate towards zero, as C requires, the
    remainder taking the sign of the dividend; the one overflowing case,
    [INT64_MIN / -1], wraps to [INT64_MIN]. *)
Theorem signed_division_correct a b :
  srange 64 a -> srange 64 b -> b <> 0 ->
  divdi3 a b = Some (i64 (Z.quot a b)) /\ moddi3 a b = Some (Z.rem a b).
Proof.
  intros Ha Hb Hb0; assert (0 < Z.abs b < 2 ^ 64 /\ urange 64 (Z.abs a)) as [Hb1 Ha1]
    by (unfold urange, srange in *; change (64 - 1) with 63 in *; pow2s; lia).
  unfold divdi3, moddi3; cbv zeta.
  rewrite !abs_trick, signs, udivmoddi4_divides, sign_word by done.
  cbv beta iota delta [mbind option_bind].
  rewrite Z.quot_div, Z.rem_mod by done.
  pose proof (Z.mod_pos_bound (Z.abs a) (Z.abs b) ltac:(lia)) as Hm.
  assert (urange 64 (Z.abs a / Z.abs b)) as Hq.
  { unfold urange in *; split; [apply Z.div_pos; lia|].
    apply Z.le_lt_trans with (Z.abs a); [|lia]. apply Z.div_le_upper_bound; nia. }
  assert (srange 64 (Z.abs a mod Z.abs b)) as Hs
    by (unfold urange, srange in *; change (64 - 1) with 63 in *; pow2s; lia).
  rewrite (sext_id 64 (Z.abs a mod Z.abs b)) by (done || lia).
  split; apply f_equal.
  - destruct (Z.ltb_spec a 0), (Z.ltb_spec b 0); simpl Bool.eqb; cbv iota;
      rewrite ?lxor_neg by done; change (u64 0) with 0; rewrite ?Z.lxor_0_r; f_equal;
      (destruct (decide (a = 0)) as [->|]; [by rewrite Z.div_0_l by lia|]); lia.
  - destruct (Z.ltb_spec a 0).
    + rewrite Z.lxor_m1_r; unfold Z.lnot; rewrite sext_id; [lia| |lia].
      unfold srange in *; change (64 - 1) with 63 in *; pow2s; lia.
    + rewrite Z.lxor_0_r, sext_id; [|unfold srange in *; change (64 - 1) with 63 in *; pow2s; lia|lia].
      destruct (decide (a = 0)) as [->|]; [by rewrite Z.mod_0_l by lia|lia].
Qed.

Lemma signed_division_correct_witness :
  divdi3 (-1000000000007) 1000 = Some (i64 (Z.quot (-1000000000007) 1000)) /\
  moddi3 (-1000000000007) 1000 = Some (Z.rem (-1000000000007) 1000).
Proof. apply (signed_division_correct (-1000000000007) 1000); by vm_compute. Defined.

(** [__udivsi3] returns the 32-bit quotient, and 0 for a zero divisor. *)
Theorem udivsi3_correct n d :
  urange 32 n -> urange 32 d -> udivsi3 n d = if d =? 0 then 0 else n / d.
Proof.
  intros Hn Hd; destruct (Z.eqb_spec d 0) as [->|]; [done|].
  apply udivsi3_divides; [done|unfold urange in Hd; lia].
Qed.

Lemma udivsi3_correct_witness : udivsi3 4000000000 7 = 4000000000 / 7.
Proof. apply (udivsi3_correct 4000000000 7); by vm_compute. Defined.

(** ** The other unions of int_types.h

    The layout is the little-endian one ([_YUGA_LITTLE_ENDIAN] on i386): the
    low half comes first.  [dwords] is the signed double word; [twords] and
    [utwords] are those of 128 bits, which [make_ti] and [make_tu] put
    together where the compiler has them ([CRT_HAS_128BIT]). *)
Definition dwords_high (x : Z) : Z := i32 (Z.shiftr x 32).
Definition dwords_low (x : Z) : Z := u32 x.
Definition dwords_all (h l : Z) : Z := i64 (u32 h * 2 ^ 32 + l).

Definition twords_high (x : Z) : Z := i64 (Z.shiftr x 64).
Definition twords_low (x : Z) : Z := u64 x.
Definition twords_all (h l : Z) : Z := sext 128 (u64 h * 2 ^ 64 + l).
Definition utwords_high (x : Z) : Z := u64 (Z.shiftr x 64).
Definition utwords_low (x : Z) : Z := u64 x.
Definition utwords_all (h l : Z) : Z := h * 2 ^ 64 + l.

(** [r.s.low = l] converts the signed argument to the unsigned half. *)
Definition make_ti (h l : Z) : Z := twords_all h (u64 l).
Definition make_tu (h l : Z) : Z := utwords_all h l.

Lemma signed_halves w h l : 0 < w -> srange w h -> urange w l ->
  let x := sext (2 * w) (wrap w h * 2 ^ w + l) in
  x = h * 2 ^ w + l /\ Z.shiftr x w = h /\ wrap w x = l.
Proof.
  intros Hw Hh Hl x; unfold srange, urange in *; set (p := 2 ^ w) in *.
  assert (2 ^ (2 * w) = p * p) as Epp by (unfold p; rewrite <- Z.pow_add_r by lia; f_equal; lia).
  assert (p = 2 * 2 ^ (w - 1)) as Ep by (unfold p; rewrite <- Z.pow_succ_r by lia; f_equal; lia).
  assert (2 ^ (2 * w - 1) = 2 ^ (w - 1) * p) as Eh by (unfold p; rewrite <- Z.pow_add_r by lia; f_equal; lia).
  assert (0 < 2 ^ (w - 1)) by (apply Z.pow_pos_nonneg; lia).
  assert (x = h * p + l) as ->.
  { unfold x; transitivity (sext (2 * w) (h * p + l)).
    - unfold sext; f_equal; unfold wrap; rewrite Epp; fold p.
      destruct (Z.div_mod h p ltac:(lia)) as []; rewrite (Z.mod_eq h p) by lia.
      replace ((h - p * (h / p)) * p + l + 2 ^ (2 * w - 1)) with (h * p + l + 2 ^ (2 * w - 1) + - (h / p) * (p * p)) by lia.
      by rewrite Z_mod_plus_full.
    - apply sext_id; [|lia]; unfold srange; rewrite Eh; nia. }
  split_and!; [done| |].
  - rewrite Z.shiftr_div_pow2 by lia; fold p; rewrite Z.div_add_l by lia; rewrite Z.div_small by lia; lia.
  - unfold wrap; fold p; rewrite Z.add_comm, Z_mod_plus_full; by apply Z.mod_small.
Qed.

(** The halves of a double word determine it, signed and unsigned, at 64 and
    at 128 bits: what [make_ti] and [make_tu] build has the given halves. *)
Theorem int_types_roundtrip h l :
  (srange 32 h -> urange 32 l -> dwords_high (dwords_all h l) = h /\ dwords_low (dwords_all h l) = l /\
     dwords_all h l = h * 2 ^ 32 + l) /\
  (srange 64 h -> srange 64 l -> twords_high (make_ti h l) = h /\ twords_low (make_ti h l) = u64 l /\
     make_ti h l = h * 2 ^ 64 + u64 l) /\
  (urange 64 h -> urange 64 l -> utwords_high (make_tu h l) = h /\ utwords_low (make_tu h l) = l /\
     urange 128 (make_tu h l)).
Proof.
  split_and!; intros Hh Hl.
  - destruct (signed_halves 32 h l ltac:(lia) Hh Hl) as (E1 & E2 & E3); change (2 * 32) with 64 in *.
    unfold dwords_high, dwords_low, dwords_all; rewrite E2, E3; split_and!; [by apply sext_id|done|done].
  - destruct (signed_halves 64 h (u64 l) ltac:(lia) Hh ltac:(by apply wrap_range)) as (E1 & E2 & E3); change (2 * 64) with 128 in *.
    unfold twords_high, twords_low, make_ti, twords_all; rewrite E2, E3; split_and!; [by apply sext_id|done|done].
  - unfold utwords_high, utwords_low, make_tu, utwords_all; unfold urange in Hh, Hl.
    change (2 ^ 128) with (2 ^ 64 * 2 ^ 64); rewrite Z.shiftr_div_pow2, Z.div_add_l, Z.div_small by lia; split_and!.
    + rewrite Z.add_0_r; apply wrap_id; unfold urange; lia.
    + unfold wrap; rewrite Z.add_comm, Z_mod_plus_full; by apply Z.mod_small.
    + unfold urange; change (2 ^ 128) with (2 ^ 64 * 2 ^ 64); nia.
Qed.
