(* ===== verification/Pages.v ===== *)
(** * Pages: the page allocator of kernel.c

    [bmk_allocpg] hands out physically contiguous pages from the memory that
    [parsemem] found; there is no way to give a page back.  The state is the
    two globals [bmk_membase] and [bmk_memsize] and the function's static
    counter [current].  All of it is 32-bit unsigned arithmetic. *)
From S2P Require Import Prelude.

Record pgstate := PgState {
  bmk_membase : Z;
  bmk_memsize : Z;
  pg_current : Z;
}.

Definition bmk_allocpg (howmany : Z) (s : pgstate) : Z * pgstate :=
  let rv := u32 (bmk_membase s + u32 (PAGE_SIZE * pg_current s)) in
  let current := u32 (pg_current s + howmany) in
  let s := PgState (bmk_membase s) (bmk_memsize s) current in
  if bmk_memsize s <? u32 (current * PAGE_SIZE) then (NULL, s) else (rv, s).

(** A well-formed machine: memory lies below 4 GB and does not start at
    address 0. *)
Definition pg_wf (s : pgstate) : Prop :=
  0 < bmk_membase s /\ 0 <= bmk_memsize s /\ bmk_membase s + bmk_memsize s < 2 ^ 32 /\
  0 <= pg_current s /\ bmk_membase s mod PAGE_SIZE = 0.

(** [pg_fits s n]: asking for [n] pages does not overflow the page counter
    arithmetic. *)
Definition pg_fits (s : pgstate) (n : Z) : Prop := 0 <= n /\ (pg_current s + n) * PAGE_SIZE < 2 ^ 32.

#[global] Instance pg_wf_dec s : Decision (pg_wf s).
Proof. unfold pg_wf; apply _. Defined.
#[global] Instance pg_fits_dec s n : Decision (pg_fits s n).
Proof. unfold pg_fits; apply _. Defined.

(** The first address not yet handed out. *)
Definition pg_break (s : pgstate) : Z := bmk_membase s + PAGE_SIZE * pg_current s.

Lemma allocpg_cases n s :
  pg_wf s -> pg_fits s n ->
  bmk_allocpg n s =
    (if decide ((pg_current s + n) * PAGE_SIZE <= bmk_memsize s) then pg_break s else NULL,
     PgState (bmk_membase s) (bmk_memsize s) (pg_current s + n)).
Proof.
  unfold pg_wf, pg_fits, pg_break, bmk_allocpg, PAGE_SIZE, NULL; simpl.
  intros (? & ? & ? & ? & ?) [? ?].
  rewrite (wrap_id 32 (pg_current s + n)) by zlia.
  rewrite (wrap_id 32 ((pg_current s + n) * _)) by zlia.
  case_decide.
  - rewrite (proj2 (Z.ltb_ge _ _)) by lia. tuple_eq.
    rewrite (wrap_id 32 (4096 * _)) by zlia. apply wrap_id; zlia.
  - by rewrite (proj2 (Z.ltb_lt _ _)) by lia.
Qed.

Lemma allocpg_wf n s : pg_wf s -> pg_fits s n -> pg_wf (snd (bmk_allocpg n s)).
Proof.
  intros Hw Hf; rewrite allocpg_cases by done; unfold pg_wf, pg_fits in *; simpl.
  unfold PAGE_SIZE in *; split_and!; try lia; tauto.
Qed.

(** A run of requests: the pages handed out, as (address, page count). *)
Fixpoint allocpgs (reqs : list Z) (s : pgstate) : list (Z * Z) * pgstate :=
  match reqs with
  | [] => ([], s)
  | n :: reqs =>
      let '(p, s) := bmk_allocpg n s in
      let '(rs, s) := allocpgs reqs s in
      (if p =? NULL then rs else (p, n) :: rs, s)
  end.

Definition pages_total (reqs : list Z) : Z := foldr Z.add 0 reqs.

(** Two page ranges do not overlap. *)
Definition pages_disj (a b : Z * Z) : Prop :=
  fst a + PAGE_SIZE * snd a <= fst b \/ fst b + PAGE_SIZE * snd b <= fst a.

Lemma pages_total_nonneg reqs : Forall (fun n => 0 <= n) reqs -> 0 <= pages_total reqs.
Proof. induction 1; simpl; lia. Qed.

Lemma allocpgs_above reqs s :
  pg_wf s -> Forall (fun n => 0 <= n) reqs ->
  (pg_current s + pages_total reqs) * PAGE_SIZE < 2 ^ 32 ->
  Forall (fun r => pg_break s <= fst r /\
                   fst r + PAGE_SIZE * snd r <= bmk_membase s + bmk_memsize s /\
                   fst r mod PAGE_SIZE = 0)
    (fst (allocpgs reqs s)).
Proof.
  revert s; induction reqs as [|n reqs IH]; intros s Hw Hn Hb; simpl; [constructor|].
  inversion_clear Hn as [|?? Hn0 Hns]; pose proof (pages_total_nonneg _ Hns).
  simpl in Hb. assert (pg_fits s n) as Hf by (unfold pg_fits, PAGE_SIZE in *; lia).
  pose proof (allocpg_wf n s Hw Hf) as Hw'. rewrite allocpg_cases in Hw' |- * by done; simpl in Hw'.
  specialize (IH _ Hw' Hns); simpl in IH.
  destruct (allocpgs reqs _) as [rs s']; simpl in *.
  specialize (IH ltac:(lia)). unfold pg_break in *; simpl in *.
  assert (Forall (fun r => bmk_membase s + PAGE_SIZE * pg_current s <= fst r /\
       fst r + PAGE_SIZE * snd r <= bmk_membase s + bmk_memsize s /\ fst r mod PAGE_SIZE = 0) rs) as Hrs.
  { eapply Forall_impl; [exact IH|]; simpl; unfold PAGE_SIZE; intros; lia. }
  case_decide; simpl; [|exact Hrs].
  destruct (_ =? NULL); simpl; [exact Hrs|].
  constructor; [|exact Hrs]; simpl. unfold pg_wf, PAGE_SIZE in *; split_and!; [lia|lia|].
  destruct Hw as (_ & _ & _ & _ & Hm). rewrite Z.mul_comm, Z_mod_plus_full; exact Hm.
Qed.

(** C36: as long as the page counter does not overflow, [bmk_allocpg] never
    hands out a page twice: the ranges returned for any sequence of requests
    are page-aligned, inside the machine's memory and pairwise disjoint. *)
Theorem allocpg_disjoint reqs s :
  pg_wf s -> Forall (fun n => 0 <= n) reqs ->
  (pg_current s + pages_total reqs) * PAGE_SIZE < 2 ^ 32 ->
  Forall (fun r => bmk_membase s <= fst r /\
                   fst r + PAGE_SIZE * snd r <= bmk_membase s + bmk_memsize s /\
                   fst r mod PAGE_SIZE = 0)
    (fst (allocpgs reqs s)) /\
  ForallOrdPairs pages_disj (fst (allocpgs reqs s)).
Proof.
  intros Hw Hn Hb; split.
  - eapply Forall_impl; [by apply allocpgs_above|].
    unfold pg_wf, pg_break, PAGE_SIZE in *; simpl; intros; lia.
  - revert s Hw Hb; induction Hn as [|n reqs Hn0 Hns IH]; intros s Hw Hb; simpl; [constructor|].
    pose proof (pages_total_nonneg _ Hns); simpl in Hb.
    assert (pg_fits s n) as Hf by (unfold pg_fits, PAGE_SIZE in *; lia).
    pose proof (allocpg_wf n s Hw Hf) as Hw'. rewrite allocpg_cases in Hw' |- * by done; simpl in Hw'.
    specialize (IH _ Hw'); simpl in IH. specialize (IH ltac:(lia)).
    pose proof (allocpgs_above reqs _ Hw' Hns) as Ha; simpl in Ha; specialize (Ha ltac:(lia)).
    destruct (allocpgs reqs _) as [rs s']; simpl in *.
    case_decide; simpl; [|done]. destruct (_ =? NULL); simpl; [done|].
    constructor; [|done]. eapply Forall_impl; [exact Ha|].
    unfold pages_disj, pg_break, PAGE_SIZE; simpl; intros; lia.
Qed.

Definition demo_pg : pgstate := PgState 0x200000 0x1000000 0.

Lemma allocpg_disjoint_witness :
  Forall (fun r => 0x200000 <= fst r /\ fst r + PAGE_SIZE * snd r <= 0x200000 + 0x1000000 /\
                   fst r mod PAGE_SIZE = 0) (fst (allocpgs [1; 16; 4000; 2] demo_pg)) /\
  ForallOrdPairs pages_disj (fst (allocpgs [1; 16; 4000; 2] demo_pg)).
Proof.
  apply (allocpg_disjoint [1; 16; 4000; 2] demo_pg);
    [by vm_compute | repeat constructor; lia | by vm_compute].
Defined.

(** A request that does not fit still advances the page counter, so the
    pages that were left are lost: a later request fails even when it alone
    would have fitted, up to the point where the counter wraps. *)
Theorem allocpg_failure_burns n k s :
  pg_wf s -> 0 <= n -> pg_fits s (n + k) -> 0 <= k ->
  bmk_memsize s < (pg_current s + n) * PAGE_SIZE ->
  fst (bmk_allocpg n s) = NULL /\ fst (bmk_allocpg k (snd (bmk_allocpg n s))) = NULL.
Proof.
  intros Hw Hn Hf Hk Hbig.
  assert (pg_fits s n) as Hf1 by (unfold pg_fits, PAGE_SIZE in *; lia).
  pose proof (allocpg_wf n s Hw Hf1) as Hw'; rewrite allocpg_cases in Hw' |- * by done; simpl in *.
  rewrite decide_False by lia; split; [done|].
  rewrite allocpg_cases by (done || unfold pg_fits, PAGE_SIZE in *; simpl; lia); simpl.
  rewrite decide_False by (unfold PAGE_SIZE in *; lia); done.
Qed.

Lemma allocpg_failure_burns_witness :
  fst (bmk_allocpg 5000 demo_pg) = NULL /\
  fst (bmk_allocpg 1 (snd (bmk_allocpg 5000 demo_pg))) = NULL.
Proof. apply (allocpg_failure_burns 5000 1 demo_pg); (by vm_compute) || lia. Defined.

(** The byte count [current * PAGE_SIZE] wraps at [2^20] pages: after
    failing requests that bring the counter to [2^20], the next one returns a
    page that was already handed out. *)
Theorem allocpg_wraps s n :
  pg_wf s -> pg_current s = 0 -> PAGE_SIZE <= bmk_memsize s -> bmk_memsize s < 2 ^ 31 ->
  0 < n < 2 ^ 19 -> n * PAGE_SIZE <= bmk_memsize s ->
  let '(p1, s1) := bmk_allocpg n s in
  let '(p2, s2) := bmk_allocpg (2 ^ 19) s1 in
  let '(p3, s3) := bmk_allocpg (2 ^ 19 - n) s2 in
  let '(p4, s4) := bmk_allocpg n s3 in
  p1 = bmk_membase s /\ p2 = NULL /\ p4 = p1.
Proof.
  unfold pg_wf; intros (Hb & Hm & Hs & Hc & Ha) H0 Hsz Hlim Hn Hfit.
  destruct s as [base size cur]; simpl in *; subst cur.
  unfold bmk_allocpg, PAGE_SIZE, NULL in *; simpl bmk_membase; simpl bmk_memsize; simpl pg_current.
  assert (u32 (0 + n) = n) as -> by (apply wrap_id; zlia).
  assert (u32 (n * 4096) = n * 4096) as -> by (apply wrap_id; change (2 ^ 19) with 524288 in *; zlia).
  rewrite (proj2 (Z.ltb_ge _ _)) by lia; simpl bmk_membase; simpl bmk_memsize; simpl pg_current.
  assert (u32 (n + 2 ^ 19) = n + 2 ^ 19) as -> by (apply wrap_id; change (2 ^ 19) with 524288 in *; zlia).
  assert (u32 ((n + 2 ^ 19) * 4096) = (n + 2 ^ 19) * 4096) as ->
    by (apply wrap_id; change (2 ^ 19) with 524288 in *; zlia).
  rewrite (proj2 (Z.ltb_lt _ _)) by (change (2 ^ 19) with 524288 in *; change (2 ^ 31) with 2147483648 in *; lia).
  simpl bmk_membase; simpl bmk_memsize; simpl pg_current.
  assert (u32 (n + 2 ^ 19 + (2 ^ 19 - n)) = 2 ^ 20) as ->.
  { replace (n + 2 ^ 19 + (2 ^ 19 - n)) with (2 ^ 20) by (change (2 ^ 20) with (2 ^ 19 + 2 ^ 19); lia).
    done. }
  change (u32 (2 ^ 20 * 4096)) with 0.
  rewrite (proj2 (Z.ltb_ge size 0)) by lia; simpl bmk_membase; simpl bmk_memsize; simpl pg_current.
  assert (u32 (2 ^ 20 + n) = 2 ^ 20 + n) as -> by (apply wrap_id; change (2 ^ 19) with 524288 in *; zlia).
  assert (u32 ((2 ^ 20 + n) * 4096) = n * 4096) as ->.
  { unfold wrap; replace ((2 ^ 20 + n) * 4096) with (n * 4096 + 1 * 2 ^ 32)
      by (change (2 ^ 32) with (2 ^ 20 * 4096); lia).
    rewrite Z_mod_plus_full; apply Z.mod_small; change (2 ^ 19) with 524288 in *; zlia. }
  rewrite (proj2 (Z.ltb_ge _ _)) by lia.
  change (u32 (4096 * 2 ^ 20)) with 0; change (u32 (4096 * 0)) with 0.
  rewrite Z.add_0_r, wrap_id by zlia; done.
Qed.

Lemma allocpg_wraps_witness :
  let '(p1, s1) := bmk_allocpg 3 demo_pg in
  let '(p2, s2) := bmk_allocpg (2 ^ 19) s1 in
  let '(p3, s3) := bmk_allocpg (2 ^ 19 - 3) s2 in
  let '(p4, s4) := bmk_allocpg 3 s3 in
  p1 = 0x200000 /\ p2 = NULL /\ p4 = p1.
Proof. apply (allocpg_wraps demo_pg 3); (by vm_compute) || (split; by vm_compute). Defined.
