(* ===== verification/Memalloc.v ===== *)
(** * Memalloc: the power-of-two bucket allocator of memalloc.c

    The allocator keeps a free list per bucket; bucket [k] holds blocks of
    [2^(k+5)] bytes.  A free block's first word is the link to the next one;
    a block in use has an 8-byte [union overhead] right below the pointer
    given to the caller.  The source is modelled as the kernel builds it:
    neither RCHECK, MSTATS nor MEMALLOC_TESTING defined, so [RSLOP] is 0. *)
From S2P Require Import Prelude Mem Subr Pages.

(** ** Data *)

Definition MAGIC : Z := 0xef.
Definition MINSHIFT : Z := 5.
Definition NBUCKETS : Z := 30.
Definition RSLOP : Z := 0.

(** The layout of [union overhead] on i386: [ov_next] and [ov_alignpad] are
    the same word, [ov_magic] and [ov_index] the two bytes after it, and
    the union is padded to 8 bytes. *)
Definition SIZEOF_OV : Z := 8.
Definition SIZEOF_PTR : Z := 4.
Definition ov_next (op : Z) : Z := op.
Definition ov_alignpad (op : Z) : Z := op.
Definition ov_magic (op : Z) : Z := op + 4.
Definition ov_index (op : Z) : Z := op + 5.

Record mstate := MState {
  mm : mem;                 (* physical memory *)
  nextf : list Z;           (* the heads of the free lists *)
  pagesz : Z;
  pagebucket : Z;
  pages : pgstate;          (* the state of bmk_allocpg *)
}.

Definition set_mm (m : mem) (s : mstate) : mstate :=
  MState m (nextf s) (pagesz s) (pagebucket s) (pages s).
Definition set_pages (p : pgstate) (s : mstate) : mstate :=
  MState (mm s) (nextf s) (pagesz s) (pagebucket s) p.
Definition get_nextf (s : mstate) (k : Z) : Z := default 0 (nextf s !! Z.to_nat k).
Definition set_nextf (k v : Z) (s : mstate) : mstate :=
  MState (mm s) (<[Z.to_nat k := v]> (nextf s)) (pagesz s) (pagebucket s) (pages s).

(** The state at boot: static storage is zero. *)
Definition memalloc_boot (m : mem) (p : pgstate) : mstate :=
  MState m (replicate 30 0) 0 0 p.

(** ** Operations *)

(** [while (pagesz > amt) { amt <<= 1; bucket++; }] *)
Fixpoint pagesz_loop (fuel : nat) (psz amt bucket : Z) : Z :=
  match fuel with
  | O => bucket
  | S fuel => if amt <? psz then pagesz_loop fuel psz (u32 (Z.shiftl amt 1)) (bucket + 1) else bucket
  end.

(** The first-use initialisation at the top of [bmk_memalloc]. *)
Definition memalloc_init (s : mstate) : mstate :=
  if pagesz s =? 0 then
    MState (mm s) (nextf s) PAGE_SIZE (pagesz_loop 32 PAGE_SIZE (Z.shiftl 1 MINSHIFT) 0) (pages s)
  else s.

(** [while (allocbytes > amt) { amt <<= 1; if (amt == 0) return NULL; bucket++; }] *)
Fixpoint bucket_loop (fuel : nat) (allocbytes amt bucket : Z) : option Z :=
  match fuel with
  | O => None
  | S fuel =>
      if amt <? allocbytes then
        let amt := u32 (Z.shiftl amt 1) in
        if amt =? 0 then None else bucket_loop fuel allocbytes amt (bucket + 1)
      else Some bucket
  end.

Definition corealloc (shift : Z) (s : mstate) : Z * mstate :=
  let '(v, p) := bmk_allocpg (u32 (Z.shiftl 1 shift)) (pages s) in (v, set_pages p s).

(** The loop of [morecore] that links the new blocks. *)
Fixpoint link_blocks (n : nat) (op sz : Z) (m : mem) : mem :=
  match n with
  | O => wr32 m (ov_next op) NULL
  | S n => link_blocks n (op + sz) sz (wr32 m (ov_next op) (op + sz))
  end.

Definition morecore (bucket : Z) (s : mstate) : mstate :=
  let '(amt, nblks, sz) :=
    if bucket <? pagebucket s then
      let nblks := pagesz s / Z.shiftl 1 (bucket + MINSHIFT) in (0, nblks, pagesz s / nblks)
    else (bucket - pagebucket s, 1, 0) in
  let '(op, s) := corealloc amt s in
  if op =? NULL then s
  else
    let s := set_nextf bucket op s in
    set_mm (link_blocks (Z.to_nat (nblks - 1)) op sz (mm s)) s.

(** The size of the request with its header, aligned, and its bucket. *)
Definition alloc_align (align : Z) : Z := if align <? SIZEOF_PTR then SIZEOF_PTR else align.
Definition alloc_bytes (nbytes align : Z) : Z :=
  u32 (nbytes + Z.land (u32 (SIZEOF_OV + (align - 1))) (u32 (Z.lnot (align - 1)))).
Definition alloc_bucket (s : mstate) (allocbytes : Z) : option Z :=
  let '(amt, bucket) :=
    if allocbytes <=? pagesz s - RSLOP then (Z.shiftl 1 MINSHIFT, 0)
    else (u32 (pagesz s), pagebucket s) in
  bucket_loop 32 allocbytes amt bucket.

Definition bmk_memalloc (nbytes align : Z) (s : mstate) : Z * mstate :=
  let s := memalloc_init s in
  if negb (Z.land align (u32 (align - 1)) =? 0) then (NULL, s)
  else
    let align := alloc_align align in
    match alloc_bucket s (alloc_bytes nbytes align) with
    | None => (NULL, s)
    | Some bucket =>
        let s := if get_nextf s bucket =? NULL then morecore bucket s else s in
        let op := get_nextf s bucket in
        if op =? NULL then (NULL, s)
        else
          let s := set_nextf bucket (rd32 (mm s) (ov_next op)) s in
          let rv := Z.land (u32 (op + SIZEOF_OV + align - 1)) (u32 (Z.lnot (align - 1))) in
          let alignpad := u32 (rv - op) in
          let op := rv - SIZEOF_OV in
          let m := wr8 (mm s) (ov_magic op) MAGIC in
          let m := wr8 m (ov_index op) bucket in
          let m := wr32 m (ov_alignpad op) alignpad in
          (rv, set_mm m s)
    end.

Definition bmk_xmalloc (howmuch : Z) (s : mstate) : outcome (Z * mstate) :=
  let '(rv, s) := bmk_memalloc howmuch 0 s in
  if rv =? NULL then c_panic "xmalloc failed" else Ret (rv, s).

Definition bmk_memfree (cp : Z) (s : mstate) : outcome mstate :=
  if cp =? NULL then Ret s
  else
    let op := cp - SIZEOF_OV in
    if negb (rd8 (mm s) (ov_magic op) =? MAGIC) then Ret s
    else
      let size := rd8 (mm s) (ov_index op) in
      let alignpad := rd32 (mm s) (ov_alignpad op) in
      _ ← c_assert (size <? NBUCKETS) "size < NBUCKETS";
      let origp := u32 (cp - alignpad) in
      let m := wr32 (mm s) (ov_next origp) (get_nextf s size) in
      Ret (set_nextf size origp (set_mm m s)).

(** The bytes [bmk_memrealloc] believes the block of [cp] can hold. *)
Definition realloc_avail (m : mem) (cp : Z) : Z :=
  let op := cp - SIZEOF_OV in
  u32 (u32 (Z.shiftl 1 (rd8 m (ov_index op) + MINSHIFT)) -
       u32 (rd32 m (ov_alignpad op) + SIZEOF_OV)).

Definition bmk_memrealloc (cp nbytes : Z) (s : mstate) : outcome (Z * mstate) :=
  if cp =? NULL then Ret (bmk_memalloc nbytes 8 s)
  else if nbytes =? 0 then
    s ← bmk_memfree cp s; Ret (NULL, s)
  else
    let avail := realloc_avail (mm s) cp in
    if nbytes <=? avail then Ret (cp, s)
    else
      let '(np, s) := bmk_memalloc nbytes 8 s in
      if np =? NULL then Ret (NULL, s)
      else
        let '(m, _) := bmk_memcpy (mm s) np cp avail in
        s ← bmk_memfree cp (set_mm m s);
        Ret (np, s).
