(* ===== verification/Heap.v ===== *)
(** * Heap: what memalloc.c promises, and the proof that it does

    The abstract heap is a map from block addresses to the block's bucket
    and status: free, or in use with the pointer the caller holds.
    [heap_ok s h] says that the allocator state [s] represents [h]: the
    blocks are disjoint and inside the memory handed out by [bmk_allocpg],
    the free list of each bucket links exactly the free blocks of that
    bucket, and every block in use carries an intact header. *)
From S2P Require Import Prelude Mem Subr Pages Memalloc.

(** ** The abstract heap *)

Inductive status := Free | Used (cp : Z).
#[global] Instance status_eq_dec : EqDecision status.
Proof. solve_decision. Defined.

Record block := Block { bk : Z; bst : status }.
#[global] Instance block_eq_dec : EqDecision block.
Proof. solve_decision. Defined.

Abbreviation heap := (gmap Z block).

Definition bsize (k : Z) : Z := 2 ^ (k + MINSHIFT).

(** [chain m p l]: following [ov_next] from [p] visits [l] and ends. *)
Fixpoint chain (m : mem) (p : Z) (l : list Z) : Prop :=
  match l with
  | [] => p = NULL
  | x :: l => p = x /\ x <> NULL /\ chain m (rd32 m (ov_next x)) l
  end.

(** The header below the pointer of a block in use. *)
Definition header_ok (m : mem) (b k cp : Z) : Prop :=
  rd8 m (ov_magic (cp - SIZEOF_OV)) = MAGIC /\
  rd8 m (ov_index (cp - SIZEOF_OV)) = k /\
  rd32 m (ov_alignpad (cp - SIZEOF_OV)) = cp - b /\
  b + SIZEOF_OV <= cp <= b + bsize k /\ cp mod 4 = 0.

Definition in_memory (p : pgstate) (b k : Z) : Prop :=
  0 <= k <= 26 /\ bmk_membase p <= b /\ b mod 32 = 0 /\
  b + bsize k <= pg_break p /\ b + bsize k <= bmk_membase p + bmk_memsize p.

Record heap_ok (s : mstate) (h : heap) : Prop := HeapOk {
  ok_init : pagesz s = 0 \/ (pagesz s = PAGE_SIZE /\ pagebucket s = 7);
  ok_pages : pg_wf (pages s);
  ok_nextf : length (nextf s) = 30%nat;
  ok_mem : forall b B, h !! b = Some B -> in_memory (pages s) b (bk B);
  ok_disj : forall b B b' B', h !! b = Some B -> h !! b' = Some B' -> b <> b' ->
              b + bsize (bk B) <= b' \/ b' + bsize (bk B') <= b;
  ok_free : forall k, 0 <= k < NBUCKETS -> exists l, chain (mm s) (get_nextf s k) l /\ NoDup l /\
              forall b, b ∈ l <-> h !! b = Some (Block k Free);
  ok_used : forall b k cp, h !! b = Some (Block k (Used cp)) -> header_ok (mm s) b k cp;
}.

(** ** Arithmetic of sizes and alignments *)

Lemma bsize_pos k : 0 <= k -> 32 <= bsize k /\ bsize k mod 32 = 0.
Proof.
  intros Hk; unfold bsize, MINSHIFT; rewrite Z.pow_add_r by lia; change (2 ^ 5) with 32.
  assert (0 < 2 ^ k) by (apply Z.pow_pos_nonneg; lia).
  split; [lia|apply Z_mod_mult].
Qed.

Lemma bsize_double k : 0 <= k -> bsize (k + 1) = 2 * bsize k.
Proof. intros; unfold bsize, MINSHIFT; rewrite <- Z.pow_succ_r by lia; f_equal; lia. Qed.

Lemma bsize_le k k' : 0 <= k <= k' -> bsize k <= bsize k'.
Proof. intros; unfold bsize, MINSHIFT; apply Z.pow_le_mono_r; lia. Qed.

Lemma bsize_26 : bsize 26 = 2 ^ 31.
Proof. done. Qed.

(** The number of pages [morecore] asks for. *)
Definition core_pages (k : Z) : Z := 2 ^ Z.max 0 (k - 7).

Lemma core_pages_pos k : 0 < core_pages k.
Proof. unfold core_pages; apply Z.pow_pos_nonneg; lia. Qed.

(** The alignment test of the source accepts 0 and the powers of two. *)
Definition align_ok (align : Z) : Prop := urange 32 align /\ Z.land align (u32 (align - 1)) = 0.
#[global] Instance align_ok_dec a : Decision (align_ok a).
Proof. unfold align_ok; apply _. Defined.

Lemma alloc_align_pow2 align : align_ok align ->
  exists j, 2 <= j <= 31 /\ alloc_align align = 2 ^ j /\ (align <> 0 -> alloc_align align mod align = 0).
Proof.
  intros [Hr Hl]; unfold alloc_align, SIZEOF_PTR; destruct (Z.ltb_spec align 4) as [Hlt|Hge].
  - exists 2; split_and!; [lia..|done|]. intros Hne; unfold urange in Hr.
    destruct (decide (align = 3)) as [->|]; [done|].
    assert (align = 1 \/ align = 2) as [-> | ->] by lia; done.
  - unfold urange in Hr. rewrite wrap_id in Hl by (unfold urange; lia).
    pose proof (pow2_test align ltac:(lia) Hl) as E.
    exists (Z.log2 align); split_and!; [| |done|intros; apply Z_mod_same_full].
    + apply Z.log2_le_pow2; [lia|]; change (2 ^ 2) with 4; lia.
    + assert (Z.log2 align < 32) by (apply Z.log2_lt_pow2; lia); lia.
Qed.

(** The header rounded up to the alignment: 8 up to alignment 8, and the
    alignment itself above. *)
Definition header_room (a : Z) : Z := if a <=? 8 then 8 else a.

Lemma header_room_bounds a : 8 <= header_room a /\ a <= header_room a.
Proof. unfold header_room; destruct (Z.leb_spec a 8); lia. Qed.

Lemma pow2_multiple16 j : 4 <= j -> exists q, 2 ^ j = 16 * q /\ 0 < q.
Proof.
  intros Hj; exists (2 ^ (j - 4)); split; [|apply Z.pow_pos_nonneg; lia].
  change 16 with (2 ^ 4); rewrite <- Z.pow_add_r by lia; f_equal; lia.
Qed.

Lemma small_align j : 2 <= j -> 2 ^ j <= 8 -> j = 2 \/ j = 3.
Proof.
  intros Hj H8; destruct (decide (j <= 3)); [lia|].
  destruct (pow2_multiple16 j ltac:(lia)) as (q & ? & ?); lia.
Qed.

(** Rounding [op + 8] up to a multiple of [2^j]. *)
Lemma align_up op j : 2 <= j <= 31 -> op mod 32 = 0 -> 0 <= op ->
  op + 7 + 2 ^ j < 2 ^ 32 ->
  let rv := Z.land (u32 (op + SIZEOF_OV + 2 ^ j - 1)) (u32 (Z.lnot (2 ^ j - 1))) in
  rv mod 2 ^ j = 0 /\ op + 8 <= rv <= op + header_room (2 ^ j) /\ rv mod 4 = 0.
Proof.
  intros Hj Hop H0 Hb; unfold SIZEOF_OV, header_room; cbv zeta.
  assert (0 < 2 ^ j) by (apply Z.pow_pos_nonneg; lia).
  rewrite wrap_id by (unfold urange; lia).
  rewrite (align_down 32 _ j) by (unfold urange; lia).
  set (x := op + 8 + 2 ^ j - 1). pose proof (Z.mod_pos_bound x (2 ^ j) ltac:(lia)) as Hm.
  assert ((x - x mod 2 ^ j) mod 2 ^ j = 0) as Hmul.
  { rewrite Zminus_mod, Zmod_mod, Z.sub_diag; apply Z.mod_0_l; lia. }
  destruct (Z.leb_spec (2 ^ j) 8) as [H8|H8].
  - destruct (small_align j ltac:(lia) H8) as [-> | ->]; unfold x in *;
      change (2 ^ 2) with 4 in *; change (2 ^ 3) with 8 in *;
      (split; [done|]); Z.div_mod_to_equations; lia.
  - destruct (pow2_multiple16 j) as (q & Eq & Hq).
    { destruct (decide (4 <= j)); [done|].
      assert (j = 2 \/ j = 3) as [-> | ->] by lia; change (2 ^ 2) with 4 in *; change (2 ^ 3) with 8 in *; lia. }
    split; [done|]. apply Z.mod_divide in Hmul as [z Hz]; [|lia].
    set (rv := x - x mod 2 ^ j) in *.
    assert (rv = z * q * 16) as Ez by (rewrite Hz, Eq; ring).
    unfold x in Hm; assert (op + 8 <= rv < op + 8 + 2 ^ j) as Hrv by (unfold rv, x; lia).
    clearbody rv; clear Hz Hm x. generalize dependent (z * q); intros t ->.
    Z.div_mod_to_equations; lia.
Qed.

Lemma header_room_spec j : 2 <= j <= 31 ->
  Z.land (u32 (SIZEOF_OV + (2 ^ j - 1))) (u32 (Z.lnot (2 ^ j - 1))) = header_room (2 ^ j).
Proof.
  intros Hj; assert (2 ^ j <= 2 ^ 31) by (apply Z.pow_le_mono_r; lia).
  change (2 ^ 31) with 2147483648 in *.
  pose proof (align_up 0 j Hj ltac:(done) ltac:(lia)) as Ha.
  change (2 ^ 32) with 4294967296 in Ha; specialize (Ha ltac:(lia)); cbv zeta in Ha.
  replace (0 + SIZEOF_OV + 2 ^ j - 1) with (SIZEOF_OV + (2 ^ j - 1)) in Ha by lia.
  set (r := Z.land _ _) in *. destruct Ha as (Hm & [Hlo Hhi] & _).
  unfold header_room in *; destruct (Z.leb_spec (2 ^ j) 8); [lia|].
  apply Z.mod_divide in Hm as [z Hz]; [|lia]. assert (0 < z) by nia. nia.
Qed.

(** ** The bucket search *)

Lemma bucket_loop_spec fuel x b :
  0 <= b <= 26 -> 27 - b <= Z.of_nat fuel -> urange 32 x ->
  match bucket_loop fuel x (bsize b) b with
  | Some k => b <= k <= 26 /\ x <= bsize k /\ (k = b \/ bsize (k - 1) < x)
  | None => 2 ^ 31 < x
  end.
Proof.
  revert b; induction fuel as [|fuel IH]; intros b Hb Hf Hx; [lia|]; cbn [bucket_loop].
  destruct (Z.ltb_spec (bsize b) x) as [Hlt|]; [|split_and!; lia].
  rewrite Z.shiftl_mul_pow2 by lia; change (2 ^ 1) with 2.
  destruct (decide (b = 26)) as [->|Hne].
  - change (u32 (bsize 26 * 2) =? 0) with true; cbv iota; rewrite bsize_26 in Hlt; lia.
  - pose proof (bsize_double b ltac:(lia)) as Hd; pose proof (bsize_pos b ltac:(lia)).
    assert (bsize (b + 1) <= bsize 26) by (apply bsize_le; lia).
    rewrite bsize_26 in *; change (2 ^ 31) with 2147483648 in *.
    assert (u32 (bsize b * 2) = bsize (b + 1)) as -> by (rewrite wrap_id by zlia; lia).
    rewrite (proj2 (Z.eqb_neq _ _)) by lia.
    specialize (IH (b + 1) ltac:(lia) ltac:(lia) Hx).
    destruct (bucket_loop fuel x (bsize (b + 1)) (b + 1)) as [k|]; [|done].
    destruct IH as (? & ? & [->|?]); split_and!; try lia.
    right; by replace (b + 1 - 1) with b by lia.
Qed.

(** The first-use initialisation has been done. *)
Definition inited (s : mstate) : Prop := pagesz s = PAGE_SIZE /\ pagebucket s = 7.

Lemma alloc_bucket_spec s x : inited s -> urange 32 x ->
  match alloc_bucket s x with
  | Some k => 0 <= k <= 26 /\ x <= bsize k /\ (k = 0 \/ bsize (k - 1) < x)
  | None => 2 ^ 31 < x
  end.
Proof.
  intros [Hp Hk] Hx; unfold alloc_bucket; rewrite Hp, Hk; unfold RSLOP, PAGE_SIZE.
  destruct (Z.leb_spec x (0x1000 - 0)).
  - change (Z.shiftl 1 MINSHIFT) with (bsize 0).
    pose proof (bucket_loop_spec 32 x 0 ltac:(lia) ltac:(lia) Hx) as Hb.
    by destruct (bucket_loop 32 x (bsize 0) 0).
  - change (u32 0x1000) with (bsize 7).
    pose proof (bucket_loop_spec 32 x 7 ltac:(lia) ltac:(lia) Hx) as Hb.
    destruct (bucket_loop 32 x (bsize 7) 7) as [k|]; [|done].
    destruct Hb as (? & Hxk & [->|?]); split_and!; try lia.
    change (bsize 7) with 4096 in Hxk; lia.
Qed.

Lemma init_ok s h : heap_ok s h ->
  heap_ok (memalloc_init s) h /\ inited (memalloc_init s) /\
  mm (memalloc_init s) = mm s /\ pages (memalloc_init s) = pages s /\ nextf (memalloc_init s) = nextf s.
Proof.
  intros [Hi Hp Hn Hm Hd Hf Hu]; unfold memalloc_init, inited.
  destruct (Z.eqb_spec (pagesz s) 0) as [E|E].
  - split; [|done]. constructor; simpl; auto.
  - destruct Hi as [|[? ?]]; [done|]. split_and!; [constructor; auto|done..].
Qed.

(** ** Lists of free blocks *)

Lemma chain_frame m m' p l :
  (forall x, x ∈ l -> rd32 m' (ov_next x) = rd32 m (ov_next x)) -> chain m p l -> chain m' p l.
Proof.
  revert p; induction l as [|x l IH]; intros p Hx; simpl; [done|].
  intros (-> & ? & ?); split_and!; [done..|].
  rewrite Hx by set_solver; apply IH; [set_solver|done].
Qed.

Lemma header_frame m m' b k cp :
  (forall x, cp - 8 <= x < cp -> rd8 m' x = rd8 m x) -> header_ok m b k cp -> header_ok m' b k cp.
Proof.
  unfold header_ok, ov_magic, ov_index, ov_alignpad, SIZEOF_OV, rd32.
  intros Hx (H1 & H2 & H3 & H4 & H5); rewrite !Hx by lia; done.
Qed.

Lemma get_set_nextf s k v k' : length (nextf s) = 30%nat -> 0 <= k < 30 -> 0 <= k' < 30 ->
  get_nextf (set_nextf k v s) k' = if decide (k = k') then v else get_nextf s k'.
Proof.
  intros Hl Hk Hk'; unfold get_nextf, set_nextf; simpl; case_decide as E.
  - subst; rewrite list_lookup_insert_eq by lia; done.
  - rewrite list_lookup_insert_ne by lia; done.
Qed.

Lemma get_nextf_mm m s k : get_nextf (set_mm m s) k = get_nextf s k.
Proof. done. Qed.

(** The addresses of [n + 1] adjacent blocks. *)
Fixpoint blist (n : nat) (op sz : Z) : list Z :=
  match n with O => [op] | S n => op :: blist n (op + sz) sz end.

Lemma elem_of_blist n op sz b :
  b ∈ blist n op sz <-> exists i, 0 <= i <= Z.of_nat n /\ b = op + i * sz.
Proof.
  revert op; induction n as [|n IH]; intros op; cbn [blist].
  - rewrite list_elem_of_singleton; split.
    + intros ->; exists 0; lia.
    + intros (i & ? & ->); replace i with 0 by lia; lia.
  - rewrite elem_of_cons, IH; split.
    + intros [->|(i & ? & ->)]; [exists 0; lia|exists (i + 1); lia].
    + intros (i & ? & ->); destruct (decide (i = 0)) as [->|]; [left; lia|].
      right; exists (i - 1); lia.
Qed.

Lemma NoDup_blist n op sz : 0 < sz -> NoDup (blist n op sz).
Proof.
  intros Hsz; revert op; induction n as [|n IH]; intros op; cbn [blist].
  - apply NoDup_singleton.
  - constructor; [|apply IH]. rewrite elem_of_blist; intros (i & ? & ?); nia.
Qed.

Lemma link_only_in n op sz m : 4 <= sz ->
  only_in m (link_blocks n op sz m) op (op + Z.of_nat n * sz + 4).
Proof.
  intros Hsz; revert op m; induction n as [|n IH]; intros op m; cbn [link_blocks].
  - eapply only_in_weaken; [apply only_in_wr32|unfold ov_next; lia..].
  - eapply only_in_chain; [apply only_in_wr32|apply IH|unfold ov_next; lia..].
Qed.

Lemma link_chain n op sz m : 4 <= sz -> 0 < op -> op + Z.of_nat n * sz < 2 ^ 32 ->
  chain (link_blocks n op sz m) op (blist n op sz).
Proof.
  intros Hsz; revert op m; induction n as [|n IH]; intros op m Hop Hb; cbn [link_blocks blist chain].
  - unfold ov_next, NULL; rewrite rd32_wr32_eq; split_and!; [done|lia|done].
  - split_and!; [done|unfold NULL; lia|].
    unfold ov_next; rewrite (rd32_only_in _ _ _ _ op (link_only_in n (op + sz) sz _ Hsz)) by lia.
    rewrite rd32_wr32_eq, wrap_id by (unfold urange; lia). apply IH; lia.
Qed.

Lemma blist_disjoint n op k b b' : 0 <= k ->
  b ∈ blist n op (bsize k) -> b' ∈ blist n op (bsize k) -> b <> b' ->
  b + bsize k <= b' \/ b' + bsize k <= b.
Proof.
  intros Hk; pose proof (bsize_pos k Hk) as [? _]; set (z := bsize k) in *; clearbody z.
  rewrite !elem_of_blist; intros (i & ? & ->) (j & ? & ->) Hne.
  assert (i <> j) by congruence. destruct (decide (i < j)); [left|right]; nia.
Qed.

(** Adding free blocks to the abstract heap. *)
Definition add_free (l : list Z) (k : Z) (h : heap) : heap :=
  foldr (fun b h => <[b := Block k Free]> h) h l.

Lemma lookup_add_free l k h b :
  add_free l k h !! b = if decide (b ∈ l) then Some (Block k Free) else h !! b.
Proof.
  unfold add_free; induction l as [|x l IH]; cbn [foldr].
  - rewrite decide_False by set_solver; done.
  - destruct (decide (x = b)) as [->|Hne].
    + rewrite lookup_insert_eq, decide_True by set_solver; done.
    + rewrite lookup_insert_ne, IH by done; repeat case_decide; done || set_solver.
Qed.

(** ** [morecore] *)

(** [morecore] asks for the pages of one bucket and cuts them into adjacent
    blocks of the bucket's size. *)
Lemma morecore_shape k s : inited s -> 0 <= k <= 26 ->
  exists n : nat, (Z.of_nat n + 1) * bsize k = PAGE_SIZE * core_pages k /\
    morecore k s =
      let '(op, p) := bmk_allocpg (core_pages k) (pages s) in
      if op =? NULL then set_pages p s
      else set_mm (link_blocks n op (bsize k) (mm s)) (set_nextf k op (set_pages p s)).
Proof.
  intros [Hp Hb] Hk; unfold morecore, corealloc; rewrite Hp, Hb.
  destruct (Z.ltb_spec k 7) as [H7|H7].
  - assert (core_pages k = 1) as -> by (unfold core_pages; rewrite Z.max_l by lia; done).
    exists (Z.to_nat (PAGE_SIZE / bsize k - 1)).
    assert (k = 0 \/ k = 1 \/ k = 2 \/ k = 3 \/ k = 4 \/ k = 5 \/ k = 6) as Hc by lia.
    destruct Hc as [-> | [-> | [-> | [-> | [-> | [-> | ->]]]]]]; (split; [done|]);
      change (u32 (Z.shiftl 1 0)) with 1; by destruct (bmk_allocpg 1 (pages s)).
  - exists 0%nat. unfold core_pages; rewrite Z.max_r by lia.
    split.
    + unfold bsize, PAGE_SIZE, MINSHIFT; change 0x1000 with (2 ^ 12).
      rewrite Z.mul_1_l, <- Z.pow_add_r by lia; f_equal; lia.
    + assert (u32 (Z.shiftl 1 (k - 7)) = 2 ^ (k - 7)) as ->.
      { rewrite Z.shiftl_1_l; apply wrap_id; split; [apply Z.pow_nonneg; lia|].
        apply Z.pow_lt_mono_r; lia. }
      by destruct (bmk_allocpg _ (pages s)).
Qed.

Lemma in_memory_mono p p' b k :
  bmk_membase p' = bmk_membase p -> bmk_memsize p' = bmk_memsize p ->
  pg_current p <= pg_current p' -> in_memory p b k -> in_memory p' b k.
Proof. unfold in_memory, pg_break, PAGE_SIZE; intros -> -> ?; lia. Qed.

(** The memory of a heap block is untouched by a write outside the blocks. *)
Lemma heap_ok_pages s h p :
  heap_ok s h -> pg_wf p ->
  bmk_membase p = bmk_membase (pages s) -> bmk_memsize p = bmk_memsize (pages s) ->
  pg_current (pages s) <= pg_current p -> heap_ok (set_pages p s) h.
Proof.
  intros [Hi Hp Hn Hm Hd Hf Hu] ? ? ? ?; constructor; simpl; auto.
  intros; eapply in_memory_mono; eauto.
Qed.

(** The new blocks, as far as [heap_ok] is concerned. *)
Lemma add_blocks_ok s h k n op p :
  heap_ok s h -> 0 <= k <= 26 -> get_nextf s k = NULL ->
  op = pg_break (pages s) -> op mod 32 = 0 -> 0 < op ->
  p = PgState (bmk_membase (pages s)) (bmk_memsize (pages s)) (pg_current (pages s) + core_pages k) ->
  pg_wf p -> (Z.of_nat n + 1) * bsize k = PAGE_SIZE * core_pages k ->
  op + PAGE_SIZE * core_pages k <= bmk_membase (pages s) + bmk_memsize (pages s) ->
  heap_ok (set_mm (link_blocks n op (bsize k) (mm s)) (set_nextf k op (set_pages p s)))
          (add_free (blist n op (bsize k)) k h).
Proof.
  intros [Hi Hp Hn Hm Hd Hf Hu] Hk Hnil Hop Hop32 Hop0 Ep Hpw Hsz Hfit.
  destruct (bsize_pos k ltac:(lia)) as [Hb1 Hb2]; pose proof (core_pages_pos k).
  assert (bmk_membase (pages s) <= op) as Hbase
    by (destruct Hp as (? & ? & ? & ? & ?); subst op; unfold pg_break, PAGE_SIZE; lia).
  assert (Hnew : forall b, b ∈ blist n op (bsize k) -> in_memory p b k /\ op <= b).
  { intros b (i & Hi' & ->)%elem_of_blist; subst p; unfold in_memory, pg_break, PAGE_SIZE in *; simpl.
    assert (i * bsize k + bsize k <= 0x1000 * core_pages k /\ 0 <= i * bsize k) as [? ?] by nia.
    split_and!; [lia|lia|lia| |lia|lia|lia].
    apply Z.mod_divide in Hb2 as [q ->]; [|lia]. rewrite Z.mul_assoc, Z_mod_plus_full; done. }
  assert (Hold : forall b B, h !! b = Some B -> b + bsize (bk B) <= op /\ 32 <= bsize (bk B)).
  { intros b B HB; destruct (Hm _ _ HB) as (? & ? & ? & ? & ?).
    pose proof (bsize_pos (bk B) ltac:(lia)); lia. }
  assert (Hold' : forall b B, h !! b = Some B -> b ∉ blist n op (bsize k)).
  { intros b B HB Hin; destruct (Hold _ _ HB), (Hnew _ Hin); lia. }
  assert (Hfr : forall x, x < op -> rd8 (link_blocks n op (bsize k) (mm s)) x = rd8 (mm s) x).
  { intros x Hx; apply (link_only_in n op (bsize k) (mm s) ltac:(lia)); lia. }
  constructor; simpl.
  - done.
  - done.
  - by rewrite length_insert.
  - intros b B; rewrite lookup_add_free; case_decide; [intros [= <-]; by apply Hnew|].
    intros HB; subst p; apply (in_memory_mono (pages s)); [done|done|cbn [pg_current]; lia|exact (Hm _ _ HB)].
  - intros b B b' B'; rewrite !lookup_add_free.
    destruct (decide (b ∈ _)) as [E1|E1], (decide (b' ∈ _)) as [E2|E2]; intros H1 H2 Hne;
      [injection H1 as <-; injection H2 as <- | injection H1 as <- | injection H2 as <- |]; cbn [bk].
    + apply (blist_disjoint n op k); done || lia.
    + destruct (Hold _ _ H2), (Hnew _ E1); lia.
    + destruct (Hold _ _ H1), (Hnew _ E2); lia.
    + eauto.
  - intros k' Hk'; rewrite get_nextf_mm, get_set_nextf by (unfold NBUCKETS in *; simpl; lia).
    case_decide as Ek.
    + subst k'; exists (blist n op (bsize k)); split_and!.
      * apply link_chain; [lia..|]. unfold pg_wf, PAGE_SIZE in *; subst p; simpl in *; nia.
      * apply NoDup_blist; lia.
      * intros b; rewrite lookup_add_free; case_decide; [done|]. split; [done|].
        intros HB; destruct (Hf k Hk') as (l & Hc & _ & Hl).
        rewrite Hnil in Hc; destruct l; simpl in Hc; [|naive_solver].
        apply Hl in HB; set_solver.
    + destruct (Hf k' Hk') as (l & Hc & Hnd & Hl); exists l; split_and!; [|done|].
      * eapply chain_frame; [|exact Hc]; intros x Hx; apply Hl in Hx.
        destruct (Hold _ _ Hx); unfold ov_next, rd32; rewrite !Hfr by lia; done.
      * intros b; rewrite lookup_add_free, Hl; case_decide; [|done].
        split; [intros HB; by apply Hold' in HB|congruence].
  - intros b k' cp; rewrite lookup_add_free; case_decide; [done|]; intros HB.
    pose proof (Hu _ _ _ HB) as Hh; destruct (Hold _ _ HB); simpl in *.
    eapply header_frame; [|exact Hh]; intros x Hx; apply Hfr.
    destruct Hh as (_ & _ & _ & ? & _); lia.
Qed.

(** ** Changing the status of one block *)

Lemma retag_ok s h b k st st' s' :
  heap_ok s h -> h !! b = Some (Block k st) ->
  pagesz s' = pagesz s -> pagebucket s' = pagebucket s -> pages s' = pages s ->
  length (nextf s') = 30%nat ->
  (forall k', 0 <= k' < NBUCKETS -> k' <> k -> get_nextf s' k' = get_nextf s k') ->
  only_in (mm s) (mm s') b (b + bsize k) ->
  (exists l, chain (mm s') (get_nextf s' k) l /\ NoDup l /\
     forall x, x ∈ l <-> (<[b := Block k st']> h) !! x = Some (Block k Free)) ->
  (forall cp, st' = Used cp -> header_ok (mm s') b k cp) ->
  heap_ok s' (<[b := Block k st']> h).
Proof.
  intros [Hi Hp Hn Hm Hd Hf Hu] Hb E1 E2 E3 Hn' Hnf Ho Hl Hh.
  assert (Hout : forall x B, h !! x = Some B -> x <> b -> x + bsize (bk B) <= b \/ b + bsize k <= x).
  { intros x B HB Hne; apply (Hd x B b _ HB Hb Hne). }
  constructor.
  - by rewrite E1, E2.
  - by rewrite E3.
  - done.
  - intros x B; rewrite E3; destruct (decide (x = b)) as [->|]; simplify_map_eq; [|eauto].
    intros [= <-]; apply (Hm _ _ Hb).
  - intros x B x' B' H1 H2 Hne; destruct (decide (x = b)) as [->|], (decide (x' = b)) as [->|];
      simplify_map_eq; try done; cbn [bk].
    + destruct (Hout _ _ H2 ltac:(done)); auto.
    + destruct (Hout _ _ H1 ltac:(done)); auto.
    + eauto.
  - intros k' Hk'; destruct (decide (k' = k)) as [->|Hne]; [done|].
    destruct (Hf k' Hk') as (l & Hc & Hnd & Hlk); exists l; rewrite Hnf by done; split_and!; [|done|].
    + eapply chain_frame; [|exact Hc]; intros x Hx; apply Hlk in Hx.
      assert (x <> b) by (intros ->; congruence).
      pose proof (bsize_pos k' ltac:(unfold NBUCKETS in *; lia)) as [? _].
      apply (rd32_only_in _ _ _ _ _ Ho); destruct (Hout _ _ Hx ltac:(done)); simpl in *; unfold ov_next; lia.
    + intros x; rewrite Hlk; destruct (decide (x = b)) as [->|]; simplify_map_eq; [|done].
      split; congruence.
  - intros x k' cp; destruct (decide (x = b)) as [->|]; simplify_map_eq.
    + intros [= <- ->]; auto.
    + intros HB; pose proof (Hu _ _ _ HB) as Hh'; eapply header_frame; [|exact Hh'].
      intros y Hy; destruct Hh' as (_ & _ & _ & [Hlo Hhi] & _); unfold SIZEOF_OV in Hlo.
      apply Ho; destruct (Hout _ _ HB ltac:(done)); simpl in *; lia.
Qed.

(** The first block of a free list is a free block of that bucket; the rest
    of the list is what is left when it is taken. *)
Lemma free_head s h k op :
  heap_ok s h -> 0 <= k < NBUCKETS -> get_nextf s k = op -> op <> NULL ->
  h !! op = Some (Block k Free) /\
  exists l, chain (mm s) (rd32 (mm s) (ov_next op)) l /\ NoDup l /\ (op ∉ l) /\
    forall x, x ∈ l <-> (x <> op /\ h !! x = Some (Block k Free)).
Proof.
  intros Hok Hk Hop Hne; destruct (ok_free _ _ Hok k Hk) as (l & Hc & Hnd & Hl).
  destruct l as [|x l]; simpl in Hc; [congruence|].
  destruct Hc as (Hx & _ & Hc); rewrite Hop in Hx; subst x.
  apply NoDup_cons in Hnd as [Hni Hnd]. split; [apply Hl; set_solver|].
  exists l; split_and!; [done..|]. intros x; rewrite <- Hl; set_solver.
Qed.

Definition write_header (m : mem) (rv k alignpad : Z) : mem :=
  wr32 (wr8 (wr8 m (ov_magic (rv - SIZEOF_OV)) MAGIC) (ov_index (rv - SIZEOF_OV)) k)
    (ov_alignpad (rv - SIZEOF_OV)) alignpad.

Lemma write_header_only_in m rv k ap : only_in m (write_header m rv k ap) (rv - 8) rv.
Proof.
  unfold write_header, ov_magic, ov_index, ov_alignpad, SIZEOF_OV; intros x Hx.
  rewrite rd8_wr32_ne, !rd8_wr8_ne by lia; done.
Qed.

Lemma write_header_ok m b rv k :
  0 <= k <= 26 -> b + 8 <= rv <= b + bsize k -> rv mod 4 = 0 -> 0 <= b -> b + bsize k < 2 ^ 32 ->
  header_ok (write_header m rv k (u32 (rv - b))) b k rv.
Proof.
  intros Hk Hrv H4 Hb Hlim; unfold header_ok, write_header, ov_magic, ov_index, ov_alignpad, SIZEOF_OV.
  rewrite rd32_wr32_eq, !rd8_wr32_ne, rd8_wr8_eq by lia.
  rewrite rd8_wr8_ne, rd8_wr8_eq by lia.
  rewrite !(wrap_id 32 (rv - b)) by (unfold urange; lia).
  split_and!; [done|apply wrap_id; zlia|done|lia|lia|done].
Qed.

Lemma heap_ok_bounds s h b B : heap_ok s h -> h !! b = Some B ->
  0 < b /\ b + bsize (bk B) < 2 ^ 32 /\ b mod 32 = 0 /\ 0 <= bk B <= 26.
Proof.
  intros Hok HB; destruct (ok_mem _ _ Hok _ _ HB) as (? & ? & ? & ? & ?).
  destruct (ok_pages _ _ Hok) as (? & ? & ? & ? & ?); lia.
Qed.

Lemma take_ok s h k op rv :
  heap_ok s h -> 0 <= k <= 26 -> get_nextf s k = op -> op <> NULL ->
  op + 8 <= rv <= op + bsize k -> rv mod 4 = 0 ->
  heap_ok (set_mm (write_header (mm s) rv k (u32 (rv - op)))
                  (set_nextf k (rd32 (mm s) (ov_next op)) s))
          (<[op := Block k (Used rv)]> h).
Proof.
  intros Hok Hk Hop Hne Hrv H4.
  destruct (free_head s h k op Hok) as (Hfree & l & Hc & Hnd & Hni & Hl);
    [unfold NBUCKETS; lia|done|done|].
  destruct (heap_ok_bounds _ _ _ _ Hok Hfree) as (Hop0 & Hlim & _); simpl in Hlim.
  pose proof (ok_nextf _ _ Hok) as Hn.
  eapply retag_ok; [exact Hok|exact Hfree|done..| | | | |]; cbn [mm set_mm set_nextf].
  - simpl; by rewrite length_insert.
  - intros k' Hk' Hkk; rewrite get_nextf_mm, get_set_nextf, decide_False; unfold NBUCKETS in *; done || lia.
  - eapply only_in_weaken; [apply write_header_only_in|lia..].
  - exists l; rewrite get_nextf_mm, get_set_nextf, decide_True by (done || lia); split_and!; [|done|].
    + eapply chain_frame; [|exact Hc]; intros x Hx; apply Hl in Hx as [Hxo Hx].
      apply (rd32_only_in _ _ _ _ _ (write_header_only_in _ _ _ _)).
      pose proof (bsize_pos k ltac:(lia)) as [? _].
      destruct (ok_disj _ _ Hok _ _ _ _ Hx Hfree Hxo); simpl in *; unfold ov_next; lia.
    + intros x; rewrite Hl; destruct (decide (x = op)) as [->|]; simplify_map_eq; [|naive_solver].
      split; [intros []; done|congruence].
  - intros cp [= <-]; apply write_header_ok; lia.
Qed.

Lemma memfree_used s h b k cp :
  heap_ok s h -> h !! b = Some (Block k (Used cp)) ->
  bmk_memfree cp s = Ret (set_nextf k b (set_mm (wr32 (mm s) (ov_next b) (get_nextf s k)) s)).
Proof.
  intros Hok Hb; destruct (ok_used _ _ Hok _ _ _ Hb) as (Hmag & Hidx & Hpad & Hcp & _).
  destruct (heap_ok_bounds _ _ _ _ Hok Hb) as (Hb0 & Hlim & _ & Hk); simpl in *.
  unfold bmk_memfree, NULL, SIZEOF_OV in *; rewrite (proj2 (Z.eqb_neq cp 0)) by lia.
  rewrite Hmag, Hidx, Hpad, Z.eqb_refl; simpl.
  rewrite (proj2 (Z.ltb_lt k NBUCKETS)) by (unfold NBUCKETS; lia); simpl.
  by replace (u32 (cp - (cp - b))) with b by (rewrite wrap_id; unfold urange; lia).
Qed.

Lemma give_ok s h b k cp :
  heap_ok s h -> h !! b = Some (Block k (Used cp)) ->
  heap_ok (set_nextf k b (set_mm (wr32 (mm s) (ov_next b) (get_nextf s k)) s))
          (<[b := Block k Free]> h).
Proof.
  intros Hok Hb; destruct (heap_ok_bounds _ _ _ _ Hok Hb) as (Hb0 & Hlim & _ & Hk); simpl in *.
  pose proof (ok_nextf _ _ Hok) as Hn; pose proof (bsize_pos k ltac:(lia)) as [? _].
  destruct (ok_free _ _ Hok k) as (l & Hc & Hnd & Hl); [unfold NBUCKETS; lia|].
  assert (Hnb : b ∉ l) by (rewrite Hl; congruence).
  assert (Hc' : chain (wr32 (mm s) (ov_next b) (get_nextf s k)) (get_nextf s k) l).
  { eapply chain_frame; [|exact Hc]; intros x Hx.
    assert (x <> b) by (intros ->; done). apply Hl in Hx.
    apply rd32_wr32_ne; unfold ov_next; destruct (ok_disj _ _ Hok _ _ _ _ Hx Hb ltac:(done)); simpl in *; lia. }
  assert (Hr : urange 32 (get_nextf s k)).
  { destruct l as [|x l]; simpl in Hc; [by rewrite Hc|]. destruct Hc as (-> & _).
    assert (h !! x = Some (Block k Free)) as Hx by (apply Hl; set_solver).
    destruct (heap_ok_bounds _ _ _ _ Hok Hx) as (? & ? & _); simpl in *; unfold urange; lia. }
  eapply retag_ok; [exact Hok|exact Hb|done..| | | | |]; cbn [mm set_mm set_nextf].
  - simpl; by rewrite length_insert.
  - intros k' Hk' Hkk; rewrite get_set_nextf, decide_False; unfold NBUCKETS in *; done || (simpl; lia).
  - eapply only_in_weaken; [apply only_in_wr32|unfold ov_next; lia..].
  - exists (b :: l); rewrite get_set_nextf, decide_True by (done || simpl; lia); split_and!.
    + simpl; split_and!; [done|unfold NULL; lia|]. unfold ov_next at 2.
      change (rd32 (wr32 (mm s) (ov_next b) (get_nextf s k)) b) with
        (rd32 (wr32 (mm s) b (get_nextf s k)) b); rewrite rd32_wr32_eq, wrap_id by done; exact Hc'.
    + by constructor.
    + intros x; rewrite elem_of_cons, Hl; destruct (decide (x = b)) as [->|]; simplify_map_eq; naive_solver.
  - done.
Qed.

(** ** The specification and the refinement *)

(** [extends h h1]: [h1] is [h] with some free blocks added. *)
Definition extends (h h1 : heap) : Prop :=
  h ⊆ h1 /\ forall b B, h1 !! b = Some B -> h !! b = None -> bst B = Free.

(** What an allocation of [nbytes] with alignment [align] may do to the
    heap: nothing, returning NULL, or put a free block in use (one that was
    there or one of the blocks just added) and return an aligned pointer
    with room for [nbytes] bytes between it and the end of the block. *)
Inductive alloc_spec (h : heap) (nbytes align : Z) : Z -> heap -> Prop :=
| alloc_null : alloc_spec h nbytes align NULL h
| alloc_block h1 b k rv :
    extends h h1 -> h1 !! b = Some (Block k Free) ->
    rv <> NULL -> rv mod align = 0 -> rv mod 4 = 0 ->
    b + SIZEOF_OV <= rv -> rv + nbytes <= b + bsize k ->
    alloc_spec h nbytes align rv (<[b := Block k (Used rv)]> h1).

(** What releasing pointer [cp] does. *)
Inductive free_spec (h : heap) (cp : Z) : heap -> Prop :=
| free_block b k : h !! b = Some (Block k (Used cp)) -> free_spec h cp (<[b := Block k Free]> h).

(** The blocks in use keep their contents. *)
Definition frame (h : heap) (m m' : mem) : Prop :=
  forall b k cp, h !! b = Some (Block k (Used cp)) -> forall x, b <= x < b + bsize k -> rd8 m' x = rd8 m x.

Lemma extends_refl h : extends h h.
Proof. split; [done|congruence]. Qed.

Lemma morecore_ok s h k :
  heap_ok s h -> inited s -> 0 <= k <= 26 -> get_nextf s k = NULL ->
  pg_fits (pages s) (core_pages k) ->
  exists h1, heap_ok (morecore k s) h1 /\ extends h h1 /\ inited (morecore k s) /\
    (forall x, x < pg_break (pages s) -> rd8 (mm (morecore k s)) x = rd8 (mm s) x) /\
    (get_nextf (morecore k s) k = NULL -> h1 = h /\
       bmk_memsize (pages s) < (pg_current (pages s) + core_pages k) * PAGE_SIZE).
Proof.
  intros Hok Hi Hk Hnil Hfit.
  destruct (morecore_shape k s Hi Hk) as (n & Hn & ->).
  pose proof (ok_pages _ _ Hok) as Hpw. pose proof (core_pages_pos k).
  pose proof (allocpg_wf _ _ Hpw Hfit) as Hpw'.
  rewrite allocpg_cases in Hpw' |- * by done; cbn [snd] in Hpw'.
  destruct Hpw as (Hb & _ & _ & Hc & Hm).
  case_decide as Hd; cbn [fst].
  - assert (0 < pg_break (pages s)) as Hbr by (unfold pg_break, PAGE_SIZE; lia).
    rewrite (proj2 (Z.eqb_neq _ _)) by (unfold NULL; lia).
    exists (add_free (blist n (pg_break (pages s)) (bsize k)) k h); split_and!.
    + apply (add_blocks_ok s h k n); auto.
      * unfold pg_break, PAGE_SIZE in *; change 0x1000 with 4096 in *; Z.div_mod_to_equations; lia.
      * unfold pg_break, PAGE_SIZE in *; lia.
    + split.
      * apply map_subseteq_spec; intros b B HB; rewrite lookup_add_free, decide_False; [done|].
        intros (i & Hi' & ->)%elem_of_blist.
        destruct (ok_mem _ _ Hok _ _ HB) as (? & ? & ? & ? & ?).
        pose proof (bsize_pos (bk B) ltac:(lia)) as [? _]; pose proof (bsize_pos k ltac:(lia)) as [? _].
        assert (0 <= i * bsize k) by nia. lia.
      * intros b B; rewrite lookup_add_free; case_decide; [by intros [= <-]|congruence].
    + apply Hi.
    + intros x Hx; cbn [mm set_mm]; pose proof (bsize_pos k ltac:(lia)) as [? _].
      apply (link_only_in n (pg_break (pages s)) (bsize k) (mm s) ltac:(lia)); lia.
    + rewrite get_nextf_mm, get_set_nextf, decide_True by
        (done || lia || simpl; by rewrite (ok_nextf _ _ Hok)). unfold NULL; lia.
  - simpl. exists h; split_and!; [|apply extends_refl|apply Hi|done|intros _; split; [done|lia]].
    apply heap_ok_pages; auto; cbn [pg_current]; lia.
Qed.

(** The body of [bmk_memalloc] after the initialisation. *)
Lemma memalloc_inited nbytes align s h j k :
  heap_ok s h -> inited s -> urange 32 nbytes ->
  align_ok align -> 2 <= j <= 31 -> alloc_align align = 2 ^ j ->
  nbytes + header_room (2 ^ j) < 2 ^ 32 ->
  alloc_bucket s (alloc_bytes nbytes (2 ^ j)) = Some k ->
  pg_fits (pages s) (core_pages k) ->
  exists h', heap_ok (snd (bmk_memalloc nbytes align s)) h' /\
    alloc_spec h nbytes (2 ^ j) (fst (bmk_memalloc nbytes align s)) h' /\
    frame h (mm s) (mm (snd (bmk_memalloc nbytes align s))) /\
    (fst (bmk_memalloc nbytes align s) = NULL ->
     bmk_memsize (pages s) < (pg_current (pages s) + core_pages k) * PAGE_SIZE).
Proof.
  intros Hok Hi Hn Hal Hj Ea Hfit Hk Hpg.
  assert (memalloc_init s = s) as Einit
    by (unfold memalloc_init; destruct Hi as [-> _]; done).
  unfold bmk_memalloc; rewrite Einit. destruct Hal as [Har Hl]; rewrite Hl, Ea; cbn [negb Z.eqb].
  change (negb (0 =? 0)) with false; cbv iota; rewrite Hk.
  pose proof (header_room_bounds (2 ^ j)).
  assert (alloc_bytes nbytes (2 ^ j) = nbytes + header_room (2 ^ j)) as Eb.
  { unfold alloc_bytes; rewrite header_room_spec by done; apply wrap_id.
    unfold urange in *; lia. }
  pose proof (alloc_bucket_spec s (alloc_bytes nbytes (2 ^ j)) Hi) as Hspec; rewrite Hk, Eb in Hspec.
  destruct Hspec as (Hk1 & Hk2 & _); [unfold urange in *; lia|].
  assert (exists h1 s1, (if get_nextf s k =? NULL then morecore k s else s) = s1 /\
            heap_ok s1 h1 /\ extends h h1 /\ frame h (mm s) (mm s1) /\ (get_nextf s1 k = NULL -> h1 = h /\
              bmk_memsize (pages s) < (pg_current (pages s) + core_pages k) * PAGE_SIZE))
    as (h1 & s1 & -> & Hok1 & Hext & Hfr & Hnull).
  { destruct (Z.eqb_spec (get_nextf s k) NULL) as [E|E].
    - destruct (morecore_ok s h k) as (h1 & ? & ? & ? & Hx & ?); [done..|].
      exists h1, (morecore k s); split_and!; [done..| |done].
      intros b k' cp HB x Hxb; apply Hx; destruct (ok_mem _ _ Hok _ _ HB) as (? & ? & ? & ? & ?).
      simpl in *; lia.
    - exists h, s; split_and!; [done|done|apply extends_refl|by intros b k' cp HB x Hx|done]. }
  destruct (Z.eqb_spec (get_nextf s1 k) NULL) as [E|E]; cbn [fst snd].
  { destruct (Hnull E) as [-> ?]; exists h; split_and!; [done|constructor|done|done]. }
  destruct (free_head s1 h1 k _ Hok1 ltac:(unfold NBUCKETS; lia) eq_refl E) as (Hfree & _).
  destruct (heap_ok_bounds _ _ _ _ Hok1 Hfree) as (Hop0 & Hlim & H32 & _); cbn [bk] in Hlim.
  set (op := get_nextf s1 k) in *. pose proof (bsize_pos k ltac:(lia)) as [Hs1 Hs2].
  assert (op + 7 + 2 ^ j < 2 ^ 32) as Hno.
  { assert ((op + bsize k) mod 32 = 0) by (rewrite Zplus_mod, H32, Hs2; done).
    unfold urange in *; change (2 ^ 32) with 4294967296 in *.
    Z.div_mod_to_equations; lia. }
  destruct (align_up op j Hj H32 ltac:(lia) Hno) as (Hr1 & Hr2 & Hr3).
  set (rv := Z.land (u32 (op + _ + _ - 1)) _) in *.
  exists (<[op := Block k (Used rv)]> h1); split_and!.
  - exact (take_ok s1 h1 k op rv Hok1 Hk1 eq_refl E ltac:(unfold urange in *; lia) Hr3).
  - apply alloc_block; auto; unfold NULL, SIZEOF_OV, urange in *; lia.
  - intros b k' cp HB x Hx; rewrite <- (Hfr b k' cp HB x Hx).
    apply (write_header_only_in (mm s1) rv k (u32 (rv - op))).
    assert (h1 !! b = Some (Block k' (Used cp))) as HB1 by (eapply lookup_weaken; [exact HB|apply Hext]).
    assert (b <> op) by (intros ->; congruence).
    destruct (ok_disj _ _ Hok1 _ _ _ _ HB1 Hfree ltac:(done)); simpl in *; unfold urange in *; lia.
  - unfold NULL; lia.
Qed.

Lemma boot_ok m p : pg_wf p -> heap_ok (memalloc_boot m p) ∅.
Proof.
  intros Hp; constructor; simpl; try done; [by left|..]; try by intros *; rewrite lookup_empty.
  intros k Hk; exists []; split_and!; [|constructor|].
  - unfold get_nextf, NBUCKETS in *; cbn [memalloc_boot nextf].
    rewrite lookup_replicate_2 by lia; done.
  - intros b; rewrite lookup_empty; set_solver.
Qed.

(** A request that the page arithmetic can serve: the page count of its
    bucket does not overflow the page counter. *)
Definition request_fits (nbytes align : Z) (s : mstate) : Prop :=
  forall k, alloc_bucket (memalloc_init s) (alloc_bytes nbytes (alloc_align align)) = Some k ->
  pg_fits (pages s) (core_pages k).

Lemma memalloc_refines nbytes align s h :
  heap_ok s h -> urange 32 nbytes -> align_ok align ->
  nbytes + header_room (alloc_align align) < 2 ^ 32 -> request_fits nbytes align s ->
  let '(rv, s') := bmk_memalloc nbytes align s in
  exists h', heap_ok s' h' /\ alloc_spec h nbytes (alloc_align align) rv h' /\ frame h (mm s) (mm s') /\
    (rv = NULL -> 2 ^ 31 < nbytes + header_room (alloc_align align) \/
       exists k, alloc_bucket (memalloc_init s) (alloc_bytes nbytes (alloc_align align)) = Some k /\
         bmk_memsize (pages s) < (pg_current (pages s) + core_pages k) * PAGE_SIZE).
Proof.
  intros Hok Hn Hal Hfit Hreq; destruct (init_ok s h Hok) as (Hok' & Hi & Hm & Hp & _).
  destruct (alloc_align_pow2 align Hal) as (j & Hj & Ea & _).
  assert (bmk_memalloc nbytes align s = bmk_memalloc nbytes align (memalloc_init s)) as E.
  { unfold bmk_memalloc. replace (memalloc_init (memalloc_init s)) with (memalloc_init s); [done|].
    symmetry; unfold memalloc_init at 1; destruct Hi as [-> _]; done. }
  rewrite E; rewrite Ea in *.
  unfold request_fits in Hreq; rewrite Ea, <- Hp in Hreq.
  destruct (alloc_bucket (memalloc_init s) (alloc_bytes nbytes (2 ^ j))) as [k|] eqn:Ek.
  - destruct (memalloc_inited nbytes align (memalloc_init s) h j k) as (h' & Hh' & Hs & Hfr & Hnull); auto.
    rewrite Hm in Hfr; rewrite Hp in Hnull.
    destruct (bmk_memalloc nbytes align (memalloc_init s)); simpl in *; eauto 10.
  - unfold bmk_memalloc.
    assert (memalloc_init (memalloc_init s) = memalloc_init s) as ->
      by (unfold memalloc_init at 1; destruct Hi as [-> _]; done).
    destruct Hal as [_ ->]; change (negb (0 =? 0)) with false; cbv iota; rewrite Ea, Ek.
    exists h; split_and!; [done|constructor|by rewrite Hm|intros _; left].
    pose proof (alloc_bucket_spec (memalloc_init s) (alloc_bytes nbytes (2 ^ j)) Hi) as Hsp.
    rewrite Ek in Hsp; unfold alloc_bytes in Hsp; rewrite header_room_spec in Hsp by done.
    pose proof (header_room_bounds (2 ^ j)).
    rewrite wrap_id in Hsp by (unfold urange in *; lia); apply Hsp; unfold urange in *; lia.
Qed.

(** What the code does not check: the size with the header does not overflow,
    and the page counter does not when the request needs pages. *)
Definition servable (nbytes align : Z) (s : mstate) : Prop :=
  nbytes + header_room (alloc_align align) < 2 ^ 32 /\ request_fits nbytes align s.

(** The same for every alignment: one that is no power of two is refused. *)
Lemma memalloc_any nbytes align s h :
  heap_ok s h -> urange 32 nbytes -> urange 32 align -> (align_ok align -> servable nbytes align s) ->
  let '(rv, s') := bmk_memalloc nbytes align s in
  exists h', heap_ok s' h' /\ alloc_spec h nbytes (alloc_align align) rv h' /\ frame h (mm s) (mm s') /\
    (rv = NULL -> ~ align_ok align \/ 2 ^ 31 < nbytes + header_room (alloc_align align) \/
       exists k, alloc_bucket (memalloc_init s) (alloc_bytes nbytes (alloc_align align)) = Some k /\
         bmk_memsize (pages s) < (pg_current (pages s) + core_pages k) * PAGE_SIZE) /\
    (~ align_ok align -> rv = NULL).
Proof.
  intros Hok Hn Ha Hs; destruct (decide (align_ok align)) as [Hal|Hal].
  - destruct (Hs Hal) as [Hl Hf]; pose proof (memalloc_refines nbytes align s h Hok Hn Hal Hl Hf) as Hm.
    destruct (bmk_memalloc nbytes align s) as [rv s']; destruct Hm as (h' & ? & ? & ? & Hnull); exists h'.
    split_and!; [done..|intros; right; by apply Hnull|done].
  - unfold bmk_memalloc; rewrite (proj2 (Z.eqb_neq _ 0)) by (intros E; by apply Hal); cbn [negb].
    destruct (init_ok s h Hok) as (Hok' & _ & Hm & _); exists h; split_and!; [done|constructor|by rewrite Hm|by left|done].
Qed.

(** Writing inside a used block, the header left intact. *)
Lemma block_write_ok s h b k cp m' :
  heap_ok s h -> h !! b = Some (Block k (Used cp)) ->
  only_in (mm s) m' b (b + bsize k) -> header_ok m' b k cp -> heap_ok (set_mm m' s) h.
Proof.
  intros Hok Hb Ho Hh; destruct (heap_ok_bounds _ _ _ _ Hok Hb) as (_ & _ & _ & Hk); simpl in Hk.
  assert (<[b := Block k (Used cp)]> h = h) as E by by apply insert_id.
  rewrite <- E. eapply retag_ok; [exact Hok|exact Hb|done..|apply (ok_nextf _ _ Hok)|done|done| |].
  - rewrite E. destruct (ok_free _ _ Hok k) as (l & Hc & Hnd & Hl); [unfold NBUCKETS; lia|].
    exists l; split_and!; [|done|done]. cbn [mm set_mm]; rewrite get_nextf_mm.
    eapply chain_frame; [|exact Hc]; intros x Hx; apply Hl in Hx.
    assert (x <> b) by (intros ->; congruence). pose proof (bsize_pos k ltac:(lia)) as [? _].
    apply (rd32_only_in _ _ _ _ _ Ho); unfold ov_next.
    destruct (ok_disj _ _ Hok _ _ _ _ Hx Hb ltac:(done)); simpl in *; lia.
  - by intros cp' [= <-].
Qed.

(** Writing inside the part of a used block that belongs to the caller. *)
Lemma user_write_ok s h b k cp m' :
  heap_ok s h -> h !! b = Some (Block k (Used cp)) ->
  only_in (mm s) m' cp (b + bsize k) -> heap_ok (set_mm m' s) h.
Proof.
  intros Hok Hb Ho; pose proof (ok_used _ _ Hok _ _ _ Hb) as Hh.
  assert (b + 8 <= cp) by (destruct Hh as (_ & _ & _ & [? ?] & _); unfold SIZEOF_OV in *; lia).
  apply (block_write_ok s h b k cp); [done|done|eapply only_in_weaken; [exact Ho|lia..]|].
  eapply header_frame; [|exact Hh]; intros x Hx; apply Ho; lia.
Qed.
