(* ===== verification/Iface.v ===== *)
(** * Iface: what the allocator promises to its clients

    sched.c, rumpfiber.c and intr.c allocate their structures with
    [bmk_xmalloc] and release them with [bmk_memfree].  They are modelled
    over this interface; Alloc.v shows that memalloc.c implements it. *)
From S2P Require Import Prelude.

(** The operations: allocate (or panic), release, store a word. *)
Class HeapOps (H : Type) := {
  h_xmalloc : Z -> H -> outcome (Z * H);
  h_memfree : Z -> H -> outcome H;
  h_poke : Z -> Z -> H -> H;
}.

(** The promises.  [h_inv x L]: the client holds exactly the allocations [L]
    (address to size) of the heap [x]; [h_serves n x]: the heap can answer a
    request for [n] bytes without overflowing its page counter;
    [h_static x a]: [a] lies in the static storage of the kernel image, below
    the memory the heap manages. *)
Class HeapLaws (H : Type) `{HeapOps H} := {
  h_inv : H -> gmap Z Z -> Prop;
  h_serves : Z -> H -> Prop;
  h_static : H -> Z -> Prop;
  h_xmalloc_spec : forall n x L p x',
    h_inv x L -> 0 <= n < 2 ^ 31 -> h_serves n x -> h_xmalloc n x = Ret (p, x') ->
    p <> NULL /\ 0 <= p /\ p + n < 2 ^ 32 /\ L !! p = None /\ h_inv x' (<[p := n]> L) /\
    ~ h_static x p /\ forall a, h_static x a -> h_static x' a;
  h_memfree_spec : forall x L p,
    h_inv x L -> is_Some (L !! p) -> exists x', h_memfree p x = Ret x' /\ h_inv x' (delete p L) /\
      forall a, h_static x a -> h_static x' a;
  h_memfree_null : forall x, h_memfree NULL x = Ret x;
  h_poke_spec : forall x L p n a v,
    h_inv x L -> L !! p = Some n -> p <= a -> a + 4 <= p + n -> h_inv (h_poke a v x) L;
  h_poke_static : forall x a v b, h_static x b -> h_static (h_poke a v x) b;
}.
