(* ===== verification/Alloc.v ===== *)
(** * Alloc: the theorems on memalloc.c

    The correctness of allocation, release and reallocation against the
    abstract heap of Heap.v, the end-to-end guarantee for any well-behaved
    client, and the requests for which the code does not keep its promise. *)
From S2P Require Import Prelude Mem Subr Pages Memalloc Heap Iface.

(** ** Allocation and release *)

(** C6: on a well-formed heap, [bmk_memalloc] implements the allocation
    specification: it returns NULL leaving the heap as it was, or a pointer
    aligned as asked, with room for the request, into a block that was free;
    the contents of all blocks in use are kept.  NULL is returned always for an
    alignment that is no power of two, and otherwise only for a request above
    2 GB or when the pages left do not suffice.  For a power of two the request
    has to be servable: size plus header below 4 GB, and the page counter does
    not overflow (the code checks neither, see below). *)
Theorem bmk_memalloc_correct nbytes align s h :
  heap_ok s h -> urange 32 nbytes -> urange 32 align -> (align_ok align -> servable nbytes align s) ->
  let '(rv, s') := bmk_memalloc nbytes align s in
  exists h', heap_ok s' h' /\ alloc_spec h nbytes (alloc_align align) rv h' /\
    frame h (mm s) (mm s') /\
    (rv = NULL -> ~ align_ok align \/ 2 ^ 31 < nbytes + header_room (alloc_align align) \/
       exists k, alloc_bucket (memalloc_init s) (alloc_bytes nbytes (alloc_align align)) = Some k /\
         bmk_memsize (pages s) < (pg_current (pages s) + core_pages k) * PAGE_SIZE) /\
    (~ align_ok align -> rv = NULL).
Proof. apply memalloc_any. Qed.

Definition demo_s : mstate := memalloc_boot ∅ demo_pg.

Lemma demo_ok : heap_ok demo_s ∅.
Proof. apply boot_ok; by vm_compute. Qed.

Lemma demo_fits : request_fits 100 16 demo_s.
Proof. intros k Hk; vm_compute in Hk; injection Hk as <-; split; vm_compute; (discriminate || reflexivity). Qed.

Lemma bmk_memalloc_correct_witness :
  let '(rv, s') := bmk_memalloc 100 16 demo_s in
  exists h', heap_ok s' h' /\ alloc_spec ∅ 100 (alloc_align 16) rv h' /\
    frame ∅ (mm demo_s) (mm s') /\
    (rv = NULL -> ~ align_ok 16 \/ 2 ^ 31 < 100 + header_room (alloc_align 16) \/
       exists k, alloc_bucket (memalloc_init demo_s) (alloc_bytes 100 (alloc_align 16)) = Some k /\
         bmk_memsize (pages demo_s) < (pg_current (pages demo_s) + core_pages k) * PAGE_SIZE) /\
    (~ align_ok 16 -> rv = NULL).
Proof.
  apply (bmk_memalloc_correct 100 16 demo_s ∅);
    [exact demo_ok | by vm_compute | by vm_compute | intros _; split; [by vm_compute|exact demo_fits]].
Defined.

(** C7: releasing a pointer in use never trips the assertion, puts its
    block on its bucket's free list, keeps the heap well-formed and the
    contents of the other blocks in use. *)
Theorem bmk_memfree_correct s h b k cp :
  heap_ok s h -> h !! b = Some (Block k (Used cp)) ->
  exists s', bmk_memfree cp s = Ret s' /\ heap_ok s' (<[b := Block k Free]> h) /\
    get_nextf s' k = b /\ frame (delete b h) (mm s) (mm s').
Proof.
  intros Hok Hb; rewrite (memfree_used s h b k) by done; eexists; split; [done|].
  destruct (heap_ok_bounds _ _ _ _ Hok Hb) as (_ & _ & _ & Hk); simpl in Hk.
  split_and!; [by apply (give_ok s h b k cp)| |].
  - rewrite get_set_nextf, decide_True; [done..| |lia|lia]. apply (ok_nextf _ _ Hok).
  - intros b' k' cp' HB x Hx; apply lookup_delete_Some in HB as [Hne HB]; cbn [mm set_nextf set_mm].
    apply rd8_wr32_ne; unfold ov_next. pose proof (bsize_pos k ltac:(lia)) as [? _].
    destruct (ok_disj _ _ Hok _ _ _ _ HB Hb ltac:(done)); simpl in *; lia.
Qed.

(** The heap after one allocation at boot, its block read off the header. *)
Lemma first_alloc nbytes align k pad :
  urange 32 nbytes -> align_ok align ->
  nbytes + header_room (alloc_align align) < 2 ^ 32 -> request_fits nbytes align demo_s ->
  (let '(rv, s') := bmk_memalloc nbytes align demo_s in
   rv <> NULL /\ rd8 (mm s') (ov_index (rv - SIZEOF_OV)) = k /\
   rd32 (mm s') (ov_alignpad (rv - SIZEOF_OV)) = pad) ->
  exists h, heap_ok (snd (bmk_memalloc nbytes align demo_s)) h /\
    h !! (fst (bmk_memalloc nbytes align demo_s) - pad) =
      Some (Block k (Used (fst (bmk_memalloc nbytes align demo_s)))).
Proof.
  intros Hn Ha Hl Hf F; pose proof (memalloc_refines nbytes align demo_s ∅ demo_ok Hn Ha Hl Hf) as H.
  destruct (bmk_memalloc nbytes align demo_s) as [rv s'].
  destruct F as (F0 & F1 & F2), H as (h & Hok & Hs & _ & _).
  inversion Hs as [|h1 b k' ? ? ? ? ? ? ? ?]; subst; [done|].
  exists (<[b := Block k' (Used rv)]> h1); split; [done|]; cbn [fst].
  destruct (ok_used _ _ Hok b k' rv (lookup_insert_eq _ _ _)) as (_ & Hk & Hp & _).
  rewrite Hp, Hk; replace (rv - (rv - b)) with b by lia; apply lookup_insert_eq.
Qed.

Ltac fits_tac :=
  let k := fresh in let Hk := fresh in
  intros k Hk; vm_compute in Hk; injection Hk as <-; split; vm_compute; (discriminate || reflexivity).

Definition demo_s1 : mstate := snd (bmk_memalloc 100 16 demo_s).
Definition demo_p1 : Z := fst (bmk_memalloc 100 16 demo_s).

Lemma demo1_ok : exists h, heap_ok demo_s1 h /\ h !! (demo_p1 - 16) = Some (Block 2 (Used demo_p1)).
Proof.
  apply (first_alloc 100 16 2 16);
    [by vm_compute | by vm_compute | by vm_compute | fits_tac | vm_compute; split; [discriminate|auto]].
Qed.

Lemma bmk_memfree_correct_witness :
  exists h s', heap_ok demo_s1 h /\
    bmk_memfree demo_p1 demo_s1 = Ret s' /\ heap_ok s' (<[demo_p1 - 16 := Block 2 Free]> h).
Proof.
  destruct demo1_ok as (h & Hok & Hb).
  destruct (bmk_memfree_correct demo_s1 h (demo_p1 - 16) 2 demo_p1 Hok Hb) as (s' & ? & ? & _).
  exists h, s'; auto.
Defined.

(** ** Any well-behaved client *)

(** A client holds a list of (pointer, size) pairs.  It may make any servable
    request (with whatever alignment), release a pointer it holds, and store
    into the bytes it asked for. *)
Inductive client_step : mstate * list (Z * Z) -> mstate * list (Z * Z) -> Prop :=
| cl_alloc s L nbytes align rv s' :
    urange 32 nbytes -> urange 32 align -> (align_ok align -> servable nbytes align s) ->
    bmk_memalloc nbytes align s = (rv, s') ->
    client_step (s, L) (s', if rv =? NULL then L else (rv, nbytes) :: L)
| cl_free s L1 L2 p n s' :
    bmk_memfree p s = Ret s' ->
    client_step (s, L1 ++ (p, n) :: L2) (s', L1 ++ L2)
| cl_store s L p n m' :
    (p, n) ∈ L -> only_in (mm s) m' p (p + n) ->
    client_step (s, L) (set_mm m' s, L).

(** The memory ranges of two holdings do not meet, headers included. *)
Definition holds_disj (x y : Z * Z) : Prop :=
  fst x + snd x <= fst y - SIZEOF_OV \/ fst y + snd y <= fst x - SIZEOF_OV.

(** What the client holds, in terms of the abstract heap. *)
Definition held (h : heap) (x : Z * Z) : Prop :=
  0 <= snd x /\ exists b k, h !! b = Some (Block k (Used (fst x))) /\ fst x + snd x <= b + bsize k.

Inductive client_ok (s : mstate) (L : list (Z * Z)) : Prop :=
| ClientOk (h : heap) :
    heap_ok s h -> Forall (held h) L -> NoDup (fst <$> L) -> client_ok s L.

(** A pointer in use determines its block. *)
Lemma used_inj s h b b' k k' cp :
  heap_ok s h -> h !! b = Some (Block k (Used cp)) -> h !! b' = Some (Block k' (Used cp)) -> b = b'.
Proof.
  intros Hok Hb Hb'; destruct (decide (b = b')) as [|Hne]; [done|exfalso].
  destruct (ok_used _ _ Hok _ _ _ Hb) as (_ & _ & _ & [? ?] & _).
  destruct (ok_used _ _ Hok _ _ _ Hb') as (_ & _ & _ & [? ?] & _).
  unfold SIZEOF_OV in *; destruct (ok_disj _ _ Hok _ _ _ _ Hb Hb' Hne); simpl in *; lia.
Qed.

Lemma held_extends h h1 b k cp x :
  extends h h1 -> h1 !! b = Some (Block k Free) -> held h x -> held (<[b := Block k (Used cp)]> h1) x.
Proof.
  intros [Hs _] Hb (Hn & b' & k' & Hb' & ?); split; [done|]. exists b', k'; split; [|done].
  eapply lookup_weaken in Hb'; [|exact Hs].
  rewrite lookup_insert_ne; [done|congruence].
Qed.

Lemma held_neq s h x y :
  heap_ok s h -> held h x -> held h y -> fst x <> fst y -> holds_disj x y.
Proof.
  intros Hok (? & b & k & Hb & ?) (? & b' & k' & Hb' & ?) Hne.
  destruct (ok_used _ _ Hok _ _ _ Hb) as (_ & _ & _ & [? ?] & _).
  destruct (ok_used _ _ Hok _ _ _ Hb') as (_ & _ & _ & [? ?] & _).
  unfold holds_disj, SIZEOF_OV in *; destruct (decide (b = b')) as [->|Hbb]; [congruence|].
  destruct (ok_disj _ _ Hok _ _ _ _ Hb Hb' Hbb); simpl in *; lia.
Qed.

Lemma client_step_ok s L s' L' : client_step (s, L) (s', L') -> client_ok s L -> client_ok s' L'.
Proof.
  intros Hst [h Hok Hh Hnd]; inversion Hst as
    [s0 L0 nbytes align rv s1 Hn Ha Hr E | s0 L1 L2 p n s1 E | s0 L0 p n m' Hin Ho]; subst; clear Hst.
  - pose proof (memalloc_any nbytes align s h Hok Hn Ha Hr) as H; rewrite E in H.
    destruct H as (h' & Hok' & Hsp & _); inversion Hsp as [|h1 b k rv' Hext Hb Hrv ? ? ? ?]; subst.
    + by exists h'.
    + rewrite (proj2 (Z.eqb_neq rv NULL)) by done. exists (<[b := Block k (Used rv)]> h1); [done|..].
      * constructor; [split; [unfold urange in Hn; simpl; lia|]; exists b, k; rewrite lookup_insert_eq; done|].
        eapply Forall_impl; [exact Hh|]; intros x; by apply held_extends.
      * cbn [fmap list_fmap fst]; constructor; [|done].
        intros (x & -> & Hx)%list_elem_of_fmap. rewrite Forall_forall in Hh.
        destruct (Hh _ Hx) as (_ & b' & k' & Hb' & _).
        eapply lookup_weaken in Hb'; [|apply Hext].
        assert (b <> b') by congruence.
        assert ((<[b := Block k (Used (fst x))]> h1) !! b' = Some (Block k' (Used (fst x)))) as Hb2
          by (by rewrite lookup_insert_ne).
        apply (used_inj _ _ _ _ _ _ _ Hok' (lookup_insert_eq _ _ _)) in Hb2; done.
  - apply Forall_app in Hh as [Hh1 Hh2]; apply Forall_cons in Hh2 as [(_ & b & k & Hb & _) Hh2].
    simpl in Hb. rewrite (memfree_used s h b k) in E by done; injection E as <-.
    rewrite fmap_app in Hnd; simpl in Hnd.
    exists (<[b := Block k Free]> h); [by apply (give_ok s h b k p)| |].
    + assert (forall x, x ∈ L1 ++ L2 -> held h x -> held (<[b := Block k Free]> h) x) as Hk.
      { intros x Hx (? & b' & k' & Hb' & ?); split; [done|]; exists b', k'; split; [|done].
        rewrite lookup_insert_ne; [done|]. intros ->. rewrite Hb in Hb'; injection Hb' as -> Hp.
        apply NoDup_app in Hnd as (? & Hd & [Hni ?]%NoDup_cons).
        apply elem_of_app in Hx as [Hx|Hx]; apply (list_elem_of_fmap_2 fst) in Hx; rewrite <- Hp in Hx;
          [apply (Hd _ Hx); set_solver|done]. }
      apply Forall_forall; intros x Hx; apply Hk; [done|].
      rewrite Forall_forall in Hh1, Hh2; apply elem_of_app in Hx as [?|?]; auto.
    + rewrite fmap_app; apply NoDup_app in Hnd as (? & Hd & [Hni ?]%NoDup_cons).
      apply NoDup_app; split_and!; [done| |done]. intros y Hy Hy2; apply (Hd y Hy); set_solver.
  - exists h; [|done..]. rewrite Forall_forall in Hh; destruct (Hh _ Hin) as (? & b & k & Hb & ?); simpl in *.
    apply (user_write_ok s h b k p); [done..|]. eapply only_in_weaken; [exact Ho|lia..].
Qed.

Lemma client_ok_pairs s h L :
  heap_ok s h -> Forall (held h) L -> NoDup (fst <$> L) -> ForallOrdPairs holds_disj L.
Proof.
  intros Hok; induction 1 as [|x L Hx HL IH]; simpl; [constructor|].
  intros [Hni Hnd]%NoDup_cons; constructor; [|auto].
  apply Forall_forall; intros y Hy; rewrite Forall_forall in HL.
  apply (held_neq s h); auto. intros E; apply Hni; rewrite E; by apply list_elem_of_fmap_2.
Qed.

Lemma client_run_ok x y : rtc client_step x y -> client_ok x.1 x.2 -> client_ok y.1 y.2.
Proof.
  induction 1 as [|[s L] [s' L'] y Hs _ IH]; [done|]; intros; apply IH; by eapply client_step_ok.
Qed.

Lemma held_bounds s h x : heap_ok s h -> held h x ->
  bmk_membase (pages s) <= fst x - SIZEOF_OV /\
  fst x + snd x <= bmk_membase (pages s) + bmk_memsize (pages s) /\ fst x mod 4 = 0.
Proof.
  intros Hok (? & b & k & Hb & ?); destruct (ok_used _ _ Hok _ _ _ Hb) as (_ & _ & _ & [? ?] & ?).
  destruct (ok_mem _ _ Hok _ _ Hb) as (? & ? & ? & ? & ?); unfold SIZEOF_OV in *; simpl in *; lia.
Qed.

(** C5: as long as a client, from boot on, only makes servable requests (size
    plus header below 4 GB and no overflow of the page counter, which the code
    does not check), releases what it holds and stores inside its allocations:
    the ranges it holds (with their headers) are pairwise disjoint, 4-byte
    aligned and inside the machine's memory, releasing any of them succeeds,
    and a further request is refused or gets a range that is aligned as asked
    and disjoint from all of them. *)
Theorem allocator_client_safe m p s L :
  pg_wf p -> rtc client_step (memalloc_boot m p, []) (s, L) ->
  ForallOrdPairs holds_disj L /\
  Forall (fun x => bmk_membase (pages s) <= fst x - SIZEOF_OV /\
                   fst x + snd x <= bmk_membase (pages s) + bmk_memsize (pages s) /\
                   fst x mod 4 = 0) L /\
  Forall (fun x => exists s', bmk_memfree (fst x) s = Ret s') L /\
  (forall nbytes align rv s', urange 32 nbytes -> urange 32 align -> (align_ok align -> servable nbytes align s) ->
     bmk_memalloc nbytes align s = (rv, s') -> rv = NULL \/ (rv mod alloc_align align = 0 /\ Forall (holds_disj (rv, nbytes)) L)).
Proof.
  intros Hp Hrun; apply client_run_ok in Hrun as [h Hok Hh Hnd]; simpl in *.
  2:{ exists ∅; [by apply boot_ok|constructor|constructor]. }
  split_and!; [by apply (client_ok_pairs s h)|..].
  - eapply Forall_impl; [exact Hh|]; intros x; by apply held_bounds.
  - eapply Forall_impl; [exact Hh|]; intros x (_ & b & k & Hb & _).
    rewrite (memfree_used s h b k) by done; eauto.
  - intros nbytes align rv s' Hn Ha Hs E; destruct (Z.eq_dec rv NULL) as [|Hne]; [by left|right]; split.
    + pose proof (memalloc_any nbytes align s h Hok Hn Ha Hs) as Hm; rewrite E in Hm; destruct Hm as (h' & _ & Hsp & _).
      by inversion Hsp; subst.
    + assert (client_step (s, L) (s', (rv, nbytes) :: L)) as Hst
        by (pose proof (cl_alloc s L nbytes align rv s' Hn Ha Hs E) as Hst; by rewrite (proj2 (Z.eqb_neq _ _) Hne) in Hst).
      destruct (client_step_ok _ _ _ _ Hst (ClientOk s L h Hok Hh Hnd)) as [h' Hok' Hh' Hnd'].
      pose proof (client_ok_pairs s' h' _ Hok' Hh' Hnd') as Hx; by inversion Hx.
Qed.

Lemma allocator_client_safe_witness :
  exists s L, rtc client_step (demo_s, []) (s, L) /\ length L = 1%nat /\
  ForallOrdPairs holds_disj L /\
  Forall (fun x => bmk_membase (pages s) <= fst x - SIZEOF_OV /\
                   fst x + snd x <= bmk_membase (pages s) + bmk_memsize (pages s) /\
                   fst x mod 4 = 0) L /\
  Forall (fun x => exists s', bmk_memfree (fst x) s = Ret s') L.
Proof.
  assert (rtc client_step (demo_s, []) (demo_s1, [(demo_p1, 100)])) as Hr.
  { apply rtc_once. apply (cl_alloc demo_s [] 100 16 demo_p1 demo_s1);
      [by vm_compute | by vm_compute | intros _; split; [by vm_compute|exact demo_fits] | by vm_compute]. }
  exists demo_s1, [(demo_p1, 100)]; split; [exact Hr|]; split; [reflexivity|].
  destruct (allocator_client_safe ∅ demo_pg demo_s1 [(demo_p1, 100)]) as (H1 & H2 & H3 & _); [by vm_compute|exact Hr|].
  exact (conj H1 (conj H2 H3)).
Defined.

(** ** Requests the code mishandles *)

Lemma bucket0 s : inited s -> forall x, 0 <= x <= 32 -> alloc_bucket s x = Some 0.
Proof.
  intros [Hp _] x Hx; unfold alloc_bucket; rewrite Hp; unfold PAGE_SIZE, RSLOP.
  rewrite (proj2 (Z.leb_le x _)) by lia; cbn [bucket_loop].
  by rewrite (proj2 (Z.ltb_ge _ x)) by (change (Z.shiftl 1 MINSHIFT) with 32; lia).
Qed.

(** The size computation overflows: a request of [2^32 - 8] bytes or more
    (with alignment up to 8) is served exactly as a request for 0 bytes, from
    the 32-byte bucket. *)
Theorem bmk_memalloc_size_overflow nbytes align s :
  pagesz s = 0 \/ inited s -> 2 ^ 32 - 8 <= nbytes < 2 ^ 32 -> align_ok align -> align <= 8 ->
  bmk_memalloc nbytes align s = bmk_memalloc 0 align s.
Proof.
  intros Hi Hn Hal Ha; destruct (alloc_align_pow2 align Hal) as (j & Hj & Ea & _).
  assert (inited (memalloc_init s)) as Hi'.
  { unfold memalloc_init; destruct Hi as [->|[H1 H2]]; [done|]. rewrite H1; done. }
  unfold bmk_memalloc; destruct (negb _); [done|]. rewrite Ea.
  assert (header_room (2 ^ j) = 8) as Hr.
  { unfold header_room; rewrite <- Ea; unfold alloc_align, SIZEOF_PTR.
    destruct (Z.ltb_spec align 4); rewrite (proj2 (Z.leb_le _ _)); lia. }
  unfold alloc_bytes; rewrite header_room_spec, Hr by done.
  assert (u32 (nbytes + 8) = nbytes + 8 - 2 ^ 32) as ->.
  { unfold wrap; rewrite <- (Z_mod_plus_full _ (-1)), Z.mod_small; lia. }
  by rewrite !bucket0 by (done || lia || by vm_compute).
Qed.

Lemma bmk_memalloc_size_overflow_witness :
  bmk_memalloc (2 ^ 32 - 1) 8 demo_s = bmk_memalloc 0 8 demo_s.
Proof.
  apply (bmk_memalloc_size_overflow (2 ^ 32 - 1) 8 demo_s); [by left|lia|by vm_compute|lia].
Defined.

(** [bmk_memfree] does not clobber [ov_magic], which lies beyond the link
    word, so a second release of the same pointer passes the sanity check; on
    an otherwise empty free list of a block with no alignment padding it
    makes the caller's pointer itself the head of the list, an address where
    no block starts. *)
Theorem double_free_undetected s h b k cp s1 :
  heap_ok s h -> h !! b = Some (Block k (Used cp)) -> bmk_memfree cp s = Ret s1 ->
  rd8 (mm s1) (ov_magic (cp - SIZEOF_OV)) = MAGIC /\
  (cp = b + SIZEOF_OV -> get_nextf s k = NULL ->
   exists s2, bmk_memfree cp s1 = Ret s2 /\ get_nextf s2 k = cp /\ h !! cp = None).
Proof.
  intros Hok Hb Hf; rewrite (memfree_used s h b k) in Hf by done; injection Hf as <-.
  destruct (ok_used _ _ Hok _ _ _ Hb) as (Hmag & Hidx & Hpad & Hcp & _).
  destruct (heap_ok_bounds _ _ _ _ Hok Hb) as (Hb0 & Hlim & H32 & Hk); simpl in *.
  unfold ov_magic, ov_index, ov_next, ov_alignpad, SIZEOF_OV in *.
  split; [rewrite rd8_wr32_ne by lia; exact Hmag|].
  intros -> Hnil; unfold bmk_memfree, ov_magic, ov_index, ov_alignpad, ov_next, NULL, SIZEOF_OV in *.
  cbn [mm set_nextf set_mm]; replace (b + 8 - 8) with b in * by lia.
  rewrite (proj2 (Z.eqb_neq (b + 8) 0)) by lia.
  rewrite !rd8_wr32_ne, Hmag, Hidx, Z.eqb_refl, rd32_wr32_eq, Hnil by lia; cbn [negb].
  rewrite (proj2 (Z.ltb_lt k NBUCKETS)) by (unfold NBUCKETS; lia); simpl.
  eexists; split; [done|]; split.
  - rewrite get_set_nextf, decide_True; [| |rewrite <- (ok_nextf _ _ Hok); simpl; apply length_insert|lia..].
    + change (u32 0) with 0; rewrite Z.sub_0_r; apply wrap_id.
      pose proof (bsize_pos k ltac:(lia)); unfold urange; lia.
    + done.
  - destruct (h !! (b + 8)) as [B|] eqn:HB; [|done]; exfalso.
    destruct (heap_ok_bounds _ _ _ _ Hok HB) as (_ & _ & H & _).
    Z.div_mod_to_equations; lia.
Qed.

(** A block that fills its pages: its free list is empty once it is taken. *)
Definition demo_s2 : mstate := snd (bmk_memalloc 5000 8 demo_s).
Definition demo_p2 : Z := fst (bmk_memalloc 5000 8 demo_s).

Lemma demo2_ok : exists h, heap_ok demo_s2 h /\ h !! (demo_p2 - 8) = Some (Block 8 (Used demo_p2)).
Proof.
  apply (first_alloc 5000 8 8 8);
    [by vm_compute | by vm_compute | by vm_compute | fits_tac | vm_compute; split; [discriminate|auto]].
Qed.

Lemma double_free_undetected_witness :
  exists s1 s2, bmk_memfree demo_p2 demo_s2 = Ret s1 /\
    rd8 (mm s1) (ov_magic (demo_p2 - SIZEOF_OV)) = MAGIC /\
    bmk_memfree demo_p2 s1 = Ret s2 /\ get_nextf s2 8 = demo_p2.
Proof.
  destruct demo2_ok as (h & Hok & Hb).
  pose proof (memfree_used demo_s2 h _ 8 demo_p2 Hok Hb) as Hf.
  destruct (double_free_undetected demo_s2 h _ 8 demo_p2 _ Hok Hb Hf) as (Hm & Hd).
  destruct (Hd ltac:(unfold SIZEOF_OV; lia) ltac:(by vm_compute)) as (s2 & Hs2 & Hg & _).
  eexists _, s2; split; [exact Hf|]; auto.
Defined.

(** ** Reallocation *)

(** The room [bmk_memrealloc] computes is 8 bytes less than the block has. *)
Lemma realloc_avail_used s h b k cp :
  heap_ok s h -> h !! b = Some (Block k (Used cp)) ->
  realloc_avail (mm s) cp = u32 (b + bsize k - cp - SIZEOF_OV).
Proof.
  intros Hok Hb; destruct (ok_used _ _ Hok _ _ _ Hb) as (_ & Hidx & Hpad & Hcp & _).
  destruct (heap_ok_bounds _ _ _ _ Hok Hb) as (Hb0 & Hlim & _ & Hk); simpl in *.
  unfold realloc_avail; rewrite Hidx, Hpad, Z.shiftl_1_l; fold (bsize k).
  unfold SIZEOF_OV in *; rewrite (wrap_id 32 (bsize k)) by (unfold urange; lia).
  unfold wrap; rewrite Zminus_mod_idemp_r; f_equal; lia.
Qed.

Lemma alloc_align_8 : alloc_align 8 = 8.
Proof. done. Qed.

(** Moving the contents of [cp] to the new block and releasing [cp]. *)
Lemma realloc_move s1 h1 b k cp b1 k1 np avail :
  heap_ok s1 h1 -> h1 !! b = Some (Block k (Used cp)) -> h1 !! b1 = Some (Block k1 (Used np)) -> b1 <> b ->
  0 <= avail -> cp + avail <= b + bsize k -> np + avail <= b1 + bsize k1 ->
  exists s', bmk_memfree cp (set_mm (fst (bmk_memcpy (mm s1) np cp avail)) s1) = Ret s' /\
    heap_ok s' (<[b := Block k Free]> h1) /\
    forall i, 0 <= i < avail -> rd8 (mm s') (np + i) = rd8 (mm s1) (cp + i).
Proof.
  intros Hok Hb Hb1 Hne Ha Hc Hn.
  destruct (ok_used _ _ Hok _ _ _ Hb) as (_ & _ & _ & [Hcp _] & _).
  destruct (ok_used _ _ Hok _ _ _ Hb1) as (_ & _ & _ & [Hnp _] & _).
  pose proof (ok_disj _ _ Hok _ _ _ _ Hb1 Hb Hne) as Hd; unfold SIZEOF_OV in *; simpl in Hd.
  destruct (heap_ok_bounds _ _ _ _ Hok Hb) as (_ & _ & _ & Hk); simpl in Hk.
  pose proof (bsize_pos k ltac:(lia)) as [Hs _].
  set (m2 := fst (bmk_memcpy (mm s1) np cp avail)).
  assert (Hrd : forall x, rd8 m2 x = if decide (np <= x < np + avail) then rd8 (mm s1) (cp + (x - np)) else rd8 (mm s1) x).
  { intros x; unfold m2; cbn [bmk_memcpy fst]; rewrite memcpy_loop_rd8 by lia.
    by rewrite Z2Nat.id by lia. }
  assert (heap_ok (set_mm m2 s1) h1) as Hok2.
  { apply (user_write_ok s1 h1 b1 k1 np); [done..|]. intros x Hx; rewrite Hrd, decide_False by lia; done. }
  rewrite (memfree_used (set_mm m2 s1) h1 b k cp) by done; eexists; split; [done|]; split.
  - by apply (give_ok (set_mm m2 s1) h1 b k cp).
  - intros i Hi; cbn [mm set_mm set_nextf]; rewrite rd8_wr32_ne by (unfold ov_next; lia).
    rewrite Hrd, decide_True by lia; f_equal; lia.
Qed.

(** C34: [bmk_memrealloc] of a pointer in use, on every branch.  A request for
    0 bytes releases the block.  Otherwise the pointer is kept when the request
    is at most the room the code computes: 8 bytes less than the block has
    from the pointer on, as an unsigned number (for a pointer within 8 bytes of
    the end of its block it wraps around, and every request is kept, see
    [realloc_underflow]).  A larger request gets a new block, to which that
    many bytes of the contents are copied, and the old block is released; or,
    when no memory is left, NULL is returned and the old block, with its
    contents, stays in use.  The request has to be servable (size plus header
    below 4 GB and no overflow of the page counter). *)
Theorem bmk_memrealloc_correct s h b k cp nbytes :
  heap_ok s h -> h !! b = Some (Block k (Used cp)) -> urange 32 nbytes -> servable nbytes 8 s ->
  let room := b + bsize k - cp in
  let avail := u32 (room - SIZEOF_OV) in
  exists np s', bmk_memrealloc cp nbytes s = Ret (np, s') /\
    ((nbytes = 0 /\ np = NULL /\ heap_ok s' (<[b := Block k Free]> h)) \/
     (0 < nbytes <= avail /\ np = cp /\ s' = s) \/
     (avail < nbytes /\ avail = room - SIZEOF_OV /\ np = NULL /\ heap_ok s' h /\ frame h (mm s) (mm s')) \/
     (avail < nbytes /\ avail = room - SIZEOF_OV /\ np <> NULL /\ exists h1 h', heap_ok s' h' /\
        alloc_spec h nbytes 8 np h1 /\ free_spec h1 cp h' /\
        forall i, 0 <= i < avail -> rd8 (mm s') (np + i) = rd8 (mm s) (cp + i))).
Proof.
  intros Hok Hb Hn [Hlim Hreq] room avail; change (header_room (alloc_align 8)) with 8 in Hlim.
  destruct (ok_used _ _ Hok _ _ _ Hb) as (_ & _ & _ & [Hcp Hcp'] & _).
  destruct (heap_ok_bounds _ _ _ _ Hok Hb) as (Hb0 & Hbl & _ & Hk); simpl in *.
  pose proof (realloc_avail_used s h b k cp Hok Hb) as Eav; fold room avail in Eav.
  unfold bmk_memrealloc, NULL in *; rewrite (proj2 (Z.eqb_neq cp 0)) by (unfold SIZEOF_OV in *; lia).
  destruct (Z.eqb_spec nbytes 0) as [->|Hn0].
  { rewrite (memfree_used s h b k) by done; eexists _, _; split; [reflexivity|left]; split_and!; [done|done|by apply (give_ok s h b k cp)]. }
  rewrite Eav; destruct (Z.leb_spec nbytes avail) as [Hle|Hgt]; [exists cp, s; split; [done|right; left; unfold urange in Hn; split_and!; [lia|lia|done|done]]|].
  assert (SIZEOF_OV <= room /\ avail = room - SIZEOF_OV) as [Hroom Eroom].
  { destruct (Z.le_gt_cases SIZEOF_OV room) as [Hr|Hr].
    - split; [done|]; apply wrap_id; unfold room, urange, SIZEOF_OV in *; lia.
    - exfalso; assert (avail = room - SIZEOF_OV + 2 ^ 32) as E; [|unfold room, SIZEOF_OV in *; lia].
      unfold avail, wrap; rewrite <- (Z.mod_add _ 1) by done; rewrite Z.mul_1_l; apply Z.mod_small; unfold room, SIZEOF_OV in *; lia. }
  pose proof (memalloc_refines nbytes 8 s h Hok ltac:(unfold urange in *; lia) ltac:(by vm_compute)) as Hm.
  rewrite alloc_align_8 in Hm; specialize (Hm ltac:(unfold header_room; simpl; lia) Hreq).
  destruct (bmk_memalloc nbytes 8 s) as [np s1].
  destruct Hm as (h1 & Hok1 & Hspec & Hfr & _); inversion Hspec as [|h0 b1 k1 rv Hext Hb1 Hrv ? ? ? ?]; subst.
  { exists NULL, s1; split; [done|]; right; right; left; auto. }
  rewrite (proj2 (Z.eqb_neq np 0)) by done.
  assert (h0 !! b = Some (Block k (Used cp))) as Hb2 by (eapply lookup_weaken; [exact Hb|apply Hext]).
  assert (b1 <> b) as Hbb by (intros ->; congruence).
  destruct (realloc_move s1 (<[b1 := Block k1 (Used np)]> h0) b k cp b1 k1 np avail)
    as (s' & Hf & Hok' & Hcopy); [done|by rewrite lookup_insert_ne|apply lookup_insert_eq|done|
      rewrite ?Eroom in *; unfold room, SIZEOF_OV in *; lia..|].
  unfold bmk_memcpy in *; cbn [fst] in Hf; cbn. rewrite Hf.
  exists np, s'; split; [done|]; right; right; right; split_and!; [done|done|done|].
  exists (<[b1 := Block k1 (Used np)]> h0), (<[b := Block k Free]> (<[b1 := Block k1 (Used np)]> h0)).
  split_and!; [done|done|by constructor; rewrite lookup_insert_ne|].
  intros i Hi; rewrite Hcopy by done. apply (Hfr b k cp Hb); rewrite ?Eroom in *; unfold room, SIZEOF_OV in *; lia.
Qed.

Lemma bmk_memrealloc_correct_witness :
  exists h np s', bmk_memrealloc demo_p2 9000 demo_s2 = Ret (np, s') /\
    (np = demo_p2 \/ (np = NULL /\ heap_ok s' h) \/
     exists h1 h', heap_ok s' h' /\ alloc_spec h 9000 8 np h1 /\ free_spec h1 demo_p2 h').
Proof.
  destruct demo2_ok as (h & Hok & Hb).
  destruct (bmk_memrealloc_correct demo_s2 h (demo_p2 - 8) 8 demo_p2 9000 Hok Hb) as (np & s' & Hr & Hc).
  - unfold urange; lia.
  - split; [by vm_compute|fits_tac].
  - exists h, np, s'; split; [exact Hr|].
    destruct Hc as [(Hz & _)|[(_ & ? & _)|[(_ & _ & ? & ? & _)|(_ & _ & _ & h1 & h' & ? & ? & ? & _)]]];
      [discriminate Hz|eauto 8..].
Defined.

(** Growing a block that is full loses data: 24 bytes fill the 32-byte
    block with its header; after [realloc] to 25 bytes the byte at offset 20
    is not the one that was stored, because only 16 bytes are copied. *)
Theorem realloc_loses_data :
  let '(p, s) := bmk_memalloc 24 8 demo_s in
  let s := set_mm (wr8 (mm s) (p + 20) 7) s in
  match bmk_memrealloc p 25 s with
  | Ret (np, s') => np <> NULL /\ rd8 (mm s) (p + 20) = 7 /\ rd8 (mm s') (np + 20) = 0
  | Halt _ => False
  end.
Proof. vm_compute. split; [discriminate|split; reflexivity]. Qed.

(** When the block has no room at all behind the pointer (a zero-byte
    request whose alignment equals the block size), the room computation
    underflows and [bmk_memrealloc] grants any size up to [2^32 - 8] in
    place, so the caller writes over the blocks that follow. *)
Theorem realloc_underflow s h b k cp nbytes :
  heap_ok s h -> h !! b = Some (Block k (Used cp)) -> cp = b + bsize k ->
  0 < nbytes <= 2 ^ 32 - 8 -> bmk_memrealloc cp nbytes s = Ret (cp, s).
Proof.
  intros Hok Hb Ecp Hn; destruct (heap_ok_bounds _ _ _ _ Hok Hb) as (Hb0 & Hbl & _ & Hk); simpl in *.
  pose proof (bsize_pos k ltac:(lia)).
  unfold bmk_memrealloc, NULL; rewrite (proj2 (Z.eqb_neq cp 0)), (proj2 (Z.eqb_neq nbytes 0)) by lia.
  rewrite (realloc_avail_used s h b k) by done.
  assert (u32 (b + bsize k - cp - SIZEOF_OV) = 2 ^ 32 - 8) as ->
    by (replace (b + bsize k - cp - SIZEOF_OV) with (-8) by (unfold SIZEOF_OV; lia); done).
  by rewrite (proj2 (Z.leb_le _ _)) by lia.
Qed.

Definition demo_s3 : mstate := snd (bmk_memalloc 0 32 demo_s).
Definition demo_p3 : Z := fst (bmk_memalloc 0 32 demo_s).

Lemma demo3_ok : exists h, heap_ok demo_s3 h /\ h !! (demo_p3 - 32) = Some (Block 0 (Used demo_p3)).
Proof.
  apply (first_alloc 0 32 0 32);
    [by vm_compute | by vm_compute | by vm_compute | fits_tac | vm_compute; split; [discriminate|auto]].
Qed.

Lemma realloc_underflow_witness : bmk_memrealloc demo_p3 1000000 demo_s3 = Ret (demo_p3, demo_s3).
Proof.
  destruct demo3_ok as (h & Hok & Hb).
  apply (realloc_underflow demo_s3 h (demo_p3 - 32) 0 demo_p3 1000000 Hok Hb);
    [change (bsize 0) with 32; lia | lia].
Defined.

(** ** memalloc.c implements the allocator interface *)

#[global] Instance memalloc_ops : HeapOps mstate := {
  h_xmalloc := bmk_xmalloc;
  h_memfree := bmk_memfree;
  h_poke a v s := set_mm (wr32 (mm s) a v) s;
}.

Definition memalloc_inv (s : mstate) (L : gmap Z Z) : Prop :=
  exists h, heap_ok s h /\ forall p n, L !! p = Some n -> held h (p, n).

(** The allocator moves neither end of the machine's memory. *)
Lemma memalloc_membase n a s :
  bmk_membase (pages (snd (bmk_memalloc n a s))) = bmk_membase (pages s).
Proof.
  assert (forall k s, bmk_membase (pages (morecore k s)) = bmk_membase (pages s)) as Hc.
  { intros k x; unfold morecore, corealloc, bmk_allocpg.
    destruct (if k <? pagebucket x then _ else _) as [[amt nb] sz].
    destruct (bmk_memsize _ <? _); simpl; [done|]. by destruct (_ =? NULL). }
  unfold bmk_memalloc; assert (pages (memalloc_init s) = pages s) as E
    by (unfold memalloc_init; by destruct (pagesz s =? 0)).
  destruct (negb _); simpl; [by rewrite E|].
  destruct (alloc_bucket _ _) as [k|]; simpl; [|by rewrite E].
  destruct (get_nextf (memalloc_init s) k =? NULL); destruct (_ =? NULL); simpl;
    rewrite ?Hc, E; done.
Qed.

Lemma xmalloc_spec n s L p s' :
  memalloc_inv s L -> 0 <= n < 2 ^ 31 -> request_fits n 0 s -> bmk_xmalloc n s = Ret (p, s') ->
  p <> NULL /\ 0 <= p /\ p + n < 2 ^ 32 /\ L !! p = None /\ memalloc_inv s' (<[p := n]> L) /\
  ~ p < bmk_membase (pages s) /\
  forall a, a < bmk_membase (pages s) -> a < bmk_membase (pages s').
Proof.
  intros (h & Hok & HL) Hn Hf E; unfold bmk_xmalloc in E.
  pose proof (memalloc_refines n 0 s h Hok ltac:(unfold urange; lia) ltac:(by vm_compute)) as Hm.
  change (alloc_align 0) with 4 in Hm; specialize (Hm ltac:(unfold header_room; simpl; lia) Hf).
  pose proof (memalloc_membase n 0 s) as Hbase.
  destruct (bmk_memalloc n 0 s) as [rv s1]; destruct (Z.eqb_spec rv NULL); [done|injection E as -> ->].
  destruct Hm as (h' & Hok' & Hsp & _ & _); inversion Hsp as [|h1 b k rv' Hext Hb Hrv ? ? ? ?]; subst; [done|].
  assert ((<[b := Block k (Used p)]> h1) !! b = Some (Block k (Used p))) as Hbp by apply lookup_insert_eq.
  destruct (heap_ok_bounds _ _ _ _ Hok' Hbp) as (? & ? & _); simpl in *; unfold SIZEOF_OV in *.
  destruct (ok_mem _ _ Hok' _ _ Hbp) as (_ & ? & _).
  split_and!; [done|lia|lia| | |lia|lia].
  - destruct (L !! p) as [n'|] eqn:ELp; [exfalso|done].
    destruct (HL _ _ ELp) as (_ & b' & k' & Hb' & _); simpl in Hb'.
    eapply lookup_weaken in Hb'; [|apply Hext]. assert (b <> b') by congruence.
    apply (used_inj s' (<[b := Block k (Used p)]> h1) b b' k k' p) in Hok'; [done|done|].
    by rewrite lookup_insert_ne.
  - exists (<[b := Block k (Used p)]> h1); split; [done|]; intros q m; rewrite lookup_insert_Some.
    intros [[<- <-]|[Hne Hq]]; [split; [simpl; lia|]; exists b, k; simpl; split; [done|lia]|].
    apply held_extends with h; auto.
Qed.

Lemma memfree_spec s L p :
  memalloc_inv s L -> is_Some (L !! p) ->
  exists s', bmk_memfree p s = Ret s' /\ memalloc_inv s' (delete p L) /\
    forall a, a < bmk_membase (pages s) -> a < bmk_membase (pages s').
Proof.
  intros (h & Hok & HL) [n Hn]; destruct (HL _ _ Hn) as (_ & b & k & Hb & _); simpl in Hb.
  rewrite (memfree_used s h b k) by done; eexists; split; [done|].
  split; [|done]. exists (<[b := Block k Free]> h); split; [by apply (give_ok s h b k p)|].
  intros q m [Hne Hq]%lookup_delete_Some; destruct (HL _ _ Hq) as (? & b' & k' & Hb' & ?).
  split; [done|]; exists b', k'; split; [|done]; simpl in *.
  rewrite lookup_insert_ne; [done|intros ->; congruence].
Qed.

Lemma poke_spec s L p n a v :
  memalloc_inv s L -> L !! p = Some n -> p <= a -> a + 4 <= p + n ->
  memalloc_inv (h_poke a v s) L.
Proof.
  intros (h & Hok & HL) Hp Ha Hb; exists h; split; [|done].
  destruct (HL _ _ Hp) as (? & b & k & Hb' & ?); simpl in *.
  apply (user_write_ok s h b k p); [done..|]. eapply only_in_weaken; [apply only_in_wr32|lia..].
Qed.

#[global] Instance memalloc_laws : HeapLaws mstate := {
  h_inv := memalloc_inv;
  h_serves n s := request_fits n 0 s;
  h_static s a := a < bmk_membase (pages s);
  h_xmalloc_spec := xmalloc_spec;
  h_memfree_spec := memfree_spec;
  h_memfree_null s := eq_refl;
  h_poke_spec := poke_spec;
  h_poke_static _ _ _ _ Hb := Hb;
}.
