(* ===== verification/MemallocTest.v ===== *)
(** * MemallocTest: the statistics and the test program of memalloc.c

    memalloc.c can be built with counters (MSTATS) and as a test program
    (MEMALLOC_TESTING), which also fills the padding in front of a block with
    a pattern and checks it on release.  These parts are modelled here on top
    of Memalloc.v: the counters and [mstats], the padding, and the test
    program's loop.  The source of pages is the kernel's (the test program
    would take them from the host's [malloc]). *)
From S2P Require Import Prelude Mem Subr Pages Memalloc Heap Iface Alloc.

(** ** Statistics *)

(** [nmalloc] next to the allocator's state; [u_int] counters. *)
Record tstate := TState { ms : mstate; nmalloc : list Z }.
Definition get_nmalloc (t : tstate) (k : Z) : Z := default 0 (nmalloc t !! Z.to_nat k).
Definition count (k d : Z) (t : tstate) : tstate :=
  TState (ms t) (<[Z.to_nat k := u32 (get_nmalloc t k + d)]> (nmalloc t)).
Definition test_boot (m : mem) (p : pgstate) : tstate := TState (memalloc_boot m p) (replicate 30 0).

(** [bmk_memalloc] and [bmk_memfree] with their counters: [nmalloc[bucket]++]
    when a block is handed out, [nmalloc[size]--] when one is taken back. *)
Definition stat_memalloc (nbytes align : Z) (t : tstate) : Z * tstate :=
  let '(rv, s) := bmk_memalloc nbytes align (ms t) in
  let t' := TState s (nmalloc t) in
  if rv =? NULL then (rv, t')
  else match alloc_bucket (memalloc_init (ms t)) (alloc_bytes nbytes (alloc_align align)) with
       | Some bucket => (rv, count bucket 1 t')
       | None => (rv, t')
       end.
Definition stat_memfree (cp : Z) (t : tstate) : outcome tstate :=
  s ← bmk_memfree cp (ms t);
  let t' := TState s (nmalloc t) in
  if (cp =? NULL) || negb (rd8 (mm (ms t)) (ov_magic (cp - SIZEOF_OV)) =? MAGIC) then Ret t'
  else Ret (count (rd8 (mm (ms t)) (ov_index (cp - SIZEOF_OV))) (-1) t').

(** The length of a free list: [for (j = 0, p = nextf[i]; p; p = p->ov_next, j++)]. *)
Fixpoint freelen (fuel : nat) (m : mem) (p j : Z) : option Z :=
  if p =? NULL then Some j
  else match fuel with O => None | S fuel => freelen fuel m (rd32 m (ov_next p)) (j + 1) end.

(** The numbers [mstats] prints: the lengths of the free lists, the counters,
    and the totals, computed in [int].  Bucket [i] is weighted with
    [1 << (i + 3)]; for the last bucket, which is always empty, this is 1 << 32,
    which C leaves undefined and the model takes as 0. *)
Definition weight (i : Z) : Z := u32 (Z.shiftl 1 (i + 3)).
Fixpoint mstats_free (fuel n : nat) (i totfree : Z) (t : tstate) : option (list Z * Z) :=
  match n with
  | O => Some ([], totfree)
  | S n =>
      j ← freelen fuel (mm (ms t)) (get_nextf (ms t) i) 0;
      '(l, totfree) ← mstats_free fuel n (i + 1) (i32 (totfree + i32 (j * i32 (weight i)))) t;
      Some (j :: l, totfree)
  end.
Fixpoint mstats_used (n : nat) (i totused : Z) (t : tstate) : list Z * Z :=
  match n with
  | O => ([], totused)
  | S n =>
      let '(l, totused) := mstats_used n (i + 1) (i32 (u32 totused + u32 (get_nmalloc t i * weight i))) t in
      (get_nmalloc t i :: l, totused)
  end.
Definition mstats (fuel : nat) (t : tstate) : option (list Z * list Z * Z * Z) :=
  '(free, totfree) ← mstats_free fuel 30 0 0 t;
  let '(used, totused) := mstats_used 30 0 0 t in
  Some (free, used, totused, totfree).

(** ** What the counters count *)

Definition blocks (k : Z) (st : bool) (h : heap) : heap :=
  filter (fun x => bk (snd x) = k /\ bool_decide (bst (snd x) = Free) = st) h.
Definition nfree (k : Z) (h : heap) : Z := Z.of_nat (size (blocks k true h)).
Definition nused (k : Z) (h : heap) : Z := Z.of_nat (size (blocks k false h)).

Record stats_ok (t : tstate) (h : heap) : Prop := {
  st_heap : heap_ok (ms t) h;
  st_len : length (nmalloc t) = 30%nat;
  st_count : forall k, 0 <= k < NBUCKETS -> get_nmalloc t k = u32 (nused k h);
}.

Lemma blocks_lookup k st h b B : blocks k st h !! b = Some B <->
  h !! b = Some B /\ bk B = k /\ bool_decide (bst B = Free) = st.
Proof. unfold blocks; rewrite map_lookup_filter_Some; done. Qed.

(** Adding free blocks does not change what is in use. *)
Lemma nused_extends k h h1 : extends h h1 -> nused k h1 = nused k h.
Proof.
  intros [Hs Hf]; unfold nused; do 2 f_equal; apply map_eq; intros b; apply option_eq; intros B.
  rewrite !blocks_lookup; split; intros (Hb & Hk & Hst); split_and!; try done; [|by eapply lookup_weaken].
  destruct (h !! b) as [B'|] eqn:E; [by rewrite (lookup_weaken _ _ _ _ E Hs) in Hb|].
  specialize (Hf b B Hb E); rewrite bool_decide_eq_false in Hst; done.
Qed.

(** Taking a free block into use, and giving one back. *)
Lemma nused_take k k' h b cp : h !! b = Some (Block k Free) ->
  nused k' (<[b := Block k (Used cp)]> h) = nused k' h + (if decide (k' = k) then 1 else 0).
Proof.
  intros Hb; assert (blocks k' false h !! b = None) as Hn.
  { destruct (blocks k' false h !! b) as [B|] eqn:E; [|done]; apply blocks_lookup in E as (E & _ & Hst).
    rewrite Hb in E; injection E as <-; cbn in Hst; done. }
  unfold nused; case_decide as Ek.
  - assert (blocks k' false (<[b := Block k (Used cp)]> h) = <[b := Block k (Used cp)]> (blocks k' false h)) as ->.
    { unfold blocks; rewrite map_filter_insert_True; [done|]; split; [done|by apply bool_decide_eq_false]. }
    rewrite map_size_insert_None by done; lia.
  - assert (blocks k' false (<[b := Block k (Used cp)]> h) = blocks k' false h) as ->; [|lia].
    apply map_eq; intros x; apply option_eq; intros B; rewrite !blocks_lookup, lookup_insert_Some; split.
    + intros ([[_ <-]|[_ ?]] & Hk & ?); [cbn in Hk; congruence|done].
    + intros (Hx & Hk & Hst); split_and!; [|done|done]; right; split; [|done]; intros ->; rewrite Hb in Hx.
      injection Hx as <-; cbn in Hk; congruence.
Qed.
Lemma nused_give k k' h b cp : h !! b = Some (Block k (Used cp)) ->
  nused k' (<[b := Block k Free]> h) = nused k' h - (if decide (k' = k) then 1 else 0).
Proof.
  intros Hb; pose proof (nused_take k k' (<[b := Block k Free]> h) b cp (lookup_insert_eq _ _ _)) as Ht.
  rewrite insert_insert_eq, insert_id in Ht by done; lia.
Qed.

(** ** The counters are right *)

(** The bucket of the request is the one in the header that was written. *)
Lemma memalloc_index nbytes align s rv s' : bmk_memalloc nbytes align s = (rv, s') -> rv <> NULL ->
  exists k, alloc_bucket (memalloc_init s) (alloc_bytes nbytes (alloc_align align)) = Some k /\
    rd8 (mm s') (ov_index (rv - SIZEOF_OV)) = u8 k.
Proof.
  unfold bmk_memalloc; intros E Hrv; destruct (negb (Z.land _ _ =? 0)); [injection E as <- _; done|].
  destruct (alloc_bucket _ _) as [k|]; [|injection E as <- _; done]; exists k; split; [done|].
  destruct (get_nextf (if get_nextf (memalloc_init s) k =? NULL then _ else _) k =? NULL); [injection E as <- _; done|].
  injection E as <- <-; cbn [mm set_mm]; unfold ov_index, ov_alignpad, ov_magic.
  by rewrite rd8_wr32_ne, rd8_wr8_eq by lia.
Qed.

Lemma get_count k d t k' : length (nmalloc t) = 30%nat -> 0 <= k < NBUCKETS -> 0 <= k' < NBUCKETS ->
  get_nmalloc (count k d t) k' = if decide (k' = k) then u32 (get_nmalloc t k + d) else get_nmalloc t k'.
Proof.
  intros Hl Hk Hk'; unfold NBUCKETS in *; unfold get_nmalloc at 1, count; cbn [nmalloc]; case_decide as E.
  - subst k'; rewrite list_lookup_insert_eq by lia; done.
  - rewrite list_lookup_insert_ne by lia; done.
Qed.

Lemma stat_memalloc_ok nbytes align t h :
  stats_ok t h -> urange 32 nbytes -> urange 32 align -> (align_ok align -> servable nbytes align (ms t)) ->
  let '(rv, t') := stat_memalloc nbytes align t in
  exists h', stats_ok t' h' /\ alloc_spec h nbytes (alloc_align align) rv h' /\ bmk_memalloc nbytes align (ms t) = (rv, ms t').
Proof.
  intros [Hok Hl Hc] Hn Ha Hr; pose proof (memalloc_any nbytes align (ms t) h Hok Hn Ha Hr) as H.
  unfold stat_memalloc; destruct (bmk_memalloc nbytes align (ms t)) as [rv s'] eqn:E.
  destruct H as (h' & Hok' & Hs & _); destruct (Z.eqb_spec rv NULL) as [->|Hrv].
  - exists h'; split_and!; [|done|done]; inversion Hs; subst; [by constructor|done].
  - destruct (memalloc_index _ _ _ _ _ E Hrv) as (k & Ek & Hi); rewrite Ek; exists h'; split_and!; [|done|done].
    inversion Hs as [|h1 b k' ? Hext Hb ? ? ? ? ?]; subst; [done|].
    destruct (ok_used _ _ Hok' b k' rv (lookup_insert_eq _ _ _)) as (_ & Hi' & _); rewrite Hi in Hi'.
    destruct (heap_ok_bounds _ _ _ _ Hok' (lookup_insert_eq h1 b (Block k' (Used rv)))) as (_ & _ & _ & Hk'); cbn in Hk'.
    pose proof (alloc_bucket_spec (memalloc_init (ms t)) (alloc_bytes nbytes (alloc_align align))) as Hsp; rewrite Ek in Hsp.
    destruct Hsp as (Hk & _); [by destruct (init_ok _ _ Hok) as (_ & ? & _)|apply wrap_range; lia|].
    assert (k = k') as <- by (rewrite <- Hi'; symmetry; apply wrap_id; unfold urange; lia).
    constructor; cbn [count ms nmalloc]; [done|by rewrite length_insert|].
    intros j Hj; change (TState s' (<[_ := _]> (nmalloc t))) with (count k 1 (TState s' (nmalloc t))).
    rewrite get_count by (done || unfold NBUCKETS in *; lia).
    rewrite (nused_take k j h1 b rv Hb), (nused_extends j h h1 Hext).
    change (get_nmalloc (TState s' (nmalloc t))) with (get_nmalloc t); rewrite !Hc by (unfold NBUCKETS in *; lia); case_decide as Ej.
    + subst j; by rewrite wrap_add_l.
    + by rewrite Z.add_0_r.
Qed.

Lemma stat_memfree_ok t h b k cp :
  stats_ok t h -> h !! b = Some (Block k (Used cp)) ->
  exists t', stat_memfree cp t = Ret t' /\ stats_ok t' (<[b := Block k Free]> h) /\ bmk_memfree cp (ms t) = Ret (ms t').
Proof.
  intros [Hok Hl Hc] Hb; pose proof (memfree_used _ _ _ _ _ Hok Hb) as Ef; pose proof (give_ok _ _ _ _ _ Hok Hb) as Hg.
  destruct (ok_used _ _ Hok _ _ _ Hb) as (Hm & Hi & _ & [Hcp _] & _).
  destruct (heap_ok_bounds _ _ _ _ Hok Hb) as (Hb0 & _ & _ & Hk); cbn in Hk.
  unfold stat_memfree; rewrite Ef; cbn [mbind outcome_bind]; rewrite Hm, Hi, Z.eqb_refl.
  rewrite (proj2 (Z.eqb_neq cp NULL)) by (unfold NULL, SIZEOF_OV in *; lia); cbn [orb negb].
  eexists; split_and!; [done| |done]; constructor; cbn [count ms nmalloc]; [done|by rewrite length_insert|].
  intros j Hj; set (s' := set_nextf k b _).
  change (TState s' (<[_ := _]> (nmalloc t))) with (count k (-1) (TState s' (nmalloc t))).
  rewrite get_count by (done || unfold NBUCKETS in *; lia); rewrite (nused_give k j h b cp Hb).
  change (get_nmalloc (TState s' (nmalloc t))) with (get_nmalloc t); rewrite !Hc by (unfold NBUCKETS in *; lia); case_decide as Ej.
  - subst j; by rewrite wrap_add_l.
  - by rewrite Z.sub_0_r.
Qed.

(** The length of a free list is the number of free blocks of its bucket. *)
Lemma freelen_chain m l : forall p j fuel, chain m p l -> (length l <= fuel)%nat ->
  freelen fuel m p j = Some (j + Z.of_nat (length l)).
Proof.
  induction l as [|x l IH]; intros p j fuel; cbn [chain].
  - intros -> _; destruct fuel; cbn; f_equal; lia.
  - intros (-> & Hx & Hc) Hf; destruct fuel as [|fuel]; cbn [length] in Hf; [lia|]; cbn [freelen].
    rewrite (proj2 (Z.eqb_neq x NULL)), (IH _ (j + 1)) by (done || lia); f_equal; cbn [length]; lia.
Qed.
Lemma nfree_list k h l : NoDup l -> (forall b, b ∈ l <-> h !! b = Some (Block k Free)) -> nfree k h = Z.of_nat (length l).
Proof.
  intros Hn Hl; unfold nfree; f_equal; rewrite <- size_dom.
  assert (dom (blocks k true h) = list_to_set l) as ->; [|by rewrite size_list_to_set].
  apply set_eq; intros b; rewrite elem_of_list_to_set, Hl, elem_of_dom; split.
  - intros [[k' st] (Hb & Hk & Hst)%blocks_lookup]; cbn in Hk, Hst; rewrite bool_decide_eq_true in Hst; congruence.
  - intros Hb; exists (Block k Free); apply blocks_lookup; done.
Qed.
Lemma freelen_ok t h k fuel : heap_ok (ms t) h -> 0 <= k < NBUCKETS -> (size h <= fuel)%nat ->
  freelen fuel (mm (ms t)) (get_nextf (ms t) k) 0 = Some (nfree k h).
Proof.
  intros Hok Hk Hf; destruct (ok_free _ _ Hok k Hk) as (l & Hc & Hn & Hl); rewrite (nfree_list k h l Hn Hl).
  rewrite (freelen_chain _ l); [f_equal; lia|done|]; etransitivity; [|exact Hf].
  assert (list_to_set l ⊆ dom h) as Hs by (intros b; rewrite elem_of_list_to_set, Hl, elem_of_dom; by eexists).
  apply subseteq_size in Hs; by rewrite size_list_to_set, size_dom in Hs.
Qed.

(** ** What [mstats] prints *)

Definition buckets : list Z := seqZ 0 30.
Definition sum_over (f : Z -> Z) (l : list Z) : Z := foldr (fun k acc => f k + acc) 0 l.
(** The bytes in free blocks and in blocks in use. *)
Definition free_bytes (h : heap) : Z := sum_over (fun k => nfree k h * bsize k) buckets.
Definition used_bytes (h : heap) : Z := sum_over (fun k => nused k h * bsize k) buckets.

(** Sums in [int] and [unsigned] are right modulo [2^32]. *)
Lemma sext_mult w x : 0 < w -> exists q, sext w x = x + q * 2 ^ w.
Proof.
  intros Hw; exists (- ((x + 2 ^ (w - 1)) / 2 ^ w)); unfold sext.
  assert (0 < 2 ^ w) by (apply Z.pow_pos_nonneg; lia); rewrite Z.mod_eq by lia; lia.
Qed.
Lemma wrap_mult w x : 0 < w -> exists q, wrap w x = x + q * 2 ^ w.
Proof.
  intros Hw; exists (- (x / 2 ^ w)); unfold wrap; assert (0 < 2 ^ w) by (apply Z.pow_pos_nonneg; lia); rewrite Z.mod_eq by lia; lia.
Qed.
Lemma sext_plus w x q : sext w (x + q * 2 ^ w) = sext w x.
Proof.
  unfold sext; replace (x + q * 2 ^ w + 2 ^ (w - 1)) with (x + 2 ^ (w - 1) + q * 2 ^ w) by lia; by rewrite Z_mod_plus_full.
Qed.
Lemma int_step tot j w : i32 (i32 tot + i32 (j * i32 w)) = i32 (tot + j * w).
Proof.
  destruct (sext_mult 32 tot) as [q1 ->]; [lia|]; destruct (sext_mult 32 w) as [q2 ->]; [lia|].
  destruct (sext_mult 32 (j * (w + q2 * 2 ^ 32))) as [q3 ->]; [lia|].
  rewrite <- (sext_plus 32 (tot + j * w) (q1 + j * q2 + q3)); f_equal; lia.
Qed.
Lemma uint_step tot j w : i32 (u32 (i32 tot) + u32 (u32 j * w)) = i32 (tot + j * w).
Proof.
  destruct (sext_mult 32 tot) as [q1 ->]; [lia|]; destruct (wrap_mult 32 (tot + q1 * 2 ^ 32)) as [q2 ->]; [lia|].
  destruct (wrap_mult 32 j) as [q3 ->]; [lia|]; destruct (wrap_mult 32 ((j + q3 * 2 ^ 32) * w)) as [q4 ->]; [lia|].
  rewrite <- (sext_plus 32 (tot + j * w) (q1 + q2 + q3 * w + q4)); f_equal; lia.
Qed.

Lemma mstats_free_ok t h fuel : heap_ok (ms t) h -> (size h <= fuel)%nat ->
  forall n i tot, 0 <= i -> i + Z.of_nat n <= NBUCKETS ->
  mstats_free fuel n i (i32 tot) t =
    Some ((fun k => nfree k h) <$> seqZ i (Z.of_nat n), i32 (tot + sum_over (fun k => nfree k h * weight k) (seqZ i (Z.of_nat n)))).
Proof.
  intros Hok Hf n; induction n as [|n IH]; intros i tot Hi Hn; [cbn; by rewrite Z.add_0_r|].
  cbn [mstats_free]; rewrite (freelen_ok t h i fuel) by (done || lia); cbn [mbind option_bind].
  rewrite int_step.
  rewrite (IH (i + 1)) by lia; cbn [mbind option_bind]; rewrite (seqZ_cons i) by lia.
  rewrite <- Z.add_1_r at 1; replace (Z.pred (Z.of_nat (S n))) with (Z.of_nat n) by lia; cbn [fmap list_fmap sum_over foldr].
  do 2 f_equal; rewrite <- Z.add_assoc; reflexivity.
Qed.

Lemma mstats_used_ok t h : stats_ok t h ->
  forall n i tot, 0 <= i -> i + Z.of_nat n <= NBUCKETS ->
  mstats_used n i (i32 tot) t =
    ((fun k => u32 (nused k h)) <$> seqZ i (Z.of_nat n), i32 (tot + sum_over (fun k => nused k h * weight k) (seqZ i (Z.of_nat n)))).
Proof.
  intros Hok n; induction n as [|n IH]; intros i tot Hi Hn; [cbn; by rewrite Z.add_0_r|].
  cbn [mstats_used]; rewrite (st_count _ _ Hok i) by lia; rewrite uint_step, (IH (i + 1)) by lia; rewrite (seqZ_cons i) by lia.
  rewrite <- Z.add_1_r at 1; replace (Z.pred (Z.of_nat (S n))) with (Z.of_nat n) by lia; cbn [fmap list_fmap sum_over foldr].
  f_equal; rewrite <- Z.add_assoc; reflexivity.
Qed.

(** The weights are a quarter of the block sizes. *)
Lemma weight_bsize k : 0 <= k <= 26 -> 4 * weight k = bsize k.
Proof.
  intros Hk; unfold weight, bsize, MINSHIFT; rewrite Z.shiftl_1_l, wrap_id.
  - replace (k + 5) with (2 + (k + 3)) by lia; rewrite (Z.pow_add_r 2 2) by lia; reflexivity.
  - unfold urange; split; [apply Z.pow_nonneg; lia|]; apply Z.pow_lt_mono_r; lia.
Qed.
Lemma sum_quarter (f : Z -> Z) l : (forall k, k ∈ l -> f k * (4 * weight k) = f k * bsize k) ->
  4 * sum_over (fun k => f k * weight k) l = sum_over (fun k => f k * bsize k) l.
Proof.
  induction l as [|k l IH]; cbn [sum_over foldr]; intros Hf; [done|].
  rewrite Z.mul_add_distr_l, <- (Hf k) by set_solver +; fold (sum_over (fun k => f k * weight k) l).
  rewrite IH by (intros; apply Hf; set_solver); unfold sum_over; lia.
Qed.
Lemma blocks_above k st s h : heap_ok s h -> 26 < k -> blocks k st h = ∅.
Proof.
  intros Hok Hk; apply map_eq; intros b; rewrite lookup_empty; apply eq_None_not_Some; intros [B (Hb & E & _)%blocks_lookup].
  destruct (heap_ok_bounds _ _ _ _ Hok Hb) as (_ & _ & _ & ?); lia.
Qed.

(** C35: the statistics are right.  The counters start at zero, and every
    servable request (size plus header below 4 GB, no overflow of the page
    counter; served, refused or failed) and every release of a pointer in use
    keep them equal to the number of blocks in use; in such a state [mstats] ends and prints, for every bucket, the number of
    its free blocks and of its blocks in use.  The totals it prints are a
    quarter of the bytes in these blocks (the sizes are [1 << (i + 5)], the
    code multiplies with [1 << (i + 3)]), modulo the width of [int]. *)
Theorem mstats_accurate :
  (forall m p, pg_wf p -> stats_ok (test_boot m p) ∅) /\
  (forall nbytes align t h, stats_ok t h -> urange 32 nbytes -> urange 32 align ->
     (align_ok align -> servable nbytes align (ms t)) ->
     let '(rv, t') := stat_memalloc nbytes align t in
     exists h', stats_ok t' h' /\ alloc_spec h nbytes (alloc_align align) rv h' /\
       bmk_memalloc nbytes align (ms t) = (rv, ms t')) /\
  (forall t h b k cp, stats_ok t h -> h !! b = Some (Block k (Used cp)) ->
     exists t', stat_memfree cp t = Ret t' /\ stats_ok t' (<[b := Block k Free]> h) /\ bmk_memfree cp (ms t) = Ret (ms t')) /\
  (forall t h fuel, stats_ok t h -> (size h <= fuel)%nat ->
     exists totused totfree,
       mstats fuel t = Some ((fun k => nfree k h) <$> buckets, (fun k => u32 (nused k h)) <$> buckets, i32 totused, i32 totfree) /\
       4 * totused = used_bytes h /\ 4 * totfree = free_bytes h).
Proof.
  split_and!.
  - intros m p Hp; constructor; [by apply boot_ok|done|]; intros k Hk; unfold get_nmalloc; cbn [nmalloc test_boot].
    unfold NBUCKETS in Hk; by rewrite lookup_replicate_2 by lia.
  - intros; by apply stat_memalloc_ok.
  - intros; by apply stat_memfree_ok.
  - intros t h fuel Hok Hf; pose proof (st_heap _ _ Hok) as Hh.
    exists (sum_over (fun k => nused k h * weight k) buckets), (sum_over (fun k => nfree k h * weight k) buckets); split_and!.
    + unfold mstats; change 0 with (i32 0) at 2 4; rewrite (mstats_free_ok t h fuel Hh Hf 30 0 0) by (unfold NBUCKETS; lia).
      cbn [mbind option_bind]; rewrite (mstats_used_ok t h Hok 30 0 0) by (unfold NBUCKETS; lia); reflexivity.
    + apply sum_quarter; intros k Hk; unfold buckets in Hk; rewrite elem_of_seqZ in Hk.
      destruct (decide (k <= 26)); [by rewrite weight_bsize by lia|]; unfold nused; rewrite (blocks_above k _ _ _ Hh) by lia; done.
    + apply sum_quarter; intros k Hk; unfold buckets in Hk; rewrite elem_of_seqZ in Hk.
      destruct (decide (k <= 26)); [by rewrite weight_bsize by lia|]; unfold nfree; rewrite (blocks_above k _ _ _ Hh) by lia; done.
Qed.

(** One block of 128 bytes in use, the other 31 of its page free. *)
Example mstats_example :
  (fun r => (take 4 r.1.1.1, take 4 r.1.1.2, r.1.2, r.2)) <$> mstats 40 (snd (stat_memalloc 100 16 (test_boot ∅ demo_pg))) =
  Some ([0; 0; 31; 0], [0; 0; 1; 0], 32, 31 * 32).
Proof. vm_compute; reflexivity. Qed.

(** ** The padding of the test build *)

(** [botch]: a message on standard error, and [abort]. *)
Definition botch {A} (s : string) : outcome A := Halt ("assertion botched: " ++ s)%string.
Definition ASSERT (p : bool) (s : string) : outcome unit := if negb p then botch s else Ret tt.

(** [bmk_memalloc] of the test build: [memset(op, MAGIC, alignpad)] from the
    start of the block up to the pointer, then the header over its end. *)
Definition test_memalloc (nbytes align : Z) (s : mstate) : Z * mstate :=
  let '(rv, s) := bmk_memalloc nbytes align s in
  if rv =? NULL then (rv, s)
  else
    let alignpad := rd32 (mm s) (ov_alignpad (rv - SIZEOF_OV)) in
    let bucket := rd8 (mm s) (ov_index (rv - SIZEOF_OV)) in
    let '(m, _) := bmk_memset (mm s) (rv - alignpad) MAGIC alignpad in
    (rv, set_mm (write_header m rv bucket alignpad) s).

(** [for (i = 0; origp + i < op; i++) ASSERT( *(origp + i) == MAGIC)] over
    [n] bytes. *)
Fixpoint pad_check (n : nat) (a : Z) (m : mem) : outcome unit :=
  match n with
  | O => Ret tt
  | S n => _ ← ASSERT (rd8 m a =? MAGIC) "*((uint8_t *)origp + i) == MAGIC"; pad_check n (a + 1) m
  end.

(** [bmk_memfree] of the test build. *)
Definition test_memfree (cp : Z) (s : mstate) : outcome mstate :=
  if cp =? NULL then Ret s
  else
    let op := cp - SIZEOF_OV in
    if negb (rd8 (mm s) (ov_magic op) =? MAGIC) then botch "0"
    else
      _ ← ASSERT (rd8 (mm s) (ov_index op) <? NBUCKETS) "size < NBUCKETS";
      let origp := u32 (cp - rd32 (mm s) (ov_alignpad op)) in
      _ ← pad_check (Z.to_nat (op - origp)) origp (mm s);
      bmk_memfree cp s.

Definition padded (m : mem) (b cp : Z) : Prop := forall x, b <= x < cp - SIZEOF_OV -> rd8 m x = MAGIC.
(** The heap with the padding of every block in use intact. *)
Definition test_ok (s : mstate) (h : heap) : Prop :=
  heap_ok s h /\ forall b k cp, h !! b = Some (Block k (Used cp)) -> padded (mm s) b cp.

Lemma pad_check_ok n : forall a m, (pad_check n a m = Ret tt <-> forall x, a <= x < a + Z.of_nat n -> rd8 m x = MAGIC).
Proof.
  induction n as [|n IH]; intros a m; cbn [pad_check]; [split; [intros _ x Hx; lia|done]|].
  unfold ASSERT; destruct (Z.eqb_spec (rd8 m a) MAGIC) as [E|E]; cbn [negb mbind outcome_bind].
  - rewrite IH; split; intros Hx x Hr; [|apply Hx; lia]; destruct (decide (x = a)) as [->|]; [done|]; apply Hx; lia.
  - split; [done|]; intros Hx; exfalso; apply E, Hx; lia.
Qed.
Lemma pad_check_halt n a m : pad_check n a m <> Ret tt -> exists msg, pad_check n a m = Halt msg.
Proof. destruct (pad_check n a m) as [[]|msg]; [done|eauto]. Qed.

(** Only the padding and the unused header bytes differ. *)
Lemma test_memalloc_ok nbytes align s h :
  test_ok s h -> urange 32 nbytes -> align_ok align ->
  nbytes + header_room (alloc_align align) < 2 ^ 32 -> request_fits nbytes align s ->
  let '(rv, s') := test_memalloc nbytes align s in
  exists h', test_ok s' h' /\ alloc_spec h nbytes (alloc_align align) rv h' /\ frame h (mm s) (mm s').
Proof.
  intros [Hok Hp] Hn Ha Hf Hr; pose proof (memalloc_refines nbytes align s h Hok Hn Ha Hf Hr) as H.
  unfold test_memalloc; destruct (bmk_memalloc nbytes align s) as [rv s']; destruct H as (h' & Hok' & Hs & Hfr & _).
  assert (forall b k cp, h !! b = Some (Block k (Used cp)) -> padded (mm s') b cp) as Hold.
  { intros b k cp Hb x Hx; rewrite (Hfr _ _ _ Hb); [by eapply Hp|].
    destruct (ok_used _ _ Hok _ _ _ Hb) as (_ & _ & _ & [? ?] & _); unfold SIZEOF_OV in *; lia. }
  destruct (Z.eqb_spec rv NULL) as [->|Hrv].
  { exists h'; split_and!; [|done|done]; split; [done|]; inversion Hs; subst; [done..|]; done. }
  inversion Hs as [|h1 b k ? Hext Hb ? ? ? ? ?]; subst; [done|].
  pose proof (lookup_insert_eq h1 b (Block k (Used rv))) as Hnew.
  destruct (ok_used _ _ Hok' _ _ _ Hnew) as (_ & Hi & Hpad & [Hlo Hhi] & H4).
  destruct (heap_ok_bounds _ _ _ _ Hok' Hnew) as (Hb0 & Hlim & _ & Hk); cbn [bk] in *; unfold SIZEOF_OV in Hlo.
  rewrite Hi, Hpad; unfold bmk_memset; replace (rv - (rv - b)) with b by lia.
  set (m1 := memset_loop _ (mm s') b MAGIC); set (m2 := write_header m1 rv k (rv - b)).
  assert (only_in (mm s') m2 b rv) as Ho.
  { intros x Hx; unfold m2; rewrite write_header_only_in by lia; unfold m1; by rewrite memset_loop_rd8, decide_False by lia. }
  assert (forall b' k' cp', h1 !! b' = Some (Block k' (Used cp')) -> b' <> b /\ forall x, b' <= x < b' + bsize k' -> rd8 m2 x = rd8 (mm s') x) as Hkeep.
  { intros b' k' cp' Hb'; assert (b' <> b) as Hne by (intros ->; congruence); split; [done|]; intros x Hx; apply Ho.
    assert ((<[b := Block k (Used rv)]> h1) !! b' = Some (Block k' (Used cp'))) as Hb2 by (by rewrite lookup_insert_ne).
    destruct (ok_disj _ _ Hok' _ _ _ _ Hb2 Hnew Hne); cbn [bk] in *; lia. }
  exists (<[b := Block k (Used rv)]> h1); split_and!; [split|by apply alloc_block|].
  - apply (block_write_ok s' _ b k rv); [done|done|eapply only_in_weaken; [exact Ho|lia..]|].
    unfold m2; replace (rv - b) with (u32 (rv - b)) by (apply wrap_id; unfold urange; lia); apply write_header_ok; lia.
  - intros b' k' cp' Hb' x Hx; cbn [mm set_mm]; destruct (decide (b' = b)) as [->|Hne].
    + rewrite Hnew in Hb'; injection Hb' as <- <-; unfold m2, SIZEOF_OV in *; rewrite write_header_only_in by lia.
      unfold m1; rewrite memset_loop_rd8, decide_True by lia; done.
    + rewrite lookup_insert_ne in Hb' by done; destruct (Hkeep _ _ _ Hb') as [_ Hk']; rewrite Hk'.
      * destruct (h !! b') as [B|] eqn:E.
        -- pose proof (lookup_weaken _ _ _ _ E (proj1 Hext)) as E'; rewrite Hb' in E'; injection E' as <-; by eapply Hold.
        -- by destruct Hext as [_ Hf']; specialize (Hf' b' _ Hb' E).
      * assert ((<[b := Block k (Used rv)]> h1) !! b' = Some (Block k' (Used cp'))) as Hb2 by (by rewrite lookup_insert_ne).
        destruct (ok_used _ _ Hok' _ _ _ Hb2) as (_ & _ & _ & [? ?] & _); unfold SIZEOF_OV in *; lia.
  - intros b' k' cp' Hb' x Hx; cbn [mm set_mm]; pose proof (lookup_weaken _ _ _ _ Hb' (proj1 Hext)) as Hb1.
    destruct (Hkeep _ _ _ Hb1) as [_ Hk']; rewrite Hk' by done; by apply (Hfr _ _ _ Hb').
Qed.

Lemma test_memfree_unfold s h b k cp : heap_ok s h -> h !! b = Some (Block k (Used cp)) ->
  test_memfree cp s = (_ ← pad_check (Z.to_nat (cp - SIZEOF_OV - b)) b (mm s); bmk_memfree cp s).
Proof.
  intros Hok Hb; destruct (ok_used _ _ Hok _ _ _ Hb) as (Hm & Hi & Hp & [Hlo Hhi] & _).
  destruct (heap_ok_bounds _ _ _ _ Hok Hb) as (Hb0 & Hlim & _ & Hk); cbn [bk] in *.
  unfold test_memfree, ASSERT; rewrite Hm, Hi, Hp, Z.eqb_refl; cbn [negb].
  rewrite (proj2 (Z.eqb_neq cp NULL)) by (unfold NULL, SIZEOF_OV in *; lia).
  rewrite (proj2 (Z.ltb_lt k NBUCKETS)) by (unfold NBUCKETS; lia); cbn [negb mbind outcome_bind].
  replace (u32 (cp - (cp - b))) with b by (rewrite wrap_id; unfold urange, SIZEOF_OV in *; lia); done.
Qed.

(** The checks of the test build are silent for correct clients and catch an
    underrun: the padding of every block in use is intact after allocations,
    after stores of the client into its own memory and after releases, which
    never botch; a block whose padding was changed cannot be released. *)
Theorem testing_checks s h :
  test_ok s h ->
  (forall nbytes align, urange 32 nbytes -> align_ok align ->
     nbytes + header_room (alloc_align align) < 2 ^ 32 -> request_fits nbytes align s ->
     let '(rv, s') := test_memalloc nbytes align s in
     exists h', test_ok s' h' /\ alloc_spec h nbytes (alloc_align align) rv h' /\ frame h (mm s) (mm s')) /\
  (forall b k cp, h !! b = Some (Block k (Used cp)) ->
     (exists s', test_memfree cp s = Ret s' /\ bmk_memfree cp s = Ret s' /\ test_ok s' (<[b := Block k Free]> h)) /\
     (forall m', only_in (mm s) m' cp (b + bsize k) -> test_ok (set_mm m' s) h) /\
     (forall x v, b <= x < cp - SIZEOF_OV -> u8 v <> MAGIC ->
        exists msg, test_memfree cp (set_mm (wr8 (mm s) x v) s) = Halt msg)).
Proof.
  intros [Hok Hp]; split; [intros; by apply test_memalloc_ok|].
  intros b k cp Hb; destruct (ok_used _ _ Hok _ _ _ Hb) as (Hm & Hi & Hpd & [Hlo Hhi] & H4); unfold SIZEOF_OV in Hlo.
  assert (forall b' k' cp', h !! b' = Some (Block k' (Used cp')) -> b' + 8 <= cp' <= b' + bsize k') as Hcp'.
  { intros b' k' cp' Hb'; destruct (ok_used _ _ Hok _ _ _ Hb') as (_ & _ & _ & ? & _); unfold SIZEOF_OV in *; lia. }
  split_and!.
  - rewrite (test_memfree_unfold s h b k cp Hok Hb), (proj2 (pad_check_ok _ _ _)).
    2:{ intros x Hx; apply (Hp _ _ _ Hb); unfold SIZEOF_OV in *; lia. }
    cbn [mbind outcome_bind]; destruct (bmk_memfree_correct s h b k cp Hok Hb) as (s' & -> & Hok' & _ & Hfr).
    exists s'; split_and!; [done|done|]; split; [done|]; intros b' k' cp' [[_ [=]]|[Hne Hb']]%lookup_insert_Some x Hx.
    rewrite (Hfr b' k' cp'); [by eapply Hp|by rewrite lookup_delete_ne|]; pose proof (Hcp' _ _ _ Hb'); unfold SIZEOF_OV in *; lia.
  - intros m' Ho; split; [by eapply user_write_ok|]; intros b' k' cp' Hb' x Hx; cbn [mm set_mm].
    rewrite Ho; [by eapply Hp|]; pose proof (Hcp' _ _ _ Hb'); unfold SIZEOF_OV in *; destruct (decide (b' = b)) as [->|Hne].
    + rewrite Hb in Hb'; injection Hb' as <- <-; lia.
    + destruct (ok_disj _ _ Hok _ _ _ _ Hb' Hb Hne); cbn [bk] in *; lia.
  - intros x v Hx Hv; assert (heap_ok (set_mm (wr8 (mm s) x v) s) h) as Hok2.
    { apply (block_write_ok s h b k cp); [done|done|eapply only_in_weaken; [apply only_in_wr8|unfold SIZEOF_OV in *; lia..]|].
      eapply header_frame; [|by apply (ok_used _ _ Hok)]; intros y Hy; rewrite rd8_wr8_ne; [done|unfold SIZEOF_OV in *; lia]. }
    rewrite (test_memfree_unfold _ h b k cp Hok2 Hb); cbn [mm set_mm].
    destruct (pad_check_halt (Z.to_nat (cp - SIZEOF_OV - b)) b (wr8 (mm s) x v)) as [msg ->]; [|by exists msg].
    rewrite pad_check_ok; intros Hall; apply Hv; rewrite <- (rd8_wr8_eq (mm s) x v); apply Hall; unfold SIZEOF_OV in *; lia.
Qed.

(** ** The test program *)

Definition UNMAGIC : Z := 0x12.
Definition UNMAGIC2 : Z := 0x24.
Definition TEST_MINALLOC : Z := 0.
Definition TEST_MAXALLOC : Z := 64 * 1024.
Definition TEST_MINALIGN : Z := 1.
Definition TEST_MAXALIGN : Z := 16.
Definition NALLOC : nat := 1024.
Definition NRING : nat := 16.

Section Driver.
(** The allocator under test and the functions of the host; [memrealloc] is
    the name the program calls, which nothing in the repository defines. *)
Context {S : Type}.
Variables memalloc memrealloc : Z -> Z -> S -> outcome (Z * S).
Variable memfree : Z -> S -> outcome S.
Variable memset : Z -> Z -> Z -> S -> S.
Variable random : S -> Z * S.

Definition testalloc (s : S) : outcome (Z * S) :=
  let '(r, s) := random s in
  let size1 := r mod ((TEST_MAXALLOC - TEST_MINALLOC) + 1) + TEST_MINALLOC in
  let '(r, s) := random s in
  let align := r mod ((TEST_MAXALIGN - TEST_MINALIGN) + 1) + TEST_MINALIGN in
  '(v, s) ← memalloc size1 (Z.shiftl 1 align) s;
  if v =? NULL then Ret (NULL, s)
  else
    _ ← ASSERT (Z.land v (align - 1) =? 0) "((uintptr_t)v & (align-1)) == 0";
    let s := memset v UNMAGIC size1 s in
    let '(r, s) := random s in
    let size2 := r mod ((TEST_MAXALLOC - TEST_MINALLOC) + 1) + TEST_MINALLOC in
    '(nv, s) ← memrealloc v size2 s;
    if negb (nv =? NULL) then Ret (nv, memset nv UNMAGIC2 size2 s)
    else Ret (if negb (size2 =? 0) then v else NULL, s).

(** [rings], by ring and index: [rings[n * NALLOC + i]] is [rings n i]. *)
Definition put (r c : nat) (v : Z) (rings : nat -> nat -> Z) (r' c' : nat) : Z :=
  if decide (r' = r /\ c' = c) then v else rings r' c'.
(** [k] rounds of the inner loop of [main], from index [i]. *)
Fixpoint ring_loop (k n i : nat) (rings : nat -> nat -> Z) (s : S) : outcome ((nat -> nat -> Z) * S) :=
  match k with
  | O => Ret (rings, s)
  | Datatypes.S k =>
      '(v, s) ← testalloc s;
      let rings := put n i v rings in
      s ← memfree (rings ((n + NRING / 2) mod NRING)%nat i) s;
      ring_loop k n (Datatypes.S i) rings s
  end.
(** [rounds] rounds of the endless loop of [main]. *)
Fixpoint main_loop (rounds n : nat) (rings : nat -> nat -> Z) (s : S) : outcome (nat * (nat -> nat -> Z) * S) :=
  match rounds with
  | O => Ret (n, rings, s)
  | Datatypes.S rounds =>
      '(rings, s) ← ring_loop NALLOC n 0 rings s;
      main_loop rounds ((n + 1) mod NRING)%nat rings s
  end.
Definition main (rounds : nat) (s : S) : outcome (nat * (nat -> nat -> Z) * S) := main_loop rounds 0 (fun _ _ => NULL) s.

(** What the allocator owes the program: [owns s L] says that the program
    holds exactly the blocks [L] (address and size). *)
Class TestLaws := {
  owns : S -> list (Z * Z) -> Prop;
  owns_perm : forall s L L', L ≡ₚ L' -> owns s L -> owns s L';
  random_law : forall s L, owns s L -> owns (snd (random s)) L;
  memalloc_law : forall s L n a, owns s L -> 0 <= n <= TEST_MAXALLOC -> TEST_MINALIGN <= a <= TEST_MAXALIGN ->
    exists v s', memalloc n (2 ^ a) s = Ret (v, s') /\ 0 <= v /\
      if decide (v = NULL) then owns s' L else v mod 2 ^ a = 0 /\ owns s' ((v, n) :: L);
  memrealloc_law : forall s L v n n', owns s ((v, n) :: L) -> 0 <= n' <= TEST_MAXALLOC ->
    exists v' s', memrealloc v n' s = Ret (v', s') /\
      owns s' (if decide (v' = NULL) then if decide (n' = 0) then L else (v, n) :: L else (v', n') :: L);
  memset_law : forall s L v n c, owns s ((v, n) :: L) -> owns (memset v c n s) ((v, n) :: L);
  memfree_law : forall s L v n, owns s ((v, n) :: L) -> exists s', memfree v s = Ret s' /\ owns s' L;
  memfree_null : forall s, memfree NULL s = Ret s;
}.
Context `{TestLaws}.

Lemma align_assert v a : 0 <= v -> 1 <= a -> v mod 2 ^ a = 0 -> Z.land v (a - 1) = 0.
Proof.
  intros Hv Ha Hm; apply Z.bits_inj'; intros i Hi; rewrite Z.land_spec, Z.bits_0.
  destruct (decide (i < a)).
  - assert (v = v / 2 ^ a * 2 ^ a) as -> by (rewrite (Z.div_mod v (2 ^ a)) at 1 by (apply Z.pow_nonzero; lia); lia).
    by rewrite Z.mul_pow2_bits_low.
  - rewrite (testbit_above (a - 1) a i); [apply andb_false_r| |lia]; split; [lia|].
    assert (a < 2 ^ a) by (apply Z.pow_gt_lin_r; lia); lia.
Qed.

(** One call: the assertion holds, and the program holds one block more,
    unless NULL is returned. *)
Lemma testalloc_ok s L : owns s L -> exists v s' n, testalloc s = Ret (v, s') /\
  owns s' (if decide (v = NULL) then L else (v, n) :: L).
Proof.
  intros Ho; unfold testalloc; pose proof (random_law s L Ho) as Ho1; destruct (random s) as [r1 s1]; cbn [snd] in Ho1.
  pose proof (random_law s1 L Ho1) as Ho2; destruct (random s1) as [r2 s2]; cbn [snd] in Ho2.
  set (n1 := r1 mod _ + _); set (a := r2 mod _ + _).
  assert (0 <= n1 <= TEST_MAXALLOC) as Hn1 by (unfold n1, TEST_MAXALLOC, TEST_MINALLOC; Z.div_mod_to_equations; lia).
  assert (TEST_MINALIGN <= a <= TEST_MAXALIGN) as Ha by (unfold a, TEST_MAXALIGN, TEST_MINALIGN; Z.div_mod_to_equations; lia).
  rewrite Z.shiftl_1_l; destruct (memalloc_law s2 L n1 a Ho2 Hn1 Ha) as (v & s3 & -> & Hv & Ho3); cbn [mbind outcome_bind].
  destruct (decide (v = NULL)) as [->|Hnv]; [exists NULL, s3, 0; by rewrite decide_True|]; destruct Ho3 as [Hal Ho3].
  rewrite (proj2 (Z.eqb_neq v NULL)) by done; unfold ASSERT.
  rewrite align_assert by (done || unfold TEST_MINALIGN in *; lia); cbn [Z.eqb negb mbind outcome_bind].
  pose proof (random_law _ _ (memset_law s3 L v n1 UNMAGIC Ho3)) as Ho4; destruct (random _) as [r3 s4]; cbn [snd] in Ho4.
  set (n2 := r3 mod _ + _).
  assert (0 <= n2 <= TEST_MAXALLOC) as Hn2 by (unfold n2, TEST_MAXALLOC, TEST_MINALLOC; Z.div_mod_to_equations; lia).
  destruct (memrealloc_law s4 L v n1 n2 Ho4 Hn2) as (v' & s5 & -> & Ho5); cbn [mbind outcome_bind].
  destruct (decide (v' = NULL)) as [->|Hnv'].
  - rewrite Z.eqb_refl; cbn [negb]; destruct (decide (n2 = 0)) as [En|En].
    + exists NULL, s5, 0; rewrite En; by rewrite decide_True.
    + exists v, s5, n1; rewrite (proj2 (Z.eqb_neq n2 0)) by done; by rewrite decide_False.
  - rewrite (proj2 (Z.eqb_neq v' NULL)) by done; cbn [negb]; eexists v', _, n2; split; [done|].
    rewrite decide_False by done; by apply memset_law.
Qed.

(** The slots whose pointer the program still holds, before index [i] of
    round [n]: those of the rings filled in the last rounds, half the number
    of rings. *)
Definition slots : list (nat * nat) := seq 0 NRING ≫= fun r => pair r <$> seq 0 NALLOC.
Definition live (n i : nat) (x : nat * nat) : bool :=
  let '(r, c) := x in
  if decide (r = n) then (c <? i)%nat
  else if decide (r = (n + NRING / 2) mod NRING)%nat then (i <=? c)%nat
  else ((n + 15 - r) mod NRING <? NRING / 2)%nat.
Definition holding (n i : nat) (rings : nat -> nat -> Z) (x : nat * nat) : bool :=
  live n i x && negb (rings x.1 x.2 =? NULL).
(** The program owns the blocks the live slots point at, and no others. *)
Definition ring_ok (n i : nat) (rings : nat -> nat -> Z) (s : S) : Prop :=
  exists sz : nat * nat -> Z, owns s ((fun x => (rings x.1 x.2, sz x)) <$> filter (fun x => holding n i rings x = true) slots).

Lemma filter_add (P P' : nat * nat -> bool) x l :
  NoDup l -> x ∈ l -> P x = false -> P' x = true -> (forall y, y <> x -> P' y = P y) ->
  filter (fun y => P' y = true) l ≡ₚ x :: filter (fun y => P y = true) l.
Proof.
  intros Hn Hx Hp Hp' He; apply list_elem_of_split in Hx as (l1 & l2 & ->).
  assert (x ∉ l1 ++ l2) as Hni by (rewrite <- Permutation_middle in Hn; by apply NoDup_cons in Hn as [? _]).
  rewrite !filter_app, filter_cons_True, filter_cons_False by congruence; rewrite <- Permutation_middle; apply Permutation_skip.
  assert (forall l : list (nat * nat), x ∉ l -> filter (fun y => P' y = true) l = filter (fun y => P y = true) l) as Hf.
  { intros l; induction l as [|y l IH]; [done|]; intros [Hy Hl]%not_elem_of_cons.
    rewrite !filter_cons, IH by done; assert (P' y = P y) as -> by (apply He; congruence); done. }
  by rewrite !Hf by set_solver.
Qed.
Lemma slots_NoDup : NoDup slots.
Proof.
  apply NoDup_bind; [|intros r _; apply NoDup_fmap_2; [by intros ?? [=]|apply NoDup_seq]|apply NoDup_seq].
  intros r r' x _ _; rewrite !list_elem_of_fmap; intros (? & -> & _) (? & [= ->] & _); done.
Qed.
Lemma in_slots r c : (r, c) ∈ slots <-> (r < NRING)%nat /\ (c < NALLOC)%nat.
Proof.
  unfold slots; rewrite list_elem_of_bind; setoid_rewrite list_elem_of_fmap; setoid_rewrite elem_of_seq; split.
  - intros (r' & (c' & [= -> ->] & ?) & ?); lia.
  - intros [? ?]; exists r; split; [exists c; split; [done|lia]|lia].
Qed.

(** A round leaves what the next one expects. *)
Lemma live_next n r c : (n < NRING)%nat -> (r < NRING)%nat -> (c < NALLOC)%nat ->
  live n NALLOC (r, c) = live ((n + 1) mod NRING) 0 (r, c).
Proof.
  intros Hn Hr Hc; assert (forall n r, (n < 16)%nat -> (r < 16)%nat ->
    (if decide (r = n) then true else if decide (r = (n + 8) mod 16)%nat then false else ((n + 15 - r) mod 16 <? 8)%nat) =
    (if decide (r = (n + 1) mod 16)%nat then false
     else if decide (r = ((n + 1) mod 16 + 8) mod 16)%nat then true else (((n + 1) mod 16 + 15 - r) mod 16 <? 8)%nat)) as Hall.
  { clear; intros n r Hn Hr.
    do 16 (destruct n as [|n]; [do 16 (destruct r as [|r]; [by vm_compute|]); lia|]); lia. }
  specialize (Hall n r Hn Hr); unfold live; change (NRING / 2)%nat with 8%nat; change NRING with 16%nat.
  rewrite (proj2 (Nat.ltb_lt c NALLOC)), (proj2 (Nat.leb_gt NALLOC c)), (proj2 (Nat.ltb_ge c 0)), (proj2 (Nat.leb_le 0 c)) by lia.
  exact Hall.
Qed.

Lemma filter_eq (P P' : nat * nat -> bool) (l : list (nat * nat)) : (forall x, P' x = P x) ->
  filter (fun x => P' x = true) l = filter (fun x => P x = true) l.
Proof. intros He; induction l as [|x l IH]; [done|]; by rewrite !filter_cons, He, IH. Qed.

(** One turn of the inner loop: fill a slot of ring [n], release the slot of
    the opposite ring. *)
Lemma ring_step n i rings s : (n < NRING)%nat -> (i < NALLOC)%nat -> ring_ok n i rings s ->
  exists v s1 s2, testalloc s = Ret (v, s1) /\
    memfree (put n i v rings ((n + NRING / 2) mod NRING)%nat i) s1 = Ret s2 /\
    ring_ok n (Datatypes.S i) (put n i v rings) s2.
Proof.
  intros Hn Hi (sz & Ho); destruct (testalloc_ok s _ Ho) as (v & s1 & k & Ht & Ho1); exists v, s1.
  set (nf := ((n + NRING / 2) mod NRING)%nat) in *.
  assert (nf < NRING)%nat as Hnf by (apply Nat.mod_upper_bound; unfold NRING; lia).
  assert (n <> nf) as Hne by (unfold nf, NRING in *; change (16 / 2)%nat with 8%nat; pose proof (Nat.div_mod (n + 8) 16 ltac:(lia)); lia).
  set (rings' := put n i v rings).
  assert (forall x, x <> (n, i) -> rings' x.1 x.2 = rings x.1 x.2) as Hrings.
  { intros [r c] Hx; unfold rings', put; cbn; rewrite decide_False; [done|]; intros [-> ->]; done. }
  assert (rings' n i = v) as Hv by (unfold rings', put; by rewrite decide_True).
  set (P := holding n i rings) in *; set (R := holding n (Datatypes.S i) rings').
  set (Q := fun x => if decide (x = (n, i)) then negb (v =? NULL) else P x).
  set (sz' := fun x => if decide (x = (n, i)) then k else sz x); set (g' := fun x => (rings' x.1 x.2, sz' x)).
  assert (P (n, i) = false) as Pa by (unfold P, holding, live; by rewrite decide_True, (proj2 (Nat.ltb_ge i i)) by lia).
  assert (P (nf, i) = negb (rings nf i =? NULL)) as Pf.
  { unfold P, holding, live; fold nf; rewrite (decide_False (P := nf = n)), decide_True by done; by rewrite (proj2 (Nat.leb_le i i)) by lia. }
  assert (R (nf, i) = false) as Rf.
  { unfold R, holding, live; fold nf; rewrite (decide_False (P := nf = n)), decide_True by done; by rewrite (proj2 (Nat.leb_gt (Datatypes.S i) i)) by lia. }
  assert (forall x, x <> (nf, i) -> R x = Q x) as RQ.
  { intros [r c] Hx; unfold R, Q, P, holding; destruct (decide ((r, c) = (n, i))) as [E|E].
    - injection E as -> ->; cbn [fst snd]; rewrite Hv; unfold live; rewrite decide_True by done.
      by rewrite (proj2 (Nat.ltb_lt i (Datatypes.S i))) by lia.
    - rewrite (Hrings (r, c)) by done; f_equal; unfold live; fold nf.
      destruct (decide (r = n)) as [Er|]; [rewrite Er in *|destruct (decide (r = nf)) as [Er|]; [rewrite Er in *|done]].
      + apply eq_true_iff_eq; rewrite !Nat.ltb_lt; split; [|lia]; intros; destruct (decide (c = i)) as [->|]; [done|lia].
      + apply eq_true_iff_eq; rewrite !Nat.leb_le; split; [lia|]; intros; destruct (decide (c = i)) as [->|]; [done|lia]. }
  (* the blocks after the allocation *)
  assert (owns s1 (g' <$> filter (fun x => Q x = true) slots)) as Ho2.
  { assert (forall x, x ∈ filter (fun x => P x = true) slots -> g' x = (rings x.1 x.2, sz x)) as Hg.
    { intros x [Hx _]%list_elem_of_filter; assert (x <> (n, i)) by congruence; unfold g', sz'; by rewrite Hrings, decide_False. }
    assert (g' <$> filter (fun x => P x = true) slots = (fun x => (rings x.1 x.2, sz x)) <$> filter (fun x => P x = true) slots) as Hmap
      by (apply list_fmap_ext; intros j x Hj; apply Hg; by eapply list_elem_of_lookup_2).
    destruct (decide (v = NULL)) as [->|Hvn].
    - rewrite (filter_eq P Q); [by rewrite Hmap|]; intros x; unfold Q; case_decide; [subst; by rewrite Pa|done].
    - eapply owns_perm; [|exact Ho1]; symmetry.
      rewrite (filter_add P Q (n, i)); [|apply slots_NoDup|by apply in_slots|done| |].
      + rewrite fmap_cons, Hmap; unfold g' at 1, sz'; cbn [fst snd]; by rewrite Hv, decide_True.
      + unfold Q; rewrite decide_True by done; by apply negb_true_iff, Z.eqb_neq.
      + intros y Hy; unfold Q; by rewrite decide_False. }
  assert (rings' nf i = rings nf i) as Hf by (apply (Hrings (nf, i)); congruence).
  change (put n i v rings nf i) with (rings' nf i); rewrite Hf.
  destruct (decide (rings nf i = NULL)) as [En|En].
  - exists s1; rewrite En, memfree_null; split_and!; [done|done|]; exists sz'; rewrite (filter_eq Q R); [done|].
    intros x; destruct (decide (x = (nf, i))) as [->|]; [|by apply RQ]; rewrite Rf; unfold Q; rewrite decide_False by congruence.
    by rewrite Pf, En.
  - assert (owns s1 ((rings nf i, sz' (nf, i)) :: (g' <$> filter (fun x => R x = true) slots))) as Ho3.
    { eapply owns_perm; [|exact Ho2]; rewrite (filter_add R Q (nf, i)); [|apply slots_NoDup|by apply in_slots|done| |].
      - rewrite fmap_cons; unfold g' at 1; cbn [fst snd]; by rewrite Hf.
      - unfold Q; rewrite decide_False by congruence; rewrite Pf; by apply negb_true_iff, Z.eqb_neq.
      - intros y Hy; symmetry; by apply RQ. }
    destruct (memfree_law _ _ _ _ Ho3) as (s2 & Hs2 & Ho4); exists s2; split_and!; [done|done|]; by exists sz'.
Qed.

Lemma ring_loop_ok k : forall n i rings s, (n < NRING)%nat -> (i + k = NALLOC)%nat -> ring_ok n i rings s ->
  exists rings' s', ring_loop k n i rings s = Ret (rings', s') /\ ring_ok n NALLOC rings' s'.
Proof.
  induction k as [|k IH]; intros n i rings s Hn Hi Hok; cbn [ring_loop].
  - exists rings, s; split; [done|]; by replace NALLOC with i by lia.
  - destruct (ring_step n i rings s Hn ltac:(lia) Hok) as (v & s1 & s2 & -> & Hf & Hok2); cbn [mbind outcome_bind].
    rewrite Hf; cbn [mbind outcome_bind]; by apply IH; [|lia|].
Qed.

(** The test program finds no fault in an allocator that keeps its promises:
    in any number of rounds every pointer is released exactly once, no
    assertion fails, and the blocks held are those in the rings of the last
    eight rounds. *)
Theorem main_never_botches rounds s :
  owns s [] -> exists n rings s', main rounds s = Ret (n, rings, s') /\ ring_ok n 0 rings s'.
Proof.
  intros Ho; assert (forall rounds n rings s, (n < NRING)%nat -> ring_ok n 0 rings s ->
    exists n' rings' s', main_loop rounds n rings s = Ret (n', rings', s') /\ ring_ok n' 0 rings' s') as Hloop.
  { clear s Ho rounds; induction rounds as [|rounds IH]; intros n rings s Hn Hok; [by exists n, rings, s|].
    cbn [main_loop]; destruct (ring_loop_ok NALLOC n 0 rings s Hn ltac:(lia) Hok) as (rings' & s' & -> & sz & Hok'); cbn [mbind outcome_bind].
    apply IH; [apply Nat.mod_upper_bound; unfold NRING; lia|]; exists sz.
    assert (filter (fun x => holding ((n + 1) mod NRING) 0 rings' x = true) slots = filter (fun x => holding n NALLOC rings' x = true) slots) as ->; [|done].
    assert (forall l : list (nat * nat), (forall x, x ∈ l -> x ∈ slots) -> filter (fun x => holding ((n + 1) mod NRING) 0 rings' x = true) l =
      filter (fun x => holding n NALLOC rings' x = true) l) as Hf; [|by apply Hf].
    induction l as [|[r c] l IHl]; intros Hl; [done|]; rewrite !filter_cons, IHl by (intros x Hx; apply Hl, elem_of_cons; by right).
    assert ((r, c) ∈ slots) as [Hr Hc]%in_slots by (apply Hl, elem_of_cons; by left).
    unfold holding; rewrite (live_next n r c Hn Hr Hc); reflexivity. }
  apply Hloop; [unfold NRING; lia|]; exists (fun _ => 0); eapply owns_perm; [|exact Ho].
  assert (forall l : list (nat * nat), filter (fun x => holding 0 0 (fun _ _ => NULL) x = true) l = []) as ->; [|done].
  induction l as [|x l IH]; [done|]; rewrite filter_cons_False, IH; [done|]; unfold holding; by rewrite andb_false_r.
Qed.
End Driver.

(** The kernel's own [bmk_memrealloc] does not keep the promise
    ([realloc_underflow]): with the random numbers 0, 4, 100 the program
    allocates 0 bytes aligned to 32, is told that the 32-byte block has room
    for 100, and overwrites the link of the next block, which is free. *)
Definition kernel_testalloc (rnd : list Z) (s : mstate) : outcome (Z * (list Z * mstate)) :=
  testalloc (fun n a '(r, s) => let '(v, s) := bmk_memalloc n a s in Ret (v, (r, s)))
    (fun v n '(r, s) => '(v, s) ← bmk_memrealloc v n s; Ret (v, (r, s)))
    (fun v c n '(r, s) => (r, set_mm (fst (bmk_memset (mm s) v c n)) s))
    (fun '(r, s) => (default 0 (head r), (tail r, s))) (rnd, s).

Lemma testalloc_overrun :
  match kernel_testalloc [0; 4; 100] demo_s with
  | Ret (v, (_, s)) => v <> NULL /\ rd8 (mm s) (ov_index (v - SIZEOF_OV)) = 0 /\ get_nextf s 0 = v /\
      rd32 (mm s) (get_nextf s 0) = 0x24242424
  | Halt _ => False
  end.
Proof. vm_compute; repeat split; discriminate. Qed.
