(* ===== verification/Sched.v ===== *)
(** * Sched: the cooperative round-robin scheduler of sched.c

    Threads are named by the address of their [struct bmk_thread]; the
    structures themselves are the records of the map [thr].  The TAILQs
    [threads], [zombies] and [joinwq] are lists in queue order (Tailq.v
    shows that the pointer code of queue.h implements these lists).
    A context switch cuts every function that calls [bmk_sched] in two, so
    such a function is given as the code up to the call and the code after
    the thread is switched back to. *)
From S2P Require Import Prelude Iface.

(** ** Data *)

Definition TLS_COUNT : Z := 2.
Definition NAME_MAXLEN : Z := 16.
Definition THREAD_RUNNABLE : Z := 0x01.
Definition THREAD_MUSTJOIN : Z := 0x02.
Definition THREAD_JOINED : Z := 0x04.
Definition THREAD_EXTSTACK : Z := 0x08.
Definition THREAD_TIMEDOUT : Z := 0x10.
Definition THREAD_STACKSIZE : Z := 2 ^ 16.

(** [sizeof(struct bmk_thread)] on i386. *)
Definition SIZEOF_THREAD : Z := 60.

Record bmk_thread := BmkThread {
  bt_name : list Z;
  bt_tls : list Z;
  bt_wakeup_time : Z;
  bt_flags : Z;
  bt_errno : Z;
  bt_stackbase : Z;
  btcb_sp : Z;
  btcb_ip : Z;
}.

Definition with_wakeup (w : Z) (th : bmk_thread) : bmk_thread :=
  BmkThread (bt_name th) (bt_tls th) w (bt_flags th) (bt_errno th) (bt_stackbase th) (btcb_sp th) (btcb_ip th).
Definition with_flags (f : Z) (th : bmk_thread) : bmk_thread :=
  BmkThread (bt_name th) (bt_tls th) (bt_wakeup_time th) f (bt_errno th) (bt_stackbase th) (btcb_sp th) (btcb_ip th).
Definition with_errno (e : Z) (th : bmk_thread) : bmk_thread :=
  BmkThread (bt_name th) (bt_tls th) (bt_wakeup_time th) (bt_flags th) e (bt_stackbase th) (btcb_sp th) (btcb_ip th).
Definition with_tls (l : list Z) (th : bmk_thread) : bmk_thread :=
  BmkThread (bt_name th) l (bt_wakeup_time th) (bt_flags th) (bt_errno th) (bt_stackbase th) (btcb_sp th) (btcb_ip th).

(** A zeroed structure. *)
Definition zero_thread : bmk_thread :=
  BmkThread (replicate 16 0) [0; 0] 0 0 0 0 0 0.

(** The scheduler's globals, with the heap it allocates from.  An entry of
    [joinwq] is the pair ([jw_thread], [jw_wanted]) of a [struct
    join_waiter], which lives on the stack of [jw_thread]. *)
Record sched (H : Type) := Sched {
  thr : gmap Z bmk_thread;
  threads : list Z;
  zombies : list Z;
  joinwq : list (Z * Z);
  current_thread : Z;
  scheduler_hook : Z;
  hp : H;
}.
Arguments Sched {_} _ _ _ _ _ _ _.
Arguments thr {_} _.
Arguments threads {_} _.
Arguments zombies {_} _.
Arguments joinwq {_} _.
Arguments current_thread {_} _.
Arguments scheduler_hook {_} _.
Arguments hp {_} _.

(** TAILQ operations at the level of lists. *)
Definition tq_remove {A} `{EqDecision A} (x : A) (l : list A) : list A := filter (fun y => y <> x) l.
Definition tq_insert_head {A} (x : A) (l : list A) : list A := x :: l.
Definition tq_insert_tail {A} (x : A) (l : list A) : list A := l ++ [x].

Section Sched.
Context {H : Type} `{HeapOps H}.
Implicit Types s : sched H.

Definition set_thr (T : gmap Z bmk_thread) s : sched H :=
  Sched T (threads s) (zombies s) (joinwq s) (current_thread s) (scheduler_hook s) (hp s).
Definition set_threads (l : list Z) s : sched H :=
  Sched (thr s) l (zombies s) (joinwq s) (current_thread s) (scheduler_hook s) (hp s).
Definition set_zombies (l : list Z) s : sched H :=
  Sched (thr s) (threads s) l (joinwq s) (current_thread s) (scheduler_hook s) (hp s).
Definition set_joinwq (l : list (Z * Z)) s : sched H :=
  Sched (thr s) (threads s) (zombies s) l (current_thread s) (scheduler_hook s) (hp s).
Definition set_current (t : Z) s : sched H :=
  Sched (thr s) (threads s) (zombies s) (joinwq s) t (scheduler_hook s) (hp s).
Definition set_hook (f : Z) s : sched H :=
  Sched (thr s) (threads s) (zombies s) (joinwq s) (current_thread s) f (hp s).
Definition set_hp (h : H) s : sched H :=
  Sched (thr s) (threads s) (zombies s) (joinwq s) (current_thread s) (scheduler_hook s) h.

(** Reading and updating a thread structure. *)
Definition getthr (T : gmap Z bmk_thread) (t : Z) : bmk_thread := default zero_thread (T !! t).
Definition upd (f : bmk_thread -> bmk_thread) (t : Z) s : sched H := set_thr (alter f t (thr s)) s.

(** ** Flags, current thread, thread-local storage *)

Definition bmk_sched_current s : Z := current_thread s.

Definition is_runnable (th : bmk_thread) : bool := negb (Z.land (bt_flags th) THREAD_RUNNABLE =? 0).
Definition set_runnable (th : bmk_thread) : bmk_thread :=
  with_flags (Z.lor (bt_flags th) THREAD_RUNNABLE) th.
Definition clear_runnable (th : bmk_thread) : bmk_thread :=
  with_flags (Z.land (bt_flags th) (Z.lnot THREAD_RUNNABLE)) th.

Definition wake_thread (th : bmk_thread) : bmk_thread := set_runnable (with_wakeup (-1) th).
Definition block_thread (th : bmk_thread) : bmk_thread := clear_runnable (with_wakeup (-1) th).

Definition bmk_sched_wake (t : Z) s : sched H := upd wake_thread t s.
Definition bmk_sched_block (t : Z) s : sched H := upd block_thread t s.
Definition bmk_sched_setwakeup (t abstime : Z) s : sched H := upd (with_wakeup abstime) t s.

Definition bmk_sched_set_hook (f : Z) s : sched H := set_hook f s.
Definition bmk_sched_init_mainthread s : Z := current_thread s.

(** [bmk_sched_geterrno] returns the address of the current thread's
    [bt_errno], 36 bytes into the structure; [errno] is a load and [seterrno] a
    store through it. *)
Definition bmk_sched_geterrno s : Z := bmk_sched_current s + 36.
Definition errno s : Z := bt_errno (getthr (thr s) (bmk_sched_current s)).
Definition seterrno (e : Z) s : sched H := upd (with_errno e) (current_thread s) s.

Definition bmk_sched_settls (t which value : Z) s : outcome (sched H) :=
  if TLS_COUNT <=? which then c_panic "out of bmk sched tls space"
  else Ret (upd (fun th => with_tls (<[Z.to_nat which := value]> (bt_tls th)) th) t s).
Definition bmk_sched_gettls (t which : Z) s : outcome Z :=
  if TLS_COUNT <=? which then c_panic "out of bmk sched tls space"
  else Ret (default 0 (bt_tls (getthr (thr s) t) !! Z.to_nat which)).

(** The time stamp counter as a signed 64-bit time. *)
Definition bmk_clock_now (eax edx : Z) : Z := i64 (u64 (Z.lor (Z.shiftl edx 32) eax)).

(** ** [bmk_sched] *)

(** One pass over the thread list with the clock at [tm].  The variable
    [wakeup] of the source is computed but never used. *)
Fixpoint sched_scan (tm : Z) (l : list Z) (T : gmap Z bmk_thread) : option Z * gmap Z bmk_thread :=
  match l with
  | [] => (None, T)
  | t :: l =>
      let th := getthr T t in
      let T :=
        if negb (is_runnable th) && (0 <=? bt_wakeup_time th) then
          if bt_wakeup_time th <=? tm then
            alter (fun th => wake_thread (with_flags (Z.lor (bt_flags th) THREAD_TIMEDOUT) th)) t T
          else T
        else T in
      if is_runnable (getthr T t) then (Some t, T) else sched_scan tm l T
  end.

(** What the [do ... while (1)] loop sees of the outside world in one
    iteration: the clock it reads and, if it ends in [bmk_cpu_nanohlt], the
    threads the interrupt handlers wake meanwhile. *)
Record tick := Tick { tk_now : Z; tk_woken : list Z }.

Fixpoint sched_pick (ticks : list tick) s : option (Z * sched H * list tick) :=
  match ticks with
  | [] => None
  | k :: ticks =>
      let '(next, T) := sched_scan (tk_now k) (threads s) (thr s) in
      match next with
      | Some t => Some (t, set_threads (tq_insert_tail t (tq_remove t (threads s))) (set_thr T s), ticks)
      | None => sched_pick ticks (foldl (fun s t => bmk_sched_wake t s) (set_thr T s) (tk_woken k))
      end
  end.

(** [bmk_sched] up to the context switch: pick, and make [next] current. *)
Definition sched_dispatch (ticks : list tick) s : option (sched H * list tick) :=
  '(next, s, ticks) ← sched_pick ticks s;
  let prev := bmk_sched_current s in
  Some (if decide (prev = next) then s else set_current next s, ticks).

(** The reaper, run by thread [prev] once it is switched back to. *)
Fixpoint sched_reap (prev : Z) (l : list Z) s : outcome (sched H) :=
  match l with
  | [] => Ret s
  | t :: l =>
      if decide (t <> prev) then
        let th := getthr (thr s) t in
        let s := set_zombies (tq_remove t (zombies s)) s in
        h ← (if Z.land (bt_flags th) THREAD_EXTSTACK =? 0
             then h_memfree (bt_stackbase th) (hp s) else Ret (hp s));
        h ← h_memfree t h;
        sched_reap prev l (set_thr (delete t (thr s)) (set_hp h s))
      else sched_reap prev l s
  end.

(** ** Thread creation *)

(** [stack_push] and [bmk_cpu_sched_create] of arch/i386/cpu_sched.c. *)
Definition stack_push (stack value : Z) (h : H) : Z * H := (stack - 4, h_poke (stack - 4) value h).
Definition bmk_cpu_sched_create (f arg stack : Z) (h : H) : Z * H :=
  let '(stack, h) := stack_push stack f h in stack_push stack arg h.

(** The name field after [bmk_strncpy] with [n = 15] into zeroed memory.  A
    longer name makes [bmk_strncpy] clear the rest of memory, kernel
    included (theorem [bmk_strncpy_runaway]): the call does not return, and as
    nothing of the state is meant to survive it the model stops there. *)
Definition copy_name (name : list Z) : outcome (list Z) :=
  if decide (Z.of_nat (length name) <= NAME_MAXLEN - 1)
  then Ret (name ++ replicate (16 - length name) 0) else Halt "bmk_strncpy overrun".

Definition stackalloc (h : H) : outcome (Z * H) := h_xmalloc THREAD_STACKSIZE h.

(** The argument [thrflags] is not used by the source. *)
Definition bmk_sched_create (bouncer : Z) (name : list Z) (cookie thrflags f data stack_base stack_size : Z)
    s : outcome (Z * sched H) :=
  '(thread, h) ← h_xmalloc SIZEOF_THREAD (hp s);
  '(flags, stack_base, stack_size, h) ←
    (if stack_base =? NULL then
       _ ← c_assert (stack_size =? 0) "stack_size == 0";
       '(sb, h) ← stackalloc h;
       Ret (0, sb, THREAD_STACKSIZE, h)
     else Ret (THREAD_EXTSTACK, stack_base, stack_size, h));
  let '(sp, h) := bmk_cpu_sched_create f data (stack_base + stack_size) h in
  nm ← copy_name name;
  let th := set_runnable (BmkThread nm [0; 0] (-1) flags 0 stack_base sp bouncer) in
  Ret (thread,
       set_threads (tq_insert_head thread (threads s)) (set_thr (<[thread := th]> (thr s)) (set_hp h s))).

(** ** Exit and join *)

(** One turn of the gate of [bmk_sched_exit]: [None] when the thread may go
    on and exit; otherwise the state at the call of [bmk_sched]. *)
Definition exit_gate s : option (sched H) :=
  let t := bmk_sched_current s in
  if Z.land (bt_flags (getthr (thr s) t)) THREAD_MUSTJOIN =? 0 then None
  else
    let s := upd (fun th => with_flags (Z.lor (bt_flags th) THREAD_JOINED) th) t s in
    let s := match list_find (fun jw => snd jw = t) (joinwq s) with
             | Some (_, (jt, _)) => bmk_sched_wake jt s
             | None => s
             end in
    Some (bmk_sched_block t s).

(** The rest of [bmk_sched_exit], up to the endless [bmk_sched]. *)
Definition exit_final s : sched H :=
  let t := bmk_sched_current s in
  let s := set_threads (tq_remove t (threads s)) s in
  let s := upd clear_runnable t s in
  set_zombies (tq_insert_head t (zombies s)) s.

(** [bmk_sched_join]: the assertion, then either the final part ([inl]) or
    the state at the call of [bmk_sched] in the waiting loop ([inr]).
    [join_loop] is the loop test, [join_resumed] what follows the switch.
    The assertion after the loop is the negation of the loop's test and is
    not repeated. *)
Definition join_loop (joinable : Z) s : outcome (sched H + sched H) :=
  let t := bmk_sched_current s in
  if Z.land (bt_flags (getthr (thr s) joinable)) THREAD_JOINED =? 0 then
    Ret (inr (bmk_sched_block t (set_joinwq (tq_insert_tail (t, joinable) (joinwq s)) s)))
  else
    let s := upd (fun th => with_flags (Z.land (bt_flags th) (Z.lnot THREAD_MUSTJOIN)) th) joinable s in
    Ret (inl (bmk_sched_wake joinable s)).
Definition bmk_sched_join (joinable : Z) s : outcome (sched H + sched H) :=
  _ ← c_assert (negb (Z.land (bt_flags (getthr (thr s) joinable)) THREAD_MUSTJOIN =? 0))
        "joinable->bt_flags & THREAD_MUSTJOIN";
  join_loop joinable s.
Definition join_resumed (joinable : Z) s : outcome (sched H + sched H) :=
  let t := bmk_sched_current s in
  join_loop joinable (set_joinwq (tq_remove (t, joinable) (joinwq s)) s).

(** ** Sleeping and initialisation *)

(** [bmk_sched_nanosleep] up to its call of [bmk_sched]; [now] is the clock. *)
Definition bmk_sched_nanosleep (now nsec : Z) s : sched H :=
  let t := bmk_sched_current s in
  upd clear_runnable t (upd (with_wakeup (i64 (u64 (u64 now + u64 nsec)))) t s).

(** [bmk_sched_init] on the static [init_thread] at address [t]. *)
Definition bmk_sched_init (t : Z) (h : H) : sched H :=
  let th := set_runnable (BmkThread ([105; 110; 105; 116] ++ replicate 12 0) [0; 0] (-1) 0 0 0 0 0) in
  Sched {[t := th]} [t] [] [] t 0 h.
End Sched.
