(* ===== verification/SchedThms.v ===== *)
(** * SchedThms: the theorems on sched.c

    Which thread [bmk_sched] chooses and why no runnable thread starves; the
    invariant of the thread lists and of the memory of the threads; and
    what follows from [bmk_sched_create] not storing its flags argument. *)
From S2P Require Import Prelude Mem Pages Memalloc Heap Iface Alloc Sched.

(** ** Flag bits *)

Lemma land_bit f i : 0 <= i -> Z.land f (2 ^ i) = if Z.testbit f i then 2 ^ i else 0.
Proof.
  intros Hi; apply Z.bits_inj'; intros j Hj; rewrite Z.land_spec, Z.pow2_bits_eqb by done.
  destruct (Z.eqb_spec i j) as [->|]; [|rewrite andb_false_r].
  - rewrite andb_true_r; destruct (Z.testbit f j); [by rewrite Z.pow2_bits_true|by rewrite Z.bits_0].
  - destruct (Z.testbit f i); [by rewrite Z.pow2_bits_false|by rewrite Z.bits_0].
Qed.

Lemma flag_test f i : 0 <= i -> (Z.land f (2 ^ i) =? 0) = negb (Z.testbit f i).
Proof.
  intros Hi; rewrite land_bit by done; destruct (Z.testbit f i); [|done].
  apply Z.eqb_neq, Z.pow_nonzero; lia.
Qed.

Lemma runnable_bit th : is_runnable th = Z.testbit (bt_flags th) 0.
Proof. unfold is_runnable; change THREAD_RUNNABLE with (2 ^ 0); rewrite flag_test by lia; apply negb_involutive. Qed.

Lemma set_runnable_runnable th : is_runnable (set_runnable th) = true.
Proof.
  rewrite runnable_bit; cbn [set_runnable with_flags bt_flags]; rewrite Z.lor_spec.
  apply orb_true_r.
Qed.

Lemma clear_runnable_blocked th : is_runnable (clear_runnable th) = false.
Proof.
  rewrite runnable_bit; cbn [clear_runnable with_flags bt_flags]; rewrite Z.land_spec, Z.lnot_spec by lia.
  apply andb_false_r.
Qed.

Lemma getthr_alter_eq f t T : is_Some (T !! t) -> getthr (alter f t T) t = f (getthr T t).
Proof. intros [th Hth]; unfold getthr; rewrite lookup_alter_eq, Hth; done. Qed.

Lemma getthr_alter_ne f t t' T : t <> t' -> getthr (alter f t T) t' = getthr T t'.
Proof. intros; unfold getthr; by rewrite lookup_alter_ne. Qed.

Lemma getthr_Some T t th : T !! t = Some th -> getthr T t = th.
Proof. unfold getthr; by intros ->. Qed.

(** ** The choice of the next thread *)

(** A thread [bmk_sched] may run at time [tm]. *)
Definition eligible (tm : Z) (th : bmk_thread) : bool :=
  is_runnable th || ((0 <=? bt_wakeup_time th) && (bt_wakeup_time th <=? tm)).

Definition timed_out (th : bmk_thread) : bmk_thread :=
  wake_thread (with_flags (Z.lor (bt_flags th) THREAD_TIMEDOUT) th).

Definition woken_map (T : gmap Z bmk_thread) (t : Z) : gmap Z bmk_thread :=
  if is_runnable (getthr T t) then T else alter timed_out t T.

Definition known (T : gmap Z bmk_thread) (l : list Z) : Prop := Forall (fun t => is_Some (T !! t)) l.

Lemma sched_scan_spec tm l T : known T l ->
  match sched_scan tm l T with
  | (None, T') => T' = T /\ Forall (fun t => eligible tm (getthr T t) = false) l
  | (Some t, T') =>
      exists l1 l2, l = l1 ++ t :: l2 /\ Forall (fun t => eligible tm (getthr T t) = false) l1 /\
        eligible tm (getthr T t) = true /\ T' = woken_map T t
  end.
Proof.
  induction 1 as [|t l Ht Hl IH]; cbn [sched_scan]; [done|].
  unfold woken_map, eligible in *.
  destruct (is_runnable (getthr T t)) eqn:Er; cbn [negb andb orb].
  - rewrite Er. exists [], l; split_and!; [done|constructor|by rewrite Er|by rewrite Er].
  - destruct (Z.leb_spec 0 (bt_wakeup_time (getthr T t))) as [H0|H0]; cbn [andb].
    + destruct (Z.leb_spec (bt_wakeup_time (getthr T t)) tm) as [Hx|Hx].
      * rewrite getthr_alter_eq by done. unfold wake_thread at 1; rewrite set_runnable_runnable.
        exists [], l; split_and!; [done|constructor| |by rewrite Er].
        rewrite Er; cbn [orb]; by rewrite (proj2 (Z.leb_le _ _)), (proj2 (Z.leb_le _ _)) by lia.
      * rewrite Er. destruct (sched_scan tm l T) as [[u|] T'].
        -- destruct IH as (l1 & l2 & -> & H1 & H2 & ->); exists (t :: l1), l2; split_and!; [done| |done|done].
           constructor; [|done]. rewrite Er; cbn [orb].
           by rewrite (proj2 (Z.leb_gt _ tm)), andb_false_r by lia.
        -- destruct IH as [-> HF]; split; [done|]; constructor; [|done]. rewrite Er; cbn [orb].
           by rewrite (proj2 (Z.leb_gt _ tm)), andb_false_r by lia.
    + rewrite Er. destruct (sched_scan tm l T) as [[u|] T'].
      * destruct IH as (l1 & l2 & -> & H1 & H2 & ->); exists (t :: l1), l2; split_and!; [done| |done|done].
        constructor; [|done]. rewrite Er; cbn [orb]; by rewrite (proj2 (Z.leb_gt 0 _)) by lia.
      * destruct IH as [-> HF]; split; [done|]; constructor; [|done]. rewrite Er; cbn [orb].
        by rewrite (proj2 (Z.leb_gt 0 _)) by lia.
Qed.

Lemma tq_remove_cons_eq {A} `{EqDecision A} (t : A) l : tq_remove t (t :: l) = tq_remove t l.
Proof. unfold tq_remove; apply filter_cons_False; by intros Hf; apply Hf. Qed.
Lemma tq_remove_cons_ne {A} `{EqDecision A} (t u : A) l : u <> t -> tq_remove t (u :: l) = u :: tq_remove t l.
Proof. intros; unfold tq_remove; by apply filter_cons_True. Qed.
Lemma tq_remove_notin {A} `{EqDecision A} (t : A) l : (t ∉ l) -> tq_remove t l = l.
Proof.
  induction l as [|u l IH]; intros Hn; [done|]; apply not_elem_of_cons in Hn as [? ?].
  rewrite tq_remove_cons_ne, IH; done.
Qed.
Lemma elem_of_tq_remove {A} `{EqDecision A} (t u : A) l : u ∈ tq_remove t l <-> u <> t /\ u ∈ l.
Proof. unfold tq_remove; by rewrite list_elem_of_filter. Qed.

Lemma tq_remove_split {A} `{EqDecision A} (t : A) l1 l2 : (t ∉ l1) -> (t ∉ l2) -> tq_remove t (l1 ++ t :: l2) = l1 ++ l2.
Proof.
  intros H1 H2; rewrite <- (tq_remove_notin t l1), <- (tq_remove_notin t l2) at 2 by done.
  unfold tq_remove; rewrite filter_app, filter_cons_False; [done|]; intros Hf; by apply Hf.
Qed.

Lemma tq_remove_Permutation (t : Z) l : NoDup l -> t ∈ l -> l ≡ₚ t :: tq_remove t l.
Proof.
  intros Hn (l1 & l2 & ->)%list_elem_of_split; apply NoDup_app in Hn as (_ & Hd & Hn2).
  apply NoDup_cons in Hn2 as [? _].
  rewrite tq_remove_split; [by rewrite Permutation_middle| |done].
  intros ?; apply (Hd t); [done|constructor].
Qed.

Section Choice.
Context {H : Type} `{HeapOps H}.
Implicit Types s : sched H.

(** The state after the iterations [pre] of the loop that found nothing to
    run: only the wake-ups of the interrupt handlers happened. *)
Definition idle (pre : list tick) s : sched H :=
  foldl (fun s k => foldl (fun s t => bmk_sched_wake t s) s (tk_woken k)) s pre.

Lemma wakes_frame l s :
  let s' := foldl (fun s t => bmk_sched_wake t s) s l in
  threads s' = threads s /\ zombies s' = zombies s /\ joinwq s' = joinwq s /\
  current_thread s' = current_thread s /\ hp s' = hp s.
Proof. revert s; induction l as [|t l IH]; intros s; cbn; [done|]. by destruct (IH (bmk_sched_wake t s)) as (-> & -> & -> & -> & ->). Qed.

Lemma idle_frame pre s :
  threads (idle pre s) = threads s /\ zombies (idle pre s) = zombies s /\ joinwq (idle pre s) = joinwq s /\
  current_thread (idle pre s) = current_thread s /\ hp (idle pre s) = hp s.
Proof.
  unfold idle; revert s; induction pre as [|k pre IH]; intros s; cbn; [done|].
  destruct (IH (foldl (fun s t => bmk_sched_wake t s) s (tk_woken k))) as (-> & -> & -> & -> & ->).
  apply wakes_frame.
Qed.

Lemma known_alter f t T l : known T l -> known (alter f t T) l.
Proof.
  unfold known; rewrite !Forall_forall; intros Hk u Hu; destruct (Hk u Hu) as [th Hth].
  destruct (decide (t = u)) as [->|]; [rewrite lookup_alter_eq, Hth|rewrite lookup_alter_ne, Hth by done]; by eexists.
Qed.

Lemma known_wakes l0 l s : known (thr s) l -> known (thr (foldl (fun s t => bmk_sched_wake t s) s l0)) l.
Proof. revert s; induction l0 as [|t l0 IH]; intros s Hk; [done|]; apply IH, known_alter, Hk. Qed.

(** The choice made at clock [tm] in state [s]: the thread [t] is the first
    of the queue that may run; it goes to the tail and, if its sleep is
    over, is woken with TIMEDOUT set. *)
Definition chosen (tm : Z) s (t : Z) (T' : gmap Z bmk_thread) (l' : list Z) : Prop :=
  exists l1 l2, threads s = l1 ++ t :: l2 /\ Forall (fun u => eligible tm (getthr (thr s) u) = false) l1 /\
    eligible tm (getthr (thr s) t) = true /\ T' = woken_map (thr s) t /\ l' = l1 ++ l2 ++ [t].

Definition none_eligible (tm : Z) s : Prop :=
  Forall (fun u => eligible tm (getthr (thr s) u) = false) (threads s).

Lemma set_thr_id s : set_thr (thr s) s = s.
Proof. by destruct s. Qed.

Lemma sched_pick_spec ticks s t s' rest :
  NoDup (threads s) -> known (thr s) (threads s) -> sched_pick ticks s = Some (t, s', rest) ->
  exists pre k T' l', ticks = pre ++ k :: rest /\
    (forall p1 j p2, pre = p1 ++ j :: p2 -> none_eligible (tk_now j) (idle p1 s)) /\
    chosen (tk_now k) (idle pre s) t T' l' /\ s' = set_threads l' (set_thr T' (idle pre s)).
Proof.
  revert s; induction ticks as [|k ticks IH]; intros s Hn Hk; [done|]; cbn [sched_pick].
  pose proof (sched_scan_spec (tk_now k) _ _ Hk) as Hs.
  destruct (sched_scan _ _ _) as [[u|] T'].
  - intros [= -> <- <-]; destruct Hs as (l1 & l2 & Hl & H1 & H2 & ->).
    exists [], k, (woken_map (thr s) t), (l1 ++ l2 ++ [t]); split_and!; [done|by intros [|] ??| |].
    + exists l1, l2; done.
    + rewrite Hl in Hn |- *; apply NoDup_app in Hn as (_ & Hd & [Hn2 _]%NoDup_cons).
      unfold tq_insert_tail; rewrite tq_remove_split, app_assoc; [done| |done].
      intros Hx; apply (Hd t Hx); constructor.
  - destruct Hs as [-> HF]; rewrite set_thr_id; intros Hp.
    apply IH in Hp as (pre & k' & T' & l' & -> & Hpre & Hc & ->).
    + exists (k :: pre), k', T', l'; split_and!; try done.
      intros [|j' p1] j p2; intros [= -> ->]; [apply HF|]. by apply (Hpre p1 j p2).
    + destruct (wakes_frame (tk_woken k) s) as (-> & _); done.
    + destruct (wakes_frame (tk_woken k) s) as (-> & _); by apply known_wakes.
Qed.

Lemma known_idle pre l s : known (thr s) l -> known (thr (idle pre s)) l.
Proof. unfold idle; revert s; induction pre as [|k pre IH]; intros s Hk; [done|]; cbn; by apply IH, known_wakes. Qed.

Lemma chosen_runnable tm s t T' l' :
  known (thr s) (threads s) -> chosen tm s t T' l' -> is_runnable (getthr T' t) = true.
Proof.
  intros Hk (l1 & l2 & Hl & _ & _ & -> & _); unfold woken_map.
  destruct (is_runnable (getthr (thr s) t)) eqn:E; [done|].
  rewrite getthr_alter_eq; [apply set_runnable_runnable|].
  rewrite Hl in Hk; apply Forall_app in Hk as [_ Hk]; by inversion Hk.
Qed.

Lemma sched_dispatch_spec ticks s s' rest :
  NoDup (threads s) -> known (thr s) (threads s) -> sched_dispatch ticks s = Some (s', rest) ->
  exists pre k t T' l', ticks = pre ++ k :: rest /\
    (forall p1 j p2, pre = p1 ++ j :: p2 -> none_eligible (tk_now j) (idle p1 s)) /\
    chosen (tk_now k) (idle pre s) t T' l' /\ s' = set_current t (set_threads l' (set_thr T' (idle pre s))).
Proof.
  intros Hn Hk; unfold sched_dispatch.
  destruct (sched_pick ticks s) as [[[t s1] r]|] eqn:Hp; cbn; [|done].
  apply sched_pick_spec in Hp as (pre & k & T' & l' & -> & Hpre & Hc & ->); [|done..].
  intros [= Hs' ->]; exists pre, k, t, T', l'; split_and!; try done.
  rewrite <- Hs'; by case_decide as Hd; [rewrite <- Hd|].
Qed.

(** C8: [bmk_sched] hands the processor to the right thread.  After some
    number of idle iterations, in each of which no queued thread was runnable
    and no sleep was over, it chooses the first thread of the queue that is
    runnable or whose wakeup time (a time that was set, >= 0) has been
    reached by the clock: a sleeper is never run early.  The chosen thread is
    runnable, current and last in the queue; the order of the others, the
    zombies and the join queue are untouched. *)
Theorem sched_dispatch_correct ticks s s' rest :
  NoDup (threads s) -> known (thr s) (threads s) -> sched_dispatch ticks s = Some (s', rest) ->
  exists pre k, ticks = pre ++ k :: rest /\
    (forall p1 j p2, pre = p1 ++ j :: p2 -> none_eligible (tk_now j) (idle p1 s)) /\
    chosen (tk_now k) (idle pre s) (current_thread s') (thr s') (threads s') /\
    zombies s' = zombies s /\ joinwq s' = joinwq s /\ hp s' = hp s /\
    is_runnable (getthr (thr s') (current_thread s')) = true.
Proof.
  intros Hn Hk Hd; apply sched_dispatch_spec in Hd as (pre & k & t & T' & l' & -> & Hpre & Hc & ->); [|done..].
  exists pre, k; cbn; destruct (idle_frame pre s) as (Ht & -> & -> & _ & ->); split_and!; try done.
  eapply chosen_runnable; [|exact Hc]. by rewrite Ht; apply known_idle.
Qed.

(** ** Termination of the idle loop *)

Lemma eligible_wakes tm l s t :
  eligible tm (getthr (thr s) t) = true ->
  eligible tm (getthr (thr (foldl (fun s t => bmk_sched_wake t s) s l)) t) = true.
Proof.
  revert s; induction l as [|u l IH]; intros s Hs; [done|]; cbn; apply IH; cbn.
  destruct (decide (u = t)) as [->|]; [|by rewrite getthr_alter_ne].
  destruct (thr s !! t) as [th|] eqn:E.
  - rewrite getthr_alter_eq by done; unfold eligible, wake_thread; by rewrite set_runnable_runnable.
  - unfold getthr in *; by rewrite lookup_alter_eq, E in *.
Qed.

Lemma sched_pick_total ticks s t k :
  known (thr s) (threads s) -> t ∈ threads s -> k ∈ ticks -> eligible (tk_now k) (getthr (thr s) t) = true ->
  is_Some (sched_pick ticks s).
Proof.
  intros Hk Ht; revert s Hk Ht; induction ticks as [|j ticks IH]; intros s Hk Ht Hin He; [by apply elem_of_nil in Hin|].
  cbn [sched_pick]; pose proof (sched_scan_spec (tk_now j) _ _ Hk) as Hs.
  destruct (sched_scan _ _ _) as [[u|] T']; [by eexists|]; destruct Hs as [-> HF]; rewrite set_thr_id.
  apply elem_of_cons in Hin as [<-|Hin].
  - rewrite Forall_forall in HF; rewrite HF in He by done; done.
  - destruct (wakes_frame (tk_woken j) s) as (Hf & _).
    apply IH; [rewrite Hf; by apply known_wakes|by rewrite Hf|done|by apply eligible_wakes].
Qed.

(** C31: the idle loop of [bmk_sched] ends: as soon as the clock it reads
    reaches the wakeup time of a queued sleeper, and at once if a queued
    thread is runnable, a thread is chosen. *)
Theorem sched_dispatch_returns ticks s t k :
  known (thr s) (threads s) -> t ∈ threads s -> k ∈ ticks -> eligible (tk_now k) (getthr (thr s) t) = true ->
  is_Some (sched_dispatch ticks s).
Proof.
  intros Hk Ht Hi He; destruct (sched_pick_total ticks s t k Hk Ht Hi He) as [[[u s1] r] Hp].
  unfold sched_dispatch; rewrite Hp; by eexists.
Qed.

End Choice.

(** ** Steps of the system as the scheduler sees them *)

Inductive label :=
| LDispatch (t : Z) (** [bmk_sched] switched to [t] *)
| LCreate (t : Z)
| LStop (t : Z)     (** [t] blocked, went to sleep or exited *)
| LOther.

Section Invariant.
Context {H : Type} `{HeapLaws H}.
Implicit Types (s : sched H) (L : gmap Z Z).

(** The allocations that belong to the scheduler: the structures of the
    threads other than the static [init], and the stacks it allocated. *)
Definition owned (init : Z) s (a : Z) : Prop :=
  exists t th, thr s !! t = Some th /\ t <> init /\
    (a = t \/ (Z.testbit (bt_flags th) 3 = false /\ a = bt_stackbase th)).

(** An external stack given to [bmk_sched_create] has room for the two
    words pushed on it, inside one allocation. *)
Definition stack_given L (base size : Z) : Prop :=
  exists p n, L !! p = Some n /\ p <= base + size - 8 /\ base + size <= p + n.

(** The allocations of a thread: the client's holdings [L] after its
    creation and after it was reaped. *)
Definition thread_allocs (t : Z) (th : bmk_thread) L : gmap Z Z :=
  let L := <[t := SIZEOF_THREAD]> L in
  if Z.testbit (bt_flags th) 3 then L else <[bt_stackbase th := THREAD_STACKSIZE]> L.
Definition thread_release (t : Z) (th : bmk_thread) L : gmap Z Z :=
  delete t (if Z.testbit (bt_flags th) 3 then L else delete (bt_stackbase th) L).
Definition release_all (T : gmap Z bmk_thread) (l : list Z) L : gmap Z Z :=
  foldl (fun L t => thread_release t (getthr T t) L) L l.

(** The heap can serve the two requests of [bmk_sched_create]. *)
Definition create_served (h : H) : Prop :=
  h_serves SIZEOF_THREAD h /\
  forall p x, h_xmalloc SIZEOF_THREAD h = Ret (p, x) -> h_serves THREAD_STACKSIZE x.

(** One step: an operation of sched.c, run by the current thread or, for
    [bmk_sched_wake], by an interrupt handler; or the other parts of the
    kernel using the heap.  A thread that has exited only dispatches.  The
    initial thread does not exit: nothing in bmk_sched_exit keeps it from doing
    so, but its structure is static and the next thread would hand it to
    [bmk_memfree]; in the program it runs [bmk_main] and then halts. *)
Inductive sstep (init : Z) : sched H * gmap Z Z -> label -> sched H * gmap Z Z -> Prop :=
| st_dispatch s L ticks s' rest :
    sched_dispatch ticks s = Some (s', rest) -> sstep init (s, L) (LDispatch (current_thread s')) (s', L)
| st_reap s L s' :
    current_thread s ∈ threads s -> sched_reap (current_thread s) (zombies s) s = Ret s' ->
    sstep init (s, L) LOther (s', release_all (thr s) (tq_remove (current_thread s) (zombies s)) L)
| st_create s L bouncer name cookie thrflags f data base size t s' :
    current_thread s ∈ threads s -> create_served (hp s) -> (base <> NULL -> stack_given L base size) ->
    bmk_sched_create bouncer name cookie thrflags f data base size s = Ret (t, s') ->
    sstep init (s, L) (LCreate t) (s', thread_allocs t (getthr (thr s') t) L)
| st_wake s L t : sstep init (s, L) LOther (bmk_sched_wake t s, L)
| st_block s L t : sstep init (s, L) (LStop t) (bmk_sched_block t s, L)
| st_setwakeup s L t tm : sstep init (s, L) LOther (bmk_sched_setwakeup t tm s, L)
| st_settls s L t w v s' : bmk_sched_settls t w v s = Ret s' -> sstep init (s, L) LOther (s', L)
| st_seterrno s L e : sstep init (s, L) LOther (seterrno e s, L)
| st_set_hook s L f : sstep init (s, L) LOther (bmk_sched_set_hook f s, L)
| st_nanosleep s L now nsec : sstep init (s, L) (LStop (current_thread s)) (bmk_sched_nanosleep now nsec s, L)
| st_exit_gate s L s' : exit_gate s = Some s' -> sstep init (s, L) (LStop (current_thread s)) (s', L)
| st_exit s L :
    current_thread s ∈ threads s -> current_thread s <> init -> exit_gate s = None ->
    sstep init (s, L) (LStop (current_thread s)) (exit_final s, L)
| st_join s L j s' : bmk_sched_join j s = Ret (inl s') -> sstep init (s, L) LOther (s', L)
| st_join_wait s L j s' : bmk_sched_join j s = Ret (inr s') -> sstep init (s, L) (LStop (current_thread s)) (s', L)
| st_client s L h L' :
    h_inv h L' -> (forall a, h_static (hp s) a -> h_static h a) ->
    (forall a, owned init s a -> L' !! a = L !! a) -> sstep init (s, L) LOther (set_hp h s, L').

(** The invariant: the lists hold every thread once; nobody must be joined;
    every thread other than [init] owns the allocation of its structure
    and, unless its stack was given from outside, of a stack of its own. *)
Record sched_inv (init : Z) (c : sched H * gmap Z Z) : Prop := {
  si_nodup : NoDup (threads (fst c) ++ zombies (fst c));
  si_dom : forall t, is_Some (thr (fst c) !! t) <-> t ∈ threads (fst c) ++ zombies (fst c);
  si_cur : current_thread (fst c) ∈ threads (fst c) ++ zombies (fst c);
  si_nojoin : forall t th, thr (fst c) !! t = Some th -> Z.testbit (bt_flags th) 1 = false;
  si_init : h_static (hp (fst c)) init /\ (init ∈ threads (fst c));
  si_heap : h_inv (hp (fst c)) (snd c);
  si_own : forall t th, thr (fst c) !! t = Some th -> t <> init -> snd c !! t = Some SIZEOF_THREAD;
  si_stack : forall t th, thr (fst c) !! t = Some th -> t <> init -> Z.testbit (bt_flags th) 3 = false ->
    snd c !! bt_stackbase th = Some THREAD_STACKSIZE;
  si_inj : forall t1 t2 th1 th2, thr (fst c) !! t1 = Some th1 -> thr (fst c) !! t2 = Some th2 ->
    t1 <> init -> t2 <> init -> Z.testbit (bt_flags th1) 3 = false -> Z.testbit (bt_flags th2) 3 = false ->
    bt_stackbase th1 = bt_stackbase th2 -> t1 = t2;
}.

(** Updates of a structure that leave its stack and the two flag bits. *)
Definition benign (f : bmk_thread -> bmk_thread) : Prop :=
  forall th, bt_stackbase (f th) = bt_stackbase th /\
    (Z.testbit (bt_flags th) 1 = false -> Z.testbit (bt_flags (f th)) 1 = false) /\
    Z.testbit (bt_flags (f th)) 3 = Z.testbit (bt_flags th) 3.

Lemma alter_Some (f : bmk_thread -> bmk_thread) (t u : Z) (T : gmap Z bmk_thread) th : alter f t T !! u = Some th ->
  exists th0, T !! u = Some th0 /\ (th = th0 \/ th = f th0).
Proof. rewrite lookup_alter_Some; naive_solver. Qed.

(** The invariant only sees the lists, the flag bits and stacks, the heap. *)
Lemma sched_inv_ext init s s' L :
  sched_inv init (s, L) -> threads s' ≡ₚ threads s -> zombies s' = zombies s ->
  current_thread s' ∈ threads s ++ zombies s -> hp s' = hp s ->
  (forall t, is_Some (thr s' !! t) <-> is_Some (thr s !! t)) ->
  (forall t th, thr s' !! t = Some th -> exists th0, thr s !! t = Some th0 /\ bt_stackbase th = bt_stackbase th0 /\
    (Z.testbit (bt_flags th0) 1 = false -> Z.testbit (bt_flags th) 1 = false) /\
    Z.testbit (bt_flags th) 3 = Z.testbit (bt_flags th0) 3) ->
  sched_inv init (s', L).
Proof.
  intros [? Hd ? Hj [? Hi] ? Ho Hs Hinj] Ht Hz Hc Hh Hdom HT; cbn in *; constructor; cbn.
  - by rewrite Ht, Hz.
  - intros t; by rewrite Hdom, Hd, Ht, Hz.
  - by rewrite Ht, Hz.
  - intros t th (th0 & E & _ & Hb & _)%HT; eauto.
  - rewrite Hh; split; [done|]; by rewrite Ht.
  - by rewrite Hh.
  - intros t th (th0 & E & _)%HT; eauto.
  - intros t th (th0 & E & Hb & _ & H3)%HT; rewrite Hb, H3; eauto.
  - intros t1 t2 th1 th2 (u1 & E1 & -> & _ & ->)%HT (u2 & E2 & -> & _ & ->)%HT; eauto.
Qed.

Lemma sched_inv_upd init f t s L : benign f -> sched_inv init (s, L) -> sched_inv init (upd f t s, L).
Proof.
  intros Hf Hi; eapply sched_inv_ext; [exact Hi|done|done|exact (si_cur _ _ Hi)|done| |].
  - intros u; cbn; rewrite lookup_alter_is_Some; done.
  - intros u th (th0 & E & Hth)%alter_Some; exists th0; destruct (Hf th0) as (?&?&?).
    destruct Hth as [-> | ->]; auto.
Qed.

Lemma benign_flags m f : (forall th, bt_flags (f th) = m (bt_flags th) /\ bt_stackbase (f th) = bt_stackbase th) ->
  (forall x, (Z.testbit x 1 = false -> Z.testbit (m x) 1 = false) /\ Z.testbit (m x) 3 = Z.testbit x 3) -> benign f.
Proof. intros Hf Hm th; destruct (Hf th) as [-> ->]; split; [done|apply Hm]. Qed.

Lemma benign_id f : (forall th, bt_flags (f th) = bt_flags th /\ bt_stackbase (f th) = bt_stackbase th) -> benign f.
Proof. intros Hf; apply (benign_flags id); auto. Qed.

Lemma benign_comp f g : benign f -> benign g -> benign (fun th => g (f th)).
Proof. intros Hf Hg th; destruct (Hf th) as (?&?&?), (Hg (f th)) as (?&?&?); split_and!; [congruence|auto|congruence]. Qed.

Ltac flag_bits := intros; split; [let Hb := fresh in intros Hb|];
  rewrite ?Z.lor_spec, ?Z.land_spec, ?Z.lnot_spec by lia;
  repeat match goal with E : Z.testbit _ 1 = false |- _ => rewrite E; clear E end;
  rewrite ?andb_true_r, ?orb_false_r; reflexivity.

Lemma benign_set_runnable : benign set_runnable.
Proof. apply (benign_flags (fun x => Z.lor x THREAD_RUNNABLE)); [done|flag_bits]. Qed.
Lemma benign_clear_runnable : benign clear_runnable.
Proof. apply (benign_flags (fun x => Z.land x (Z.lnot THREAD_RUNNABLE))); [done|flag_bits]. Qed.
Lemma benign_set_timedout : benign (fun th => with_flags (Z.lor (bt_flags th) THREAD_TIMEDOUT) th).
Proof. apply (benign_flags (fun x => Z.lor x THREAD_TIMEDOUT)); [done|flag_bits]. Qed.
Lemma benign_with_wakeup w : benign (with_wakeup w).
Proof. by apply benign_id. Qed.
Lemma benign_wake : benign wake_thread.
Proof. apply (benign_comp _ _ (benign_with_wakeup _) benign_set_runnable). Qed.
Lemma benign_block : benign block_thread.
Proof. apply (benign_comp _ _ (benign_with_wakeup _) benign_clear_runnable). Qed.
Lemma benign_timed_out : benign timed_out.
Proof. apply (benign_comp _ _ benign_set_timedout benign_wake). Qed.

Lemma sched_inv_wakes init l s L : sched_inv init (s, L) ->
  sched_inv init (foldl (fun s t => bmk_sched_wake t s) s l, L).
Proof. revert s; induction l as [|t l IH]; intros s Hi; [done|]; apply IH, sched_inv_upd; [apply benign_wake|done]. Qed.

Lemma sched_inv_idle init pre s L : sched_inv init (s, L) -> sched_inv init (idle pre s, L).
Proof. unfold idle; revert s; induction pre as [|k pre IH]; intros s Hi; [done|]; cbn; by apply IH, sched_inv_wakes. Qed.

Lemma sched_inv_known init s L : sched_inv init (s, L) -> NoDup (threads s) /\ known (thr s) (threads s).
Proof.
  intros Hi; pose proof (si_nodup _ _ Hi) as Hn; apply NoDup_app in Hn as (Hn & _ & _); split; [done|].
  apply Forall_forall; intros t Ht; apply (si_dom _ _ Hi); cbn; apply elem_of_app; by left.
Qed.

Lemma sched_inv_dispatch init ticks s s' rest L :
  sched_inv init (s, L) -> sched_dispatch ticks s = Some (s', rest) -> sched_inv init (s', L).
Proof.
  intros Hi Hd; destruct (sched_inv_known _ _ _ Hi) as [Hn Hk].
  apply sched_dispatch_spec in Hd as (pre & k & t & T' & l' & _ & _ & (l1 & l2 & Hl & _ & _ & -> & ->) & ->); [|done..].
  pose proof (sched_inv_idle _ pre _ _ Hi) as Hi1.
  eapply sched_inv_ext; [exact Hi1|..]; cbn.
  - rewrite Hl, (Permutation_app_comm l2); cbn; done.
  - done.
  - rewrite Hl; apply elem_of_app; left; apply elem_of_app; right; constructor.
  - done.
  - intros u; unfold woken_map; case_match; [done|]; by rewrite lookup_alter_is_Some.
  - intros u th; unfold woken_map; case_match; [by eauto 10|].
    intros (th0 & E & Hth)%alter_Some; exists th0; destruct (benign_timed_out th0) as (?&?&?).
    destruct Hth as [-> | ->]; auto.
Qed.

(** ** Creation *)

Lemma pushes_ok f data base size (h : H) L sp h' :
  stack_given L base size -> h_inv h L -> bmk_cpu_sched_create f data (base + size) h = (sp, h') ->
  h_inv h' L /\ forall a, h_static h a -> h_static h' a.
Proof.
  intros (p & n & HL & Hlo & Hhi) Hi; unfold bmk_cpu_sched_create, stack_push; intros [= <- <-]; split.
  - eapply h_poke_spec; [eapply h_poke_spec; [done|done|lia|lia]|done|lia|lia].
  - intros a Ha; by apply h_poke_static, h_poke_static.
Qed.

Lemma sched_create_spec bouncer name cookie thrflags f data base size t s s' L :
  h_inv (hp s) L -> create_served (hp s) -> (base <> NULL -> stack_given L base size) ->
  bmk_sched_create bouncer name cookie thrflags f data base size s = Ret (t, s') ->
  exists th h', s' = set_threads (t :: threads s) (set_thr (<[t := th]> (thr s)) (set_hp h' s)) /\
    Z.testbit (bt_flags th) 1 = false /\ is_runnable th = true /\ L !! t = None /\ ~ h_static (hp s) t /\
    (Z.testbit (bt_flags th) 3 = false -> L !! bt_stackbase th = None /\ bt_stackbase th <> t) /\
    h_inv h' (thread_allocs t th L) /\ (forall a, h_static (hp s) a -> h_static h' a).
Proof.
  intros Hi [Hs1 Hs2] Hst; unfold bmk_sched_create.
  destruct (h_xmalloc SIZEOF_THREAD (hp s)) as [[p x]|] eqn:E1; cbn [mbind outcome_bind]; [|done].
  pose proof (h_xmalloc_spec SIZEOF_THREAD _ _ _ _ Hi ltac:(unfold SIZEOF_THREAD; lia) Hs1 E1) as (_ & _ & _ & Hp & Hi1 & Hns & Hst1).
  specialize (Hs2 _ _ eq_refl).
  destruct (Z.eqb_spec base NULL) as [->|Hb].
  - unfold c_assert; destruct (size =? 0); cbn [mbind outcome_bind]; [|done]; unfold stackalloc.
    destruct (h_xmalloc THREAD_STACKSIZE x) as [[sb y]|] eqn:E2; cbn [mbind outcome_bind]; [|done].
    pose proof (h_xmalloc_spec THREAD_STACKSIZE _ _ _ _ Hi1 ltac:(unfold THREAD_STACKSIZE; lia) Hs2 E2)
      as (_ & _ & _ & Hsb & Hi2 & _ & Hst2).
    destruct (bmk_cpu_sched_create f data (sb + THREAD_STACKSIZE) y) as [sp h'] eqn:E3.
    eapply pushes_ok in E3 as [Hi3 Hst3]; [| |exact Hi2].
    2: { exists sb, THREAD_STACKSIZE; rewrite lookup_insert_eq; split; [done|]; unfold THREAD_STACKSIZE; lia. }
    destruct (copy_name name) as [nm|]; cbn [mbind outcome_bind]; [|done]; intros [= <- <-].
    apply lookup_insert_None in Hsb as [Hsb Hne].
    eexists _, h'; split_and!; [reflexivity|reflexivity|apply set_runnable_runnable|done|done|done|exact Hi3|auto].
  - cbn [mbind outcome_bind].
    destruct (bmk_cpu_sched_create f data (base + size) x) as [sp h'] eqn:E3.
    eapply pushes_ok in E3 as [Hi3 Hst3]; [| |exact Hi1].
    2: { destruct (Hst Hb) as (q & n & Hq & ? & ?); exists q, n; rewrite lookup_insert_ne; [done|].
         by intros ->; rewrite Hp in Hq. }
    destruct (copy_name name) as [nm|]; cbn [mbind outcome_bind]; [|done]; intros [= <- <-].
    eexists _, h'; split_and!; [reflexivity|reflexivity|apply set_runnable_runnable|done|done|done|exact Hi3|auto].
Qed.

Lemma thread_allocs_lookup t th L a : a <> t -> (Z.testbit (bt_flags th) 3 = false -> a <> bt_stackbase th) ->
  thread_allocs t th L !! a = L !! a.
Proof.
  intros Ht Hs; unfold thread_allocs; destruct (Z.testbit (bt_flags th) 3); [by rewrite lookup_insert_ne|].
  by rewrite lookup_insert_ne, lookup_insert_ne by (intros Heq; first [by apply Hs|done]).
Qed.

Lemma thread_allocs_own t th L : (Z.testbit (bt_flags th) 3 = false -> bt_stackbase th <> t) ->
  thread_allocs t th L !! t = Some SIZEOF_THREAD.
Proof.
  intros Hs; unfold thread_allocs; destruct (Z.testbit (bt_flags th) 3); [by rewrite lookup_insert_eq|].
  by rewrite lookup_insert_ne, lookup_insert_eq by (by apply Hs).
Qed.

Lemma thread_allocs_stack t th L : Z.testbit (bt_flags th) 3 = false ->
  thread_allocs t th L !! bt_stackbase th = Some THREAD_STACKSIZE.
Proof. intros E; unfold thread_allocs; rewrite E; apply lookup_insert_eq. Qed.

Lemma sched_inv_create init bouncer name cookie thrflags f data base size t s s' L :
  sched_inv init (s, L) -> create_served (hp s) -> (base <> NULL -> stack_given L base size) ->
  bmk_sched_create bouncer name cookie thrflags f data base size s = Ret (t, s') ->
  sched_inv init (s', thread_allocs t (getthr (thr s') t) L).
Proof.
  intros [Hn Hd Hc Hj [Hst Hin] Hh Ho Hs Hinj] Hsrv Hgiven Hcr; cbn [fst snd] in *.
  apply (sched_create_spec _ _ _ _ _ _ _ _ _ _ _ L) in Hcr as (th & h' & -> & H1b & _ & HLt & Hnst & Hstk & Hh' & Hst');
    [|done..].
  assert (t <> init) as Hti by (by intros ->).
  assert (thr s !! t = None) as Ht.
  { destruct (thr s !! t) as [u|] eqn:E; [|done]; specialize (Ho _ _ E Hti); congruence. }
  assert (t ∉ threads s ++ zombies s) as Hnt by (by rewrite <- Hd, Ht; intros [? [=]]).
  cbn [getthr thr set_threads set_thr]; unfold getthr; rewrite lookup_insert_eq; cbn [default].
  assert (forall u thu, thr s !! u = Some thu -> u <> init -> u <> t /\ (Z.testbit (bt_flags th) 3 = false -> u <> bt_stackbase th)) as Hne.
  { intros u thu E Hu; pose proof (Ho _ _ E Hu); split; [congruence|]; intros [Hx _]%Hstk; congruence. }
  assert (forall u thu, thr s !! u = Some thu -> u <> init -> Z.testbit (bt_flags thu) 3 = false ->
    bt_stackbase thu <> t /\ (Z.testbit (bt_flags th) 3 = false -> bt_stackbase thu <> bt_stackbase th)) as Hnes.
  { intros u thu E Hu H3; pose proof (Hs _ _ E Hu H3); split; [congruence|]; intros [Hx _]%Hstk; congruence. }
  constructor; cbn [fst snd threads zombies thr current_thread hp set_threads set_thr set_hp].
  - by apply NoDup_cons.
  - intros u; destruct (decide (u = t)) as [->|Hut].
    + rewrite lookup_insert_eq; split; [constructor|by eexists].
    + rewrite lookup_insert_ne, Hd by done; cbn; rewrite elem_of_cons; naive_solver.
  - cbn; by apply elem_of_cons; right.
  - intros u thu; rewrite lookup_insert_Some; naive_solver.
  - split; [auto|by apply elem_of_cons; right].
  - exact Hh'.
  - intros u thu [[<- <-]|[Hu E]]%lookup_insert_Some Hui; [apply thread_allocs_own; naive_solver|].
    destruct (Hne _ _ E Hui); rewrite thread_allocs_lookup; eauto.
  - intros u thu [[<- <-]|[Hu E]]%lookup_insert_Some Hui H3; [by apply thread_allocs_stack|].
    destruct (Hnes _ _ E Hui H3); rewrite thread_allocs_lookup; eauto.
  - intros u1 u2 v1 v2 [[<- <-]|[Hu1 E1]]%lookup_insert_Some [[<- <-]|[Hu2 E2]]%lookup_insert_Some ? ? ? ? Heq;
      [done|destruct (Hnes _ _ E2); naive_solver|destruct (Hnes _ _ E1); naive_solver|eauto].
Qed.

(** ** The reaper *)

Lemma thread_release_lookup t th L a : a <> t -> (Z.testbit (bt_flags th) 3 = false -> a <> bt_stackbase th) ->
  thread_release t th L !! a = L !! a.
Proof.
  intros Ht Hs; unfold thread_release; rewrite lookup_delete_ne by done.
  destruct (Z.testbit (bt_flags th) 3); [done|]; rewrite lookup_delete_ne; [done|]; intros Heq; by apply Hs.
Qed.

(** Freeing one zombie. *)
Definition reap_one (t : Z) (h : H) s : sched H :=
  set_thr (delete t (thr s)) (set_hp h (set_zombies (tq_remove t (zombies s)) s)).

Lemma sched_inv_reap_one init t s L :
  sched_inv init (s, L) -> t ∈ zombies s -> current_thread s ∈ threads s ->
  exists h, (x ← (if Z.land (bt_flags (getthr (thr s) t)) THREAD_EXTSTACK =? 0
                  then h_memfree (bt_stackbase (getthr (thr s) t)) (hp s) else Ret (hp s)); h_memfree t x) = Ret h /\
    sched_inv init (reap_one t h s, thread_release t (getthr (thr s) t) L).
Proof.
  intros [Hn Hd Hc Hj [Hst Hin] Hh Ho Hs Hinj] Htz Hcur; cbn [fst snd] in *.
  pose proof Hn as (Hnt & Hdis & Hnz)%NoDup_app.
  assert (t <> init) as Hti by (intros ->; by apply (Hdis init)).
  destruct (proj2 (Hd t)) as [th Hth]; [by apply elem_of_app; right|].
  rewrite (getthr_Some _ _ _ Hth); change THREAD_EXTSTACK with (2 ^ 3); rewrite flag_test by lia.
  assert (exists x, (if negb (Z.testbit (bt_flags th) 3) then h_memfree (bt_stackbase th) (hp s) else Ret (hp s)) = Ret x /\
    h_inv x (if Z.testbit (bt_flags th) 3 then L else delete (bt_stackbase th) L) /\
    forall a, h_static (hp s) a -> h_static x a) as (x & -> & Hx & Hstx).
  { destruct (Z.testbit (bt_flags th) 3) eqn:H3; cbn [negb]; [by eauto|].
    eapply h_memfree_spec; [done|]; rewrite (Hs _ _ Hth Hti H3); by eexists. }
  destruct (h_memfree_spec _ _ t Hx) as (h & Hfree & Hh' & Hsth).
  { destruct (Z.testbit (bt_flags th) 3) eqn:H3; [rewrite (Ho _ _ Hth Hti); by eexists|].
    rewrite lookup_delete_ne, (Ho _ _ Hth Hti); [by eexists|].
    intros Heq; pose proof (Ho _ _ Hth Hti) as E1; rewrite <- Heq, (Hs _ _ Hth Hti H3) in E1; done. }
  exists h; split; [exact Hfree|].
  pose proof (tq_remove_Permutation t _ Hnz Htz) as Hperm.
  assert (NoDup (t :: threads s ++ tq_remove t (zombies s))) as [Hnt' Hn']%NoDup_cons.
  { rewrite Hperm in Hn; by rewrite <- Permutation_middle in Hn. }
  assert (forall u thu, thr s !! u = Some thu -> u <> t -> u <> init ->
    (Z.testbit (bt_flags th) 3 = false -> u <> bt_stackbase th)) as Hne.
  { intros u thu E Hu Hui H3 ->; pose proof (Ho _ _ E Hui) as E1; rewrite (Hs _ _ Hth Hti H3) in E1; done. }
  assert (forall u thu, thr s !! u = Some thu -> u <> t -> u <> init -> Z.testbit (bt_flags thu) 3 = false ->
    bt_stackbase thu <> t /\ (Z.testbit (bt_flags th) 3 = false -> bt_stackbase thu <> bt_stackbase th)) as Hnes.
  { intros u thu E Hu Hui H3; split; [|by intros ??; apply Hu, (Hinj u t thu th)].
    intros Heq; pose proof (Hs _ _ E Hui H3) as E1; rewrite Heq, (Ho _ _ Hth Hti) in E1; done. }
  constructor; cbn [fst snd threads zombies thr current_thread hp reap_one set_zombies set_thr set_hp].
  - done.
  - intros u; destruct (decide (u = t)) as [->|Hut].
    + rewrite lookup_delete_eq; split; [by intros [? [=]]|done].
    + rewrite lookup_delete_ne, Hd, !elem_of_app, elem_of_tq_remove by done; naive_solver.
  - by apply elem_of_app; left.
  - intros u thu [_ E]%lookup_delete_Some; eauto.
  - split; auto.
  - exact Hh'.
  - intros u thu [Hu E]%lookup_delete_Some Hui; rewrite thread_release_lookup; eauto.
  - intros u thu [Hu E]%lookup_delete_Some Hui H3; destruct (Hnes u thu); auto; rewrite thread_release_lookup; eauto.
  - intros u1 u2 v1 v2 [_ E1]%lookup_delete_Some [_ E2]%lookup_delete_Some; eauto.
Qed.

Lemma release_all_delete T t l L : (t ∉ l) -> release_all (delete t T) l L = release_all T l L.
Proof.
  revert L; induction l as [|u l IH]; intros L Hn; [done|]; apply not_elem_of_cons in Hn as [? ?].
  cbn [release_all foldl]; unfold release_all in IH; rewrite IH by done; unfold getthr; by rewrite lookup_delete_ne.
Qed.

Lemma sched_reap_spec init s L l :
  sched_inv init (s, L) -> zombies s = l -> current_thread s ∈ threads s ->
  exists s', sched_reap (current_thread s) l s = Ret s' /\ sched_inv init (s', release_all (thr s) l L) /\
    zombies s' = [] /\ threads s' = threads s /\ current_thread s' = current_thread s /\
    (forall t, (t ∉ l) -> thr s' !! t = thr s !! t).
Proof.
  revert s L; induction l as [|t l IH]; intros s L Hi Hz Hcur; [by exists s|].
  pose proof (si_nodup _ _ Hi) as (Hnt & Hdis & Hnz)%NoDup_app; cbn in Hdis, Hnz; rewrite Hz in Hdis, Hnz.
  apply NoDup_cons in Hnz as [Htl Hnl].
  destruct (sched_inv_reap_one init t s L) as (h & Hfree & Hi'); [done|rewrite Hz; constructor|done|].
  cbn [sched_reap]; rewrite decide_True by (intros ->; apply (Hdis (current_thread s)); [done|constructor]).
  cbn [zombies set_zombies hp]; revert Hfree.
  destruct (if Z.land _ _ =? 0 then _ else _) as [x|]; cbn [mbind outcome_bind]; [|done]; intros ->.
  destruct (IH (reap_one t h s) (thread_release t (getthr (thr s) t) L)) as (s' & Hr & Hi2 & Hz' & Ht' & Hc' & Hk).
  - done.
  - cbn; rewrite Hz, tq_remove_cons_eq; by apply tq_remove_notin.
  - done.
  - exists s'; split_and!; [exact Hr| |done..|].
    2: { intros u [? ?]%not_elem_of_cons; rewrite Hk by done; cbn; by rewrite lookup_delete_ne. }
    change (release_all (thr s) (t :: l) L) with (release_all (thr s) l (thread_release t (getthr (thr s) t) L)).
    rewrite <- (release_all_delete (thr s) t) by done; exact Hi2.
Qed.

Lemma sched_inv_exit init s L :
  sched_inv init (s, L) -> current_thread s ∈ threads s -> current_thread s <> init ->
  sched_inv init (exit_final s, L).
Proof.
  intros Hi0 Hc Hci; apply (sched_inv_upd _ clear_runnable (current_thread s)) in Hi0; [|apply benign_clear_runnable].
  destruct Hi0 as [Hn Hd _ Hj [Hst Hin] Hh Ho Hs Hinj]; cbn [fst snd] in *.
  pose proof Hn as (Hnt & _ & _)%NoDup_app; cbn in Hnt.
  assert (tq_remove (current_thread s) (threads s) ++ current_thread s :: zombies s ≡ₚ threads s ++ zombies s) as Hp.
  { rewrite (tq_remove_Permutation _ _ Hnt Hc) at 2; by rewrite <- Permutation_middle. }
  constructor; try done; cbn [fst snd threads zombies current_thread exit_final set_zombies set_threads upd set_thr bmk_sched_current tq_insert_head].
  - rewrite Hp; exact Hn.
  - intros t; rewrite Hp; apply Hd.
  - apply elem_of_app; right; constructor.
  - split; [done|]; apply elem_of_tq_remove; auto.
Qed.

Lemma exit_gate_None init s L : sched_inv init (s, L) -> exit_gate s = None.
Proof.
  intros Hi; unfold exit_gate, bmk_sched_current; change THREAD_MUSTJOIN with (2 ^ 1); rewrite flag_test by lia.
  destruct (proj2 (si_dom _ _ Hi (current_thread s)) (si_cur _ _ Hi)) as [th Hth]; cbn [fst] in Hth.
  by rewrite (getthr_Some _ _ _ Hth), (si_nojoin _ _ Hi _ _ Hth).
Qed.

Lemma join_halts init j s L : sched_inv init (s, L) ->
  bmk_sched_join j s = c_panic "joinable->bt_flags & THREAD_MUSTJOIN".
Proof.
  intros Hi; unfold bmk_sched_join; change THREAD_MUSTJOIN with (2 ^ 1); rewrite flag_test by lia.
  destruct (thr s !! j) as [th|] eqn:Hth; [|by unfold getthr; rewrite Hth].
  by rewrite (getthr_Some _ _ _ Hth), (si_nojoin _ _ Hi _ _ Hth).
Qed.

Lemma sched_inv_step init c lab c' : sched_inv init c -> sstep init c lab c' -> sched_inv init c'.
Proof.
  intros Hi Hst; destruct Hst; try (by apply sched_inv_upd; [first
    [apply benign_wake|apply benign_block|apply benign_with_wakeup|by apply benign_id]|]).
  - by eapply sched_inv_dispatch.
  - rename select (sched_reap _ _ _ = _) into Hr.
    destruct (sched_reap_spec init s L (zombies s)) as (s1 & Hr1 & Hi1 & _); [done|done|done|].
    rewrite Hr in Hr1; injection Hr1 as ->.
    rewrite tq_remove_notin; [done|].
    pose proof (si_nodup _ _ Hi) as (_ & Hdis & _)%NoDup_app; by apply Hdis.
  - by eapply sched_inv_create.
  - rename select (bmk_sched_settls _ _ _ _ = _) into Hx; revert Hx; unfold bmk_sched_settls, c_panic.
    destruct (_ <=? _); [done|]; intros [= <-]; apply sched_inv_upd; [by apply benign_id|done].
  - eapply sched_inv_ext; [exact Hi|done|done|exact (si_cur _ _ Hi)|done|done|by eauto 10].
  - apply sched_inv_upd, sched_inv_upd; [apply benign_clear_runnable|apply benign_with_wakeup|done].
  - rewrite (exit_gate_None init s L) in * by done; done.
  - by apply sched_inv_exit.
  - rewrite (join_halts init j s L) in * by done; done.
  - rewrite (join_halts init j s L) in * by done; done.
  - rename select (forall a, owned _ _ _ -> _) into Hk.
    destruct Hi as [? ? ? ? [? ?] ? Ho Hs ?]; constructor; cbn [fst snd set_hp thr threads zombies current_thread hp] in *; auto.
    + intros t th E Hti; rewrite Hk; [eauto|]; exists t, th; auto.
    + intros t th E Hti Hb3; rewrite Hk; [eauto|]; exists t, th; auto.
Qed.

(** Runs of steps with their labels. *)
Inductive sruns (init : Z) : sched H * gmap Z Z -> list label -> sched H * gmap Z Z -> Prop :=
| sr_nil c : sruns init c [] c
| sr_cons c lab c1 ls c2 : sstep init c lab c1 -> sruns init c1 ls c2 -> sruns init c (lab :: ls) c2.

Lemma sched_inv_runs init c ls c' : sruns init c ls c' -> sched_inv init c -> sched_inv init c'.
Proof. induction 1; eauto using sched_inv_step. Qed.

Lemma sched_inv_boot init h L : h_inv h L -> h_static h init -> sched_inv init (bmk_sched_init init h, L).
Proof.
  intros Hh Hs; unfold bmk_sched_init; constructor; cbn [fst snd thr threads zombies current_thread hp app].
  - apply NoDup_singleton.
  - intros t; rewrite lookup_singleton_is_Some, list_elem_of_singleton; naive_solver.
  - by apply list_elem_of_singleton.
  - by intros t th [<- <-]%lookup_singleton_Some.
  - split; [done|by apply list_elem_of_singleton].
  - done.
  - by intros t th [<- <-]%lookup_singleton_Some.
  - by intros t th [<- <-]%lookup_singleton_Some.
  - intros t1 t2 th1 th2 [<- _]%lookup_singleton_Some [<- _]%lookup_singleton_Some; done.
Qed.

(** C11: from [bmk_sched_init] on, through every sequence of scheduler
    operations, dispatches, interrupt wake-ups and heap use by the rest of
    the kernel, the reaper succeeds.  It releases the structure and the
    stack (if it was not given from outside) of every zombie and of no
    other thread, each exactly once, leaves the zombie list empty and the
    run queue as it was. *)
Theorem reaper_safe init h L0 ls s L :
  h_inv h L0 -> h_static h init -> sruns init (bmk_sched_init init h, L0) ls (s, L) ->
  current_thread s ∈ threads s ->
  exists s', sched_reap (current_thread s) (zombies s) s = Ret s' /\
    h_inv (hp s') (release_all (thr s) (zombies s) L) /\ zombies s' = [] /\ threads s' = threads s /\
    current_thread s' = current_thread s /\
    (forall t, is_Some (thr s' !! t) <-> t ∈ threads s).
Proof.
  intros Hh Hs Hr Hc; apply sched_inv_runs in Hr; [|by apply sched_inv_boot].
  destruct (sched_reap_spec init s L (zombies s) Hr eq_refl Hc) as (s' & E & Hi & Hz & Ht & Hcu & _).
  exists s'; split_and!; try done; [exact (si_heap _ _ Hi)|].
  intros t; rewrite (si_dom _ _ Hi); cbn; by rewrite Hz, Ht, app_nil_r.
Qed.

(** C39: in every state the kernel can reach, [bmk_sched_join] fails its
    assertion whatever thread it is given, and a thread that exits never
    waits to be joined: [bmk_sched_create] does not store its flags
    argument, so THREAD_MUSTJOIN is never set. *)
Theorem join_unusable init h L0 ls s L j :
  h_inv h L0 -> h_static h init -> sruns init (bmk_sched_init init h, L0) ls (s, L) ->
  bmk_sched_join j s = c_panic "joinable->bt_flags & THREAD_MUSTJOIN" /\ exit_gate s = None.
Proof.
  intros Hh Hs Hr; apply sched_inv_runs in Hr; [|by apply sched_inv_boot].
  split; [by apply (join_halts init j s L)|by apply (exit_gate_None init s L)].
Qed.

(** C10: the threads never share memory.  In every reachable state each
    thread is in exactly one of the run queue and the zombie list, once; its
    structure and its own stack are live allocations, and no two threads have
    the same stack. *)
Theorem threads_own_memory init h L0 ls s L :
  h_inv h L0 -> h_static h init -> sruns init (bmk_sched_init init h, L0) ls (s, L) ->
  NoDup (threads s ++ zombies s) /\ h_inv (hp s) L /\
  forall t th, thr s !! t = Some th -> t <> init ->
    t ∈ threads s ++ zombies s /\ L !! t = Some SIZEOF_THREAD /\
    (Z.land (bt_flags th) THREAD_EXTSTACK = 0 -> L !! bt_stackbase th = Some THREAD_STACKSIZE /\
     forall u thu, thr s !! u = Some thu -> u <> init -> u <> t -> Z.land (bt_flags thu) THREAD_EXTSTACK = 0 ->
       bt_stackbase thu <> bt_stackbase th).
Proof.
  intros Hh Hs Hr; apply sched_inv_runs in Hr; [|by apply sched_inv_boot].
  assert (forall f, Z.land f THREAD_EXTSTACK = 0 -> Z.testbit f 3 = false) as Hbit.
  { intros f E%Z.eqb_eq; change THREAD_EXTSTACK with (2 ^ 3) in E; rewrite flag_test in E by lia.
    by apply negb_true_iff in E. }
  split_and!; [exact (si_nodup _ _ Hr)|exact (si_heap _ _ Hr)|].
  intros t th E Hti; split_and!; [apply (si_dom _ _ Hr); by eexists|by apply (si_own _ _ Hr _ _ E)|].
  intros Hx%Hbit; split; [by apply (si_stack _ _ Hr _ _ E)|].
  intros u thu Eu Hui Hut Hxu%Hbit Heq; by apply Hut, (si_inj _ _ Hr _ _ _ _ Eu E).
Qed.

(** ** Bounded waiting *)

(** Steps during which [t] waits: it is not dispatched and does not stop. *)
Definition waits (t : Z) (lab : label) : Prop :=
  match lab with LDispatch u | LStop u => u <> t | LCreate _ | LOther => True end.
Fixpoint dispatches (ls : list label) : nat :=
  match ls with [] => O | LDispatch _ :: ls => S (dispatches ls) | _ :: ls => dispatches ls end.
Fixpoint creations (ls : list label) : nat :=
  match ls with [] => O | LCreate _ :: ls => S (creations ls) | _ :: ls => creations ls end.

(** [t] is runnable with at most [n] threads before it. *)
Definition queued (t : Z) (n : nat) s : Prop :=
  is_runnable (getthr (thr s) t) = true /\ exists l1 l2, threads s = l1 ++ t :: l2 /\ (length l1 <= n)%nat.

Lemma queued_upd f u t n s :
  queued t n s -> (u = t -> forall th, is_runnable th = true -> is_runnable (f th) = true) -> queued t n (upd f u s).
Proof.
  intros [Hr Hl] Hf; split; [|done]; cbn.
  destruct (decide (u = t)) as [->|]; [|by rewrite getthr_alter_ne].
  destruct (thr s !! t) as [th|] eqn:E; [rewrite getthr_alter_eq by done; auto|].
  unfold getthr in *; by rewrite lookup_alter_eq, E in *.
Qed.

Lemma queued_wake u t n s : queued t n s -> queued t n (bmk_sched_wake u s).
Proof. intros Hq; apply queued_upd; [done|]; intros; apply set_runnable_runnable. Qed.

Lemma queued_idle t n pre s : queued t n s -> queued t n (idle pre s).
Proof.
  assert (forall l s, queued t n s -> queued t n (foldl (fun s t => bmk_sched_wake t s) s l)) as Hw.
  { induction l as [|u l IH]; intros x Hx; [done|]; by apply IH, queued_wake. }
  unfold idle; revert s; induction pre as [|k pre IH]; intros s Hq; [done|]; cbn; auto.
Qed.

Lemma split_unique (t : Z) l1 l2 m1 m2 :
  NoDup (l1 ++ t :: l2) -> l1 ++ t :: l2 = m1 ++ t :: m2 -> l1 = m1 /\ l2 = m2.
Proof.
  revert m1; induction l1 as [|x l1 IH]; intros [|y m1]; cbn; intros Hn E.
  - by injection E as ->.
  - injection E as -> ->; apply NoDup_cons in Hn as [Hn _]; exfalso; apply Hn.
    apply elem_of_app; right; constructor.
  - injection E as -> <-; apply NoDup_cons in Hn as [Hn _]; exfalso; apply Hn.
    apply elem_of_app; right; constructor.
  - injection E as -> E; apply NoDup_cons in Hn as [_ Hn]. destruct (IH m1 Hn E) as [-> ->]; done.
Qed.

Lemma queued_dispatch init t n ticks s s' rest L :
  sched_inv init (s, L) -> queued t n s -> sched_dispatch ticks s = Some (s', rest) -> current_thread s' <> t ->
  exists m, n = S m /\ queued t m s'.
Proof.
  intros Hi Hq Hd Hne; destruct (sched_inv_known _ _ _ Hi) as [Hn Hk].
  apply sched_dispatch_spec in Hd as (pre & k & u & T' & l' & _ & _ & (m1 & m2 & Hl & HF & _ & -> & ->) & ->); [|done..].
  cbn in Hne; destruct (idle_frame pre s) as (Ht & _).
  pose proof (queued_idle t n pre s Hq) as [Hr (l1 & l2 & Hl1 & Hlen)].
  assert (t ∈ m2) as (a & b & ->)%list_elem_of_split.
  { assert (t ∈ m1 ++ u :: m2) as [Hx|[<-|Hx]%elem_of_cons]%elem_of_app; try done.
    - rewrite <- Hl, Hl1; apply elem_of_app; right; constructor.
    - rewrite Forall_forall in HF; specialize (HF _ Hx); unfold eligible in HF; by rewrite Hr in HF. }
  destruct (split_unique t l1 l2 (m1 ++ u :: a) b) as [-> ->].
  { by rewrite <- Hl1, Ht. }
  { rewrite <- Hl1, Hl, <- app_assoc; done. }
  rewrite length_app in Hlen; cbn in Hlen.
  exists (n - 1)%nat; split; [lia|]; split.
  - cbn; unfold woken_map; case_match; [done|]; by rewrite getthr_alter_ne.
  - exists (m1 ++ a), (b ++ [u]); cbn; rewrite length_app; split; [by rewrite <- !app_assoc|lia].
Qed.

(** A new thread is put at the head of the queue. *)
Lemma queued_create init bouncer name cookie thrflags f data base size u t n s s' L :
  sched_inv init (s, L) -> create_served (hp s) -> (base <> NULL -> stack_given L base size) ->
  bmk_sched_create bouncer name cookie thrflags f data base size s = Ret (u, s') -> queued t n s -> queued t (S n) s'.
Proof.
  intros Hi Hsrv Hg Hc [Hr (l1 & l2 & Hl & Hlen)]; pose proof (sched_inv_create _ _ _ _ _ _ _ _ _ _ _ _ _ Hi Hsrv Hg Hc) as Hi'.
  destruct (sched_create_spec _ _ _ _ _ _ _ _ _ _ _ L (si_heap _ _ Hi) Hsrv Hg Hc) as (th & h' & -> & _).
  pose proof (si_nodup _ _ Hi') as Hn; cbn [fst threads zombies set_threads set_thr set_hp app] in Hn; apply NoDup_cons in Hn as [Hu _].
  assert (u <> t) as Hne by (intros ->; apply Hu, elem_of_app; left; cbn; rewrite Hl; apply elem_of_app; right; by left).
  split; cbn [thr threads set_threads set_thr set_hp].
  - unfold getthr in *; by rewrite lookup_insert_ne.
  - exists (u :: l1), l2; split; [cbn; rewrite Hl; done|cbn; lia].
Qed.

Lemma queued_step init t n c lab c' :
  sched_inv init c -> queued t n (fst c) -> sstep init c lab c' -> waits t lab ->
  match lab with
  | LDispatch _ => exists m, n = S m /\ queued t m (fst c')
  | LCreate _ => queued t (S n) (fst c')
  | _ => queued t n (fst c')
  end.
Proof.
  intros Hi Hq Hst Hw; destruct Hst; cbn [fst waits] in *; try done;
    try (by apply queued_upd; first [done|intros -> th; rewrite !runnable_bit; done]).
  - by eapply queued_dispatch.
  - rename select (sched_reap _ _ _ = _) into Hr.
    destruct (sched_reap_spec init s L (zombies s)) as (s1 & Hr1 & _ & _ & Ht & _ & Hk); [done..|].
    rewrite Hr in Hr1; injection Hr1 as <-; destruct Hq as [Hrun (l1 & l2 & Hl & Hlen)].
    split; [|rewrite Ht; eauto]; unfold getthr; rewrite Hk; [done|].
    pose proof (si_nodup _ _ Hi) as (_ & Hdis & _)%NoDup_app; apply Hdis; cbn.
    rewrite Hl; apply elem_of_app; right; constructor.
  - by eapply queued_create.
  - by apply queued_wake.
  - rename select (bmk_sched_settls _ _ _ _ = _) into Hx; revert Hx; unfold bmk_sched_settls, c_panic.
    destruct (_ <=? _); [done|]; intros [= <-]; by apply queued_upd.
  - apply queued_upd; [apply queued_upd|]; done.
  - rewrite (exit_gate_None init s L) in * by done; done.
  - destruct (queued_upd clear_runnable (current_thread s) t n s Hq) as [Hrun (l1 & l2 & Hl & Hlen)]; [done|].
    split; [done|]; cbn in *; rewrite Hl; exists (tq_remove (current_thread s) l1), (tq_remove (current_thread s) l2).
    unfold tq_remove; rewrite filter_app, filter_cons_True by done; split; [done|].
    etransitivity; [apply length_filter|done].
  - rewrite (join_halts init j s L) in * by done; done.
  - rewrite (join_halts init j s L) in * by done; done.
Qed.

Lemma queued_runs init t n c ls c' :
  sruns init c ls c' -> sched_inv init c -> queued t n (fst c) -> Forall (waits t) ls ->
  (dispatches ls <= n + creations ls)%nat.
Proof.
  intros Hr; revert n; induction Hr as [c|c lab c1 ls c2 Hst Hr IH]; intros n Hi Hq Hw; [cbn; lia|].
  inversion Hw as [|? ? Hw1 Hw2]; subst.
  pose proof (queued_step _ _ _ _ _ _ Hi Hq Hst Hw1) as Hq1.
  pose proof (sched_inv_step _ _ _ _ Hi Hst) as Hi1.
  destruct lab; cbn [dispatches creations]; [|specialize (IH _ Hi1 Hq1 Hw2); lia|by apply IH|by apply IH].
  destruct Hq1 as (m & -> & Hq1); apply le_n_S; by apply IH.
Qed.

(** C9: the round robin is fair.  In a run in which a runnable thread with
    [n] threads before it in the queue is not dispatched and does not stop
    (block, sleep or exit), there are at most [n] dispatches plus one for every
    thread that is created on the way (new threads go to the head of the
    queue): it is dispatched at the latest by the dispatch after these,
    whatever else happens in between. *)
Theorem bounded_waiting init s L ls s' L' t l1 l2 :
  sched_inv init (s, L) -> threads s = l1 ++ t :: l2 -> is_runnable (getthr (thr s) t) = true ->
  sruns init (s, L) ls (s', L') -> Forall (waits t) ls ->
  (dispatches ls <= length l1 + creations ls)%nat.
Proof.
  intros Hi Hl Hr Hrun Hw; apply (queued_runs init t _ _ _ _ Hrun Hi); [|done].
  split; [done|]; exists l1, l2; done.
Qed.
End Invariant.

(** ** The join protocol *)

Section Join.
Context {H : Type} `{HeapOps H}.
Implicit Types s : sched H.

Lemma getthr_upd_eq f t s : is_Some (thr s !! t) -> getthr (thr (upd f t s)) t = f (getthr (thr s) t).
Proof. apply getthr_alter_eq. Qed.
Lemma getthr_upd_ne f t u s : t <> u -> getthr (thr (upd f t s)) u = getthr (thr s) u.
Proof. apply getthr_alter_ne. Qed.
Lemma upd_is_Some f t u s : is_Some (thr (upd f t s) !! u) <-> is_Some (thr s !! u).
Proof. apply lookup_alter_is_Some. Qed.

Definition bit (i : Z) s (t : Z) : bool := Z.testbit (bt_flags (getthr (thr s) t)) i.

Lemma bit_flags_eq g i t s : is_Some (thr s !! t) ->
  bit i (upd (fun th => with_flags (g (bt_flags th)) th) t s) t = Z.testbit (g (bt_flags (getthr (thr s) t))) i.
Proof. intros; unfold bit; by rewrite getthr_upd_eq. Qed.
Lemma bit_ne f i t u s : t <> u -> bit i (upd f t s) u = bit i s u.
Proof. intros; unfold bit; by rewrite getthr_upd_ne. Qed.
Lemma bit_wake i t s : is_Some (thr s !! t) -> bit i (bmk_sched_wake t s) t = bit i s t || Z.testbit THREAD_RUNNABLE i.
Proof. intros; unfold bit, bmk_sched_wake; rewrite getthr_upd_eq by done; apply Z.lor_spec. Qed.
Lemma bit_block i t s : 0 <= i -> is_Some (thr s !! t) ->
  bit i (bmk_sched_block t s) t = bit i s t && negb (Z.testbit THREAD_RUNNABLE i).
Proof.
  intros; unfold bit, bmk_sched_block; rewrite getthr_upd_eq by done.
  cbn [block_thread clear_runnable with_flags with_wakeup bt_flags]; by rewrite Z.land_spec, Z.lnot_spec.
Qed.

Lemma exit_gate_bit s : exit_gate s = if bit 1 s (current_thread s) then exit_gate s else None.
Proof.
  unfold exit_gate, bit, bmk_sched_current; change THREAD_MUSTJOIN with (2 ^ 1); rewrite flag_test by lia.
  by destruct (Z.testbit _ 1).
Qed.

Lemma join_loop_bit j s : join_loop j s =
  if bit 2 s j
  then Ret (inl (bmk_sched_wake j (upd (fun th => with_flags (Z.land (bt_flags th) (Z.lnot THREAD_MUSTJOIN)) th) j s)))
  else Ret (inr (bmk_sched_block (current_thread s) (set_joinwq (joinwq s ++ [(current_thread s, j)]) s))).
Proof.
  unfold join_loop, bit, bmk_sched_current; change THREAD_JOINED with (2 ^ 2); rewrite flag_test by lia.
  by destruct (Z.testbit _ 2).
Qed.

Lemma joinwq_found (q : list (Z * Z)) c j : Forall (fun jw => snd jw <> j) q ->
  list_find (fun jw => snd jw = j) (q ++ [(c, j)]) = Some (length q, (c, j)).
Proof.
  intros Hq; rewrite list_find_app_r by (by apply list_find_None).
  cbn; rewrite decide_True by done; done.
Qed.

Lemma gate_marks j s : current_thread s = j -> is_Some (thr s !! j) -> bit 1 s j = true ->
  exists s1, exit_gate s = Some s1 /\ bit 0 s1 j = false /\ bit 1 s1 j = true /\ bit 2 s1 j = true /\
    joinwq s1 = joinwq s /\ (forall t, is_Some (thr s1 !! t) <-> is_Some (thr s !! t)) /\
    (forall n c, list_find (fun jw => snd jw = j) (joinwq s) = Some (n, (c, j)) -> c <> j -> is_Some (thr s !! c) ->
       bit 0 s1 c = true).
Proof.
  intros Hc Hj Hb; rewrite exit_gate_bit, Hc, Hb; unfold exit_gate, bmk_sched_current; rewrite Hc.
  change THREAD_MUSTJOIN with (2 ^ 1); rewrite flag_test by lia; unfold bit in Hb; rewrite Hb; cbn [negb].
  set (s0 := upd (fun th => with_flags (Z.lor (bt_flags th) THREAD_JOINED) th) j s).
  assert (forall t, is_Some (thr s0 !! t) <-> is_Some (thr s !! t)) as Hd0 by (intros; apply upd_is_Some).
  assert (bit 1 s0 j = true /\ bit 2 s0 j = true) as [H1 H2].
  { unfold s0; rewrite !(bit_flags_eq (fun x => Z.lor x THREAD_JOINED)), !Z.lor_spec, Hb by done.
    split; [done|apply orb_true_r]. }
  change (joinwq s0) with (joinwq s).
  set (s' := match list_find _ _ with Some _ => _ | None => s0 end).
  assert ((forall t, is_Some (thr s' !! t) <-> is_Some (thr s !! t)) /\ bit 1 s' j = true /\ bit 2 s' j = true /\
    joinwq s' = joinwq s) as (Hd & H1' & H2' & Hq).
  { unfold s'; destruct (list_find _ _) as [[n [jt w]]|]; [|done]; split_and!; [| | |done].
    - intros t; rewrite <- Hd0; apply upd_is_Some.
    - destruct (decide (jt = j)) as [->|]; [rewrite bit_wake, H1 by (by apply Hd0)|unfold bmk_sched_wake; rewrite bit_ne]; done.
    - destruct (decide (jt = j)) as [->|]; [rewrite bit_wake, H2 by (by apply Hd0)|unfold bmk_sched_wake; rewrite bit_ne]; done. }
  eexists; split; [reflexivity|]; rewrite !bit_block by (first [lia|by apply Hd]).
  rewrite H1', H2'; split_and!; try done.
  - apply andb_false_r.
  - intros t; rewrite <- Hd; apply upd_is_Some.
  - intros n c Hf Hcj Hcs; unfold bmk_sched_block; rewrite bit_ne by done; unfold s'; rewrite Hf.
    rewrite bit_wake by (by apply Hd0); apply orb_true_r.
Qed.

Lemma join_done j s : is_Some (thr s !! j) -> bit 2 s j = true ->
  exists s', join_loop j s = Ret (inl s') /\ bit 0 s' j = true /\ bit 1 s' j = false /\ joinwq s' = joinwq s.
Proof.
  intros Hj Hb; rewrite join_loop_bit, Hb; eexists; split; [reflexivity|].
  rewrite !bit_wake by (by apply upd_is_Some); split; [apply orb_true_r|]; split; [|done].
  rewrite (bit_flags_eq (fun x => Z.land x (Z.lnot THREAD_MUSTJOIN))) by done.
  by rewrite Z.land_spec, Z.lnot_spec, andb_false_r by lia.
Qed.

Lemma join_assert j s : bit 1 s j = true -> bmk_sched_join j s = join_loop j s.
Proof.
  intros Hb; unfold bmk_sched_join; change THREAD_MUSTJOIN with (2 ^ 1); rewrite flag_test by lia.
  unfold bit in Hb; by rewrite Hb.
Qed.

Lemma gate_open j s : bit 1 s j = false -> exit_gate (set_current j s) = None.
Proof. intros Hb; rewrite exit_gate_bit; by change (bit 1 (set_current j s) (current_thread (set_current j s))) with (bit 1 s j); rewrite Hb. Qed.

(** C32: the hand-shake between [bmk_sched_join] and [bmk_sched_exit] loses
    no wake-up.  If thread [c] joins [j] first, it queues itself and blocks;
    when [j] then reaches the gate of its exit it marks itself, wakes [c] and
    blocks; resumed, [c] leaves the queue as it found it, allows [j] to go and
    wakes it; and the gate then lets [j] through.  If [j] reaches the gate
    first, [c] does not wait at all. *)
Theorem join_handshake s c j :
  c <> j -> is_Some (thr s !! c) -> is_Some (thr s !! j) ->
  bit 1 s j = true -> bit 2 s j = false -> Forall (fun jw => snd jw <> j) (joinwq s) ->
  (exists s1 s2 s3,
     bmk_sched_join j (set_current c s) = Ret (inr s1) /\ is_runnable (getthr (thr s1) c) = false /\
     exit_gate (set_current j s1) = Some s2 /\
     is_runnable (getthr (thr s2) c) = true /\ is_runnable (getthr (thr s2) j) = false /\
     join_resumed j (set_current c s2) = Ret (inl s3) /\
     joinwq s3 = joinwq s /\ is_runnable (getthr (thr s3) j) = true /\ exit_gate (set_current j s3) = None) /\
  (exists s1 s2,
     exit_gate (set_current j s) = Some s1 /\ is_runnable (getthr (thr s1) j) = false /\
     bmk_sched_join j (set_current c s1) = Ret (inl s2) /\
     is_runnable (getthr (thr s2) j) = true /\ exit_gate (set_current j s2) = None).
Proof.
  intros Hne Hc Hj H1 H2 Hq; split.
  - set (s0 := set_joinwq (joinwq s ++ [(c, j)]) (set_current c s)).
    destruct (gate_marks j (set_current j (bmk_sched_block c s0))) as (s2 & Hg & Hb0 & Hb1 & Hb2 & Hq2 & Hd & Hw);
      [done|by apply upd_is_Some| |].
    { change (bit 1 (upd block_thread c s0) j = true); rewrite bit_ne by done; exact H1. }
    specialize (Hw (length (joinwq s)) c (joinwq_found _ _ _ Hq) Hne ltac:(by apply upd_is_Some)).
    destruct (join_done j (set_joinwq (tq_remove (c, j) (joinwq s2)) (set_current c s2))) as (s3 & Hjd & H30 & H31 & Hq3).
    { apply Hd; by apply upd_is_Some. }
    { exact Hb2. }
    exists (bmk_sched_block c s0), s2, s3; rewrite !runnable_bit; split_and!; try done.
    + rewrite join_assert by done; rewrite join_loop_bit.
      by change (bit 2 (set_current c s) j) with (bit 2 s j); rewrite H2.
    + change (bit 0 (bmk_sched_block c s0) c = false); rewrite bit_block by done; apply andb_false_r.
    + rewrite Hq3; cbn [joinwq set_joinwq]; rewrite Hq2.
      change (tq_remove (c, j) (joinwq s ++ [(c, j)]) = joinwq s); rewrite tq_remove_split, app_nil_r; [done| |by intros ?%elem_of_nil].
      rewrite Forall_forall in Hq; intros Hx; by apply (Hq _ Hx).
    + by apply gate_open.
  - destruct (gate_marks j (set_current j s)) as (s1 & Hg & Hb0 & Hb1 & Hb2 & _ & Hd & _); [done..|].
    destruct (join_done j (set_current c s1)) as (s2 & Hjd & H20 & H21 & _); [by apply Hd|done|].
    exists s1, s2; rewrite !runnable_bit; split_and!; try done; [by rewrite join_assert|by apply gate_open].
Qed.
End Join.

(** ** A concrete run on the concrete allocator

    [init] creates a thread, is switched away to it, and the thread exits;
    then [init] is dispatched again and reaps it. *)

Definition demo_init : Z := 0x101000.
Definition demo_sch0 : sched mstate := bmk_sched_init demo_init demo_s.
Definition demo_out : outcome (Z * sched mstate) := bmk_sched_create 0x100500 [97] 0 0 0x100600 7 0 0 demo_sch0.
Definition demo_t : Z := match demo_out with Ret (t, _) => t | Halt _ => 0 end.
Definition demo_sch1 : sched mstate := match demo_out with Ret (_, s) => s | Halt _ => demo_sch0 end.
Definition demo_dispatch (s : sched mstate) : sched mstate :=
  match sched_dispatch [Tick 5 []] s with Some (s, _) => s | None => s end.
Definition demo_sch2 : sched mstate := demo_dispatch demo_sch1.
Definition demo_sch3 : sched mstate := exit_final demo_sch2.
Definition demo_sch4 : sched mstate := demo_dispatch demo_sch3.
Definition demo_L : gmap Z Z := thread_allocs demo_t (getthr (thr demo_sch1) demo_t) ∅.

Lemma demo_inv0 : h_inv demo_s ∅.
Proof. exists ∅; split; [exact demo_ok|]; intros p n; by rewrite lookup_empty. Qed.

Definition demo_hp1 : mstate := match bmk_xmalloc SIZEOF_THREAD demo_s with Ret (_, y) => y | Halt _ => demo_s end.

Lemma demo_served : create_served (hp demo_sch0).
Proof.
  split; [change (request_fits SIZEOF_THREAD 0 demo_s); fits_tac|]. intros p x E.
  change (bmk_xmalloc SIZEOF_THREAD demo_s = Ret (p, x)) in E.
  assert (x = demo_hp1) as -> by (unfold demo_hp1; by rewrite E).
  clear E; change (request_fits THREAD_STACKSIZE 0 demo_hp1); fits_tac.
Qed.

Lemma demo_run :
  sruns demo_init (bmk_sched_init demo_init demo_s, ∅)
    [LCreate demo_t; LDispatch demo_t; LStop demo_t; LDispatch demo_init] (demo_sch4, demo_L).
Proof.
  apply (sr_cons _ _ _ (demo_sch1, demo_L)).
  { eapply (st_create _ demo_sch0 ∅ 0x100500 [97] 0 0 0x100600 7 0 0);
      [constructor|exact demo_served|by intros []|vm_compute; reflexivity]. }
  apply (sr_cons _ _ _ (demo_sch2, demo_L)).
  { apply (st_dispatch demo_init demo_sch1 demo_L [Tick 5 []] demo_sch2 []); vm_compute; reflexivity. }
  apply (sr_cons _ _ _ (demo_sch3, demo_L)).
  { apply (st_exit demo_init demo_sch2 demo_L); by vm_compute; first [repeat constructor|congruence]. }
  apply (sr_cons _ _ _ (demo_sch4, demo_L)); [|constructor].
  apply (st_dispatch demo_init demo_sch3 demo_L [Tick 5 []] demo_sch4 []); vm_compute; reflexivity.
Qed.

Lemma reaper_safe_witness :
  exists s', sched_reap demo_init [demo_t] demo_sch4 = Ret s' /\
    memalloc_inv (hp s') (release_all (thr demo_sch4) [demo_t] demo_L) /\ zombies s' = [] /\
    threads s' = [demo_init].
Proof.
  destruct (reaper_safe demo_init demo_s ∅ _ demo_sch4 demo_L demo_inv0 ltac:(by vm_compute) demo_run
    ltac:(vm_compute; constructor)) as (s' & ? & ? & ? & ? & _).
  exists s'; split_and!; assumption.
Defined.

Lemma join_unusable_witness :
  bmk_sched_join demo_t demo_sch4 = c_panic "joinable->bt_flags & THREAD_MUSTJOIN" /\ exit_gate demo_sch4 = None.
Proof. apply (join_unusable demo_init demo_s ∅ _ demo_sch4 demo_L demo_t demo_inv0 ltac:(by vm_compute) demo_run). Defined.

Lemma threads_own_memory_witness :
  NoDup (threads demo_sch4 ++ zombies demo_sch4) /\ memalloc_inv (hp demo_sch4) demo_L.
Proof.
  destruct (threads_own_memory demo_init demo_s ∅ _ demo_sch4 demo_L demo_inv0 ltac:(by vm_compute) demo_run)
    as (? & ? & _); split; assumption.
Defined.

Lemma sched_dispatch_correct_witness :
  exists pre k, [Tick 5 []] = pre ++ k :: [] /\
    chosen (tk_now k) (idle pre demo_sch1) demo_t (thr demo_sch2) (threads demo_sch2).
Proof.
  destruct (sched_dispatch_correct [Tick 5 []] demo_sch1 demo_sch2 []) as (pre & k & ? & _ & ? & _).
  - apply (bool_decide_unpack _); vm_compute; exact I.
  - apply (bool_decide_unpack _); vm_compute; exact I.
  - vm_compute; reflexivity.
  - exists pre, k; split; assumption.
Defined.

(** [init] asleep until time 100: the loop idles at 5 and 50 and ends at 120. *)
Definition demo_asleep : sched mstate := bmk_sched_nanosleep 0 100 demo_sch0.

Lemma sched_dispatch_returns_witness :
  is_Some (sched_dispatch [Tick 5 []; Tick 50 []; Tick 120 []] demo_asleep) /\
  sched_dispatch [Tick 5 []; Tick 50 []] demo_asleep = None.
Proof.
  split; [|vm_compute; reflexivity].
  apply (sched_dispatch_returns [Tick 5 []; Tick 50 []; Tick 120 []] demo_asleep demo_init (Tick 120 [])).
  - apply (bool_decide_unpack _); vm_compute; exact I.
  - constructor.
  - do 3 constructor.
  - vm_compute; reflexivity.
Defined.

Lemma bounded_waiting_witness : (dispatches [LDispatch demo_t] <= 1 + creations [LDispatch demo_t])%nat.
Proof.
  apply (bounded_waiting demo_init demo_sch1 demo_L [LDispatch demo_t] demo_sch2 demo_L demo_init [demo_t] []).
  - apply (sched_inv_runs demo_init (bmk_sched_init demo_init demo_s, ∅) [LCreate demo_t]).
    + eapply sr_cons; [|constructor].
      eapply (st_create _ demo_sch0 ∅ 0x100500 [97] 0 0 0x100600 7 0 0);
        [constructor|exact demo_served|by intros []|vm_compute; reflexivity].
    + apply sched_inv_boot; [exact demo_inv0|by vm_compute].
  - vm_compute; reflexivity.
  - vm_compute; reflexivity.
  - eapply sr_cons; [|constructor].
    apply (st_dispatch demo_init demo_sch1 demo_L [Tick 5 []] demo_sch2 []); vm_compute; reflexivity.
  - repeat constructor; by vm_compute.
Defined.

(** The created thread with THREAD_MUSTJOIN set by hand. *)
Definition demo_joinable : sched mstate :=
  upd (fun th => with_flags (Z.lor (bt_flags th) THREAD_MUSTJOIN) th) demo_t demo_sch1.

Lemma join_handshake_witness :
  exists s1 s2 s3,
    bmk_sched_join demo_t (set_current demo_init demo_joinable) = Ret (inr s1) /\
    exit_gate (set_current demo_t s1) = Some s2 /\
    join_resumed demo_t (set_current demo_init s2) = Ret (inl s3) /\ exit_gate (set_current demo_t s3) = None.
Proof.
  destruct (join_handshake demo_joinable demo_init demo_t) as [(s1 & s2 & s3 & ? & _ & ? & _ & _ & ? & _ & _ & ?) _].
  - by vm_compute.
  - vm_compute; eauto.
  - vm_compute; eauto.
  - by vm_compute.
  - by vm_compute.
  - constructor.
  - exists s1, s2, s3; split_and!; assumption.
Defined.
