(* ===== verification/Cells.v ===== *)
(** * Cells: pointer words in memory that do not overlap

    What the pointer structures of queue.h share: the words they consist of
    are distinct objects, so that a write to one does not change another. *)
From S2P Require Import Prelude Mem.

(** ** Words that do not overlap *)

(** The words at the addresses of [L] are pairwise distinct objects inside
    the address space. *)
Definition apart (L : list Z) : Prop :=
  NoDup L /\ (forall a b, a ∈ L -> b ∈ L -> a <> b -> a + 4 <= b \/ b + 4 <= a) /\ Forall (urange 32) L.

Lemma apart_perm L L' : L ≡ₚ L' -> apart L -> apart L'.
Proof.
  intros Hp (Hn & Hs & Hr); split_and!; [by rewrite <- Hp| |by rewrite <- Hp].
  intros a b; rewrite <- !Hp; apply Hs.
Qed.

#[global] Instance apart_proper : Proper ((≡ₚ) ==> iff) apart.
Proof. intros L L' Hp; split; by apply apart_perm. Qed.

Lemma apart_sub L1 L2 : apart (L1 ++ L2) -> apart L2.
Proof.
  intros (Hn & Hs & Hr); split_and!.
  - by apply NoDup_app in Hn as (_ & _ & ?).
  - intros a b Ha Hb; apply Hs; apply elem_of_app; by right.
  - by apply Forall_app in Hr as [_ ?].
Qed.

Lemma rd32_wr32_apart L m a v c : apart L -> a ∈ L -> c ∈ L -> a <> c -> rd32 (wr32 m a v) c = rd32 m c.
Proof. intros (_ & Hs & _) Ha Hc Hne; apply rd32_wr32_ne; destruct (Hs a c Ha Hc Hne); lia. Qed.

Lemma rd32_wr32_val m a v : urange 32 v -> rd32 (wr32 m a v) a = v.
Proof. intros; by rewrite rd32_wr32_eq, wrap_id. Qed.

Lemma null_range : urange 32 NULL.
Proof. by vm_compute. Qed.

(** Reads after writes among the cells [L] of a queue: [HL : apart L], with
    the distinctness of the cells spelled out in the context. *)
Ltac cell_facts HL :=
  let Hn := fresh "Hn" in let HF := fresh "HF" in
  pose proof HL as (Hn & _ & HF);
  rewrite ?NoDup_cons, ?not_elem_of_cons, ?not_elem_of_app in Hn; destruct_and? Hn;
  rewrite ?Forall_cons in HF; destruct_and? HF.
Ltac cell_ne :=
  match goal with
  | |- _ <> _ => congruence
  | Hi : ?a ∈ ?X, Hn : ?b ∉ ?X |- ?b <> ?a => let E := fresh in intros E; apply Hn; rewrite E; exact Hi
  | Hi : ?a ∈ ?X, Hn : ?b ∉ ?X |- ?a <> ?b => let E := fresh in intros E; apply Hn; rewrite <- E; exact Hi
  end.
Ltac cell_in :=
  match goal with
  | |- _ ∈ _ => solve [set_solver +]
  | Hi : ?a ∈ _ |- ?a ∈ _ => solve [clear - Hi; set_solver]
  end.
Ltac rdw HL :=
  repeat first [rewrite rd32_wr32_val by first [assumption|done]
               |rewrite (rd32_wr32_apart _ _ _ _ _ HL) by first [cell_ne | cell_in]].

Lemma apart_alt L :
  apart L <-> NoDup L /\ Forall (fun a => Forall (fun b => a <> b -> a + 4 <= b \/ b + 4 <= a) L) L /\ Forall (urange 32) L.
Proof.
  unfold apart; rewrite !Forall_forall; split; intros (? & Hs & ?); (split_and!; [done| |done]).
  - intros a Ha; rewrite Forall_forall; eauto.
  - intros a b Ha Hb; specialize (Hs a Ha); rewrite Forall_forall in Hs; by apply Hs.
Qed.
#[global] Instance apart_dec L : Decision (apart L).
Proof.
  destruct (decide (NoDup L /\ Forall (fun a => Forall (fun b => a <> b -> a + 4 <= b \/ b + 4 <= a) L) L /\
    Forall (urange 32) L)) as [H|H]; [left|right]; by rewrite apart_alt.
Defined.
Ltac apart_concrete := apply (bool_decide_unpack _); vm_compute; exact I.
