(* ===== verification/Tailq.v ===== *)
(** * Tailq: the pointer queues of include/bmk/queue.h

    The macros of queue.h as programs over memory, and the proof that they
    implement lists: the scheduler and the fibers are modelled with lists in
    queue order, which is what these theorems license.  The interrupt table
    uses the singly linked SLIST. *)
From S2P Require Import Prelude Mem Cells.

Section Tailq.
(** [off] is [offsetof(type, field)] of the TAILQ_ENTRY in its structure. *)
Variable off : Z.

Definition tqe_next (e : Z) : Z := e + off.
Definition tqe_prev (e : Z) : Z := e + off + 4.
Definition tqh_first (h : Z) : Z := h.
Definition tqh_last (h : Z) : Z := h + 4.

(** ** The macros *)

Definition TAILQ_FIRST (h : Z) (m : mem) : Z := rd32 m (tqh_first h).
Definition TAILQ_NEXT (e : Z) (m : mem) : Z := rd32 m (tqe_next e).
Definition TAILQ_EMPTY (h : Z) (m : mem) : bool := TAILQ_FIRST h m =? NULL.

Definition TAILQ_INIT (h : Z) (m : mem) : mem :=
  wr32 (wr32 m (tqh_first h) NULL) (tqh_last h) (tqh_first h).

Definition TAILQ_INSERT_HEAD (h e : Z) (m : mem) : mem :=
  let m := wr32 m (tqe_next e) (rd32 m (tqh_first h)) in
  let m := if negb (rd32 m (tqe_next e) =? NULL)
           then wr32 m (tqe_prev (rd32 m (tqh_first h))) (tqe_next e)
           else wr32 m (tqh_last h) (tqe_next e) in
  wr32 (wr32 m (tqh_first h) e) (tqe_prev e) (tqh_first h).

Definition TAILQ_INSERT_TAIL (h e : Z) (m : mem) : mem :=
  let m := wr32 m (tqe_next e) NULL in
  let m := wr32 m (tqe_prev e) (rd32 m (tqh_last h)) in
  let m := wr32 m (rd32 m (tqh_last h)) e in
  wr32 m (tqh_last h) (tqe_next e).

Definition TAILQ_REMOVE (h e : Z) (m : mem) : mem :=
  let m := if negb (rd32 m (tqe_next e) =? NULL)
           then wr32 m (tqe_prev (rd32 m (tqe_next e))) (rd32 m (tqe_prev e))
           else wr32 m (tqh_last h) (rd32 m (tqe_prev e)) in
  wr32 m (rd32 m (tqe_prev e)) (rd32 m (tqe_next e)).

(** The elements TAILQ_FOREACH visits, in order ([None]: not within [fuel]
    steps). *)
Fixpoint tailq_foreach (fuel : nat) (var : Z) (m : mem) : option (list Z) :=
  if var =? NULL then Some []
  else match fuel with
       | O => None
       | S fuel => cons var <$> tailq_foreach fuel (TAILQ_NEXT var m) m
       end.
Definition TAILQ_FOREACH (fuel : nat) (h : Z) (m : mem) : option (list Z) :=
  tailq_foreach fuel (TAILQ_FIRST h m) m.

(** ** What a queue is in memory *)

(** From the pointer cell [p], through the elements [l], to the cell [q]. *)
Fixpoint seg (m : mem) (p : Z) (l : list Z) (q : Z) : Prop :=
  match l with
  | [] => q = p
  | e :: l => rd32 m p = e /\ e <> NULL /\ rd32 m (tqe_prev e) = p /\ seg m (tqe_next e) l q
  end.

Definition cells (h : Z) (l : list Z) : list Z :=
  tqh_last h :: tqh_first h :: flat_map (fun e => [tqe_next e; tqe_prev e]) l.

(** The memory at [h] is a queue holding [l] in order. *)
Definition tailq (m : mem) (h : Z) (l : list Z) : Prop :=
  exists q, seg m (tqh_first h) l q /\ rd32 m q = NULL /\ rd32 m (tqh_last h) = q /\
    apart (cells h l) /\ Forall (urange 32) l.

(** The element [e] is an object of its own, not part of the queue. *)
Definition linkable (h : Z) (l : list Z) (e : Z) : Prop :=
  apart (cells h (e :: l)) /\ urange 32 e /\ e <> NULL.

(** The cells a segment reads (its end [q] not included). *)
Fixpoint seg_cells (p : Z) (l : list Z) : list Z :=
  match l with [] => [] | e :: l => p :: tqe_prev e :: seg_cells (tqe_next e) l end.

Lemma seg_frame m m' p l q : (forall a, a ∈ seg_cells p l -> rd32 m' a = rd32 m a) -> seg m p l q -> seg m' p l q.
Proof.
  revert p; induction l as [|e l IH]; intros p Hf; cbn; [done|]; intros (H1 & H2 & H3 & H4).
  cbn in Hf; rewrite !Hf by set_solver; split_and!; [done..|]; apply IH; [|done]; intros; apply Hf; set_solver.
Qed.

Lemma seg_app m p l1 l2 q : seg m p (l1 ++ l2) q <-> exists r, seg m p l1 r /\ seg m r l2 q.
Proof.
  revert p; induction l1 as [|e l1 IH]; intros p; cbn; [naive_solver|]. rewrite IH; naive_solver.
Qed.

Lemma seg_cells_perm m p l q : seg m p l q ->
  q :: seg_cells p l ≡ₚ p :: flat_map (fun e => [tqe_next e; tqe_prev e]) l.
Proof.
  revert p; induction l as [|e l IH]; intros p; cbn; [by intros ->|]; intros (_ & _ & _ & Hs).
  rewrite (Permutation_swap p q), (Permutation_swap (tqe_prev e) q), (IH _ Hs).
  by rewrite (Permutation_swap (tqe_next e) (tqe_prev e)).
Qed.

Lemma tailq_cells m h l q : seg m (tqh_first h) l q -> cells h l ≡ₚ tqh_last h :: q :: seg_cells (tqh_first h) l.
Proof. intros Hs; unfold cells; by rewrite (seg_cells_perm _ _ _ _ Hs). Qed.

Lemma seg_cells_app m p l1 l2 r : seg m p l1 r -> seg_cells p (l1 ++ l2) = seg_cells p l1 ++ seg_cells r l2.
Proof.
  revert p; induction l1 as [|e l1 IH]; intros p; cbn; [by intros ->|]; intros (_ & _ & _ & Hs); by rewrite (IH _ Hs).
Qed.

Lemma cells_cons h e l : cells h (e :: l) ≡ₚ tqe_next e :: tqe_prev e :: cells h l.
Proof. unfold cells; cbn; solve_Permutation. Qed.
Lemma cells_snoc h e l : cells h (l ++ [e]) ≡ₚ cells h (e :: l).
Proof. unfold cells; rewrite flat_map_app; cbn; solve_Permutation. Qed.

(** A queue is determined by its cells. *)
Lemma tailq_frame m m' h l : (forall a, a ∈ cells h l -> rd32 m' a = rd32 m a) -> tailq m h l -> tailq m' h l.
Proof.
  intros Hf (q & Hs & Hq & Hl & Hap & Hr); exists q.
  assert (forall a, a ∈ tqh_last h :: q :: seg_cells (tqh_first h) l -> rd32 m' a = rd32 m a) as Hf'.
  { intros a; rewrite <- (tailq_cells _ _ _ _ Hs); apply Hf. }
  split_and!; [|rewrite Hf'; [done|set_solver +]|rewrite Hf'; [done|set_solver +]|done|done].
  eapply seg_frame; [|exact Hs]; intros a Ha; apply Hf'; set_solver.
Qed.

(** The pointer to the end is a cell of the queue. *)
Lemma tailq_end_in m h l q : tailq m h l -> rd32 m (tqh_last h) = q -> q ∈ cells h l.
Proof.
  intros (q' & Hs & _ & Hl & _); rewrite Hl; intros <-; rewrite (tailq_cells _ _ _ _ Hs); set_solver +.
Qed.

Lemma tailq_insert_tail_ok m h l e :
  tailq m h l -> linkable h l e -> tailq (TAILQ_INSERT_TAIL h e m) h (l ++ [e]).
Proof.
  intros (q & Hs & Hq & Hl & Hap & Hr) (Hap' & He & Hne); pose proof null_range.
  pose proof (cells_cons h e l) as Hp; rewrite (tailq_cells _ _ _ _ Hs) in Hp.
  pose proof (apart_perm _ _ Hp Hap') as HL; cell_facts HL.
  assert (rd32 (wr32 m (tqe_next e) NULL) (tqh_last h) = q) as E1 by (rdw HL; done).
  assert (rd32 (wr32 (wr32 m (tqe_next e) NULL) (tqe_prev e) q) (tqh_last h) = q) as E2 by (rdw HL; done).
  unfold TAILQ_INSERT_TAIL; rewrite E1, E2.
  exists (tqe_next e); split_and!.
  - apply seg_app; exists q; split.
    + eapply seg_frame; [|exact Hs]; intros a Ha; cbn beta; rdw HL; done.
    + cbn; split_and!; [rdw HL; done|done|rdw HL; done|done].
  - rdw HL; done.
  - rdw HL; done.
  - eapply apart_perm; [symmetry; apply cells_snoc|done].
  - apply Forall_app; auto.
Qed.

Lemma tailq_insert_head_ok m h l e :
  tailq m h l -> linkable h l e -> tailq (TAILQ_INSERT_HEAD h e m) h (e :: l).
Proof.
  intros (q & Hs & Hq & Hl & Hap & Hr) (Hap' & He & Hne); pose proof null_range.
  pose proof (cells_cons h e l) as Hp; rewrite (tailq_cells _ _ _ _ Hs) in Hp.
  pose proof (apart_perm _ _ Hp Hap') as HL; unfold TAILQ_INSERT_HEAD.
  destruct l as [|x l]; cbn [seg seg_cells] in *.
  - subst q; cell_facts HL; rewrite Hq, rd32_wr32_val by done; change (negb (NULL =? NULL)) with false; cbv iota.
    exists (tqe_next e); split_and!; [|rdw HL; done|rdw HL; done|done|by constructor].
    cbn; split_and!; [rdw HL; done|done|rdw HL; done|done].
  - destruct Hs as (Hh & Hx & Hpx & Hs); inversion Hr as [|? ? Hrx Hr']; subst x.
    cell_facts HL; rewrite rd32_wr32_val by done; rewrite (proj2 (Z.eqb_neq _ _) Hx); cbn [negb].
    set (x := rd32 m (tqh_first h)) in *.
    assert (rd32 (wr32 m (tqe_next e) x) (tqh_first h) = x) as E1 by (rdw HL; done); rewrite E1.
    exists q; split_and!; [|rdw HL; done|rdw HL; done|done|by constructor].
    cbn [seg]; split_and!; [rdw HL; done|done|rdw HL; done|rdw HL; done|done|rdw HL; done|].
    eapply seg_frame; [|exact Hs]; intros a Ha; rdw HL; done.
Qed.

Lemma cells_mid h l1 e l2 : cells h (l1 ++ e :: l2) ≡ₚ [tqe_next e; tqe_prev e] ++ cells h (l1 ++ l2).
Proof. unfold cells; rewrite !flat_map_app; cbn; solve_Permutation. Qed.

Lemma tailq_remove_ok m h l1 e l2 :
  tailq m h (l1 ++ e :: l2) -> tailq (TAILQ_REMOVE h e m) h (l1 ++ l2).
Proof.
  intros (q & Hs0 & Hq & Hl & Hap & Hr); pose proof null_range.
  pose proof (apart_perm _ _ (tailq_cells _ _ _ _ Hs0) Hap) as HL.
  apply seg_app in Hs0 as (r & Hs1 & Hre & Hne & Hpe & Hs2).
  rewrite (seg_cells_app _ _ _ _ _ Hs1) in HL.
  assert (apart (r :: tqe_prev e :: tqh_last h :: q :: seg_cells (tqe_next e) l2 ++ seg_cells (tqh_first h) l1)) as HL'.
  { eapply apart_perm; [|exact HL]; cbn [seg_cells]; solve_Permutation. }
  clear HL; rename HL' into HL.
  assert (apart (cells h (l1 ++ l2))) as Hap' by (eapply apart_sub, apart_perm; [apply cells_mid|done]).
  assert (Forall (urange 32) (l1 ++ l2)) as Hr'.
  { apply Forall_app in Hr as [? Hr2]; inversion Hr2; by apply Forall_app. }
  unfold TAILQ_REMOVE; rewrite Hpe.
  destruct l2 as [|x l2]; cbn [seg seg_cells app] in *.
  - subst q; rewrite Hq; cell_facts HL; change (negb (NULL =? NULL)) with false; cbv iota.
    rewrite !app_nil_r in *.
    assert (rd32 (wr32 m (tqh_last h) r) (tqe_prev e) = r) as -> by (rdw HL; done).
    assert (rd32 (wr32 m (tqh_last h) r) (tqe_next e) = NULL) as -> by (rdw HL; done).
    exists r; split_and!; [|rdw HL; done|rdw HL; done|done|done].
    eapply seg_frame; [|exact Hs1]; intros a Ha; rdw HL; done.
  - destruct Hs2 as (Hx & Hxn & Hpx & Hs2); subst x; set (x := rd32 m (tqe_next e)) in *.
    cell_facts HL; rewrite (proj2 (Z.eqb_neq _ _) Hxn); cbn [negb].
    assert (rd32 (wr32 m (tqe_prev x) r) (tqe_prev e) = r) as -> by (rdw HL; done).
    assert (rd32 (wr32 m (tqe_prev x) r) (tqe_next e) = x) as -> by (rdw HL; done).
    assert (urange 32 x) by (apply Forall_app in Hr' as [_ Hx]; by inversion Hx).
    exists q; split_and!; [|rdw HL; done|rdw HL; done|done|done].
    apply seg_app; exists r; split; [eapply seg_frame; [|exact Hs1]; intros a Ha; rdw HL; done|].
    cbn [seg]; split_and!; [rdw HL; done|done|rdw HL; done|].
    eapply seg_frame; [|exact Hs2]; intros a Ha; rdw HL; done.
Qed.

Lemma seg_foreach m p l q fuel : seg m p l q -> rd32 m q = NULL -> (length l <= fuel)%nat ->
  tailq_foreach fuel (rd32 m p) m = Some l.
Proof.
  revert p fuel; induction l as [|e l IH]; intros p fuel; cbn [seg].
  - intros -> Hq _; rewrite Hq; by destruct fuel.
  - intros (He & Hne & _ & Hs) Hq Hlen; destruct fuel as [|fuel]; cbn in Hlen; [lia|].
    rewrite He; cbn [tailq_foreach]; rewrite (proj2 (Z.eqb_neq _ _) Hne).
    unfold TAILQ_NEXT; by rewrite (IH (tqe_next e) fuel Hs Hq) by lia.
Qed.

(** C19: the TAILQ macros implement lists.  In memory holding the queue [l] at
    [h]: TAILQ_FIRST and TAILQ_EMPTY tell the first element, TAILQ_FOREACH
    ends and visits exactly [l] in order, inserting an element that is not part
    of the queue puts it at the front or at the back, and TAILQ_REMOVE takes
    out exactly the element it is given; nothing else of the order changes
    and the result is again a queue. *)
Theorem tailq_refines_list m h l :
  tailq m h l ->
  TAILQ_FIRST h m = default NULL (head l) /\ (TAILQ_EMPTY h m = true <-> l = []) /\
  (forall fuel, (length l <= fuel)%nat -> TAILQ_FOREACH fuel h m = Some l) /\
  (forall e, linkable h l e ->
     tailq (TAILQ_INSERT_HEAD h e m) h (e :: l) /\ tailq (TAILQ_INSERT_TAIL h e m) h (l ++ [e])) /\
  (forall l1 e l2, l = l1 ++ e :: l2 -> tailq (TAILQ_REMOVE h e m) h (l1 ++ l2)).
Proof.
  intros Ht; assert (TAILQ_FIRST h m = default NULL (head l) /\ Forall (fun e => e <> NULL) (option_list (head l))) as [Hf Hn].
  { destruct Ht as (q & Hs & Hq & _); unfold TAILQ_FIRST; destruct l as [|x l]; cbn in *; [by subst q|].
    destruct Hs as (? & ? & _); split; [done|by repeat constructor]. }
  split_and!; [done| | | |].
  - unfold TAILQ_EMPTY; rewrite Hf, Z.eqb_eq; destruct l as [|x l]; [done|]; inversion Hn; by split.
  - intros fuel Hlen; destruct Ht as (q & Hs & Hq & _); by apply (seg_foreach m (tqh_first h) l q).
  - intros e He; split; [by apply tailq_insert_head_ok|by apply tailq_insert_tail_ok].
  - intros l1 e l2 ->; by apply tailq_remove_ok.
Qed.

(** TAILQ_INIT makes an empty queue of any head. *)
Lemma tailq_init_ok m h : apart (cells h []) -> tailq (TAILQ_INIT h m) h [].
Proof.
  intros HL; pose proof null_range; exists (tqh_first h); unfold TAILQ_INIT, cells in *; cbn in HL; cell_facts HL.
  split_and!; [done|rdw HL; done|rdw HL; done|done|constructor].
Qed.
End Tailq.

(** Two threads (their TAILQ_ENTRY is at offset 52) on a queue. *)
Definition demo_q : mem := TAILQ_INSERT_HEAD 52 0x1000 0x2000 (TAILQ_INSERT_TAIL 52 0x1000 0x3000 (TAILQ_INIT 0x1000 ∅)).

Lemma demo_q_ok : tailq 52 demo_q 0x1000 [0x2000; 0x3000].
Proof.
  apply tailq_insert_head_ok; [apply (tailq_insert_tail_ok 52 _ 0x1000 []); [apply tailq_init_ok|]|].
  - apart_concrete.
  - split; [apart_concrete|done].
  - split; [apart_concrete|done].
Qed.

Lemma tailq_refines_list_witness :
  TAILQ_FOREACH 52 2 0x1000 demo_q = Some [0x2000; 0x3000] /\
  tailq 52 (TAILQ_REMOVE 52 0x1000 0x2000 demo_q) 0x1000 [0x3000].
Proof.
  destruct (tailq_refines_list 52 demo_q 0x1000 [0x2000; 0x3000] demo_q_ok) as (_ & _ & Hf & _ & Hr).
  split; [by apply Hf|by apply (Hr [] 0x2000 [0x3000])].
Defined.

(** ** SLIST *)

Section Slist.
(** [off] is the offset of the SLIST_ENTRY. *)
Variable off : Z.
Definition sle_next (e : Z) : Z := e + off.
Definition slh_first (h : Z) : Z := h.

Definition SLIST_INIT (h : Z) (m : mem) : mem := wr32 m (slh_first h) NULL.
Definition SLIST_INSERT_HEAD (h e : Z) (m : mem) : mem :=
  let m := wr32 m (sle_next e) (rd32 m (slh_first h)) in wr32 m (slh_first h) e.
Fixpoint slist_foreach (fuel : nat) (var : Z) (m : mem) : option (list Z) :=
  if var =? NULL then Some []
  else match fuel with O => None | S fuel => cons var <$> slist_foreach fuel (rd32 m (sle_next var)) m end.
Definition SLIST_FOREACH (fuel : nat) (h : Z) (m : mem) : option (list Z) :=
  slist_foreach fuel (rd32 m (slh_first h)) m.

Fixpoint schain (m : mem) (p : Z) (l : list Z) : Prop :=
  match l with [] => rd32 m p = NULL | e :: l => rd32 m p = e /\ e <> NULL /\ schain m (sle_next e) l end.
Definition slist (m : mem) (h : Z) (l : list Z) : Prop :=
  schain m (slh_first h) l /\ apart (slh_first h :: (sle_next <$> l)).

Lemma schain_frame m m' p l : (forall a, a ∈ p :: (sle_next <$> l) -> rd32 m' a = rd32 m a) -> schain m p l -> schain m' p l.
Proof.
  revert p; induction l as [|e l IH]; intros p Hf; cbn [schain]; rewrite Hf by set_solver; [done|].
  intros (? & ? & ?); split_and!; [done..|]; apply IH; [|done]; intros a Ha; apply Hf; set_solver.
Qed.

Lemma schain_foreach m p l fuel : schain m p l -> (length l <= fuel)%nat -> slist_foreach fuel (rd32 m p) m = Some l.
Proof.
  revert p fuel; induction l as [|e l IH]; intros p fuel; cbn [schain].
  - intros -> _; by destruct fuel.
  - intros (-> & Hne & Hc) Hlen; destruct fuel as [|fuel]; cbn in Hlen; [lia|]; cbn [slist_foreach].
    rewrite (proj2 (Z.eqb_neq _ _) Hne), (IH (sle_next e) fuel Hc) by lia; done.
Qed.

(** SLIST_INSERT_HEAD puts an element that is not part of the list in
    front of it, and SLIST_FOREACH ends and visits exactly the elements of
    the list in order. *)
Theorem slist_refines_list m h l :
  slist m h l ->
  (forall fuel, (length l <= fuel)%nat -> SLIST_FOREACH fuel h m = Some l) /\
  (forall e, apart (slh_first h :: (sle_next <$> e :: l)) -> urange 32 e -> e <> NULL ->
     slist (SLIST_INSERT_HEAD h e m) h (e :: l)).
Proof.
  intros [Hc Hap]; split; [intros; by apply schain_foreach|].
  intros e HL He Hne; split; [|done]; unfold SLIST_INSERT_HEAD; cbn [fmap list_fmap] in HL.
  pose proof HL as ([Hn1 [Hn2 _]%NoDup_cons]%NoDup_cons & _ & _); apply not_elem_of_cons in Hn1 as [Hhe Hhl].
  pose proof (rd32_range m (slh_first h)).
  cbn [schain]; split_and!; [by rewrite rd32_wr32_val|done|].
  assert (forall a, a ∈ sle_next <$> l ->
    rd32 (wr32 (wr32 m (sle_next e) (rd32 m (slh_first h))) (slh_first h) e) a = rd32 m a) as Hf.
  { intros a Ha; rewrite !(rd32_wr32_apart _ _ _ _ _ HL); first [done|set_solver]. }
  assert (rd32 (wr32 (wr32 m (sle_next e) (rd32 m (slh_first h))) (slh_first h) e) (sle_next e) = rd32 m (slh_first h)) as E.
  { rewrite (rd32_wr32_apart _ _ _ _ _ HL), rd32_wr32_val; first [done|set_solver]. }
  destruct l as [|x l]; cbn [schain] in *; rewrite E; [done|].
  destruct Hc as (? & ? & Hc); split_and!; [done..|]; eapply schain_frame; [|exact Hc].
  intros a Ha; apply Hf; set_solver.
Qed.
End Slist.

Lemma slist_refines_list_witness :
  SLIST_FOREACH 8 1 0x1000 (SLIST_INSERT_HEAD 8 0x1000 0x2000 (SLIST_INIT 0x1000 ∅)) = Some [0x2000].
Proof.
  assert (slist 8 (SLIST_INIT 0x1000 ∅) 0x1000 []) as H0 by (split; [by vm_compute|apart_concrete]).
  destruct (slist_refines_list 8 _ _ _ H0) as [_ Hi].
  assert (slist 8 (SLIST_INSERT_HEAD 8 0x1000 0x2000 (SLIST_INIT 0x1000 ∅)) 0x1000 [0x2000]) as H1
    by (apply Hi; [apart_concrete|done|done]).
  destruct (slist_refines_list 8 _ _ _ H1) as [Hf _]; apply Hf; cbn; lia.
Defined.
