(* ===== verification/TailqOps.v ===== *)
(** * TailqOps: the remaining TAILQ macros of include/bmk/queue.h

    Insertion next to an element, replacement, concatenation, and traversal
    backwards and with removal, on the queues of Tailq.v. *)
From S2P Require Import Prelude Mem Cells Tailq.

Section TailqOps.
Variable off : Z.
Local Abbreviation tqe_next := (tqe_next off).
Local Abbreviation tqe_prev := (tqe_prev off).
Local Abbreviation seg := (seg off).
Local Abbreviation seg_cells := (seg_cells off).
Local Abbreviation cells := (cells off).
Local Abbreviation tailq := (tailq off).
Local Abbreviation linkable := (linkable off).

(** ** The macros *)

(** TAILQ_LAST and TAILQ_PREV read the entry behind a "last next" pointer as
    if it were a head: the field [tqh_last] is at the place of [tqe_prev]. *)
Definition TAILQ_LAST (h : Z) (m : mem) : Z := rd32 m (rd32 m (tqh_last (rd32 m (tqh_last h)))).
Definition TAILQ_PREV (e : Z) (m : mem) : Z := rd32 m (rd32 m (tqh_last (rd32 m (tqe_prev e)))).

Definition TAILQ_INSERT_AFTER (h x e : Z) (m : mem) : mem :=
  let m := wr32 m (tqe_next e) (rd32 m (tqe_next x)) in
  let m := if negb (rd32 m (tqe_next e) =? NULL)
           then wr32 m (tqe_prev (rd32 m (tqe_next e))) (tqe_next e)
           else wr32 m (tqh_last h) (tqe_next e) in
  wr32 (wr32 m (tqe_next x) e) (tqe_prev e) (tqe_next x).

Definition TAILQ_INSERT_BEFORE (x e : Z) (m : mem) : mem :=
  let m := wr32 m (tqe_prev e) (rd32 m (tqe_prev x)) in
  let m := wr32 m (tqe_next e) x in
  let m := wr32 m (rd32 m (tqe_prev x)) e in
  wr32 m (tqe_prev x) (tqe_next e).

Definition TAILQ_REPLACE (h e e2 : Z) (m : mem) : mem :=
  let m := wr32 m (tqe_next e2) (rd32 m (tqe_next e)) in
  let m := if negb (rd32 m (tqe_next e2) =? NULL)
           then wr32 m (tqe_prev (rd32 m (tqe_next e2))) (tqe_next e2)
           else wr32 m (tqh_last h) (tqe_next e2) in
  let m := wr32 m (tqe_prev e2) (rd32 m (tqe_prev e)) in
  wr32 m (rd32 m (tqe_prev e2)) e2.

Definition TAILQ_CONCAT (h1 h2 : Z) (m : mem) : mem :=
  if negb (TAILQ_EMPTY h2 m) then
    let m := wr32 m (rd32 m (tqh_last h1)) (rd32 m (tqh_first h2)) in
    let m := wr32 m (tqe_prev (rd32 m (tqh_first h2))) (rd32 m (tqh_last h1)) in
    let m := wr32 m (tqh_last h1) (rd32 m (tqh_last h2)) in
    TAILQ_INIT h2 m
  else m.

Fixpoint tailq_foreach_reverse (fuel : nat) (var : Z) (m : mem) : option (list Z) :=
  if var =? NULL then Some []
  else match fuel with
       | O => None
       | S fuel => cons var <$> tailq_foreach_reverse fuel (TAILQ_PREV var m) m
       end.
Definition TAILQ_FOREACH_REVERSE (fuel : nat) (h : Z) (m : mem) : option (list Z) :=
  tailq_foreach_reverse fuel (TAILQ_LAST h m) m.

(** TAILQ_FOREACH_SAFE with its body: the next element is read before the
    body runs, which may change the memory and an accumulated state and says
    whether to go on ([false] is [break]). *)
Fixpoint tailq_foreach_safe {A} (fuel : nat) (body : Z -> mem * A -> bool * (mem * A)) (var : Z) (s : mem * A)
    : option (mem * A) :=
  if var =? NULL then Some s
  else match fuel with
       | O => None
       | S fuel =>
           let nxt := TAILQ_NEXT off var (fst s) in
           let '(more, s) := body var s in
           if (more : bool) then tailq_foreach_safe fuel body nxt s else Some s
       end.
Definition TAILQ_FOREACH_SAFE {A} (fuel : nat) (body : Z -> mem * A -> bool * (mem * A)) (h : Z) (s : mem * A)
    : option (mem * A) := tailq_foreach_safe fuel body (TAILQ_FIRST h (fst s)) s.

(** ** Inserting and replacing *)

(** A queue split at an element, with its cells as a list of their own. *)
Lemma tailq_split m h l1 x l2 :
  tailq m h (l1 ++ x :: l2) -> exists r q,
    seg m (tqh_first h) l1 r /\ rd32 m r = x /\ x <> NULL /\ rd32 m (tqe_prev x) = r /\ seg m (tqe_next x) l2 q /\
    rd32 m q = NULL /\ rd32 m (tqh_last h) = q /\ urange 32 x /\ urange 32 r /\
    cells h (l1 ++ x :: l2) ≡ₚ r :: tqe_prev x :: tqh_last h :: q :: seg_cells (tqe_next x) l2 ++ seg_cells (tqh_first h) l1.
Proof.
  intros (q & Hs & Hq & Hl & Hap & Hr); pose proof (tailq_cells _ _ _ _ _ Hs) as Hp.
  apply seg_app in Hs as (r & Hs1 & Hre & Hne & Hpe & Hs2).
  rewrite (seg_cells_app _ _ _ _ _ _ Hs1) in Hp; cbn [Tailq.seg_cells] in Hp.
  assert (cells h (l1 ++ x :: l2) ≡ₚ r :: tqe_prev x :: tqh_last h :: q :: seg_cells (tqe_next x) l2 ++ seg_cells (tqh_first h) l1) as Hp'.
  { rewrite Hp; solve_Permutation. }
  exists r, q; split_and!; try done.
  - rewrite Forall_app, Forall_cons in Hr; naive_solver.
  - destruct (apart_perm _ _ Hp' Hap) as (_ & _ & HF); by inversion HF.
Qed.

Lemma cells_add h l1 e l2 : cells h (l1 ++ e :: l2) ≡ₚ tqe_next e :: tqe_prev e :: cells h (l1 ++ l2).
Proof. apply cells_mid. Qed.

Lemma tailq_insert_after_ok m h l1 x l2 e :
  tailq m h (l1 ++ x :: l2) -> linkable h (l1 ++ x :: l2) e ->
  tailq (TAILQ_INSERT_AFTER h x e m) h (l1 ++ x :: e :: l2).
Proof.
  intros Ht (Hap & He & Hne); pose proof null_range.
  destruct (tailq_split _ _ _ _ _ Ht) as (r & q & Hs1 & Hrx & Hx & Hpx & Hs2 & Hq & Hl & Hux & Hur & Hp).
  assert (Forall (urange 32) (l1 ++ x :: e :: l2)) as HF.
  { destruct Ht as (_ & _ & _ & _ & _ & HF); rewrite Forall_app, !Forall_cons in *; naive_solver. }
  assert (apart (cells h (l1 ++ x :: e :: l2))) as Hap'.
  { eapply apart_perm; [|exact Hap]; unfold Tailq.cells; rewrite !flat_map_app; cbn; rewrite flat_map_app; cbn; solve_Permutation. }
  pose proof (apart_perm _ _ (cells_cons off h e _) Hap) as HL; rewrite Hp in HL.
  clear Ht Hap Hp; unfold TAILQ_INSERT_AFTER.
  destruct l2 as [|y l2]; cbn [Tailq.seg Tailq.seg_cells app] in *.
  - subst q; cell_facts HL; rewrite Hq, rd32_wr32_val by done; change (negb (NULL =? NULL)) with false; cbv iota.
    exists (tqe_next e); split_and!; [|rdw HL; done|rdw HL; done|done|done].
    apply seg_app; exists r; split; [eapply seg_frame; [|exact Hs1]; intros a Ha; rdw HL; done|].
    cbn [Tailq.seg]; split_and!; [rdw HL; done|done|rdw HL; done|rdw HL; done|done|rdw HL; done|done].
  - destruct Hs2 as (Hy & Hyn & Hpy & Hs2); subst y; set (y := rd32 m (tqe_next x)) in *.
    assert (urange 32 y) by (rewrite Forall_app, !Forall_cons in HF; naive_solver).
    cell_facts HL; rewrite !rd32_wr32_val by done; rewrite (proj2 (Z.eqb_neq _ _) Hyn); cbn [negb].
    exists q; split_and!; [|rdw HL; done|rdw HL; done|done|done].
    apply seg_app; exists r; split; [eapply seg_frame; [|exact Hs1]; intros a Ha; rdw HL; done|].
    cbn [Tailq.seg]; split_and!; [rdw HL; done|done|rdw HL; done|rdw HL; done|done|rdw HL; done|rdw HL; done|done|rdw HL; done|].
    eapply seg_frame; [|exact Hs2]; intros a Ha; rdw HL; done.
Qed.

Lemma tailq_insert_before_ok m h l1 x l2 e :
  tailq m h (l1 ++ x :: l2) -> linkable h (l1 ++ x :: l2) e ->
  tailq (TAILQ_INSERT_BEFORE x e m) h (l1 ++ e :: x :: l2).
Proof.
  intros Ht (Hap & He & Hne); pose proof null_range.
  destruct (tailq_split _ _ _ _ _ Ht) as (r & q & Hs1 & Hrx & Hx & Hpx & Hs2 & Hq & Hl & Hux & Hur & Hp).
  assert (Forall (urange 32) (l1 ++ e :: x :: l2)) as HF.
  { destruct Ht as (_ & _ & _ & _ & _ & HF); rewrite Forall_app, !Forall_cons in *; naive_solver. }
  assert (apart (cells h (l1 ++ e :: x :: l2))) as Hap' by (by rewrite cells_add; rewrite cells_cons in Hap).
  rewrite cells_cons, Hp in Hap; rename Hap into HL; clear Ht Hp; cell_facts HL.
  unfold TAILQ_INSERT_BEFORE; rewrite Hpx.
  assert (rd32 (wr32 (wr32 m (tqe_prev e) r) (tqe_next e) x) (tqe_prev x) = r) as -> by (rdw HL; done).
  exists q; split_and!; [|rdw HL; done|rdw HL; done|done|done].
  apply seg_app; exists r; split; [eapply seg_frame; [|exact Hs1]; intros a Ha; rdw HL; done|].
  cbn [Tailq.seg]; split_and!; [rdw HL; done|done|rdw HL; done|rdw HL; done|done|rdw HL; done|].
  eapply seg_frame; [|exact Hs2]; intros a Ha; rdw HL; done.
Qed.

Lemma tailq_replace_ok m h l1 e l2 e2 :
  tailq m h (l1 ++ e :: l2) -> linkable h (l1 ++ e :: l2) e2 ->
  tailq (TAILQ_REPLACE h e e2 m) h (l1 ++ e2 :: l2).
Proof.
  intros Ht (Hap & He & Hne); pose proof null_range.
  destruct (tailq_split _ _ _ _ _ Ht) as (r & q & Hs1 & Hrx & Hx & Hpx & Hs2 & Hq & Hl & Hux & Hur & Hp).
  assert (Forall (urange 32) (l1 ++ e2 :: l2)) as HF.
  { destruct Ht as (_ & _ & _ & _ & _ & HF); rewrite Forall_app, !Forall_cons in *; naive_solver. }
  assert (apart (cells h (l1 ++ e2 :: l2))) as Hap'.
  { apply (apart_sub [tqe_next e; tqe_prev e]); eapply apart_perm; [|exact Hap].
    rewrite cells_cons, !cells_add; cbn [app]; solve_Permutation. }
  rewrite cells_cons, Hp in Hap; rename Hap into HL; clear Ht Hp.
  unfold TAILQ_REPLACE; destruct l2 as [|y l2]; cbn [Tailq.seg Tailq.seg_cells app] in *.
  - subst q; cell_facts HL; rewrite Hq, rd32_wr32_val by done; change (negb (NULL =? NULL)) with false; cbv iota.
    assert (rd32 (wr32 (wr32 m (tqe_next e2) NULL) (tqh_last h) (tqe_next e2)) (tqe_prev e) = r) as -> by (rdw HL; done).
    rewrite (rd32_wr32_val _ (tqe_prev e2)) by done.
    exists (tqe_next e2); split_and!; [|rdw HL; done|rdw HL; done|done|done].
    apply seg_app; exists r; split; [eapply seg_frame; [|exact Hs1]; intros a Ha; rdw HL; done|].
    cbn [Tailq.seg]; split_and!; [rdw HL; done|done|rdw HL; done|done].
  - destruct Hs2 as (Hy & Hyn & Hpy & Hs2); subst y; set (y := rd32 m (tqe_next e)) in *.
    assert (urange 32 y) by (rewrite Forall_app, !Forall_cons in HF; naive_solver).
    cell_facts HL; rewrite !(rd32_wr32_val _ (tqe_next e2)) by done; rewrite (proj2 (Z.eqb_neq _ _) Hyn); cbn [negb].
    assert (rd32 (wr32 (wr32 m (tqe_next e2) y) (tqe_prev y) (tqe_next e2)) (tqe_prev e) = r) as -> by (rdw HL; done).
    rewrite (rd32_wr32_val _ (tqe_prev e2)) by done.
    exists q; split_and!; [|rdw HL; done|rdw HL; done|done|done].
    apply seg_app; exists r; split; [eapply seg_frame; [|exact Hs1]; intros a Ha; rdw HL; done|].
    cbn [Tailq.seg]; split_and!; [rdw HL; done|done|rdw HL; done|rdw HL; done|done|rdw HL; done|].
    eapply seg_frame; [|exact Hs2]; intros a Ha; rdw HL; done.
Qed.

Lemma tailq_concat_ok m h1 l1 h2 l2 :
  tailq m h1 l1 -> tailq m h2 l2 -> apart (cells h1 l1 ++ cells h2 l2) ->
  tailq (TAILQ_CONCAT h1 h2 m) h1 (l1 ++ l2) /\ tailq (TAILQ_CONCAT h1 h2 m) h2 [].
Proof.
  intros Ht1 Ht2 Hap; pose proof null_range; unfold TAILQ_CONCAT, TAILQ_EMPTY, TAILQ_FIRST.
  destruct Ht1 as (q1 & Hs1 & Hq1 & Hl1 & Hap1 & Hr1), Ht2 as (q2 & Hs2 & Hq2 & Hl2 & Hap2 & Hr2).
  destruct l2 as [|x l2]; cbn [Tailq.seg] in Hs2.
  { subst q2; rewrite Hq2; cbn [negb]; change (NULL =? NULL) with true; rewrite app_nil_r; split; [by exists q1|by exists (tqh_first h2)]. }
  assert (Forall (urange 32) (l1 ++ x :: l2)) as HF by (by apply Forall_app).
  assert (apart (cells h1 (l1 ++ x :: l2))) as Hap'.
  { apply (apart_sub [tqh_first h2; tqh_last h2]); eapply apart_perm; [|exact Hap].
    unfold Tailq.cells; rewrite flat_map_app; cbn; solve_Permutation. }
  assert (apart (cells h2 [])) as Hap3.
  { apply (apart_sub (cells h1 l1 ++ flat_map (fun e => [tqe_next e; tqe_prev e]) (x :: l2))); eapply apart_perm; [|exact Hap].
    unfold Tailq.cells; cbn; solve_Permutation. }
  destruct Hs2 as (Hx & Hxn & Hpx & Hs2); inversion Hr2; subst x; set (x := rd32 m (tqh_first h2)) in *.
  rewrite (tailq_cells _ _ _ _ _ Hs1), (tailq_cells off m h2 (x :: l2) q2) in Hap by (by cbn [Tailq.seg]).
  cbn [Tailq.seg_cells] in Hap; rewrite (proj2 (Z.eqb_neq _ _) Hxn); cbn [negb]; rewrite Hl1.
  assert (apart (tqh_last h1 :: q1 :: tqh_last h2 :: q2 :: tqh_first h2 :: tqe_prev x ::
    seg_cells (tqe_next x) l2 ++ seg_cells (tqh_first h1) l1)) as HL by (eapply apart_perm; [|exact Hap]; solve_Permutation).
  clear Hap Hap1 Hap2; cell_facts HL.
  assert (rd32 (wr32 m q1 x) (tqh_first h2) = x) as -> by (rdw HL; done).
  assert (rd32 (wr32 m q1 x) (tqh_last h1) = q1) as -> by (rdw HL; done).
  assert (rd32 (wr32 (wr32 m q1 x) (tqe_prev x) q1) (tqh_last h2) = q2) as -> by (rdw HL; done).
  unfold TAILQ_INIT; split.
  - exists q2; split_and!; [|rdw HL; done|rdw HL; done|done|done].
    apply seg_app; exists q1; split; [eapply seg_frame; [|exact Hs1]; intros a Ha; rdw HL; done|].
    cbn [Tailq.seg]; split_and!; [rdw HL; done|done|rdw HL; done|].
    eapply seg_frame; [|exact Hs2]; intros a Ha; rdw HL; done.
  - exists (tqh_first h2); split_and!; [done|rdw HL; done|rdw HL; done|done|constructor].
Qed.

(** ** Traversal *)

(** Behind the "last next" pointer at the end of a prefix of the queue is the
    last element of the prefix. *)
Lemma seg_last m h l q z : seg m (tqh_first h) l q -> rd32 m (tqh_last h) = z -> rd32 m z = NULL ->
  rd32 m (rd32 m (tqh_last q)) = default NULL (last l).
Proof.
  intros Hs Hz Hn; destruct l as [|e l _] using rev_ind; cbn [Tailq.seg] in Hs.
  - subst q; change (tqh_last (tqh_first h)) with (tqh_last h); by rewrite Hz.
  - apply seg_app in Hs as (r & _ & Hr & _ & Hp & Hq); cbn [Tailq.seg] in Hq; subst q.
    rewrite last_snoc; cbn [default]; change (tqh_last (tqe_next e)) with (tqe_prev e); by rewrite Hp.
Qed.

Lemma tailq_prev_ok m h l1 e l2 : tailq m h (l1 ++ e :: l2) -> TAILQ_PREV e m = default NULL (last l1).
Proof.
  intros Ht; destruct (tailq_split _ _ _ _ _ Ht) as (r & q & Hs1 & _ & _ & Hp & _ & Hq & Hl & _).
  unfold TAILQ_PREV; rewrite Hp; by apply (seg_last m h l1 r q).
Qed.

Lemma seg_reverse m h l q z fuel :
  seg m (tqh_first h) l q -> rd32 m (tqh_last h) = z -> rd32 m z = NULL -> (length l <= fuel)%nat ->
  tailq_foreach_reverse fuel (default NULL (last l)) m = Some (reverse l).
Proof.
  intros Hs Hz Hn; revert q fuel Hs; induction l as [|e l IH] using rev_ind; intros q fuel Hs Hf; [by destruct fuel|].
  apply seg_app in Hs as (r & Hs & _ & He & Hp & _); rewrite length_app in Hf; cbn [length] in Hf.
  rewrite last_snoc, reverse_app; change (default NULL (Some e)) with e; destruct fuel as [|fuel]; [lia|].
  cbn [tailq_foreach_reverse]; rewrite (proj2 (Z.eqb_neq _ _) He); unfold TAILQ_PREV.
  rewrite Hp, (seg_last m h l r z), (IH r fuel) by (done || lia); done.
Qed.

(** The next element read before the body runs. *)
Lemma seg_head m p l q : seg m p l q -> rd32 m q = NULL -> rd32 m p = default NULL (head l).
Proof. destruct l; cbn; [by intros ->|by intros (? & _)]. Qed.

(** A loop that removes the elements satisfying [P] and collects them. *)
Definition purge_body (P : Z -> bool) (h e : Z) (s : mem * list Z) : bool * (mem * list Z) :=
  (true, if P e then (TAILQ_REMOVE off h e (fst s), snd s ++ [e]) else s).

Lemma tailq_purge_ok (P : Z -> bool) h rest kept m acc fuel :
  tailq m h (kept ++ rest) -> (length rest <= fuel)%nat ->
  exists m', tailq_foreach_safe fuel (purge_body P h) (default NULL (head rest)) (m, acc) =
      Some (m', acc ++ filter (fun e => P e = true) rest) /\
    tailq m' h (kept ++ filter (fun e => P e = false) rest).
Proof.
  revert kept m acc fuel; induction rest as [|e rest IH]; intros kept m acc fuel Ht Hf.
  { exists m; rewrite !filter_nil, !app_nil_r in *; split; [by destruct fuel|done]. }
  destruct fuel as [|fuel]; cbn [length] in Hf; [lia|].
  destruct (tailq_split _ _ _ _ _ Ht) as (r & q & _ & _ & Hne & _ & Hs2 & Hq & _).
  change (default NULL (head (e :: rest))) with e; cbn [tailq_foreach_safe]; rewrite (proj2 (Z.eqb_neq _ _) Hne); cbn [purge_body fst snd].
  unfold TAILQ_NEXT; rewrite (seg_head _ _ _ _ Hs2 Hq).
  destruct (P e) eqn:E.
  - apply tailq_remove_ok in Ht.
    destruct (IH kept _ (acc ++ [e]) fuel Ht ltac:(lia)) as (m' & Hm & Hk); exists m'.
    rewrite filter_cons_True, filter_cons_False by (rewrite E; done); by rewrite Hm, <- app_assoc.
  - rewrite cons_middle, app_assoc in Ht.
    destruct (IH _ m acc fuel Ht ltac:(lia)) as (m' & Hm & Hk); exists m'.
    rewrite filter_cons_False, filter_cons_True by (rewrite E; done); by rewrite Hm, cons_middle, app_assoc.
Qed.

(** C20: the other TAILQ macros also implement lists.  An element can be
    inserted behind and before any other and be replaced; concatenation
    moves all elements of one queue to the end of another; the last element and
    the predecessor of an element are found without a pass over the queue; the
    reverse traversal visits the queue backwards; and a traversal with
    TAILQ_FOREACH_SAFE whose body removes elements visits all of them and
    leaves exactly the others, in order. *)
Theorem tailq_ops_refine_list m h l :
  tailq m h l ->
  TAILQ_LAST h m = default NULL (last l) /\
  (forall fuel, (length l <= fuel)%nat -> TAILQ_FOREACH_REVERSE fuel h m = Some (reverse l)) /\
  (forall l1 x l2, l = l1 ++ x :: l2 ->
     TAILQ_NEXT off x m = default NULL (head l2) /\ TAILQ_PREV x m = default NULL (last l1) /\
     forall e, linkable h l e ->
       tailq (TAILQ_INSERT_AFTER h x e m) h (l1 ++ x :: e :: l2) /\
       tailq (TAILQ_INSERT_BEFORE x e m) h (l1 ++ e :: x :: l2) /\
       tailq (TAILQ_REPLACE h x e m) h (l1 ++ e :: l2)) /\
  (forall h2 l2, tailq m h2 l2 -> apart (cells h l ++ cells h2 l2) ->
     tailq (TAILQ_CONCAT h h2 m) h (l ++ l2) /\ tailq (TAILQ_CONCAT h h2 m) h2 []) /\
  (forall (P : Z -> bool) fuel, (length l <= fuel)%nat ->
     exists m', TAILQ_FOREACH_SAFE fuel (purge_body P h) h (m, []) = Some (m', filter (fun e => P e = true) l) /\
       tailq m' h (filter (fun e => P e = false) l)).
Proof.
  intros Ht; pose proof Ht as (z & Hs & Hz & Hl & _).
  assert (TAILQ_LAST h m = default NULL (last l)) as HL by (unfold TAILQ_LAST; rewrite Hl; by apply (seg_last m h l z z)).
  split_and!; [done| | | |].
  - intros fuel Hf; unfold TAILQ_FOREACH_REVERSE; rewrite HL; by apply (seg_reverse m h l z z).
  - intros l1 x l2 ->; split_and!; [|by eapply tailq_prev_ok|].
    + destruct (tailq_split _ _ _ _ _ Ht) as (r & q & _ & _ & _ & _ & Hs2 & Hq & _); by apply (seg_head m _ l2 q).
    + intros e He; split_and!; [by apply tailq_insert_after_ok|by apply tailq_insert_before_ok|by apply tailq_replace_ok].
  - intros h2 l2 Ht2 Hap; by apply tailq_concat_ok.
  - intros P fuel Hf; unfold TAILQ_FOREACH_SAFE, TAILQ_FIRST; cbn [fst]; rewrite (seg_head _ _ _ _ Hs Hz).
    by apply (tailq_purge_ok P h l [] m []).
Qed.
End TailqOps.

Lemma tailq_ops_refine_list_witness :
  TAILQ_LAST 0x1000 demo_q = 0x3000 /\ TAILQ_FOREACH_REVERSE 52 2 0x1000 demo_q = Some [0x3000; 0x2000] /\
  tailq 52 (TAILQ_INSERT_BEFORE 52 0x3000 0x5000 demo_q) 0x1000 [0x2000; 0x5000; 0x3000].
Proof.
  destruct (tailq_ops_refine_list 52 demo_q 0x1000 [0x2000; 0x3000] demo_q_ok) as (Hl & Hr & Hi & _).
  destruct (Hi [0x2000] 0x3000 [] eq_refl) as (_ & _ & Hins).
  split; [exact Hl|split; [by apply Hr|]].
  destruct (Hins 0x5000) as (_ & Hb & _); [split; [apart_concrete|]|].
  - clear; done.
  - exact Hb.
Defined.
