(* ===== verification/Queues.v ===== *)
(** * Queues: the other list macros of include/bmk/queue.h

    SLIST, LIST, SIMPLEQ, STAILQ and CIRCLEQ as programs over memory, with the
    lists they implement.  The kernel proper uses TAILQ and SLIST only; the
    header offers all of them. *)
From S2P Require Import Prelude Mem Cells Tailq.

(** ** Singly linked segments *)

Section Single.
(** [off] is the offset of the link in the element. *)
Variable off : Z.
Local Abbreviation nx := (sle_next off).

(** From the pointer cell [p] through the elements [l] to the cell [q]. *)
Fixpoint sseg (m : mem) (p : Z) (l : list Z) (q : Z) : Prop :=
  match l with [] => q = p | e :: l => rd32 m p = e /\ e <> NULL /\ sseg m (nx e) l q end.
Fixpoint sseg_cells (p : Z) (l : list Z) : list Z :=
  match l with [] => [] | e :: l => p :: sseg_cells (nx e) l end.

Lemma sseg_frame m m' p l q : (forall a, a ∈ sseg_cells p l -> rd32 m' a = rd32 m a) -> sseg m p l q -> sseg m' p l q.
Proof.
  revert p; induction l as [|e l IH]; intros p Hf; cbn; [done|]; intros (H1 & H2 & H3).
  cbn in Hf; rewrite Hf by set_solver; split_and!; [done..|]; apply IH; [|done]; intros; apply Hf; set_solver.
Qed.
Lemma sseg_app m p l1 l2 q : sseg m p (l1 ++ l2) q <-> exists r, sseg m p l1 r /\ sseg m r l2 q.
Proof. revert p; induction l1 as [|e l1 IH]; intros p; cbn; [naive_solver|]; rewrite IH; naive_solver. Qed.
Lemma sseg_cells_app m p l1 l2 r : sseg m p l1 r -> sseg_cells p (l1 ++ l2) = sseg_cells p l1 ++ sseg_cells r l2.
Proof.
  revert p; induction l1 as [|e l1 IH]; intros p; cbn; [by intros ->|]; intros (_ & _ & Hs); by rewrite (IH _ Hs).
Qed.
Lemma sseg_cells_perm m p l q : sseg m p l q -> q :: sseg_cells p l ≡ₚ p :: (nx <$> l).
Proof.
  revert p; induction l as [|e l IH]; intros p; cbn; [by intros ->|]; intros (_ & _ & Hs).
  by rewrite (Permutation_swap p q), (IH _ Hs).
Qed.
Lemma sseg_end m p l q : sseg m p l q -> q = default p (nx <$> last l).
Proof.
  destruct l as [|e l _] using rev_ind; [done|]; intros (r & _ & _ & _ & Hq)%sseg_app; by rewrite last_snoc.
Qed.
Lemma sseg_foreach m p l q fuel : sseg m p l q -> rd32 m q = NULL -> (length l <= fuel)%nat ->
  slist_foreach off fuel (rd32 m p) m = Some l.
Proof.
  revert p fuel; induction l as [|e l IH]; intros p fuel; cbn [sseg].
  - intros -> -> _; by destruct fuel.
  - intros (-> & Hne & Hs) Hq Hf; destruct fuel as [|fuel]; cbn in Hf; [lia|]; cbn [slist_foreach].
    rewrite (proj2 (Z.eqb_neq _ _) Hne), (IH (nx e) fuel Hs Hq) by lia; done.
Qed.

(** The search loop of the REMOVE macros: the element before [e]. *)
Fixpoint find_before (fuel : nat) (cur e : Z) (m : mem) : option Z :=
  if rd32 m (nx cur) =? e then Some cur
  else match fuel with O => None | S fuel => find_before fuel (rd32 m (nx cur)) e m end.

Lemma find_before_ok m p l1 x e l2 q fuel :
  sseg m p (l1 ++ x :: e :: l2) q -> NoDup (l1 ++ x :: e :: l2) -> (length l1 <= fuel)%nat ->
  find_before fuel (rd32 m p) e m = Some x.
Proof.
  revert p fuel; induction l1 as [|y l1 IH]; intros p fuel; cbn [app sseg].
  - intros (-> & _ & He & _) _ _; destruct fuel; cbn [find_before]; by rewrite He, Z.eqb_refl.
  - intros (-> & _ & Hs) Hn Hf; destruct fuel as [|fuel]; cbn in Hf; [lia|]; cbn [find_before].
    apply NoDup_cons in Hn as [_ Hn].
    assert (rd32 m (nx y) <> e) as Hne.
    { destruct l1 as [|z l1]; cbn [app sseg] in Hs; destruct Hs as (-> & _ & _); cbn [app] in Hn;
        apply NoDup_cons in Hn as [Hn _]; set_solver. }
    rewrite (proj2 (Z.eqb_neq _ _) Hne); apply IH; [done|done|lia].
Qed.

(** ** SLIST *)

Definition SLIST_FIRST (h : Z) (m : mem) : Z := rd32 m (slh_first h).
Definition SLIST_EMPTY (h : Z) (m : mem) : bool := SLIST_FIRST h m =? NULL.
Definition SLIST_NEXT (e : Z) (m : mem) : Z := rd32 m (nx e).
Definition SLIST_INSERT_AFTER (x e : Z) (m : mem) : mem :=
  let m := wr32 m (nx e) (rd32 m (nx x)) in wr32 m (nx x) e.
Definition SLIST_REMOVE_AFTER (x : Z) (m : mem) : mem := wr32 m (nx x) (SLIST_NEXT (SLIST_NEXT x m) m).
Definition SLIST_REMOVE_HEAD (h : Z) (m : mem) : mem := wr32 m (slh_first h) (rd32 m (nx (rd32 m (slh_first h)))).
Definition SLIST_REMOVE (fuel : nat) (h e : Z) (m : mem) : option mem :=
  if rd32 m (slh_first h) =? e then Some (SLIST_REMOVE_HEAD h m)
  else cur ← find_before fuel (rd32 m (slh_first h)) e m;
       Some (wr32 m (nx cur) (rd32 m (nx (rd32 m (nx cur))))).

(** Linking an element behind a cell [r], and cutting the one behind it. *)
Lemma sseg_link m p l1 r l2 q e :
  sseg m p l1 r -> sseg m r l2 q -> rd32 m q = NULL -> apart (nx e :: q :: sseg_cells p (l1 ++ l2)) ->
  urange 32 e -> e <> NULL -> Forall (urange 32) l2 ->
  exists q', sseg (wr32 (wr32 m (nx e) (rd32 m r)) r e) p (l1 ++ e :: l2) q' /\
    rd32 (wr32 (wr32 m (nx e) (rd32 m r)) r e) q' = NULL /\
    q' = (match l2 with [] => nx e | _ => q end).
Proof.
  intros Hs1 Hs2 Hq HL He Hne HF; pose proof null_range; rewrite (sseg_cells_app _ _ _ _ _ Hs1) in HL.
  destruct l2 as [|y l2]; cbn [sseg sseg_cells] in *.
  - subst q; rewrite Hq; rewrite app_nil_r in HL; cell_facts HL; exists (nx e); split_and!; [|rdw HL; done|done].
    apply sseg_app; exists r; split; [eapply sseg_frame; [|exact Hs1]; intros a Ha; rdw HL; done|].
    cbn [sseg]; split_and!; [rdw HL; done|done|done].
  - destruct Hs2 as (Hy & Hyn & Hs2); rewrite Hy; inversion HF as [|? ? Huy _]; subst.
    assert (apart (nx e :: q :: r :: sseg_cells (nx (rd32 m r)) l2 ++ sseg_cells p l1)) as HL' by
      (eapply apart_perm; [|exact HL]; solve_Permutation).
    clear HL; rename HL' into HL; cell_facts HL; exists q; split_and!; [|rdw HL; done|done].
    apply sseg_app; exists r; split; [eapply sseg_frame; [|exact Hs1]; intros a Ha; rdw HL; done|].
    cbn [sseg]; split_and!; [rdw HL; done|done|rdw HL; done|done|].
    eapply sseg_frame; [|exact Hs2]; intros a Ha; rdw HL; done.
Qed.

Lemma sseg_cut m p l1 r e l2 q :
  sseg m p l1 r -> sseg m r (e :: l2) q -> rd32 m q = NULL -> apart (q :: sseg_cells p (l1 ++ e :: l2)) ->
  exists q', sseg (wr32 m r (rd32 m (nx e))) p (l1 ++ l2) q' /\ rd32 (wr32 m r (rd32 m (nx e))) q' = NULL /\
    q' = (match l2 with [] => r | _ => q end).
Proof.
  intros Hs1 Hs2 Hq HL; pose proof null_range; rewrite (sseg_cells_app _ _ _ _ _ Hs1) in HL.
  cbn [sseg sseg_cells] in *; destruct Hs2 as (He & Hen & Hs2).
  pose proof (rd32_range m (nx e)).
  destruct l2 as [|y l2]; cbn [sseg sseg_cells] in *.
  - subst q; rewrite Hq.
    assert (apart (nx e :: r :: sseg_cells p l1)) as HL' by (eapply apart_perm; [|exact HL]; solve_Permutation).
    clear HL; rename HL' into HL; cell_facts HL; exists r; rewrite app_nil_r; split_and!; [|rdw HL; done|done].
    eapply sseg_frame; [|exact Hs1]; intros a Ha; rdw HL; done.
  - destruct Hs2 as (Hy & Hyn & Hs2); rewrite Hy in *.
    assert (apart (q :: nx e :: r :: sseg_cells (nx y) l2 ++ sseg_cells p l1)) as HL' by
      (eapply apart_perm; [|exact HL]; solve_Permutation).
    clear HL; rename HL' into HL; cell_facts HL; exists q; split_and!; [|rdw HL; done|done].
    apply sseg_app; exists r; split; [eapply sseg_frame; [|exact Hs1]; intros a Ha; rdw HL; done|].
    cbn [sseg]; split_and!; [rdw HL; done|done|].
    eapply sseg_frame; [|exact Hs2]; intros a Ha; rdw HL; done.
Qed.

Lemma schain_sseg m p l : schain off m p l <-> exists q, sseg m p l q /\ rd32 m q = NULL.
Proof.
  revert p; induction l as [|e l IH]; intros p; cbn; [naive_solver|]; rewrite IH; naive_solver.
Qed.
Lemma sseg_range m p l q : sseg m p l q -> Forall (fun e => urange 32 e /\ e <> NULL) l.
Proof.
  revert p; induction l as [|e l IH]; intros p; cbn; [constructor|]; intros (He & Hne & Hs).
  constructor; [split; [rewrite <- He; apply rd32_range|done]|by eapply IH].
Qed.
Lemma apart_NoDup h l : apart (h :: (nx <$> l)) -> NoDup l.
Proof. intros (Hn & _); apply NoDup_cons in Hn as [_ Hn]; by apply NoDup_fmap_1 in Hn. Qed.

(** An element that is not part of the list [l]. *)
Definition slinkable (h : Z) (l : list Z) (e : Z) : Prop :=
  apart (slh_first h :: (nx <$> e :: l)) /\ urange 32 e /\ e <> NULL.

Lemma slist_link m h l1 r l2 e :
  slist off m h (l1 ++ l2) -> sseg m (slh_first h) l1 r -> slinkable h (l1 ++ l2) e ->
  slist off (wr32 (wr32 m (nx e) (rd32 m r)) r e) h (l1 ++ e :: l2).
Proof.
  intros [Hc Hap] Hs1 (Hap' & He & Hne).
  apply schain_sseg in Hc as (q & Hs & Hq); pose proof (sseg_range _ _ _ _ Hs) as HF.
  pose proof Hs as (r' & Hs1' & Hs2)%sseg_app.
  assert (r' = r) as -> by (rewrite (sseg_end _ _ _ _ Hs1), (sseg_end _ _ _ _ Hs1'); done).
  destruct (sseg_link m (slh_first h) l1 r l2 q e) as (q' & Hs' & Hq' & _); try done.
  - eapply apart_perm; [|exact Hap']; cbn [fmap list_fmap]; rewrite (sseg_cells_perm _ _ _ _ Hs); solve_Permutation.
  - apply Forall_app in HF as [_ HF]; eapply Forall_impl; [exact HF|]; naive_solver.
  - split; [apply schain_sseg; by exists q'|].
    eapply apart_perm; [|exact Hap']; cbn [fmap list_fmap]; rewrite !fmap_app; cbn; solve_Permutation.
Qed.

Lemma slist_cut m h l1 r e l2 :
  slist off m h (l1 ++ e :: l2) -> sseg m (slh_first h) l1 r ->
  slist off (wr32 m r (rd32 m (nx e))) h (l1 ++ l2).
Proof.
  intros [Hc Hap] Hs1; apply schain_sseg in Hc as (q & Hs & Hq).
  pose proof Hs as (r' & Hs1' & Hs2)%sseg_app.
  assert (r' = r) as -> by (rewrite (sseg_end _ _ _ _ Hs1), (sseg_end _ _ _ _ Hs1'); done).
  destruct (sseg_cut m (slh_first h) l1 r e l2 q) as (q' & Hs' & Hq' & _); try done.
  - eapply apart_perm; [|exact Hap]; by rewrite (sseg_cells_perm _ _ _ _ Hs).
  - split; [apply schain_sseg; by exists q'|].
    apply (apart_sub [nx e]); eapply apart_perm; [|exact Hap]; rewrite !fmap_app; cbn; solve_Permutation.
Qed.

Lemma sseg_cell m p l1 x l2 q : sseg m p (l1 ++ x :: l2) q ->
  exists r, sseg m p l1 r /\ rd32 m r = x /\ sseg m p (l1 ++ [x]) (nx x) /\ sseg m (nx x) l2 q.
Proof.
  intros (r & Hs1 & Hx & Hn & Hs2)%sseg_app; exists r; split_and!; [done|done| |done].
  apply sseg_app; exists r; split; [done|]; by cbn.
Qed.
Lemma sseg_next m p l q : sseg m p l q -> rd32 m q = NULL -> rd32 m p = default NULL (head l).
Proof. destruct l; cbn; [by intros ->|by intros (? & _)]. Qed.

(** The SLIST macros implement lists: access, insertion behind an element,
    and removal at the head, behind an element, and of any element by search
    (which ends). *)
Theorem slist_ops_refine_list m h l :
  slist off m h l ->
  SLIST_FIRST h m = default NULL (head l) /\ (SLIST_EMPTY h m = true <-> l = []) /\
  (forall e l', l = e :: l' -> slist off (SLIST_REMOVE_HEAD h m) h l') /\
  (forall l1 x l2, l = l1 ++ x :: l2 ->
     SLIST_NEXT x m = default NULL (head l2) /\
     (forall e, slinkable h l e -> slist off (SLIST_INSERT_AFTER x e m) h (l1 ++ x :: e :: l2)) /\
     (forall y l3, l2 = y :: l3 -> slist off (SLIST_REMOVE_AFTER x m) h (l1 ++ x :: l3)) /\
     (forall fuel, (length l1 <= fuel)%nat ->
        exists m', SLIST_REMOVE fuel h x m = Some m' /\ slist off m' h (l1 ++ l2))).
Proof.
  intros Hl; pose proof Hl as [Hc Hap]; apply schain_sseg in Hc as (q & Hs & Hq).
  pose proof (sseg_range _ _ _ _ Hs) as HF; pose proof (apart_NoDup _ _ Hap) as Hnd.
  assert (SLIST_FIRST h m = default NULL (head l)) as Hf by (by apply (sseg_next m _ l q)).
  split_and!; [done| | |].
  - unfold SLIST_EMPTY; rewrite Hf, Z.eqb_eq; destruct l as [|x l]; [done|]; inversion HF; cbn; naive_solver.
  - intros e l' ->; unfold SLIST_REMOVE_HEAD; unfold SLIST_FIRST in Hf; rewrite Hf; by apply (slist_cut m h [] (slh_first h)).
  - intros l1 x l2 ->; destruct (sseg_cell _ _ _ _ _ _ Hs) as (r & Hs1 & Hrx & Hsx & Hs2).
    assert (SLIST_NEXT x m = default NULL (head l2)) as Hnx by (by apply (sseg_next m _ l2 q)).
    split_and!; [done| | |].
    + intros e He; rewrite (cons_middle x), (app_assoc l1 [x]); apply slist_link; [by rewrite <- app_assoc|done|by rewrite <- app_assoc].
    + intros y l3 ->; unfold SLIST_REMOVE_AFTER; rewrite Hnx; cbn [head default from_option id]; unfold SLIST_NEXT.
      rewrite (cons_middle x), (app_assoc l1 [x]); apply slist_cut; [by rewrite <- app_assoc|done].
    + intros fuel Hfu; unfold SLIST_REMOVE; unfold SLIST_FIRST in Hf.
      destruct l1 as [|y l1 _] using rev_ind.
      * rewrite Hf, Z.eqb_refl; eexists; split; [done|]; unfold SLIST_REMOVE_HEAD; rewrite Hf; by apply (slist_cut m h [] (slh_first h)).
      * rewrite length_app in Hfu; cbn [length] in Hfu; rewrite <- !app_assoc in *; cbn [app] in *.
        assert (rd32 m (slh_first h) <> x) as Hne.
        { rewrite Hf; destruct l1 as [|z l1]; cbn [app head default from_option] in *; apply NoDup_cons in Hnd as [Hnd _]; set_solver. }
        rewrite (proj2 (Z.eqb_neq _ _) Hne), (find_before_ok m (slh_first h) l1 y x l2 q) by (done || lia); cbn [mbind option_bind].
        eexists; split; [done|].
        destruct (sseg_cell _ _ _ _ _ _ Hs) as (r' & _ & _ & Hsy & Hsx').
        destruct Hsx' as (Hyx & _); rewrite Hyx.
        rewrite (cons_middle y), (app_assoc l1 [y]); apply slist_cut; [by rewrite <- app_assoc|done].
Qed.


(** ** SIMPLEQ *)

Definition sqh_first (h : Z) : Z := h.
Definition sqh_last (h : Z) : Z := h + 4.
Definition sqe_next (e : Z) : Z := e + off.

Definition SIMPLEQ_FIRST (h : Z) (m : mem) : Z := rd32 m (sqh_first h).
Definition SIMPLEQ_EMPTY (h : Z) (m : mem) : bool := rd32 m (sqh_first h) =? NULL.
Definition SIMPLEQ_NEXT (e : Z) (m : mem) : Z := rd32 m (sqe_next e).
Fixpoint simpleq_foreach (fuel : nat) (var : Z) (m : mem) : option (list Z) :=
  if var =? NULL then Some []
  else match fuel with O => None | S fuel => cons var <$> simpleq_foreach fuel (rd32 m (sqe_next var)) m end.
Definition SIMPLEQ_FOREACH (fuel : nat) (h : Z) (m : mem) : option (list Z) :=
  simpleq_foreach fuel (rd32 m (sqh_first h)) m.

Definition SIMPLEQ_INIT (h : Z) (m : mem) : mem := wr32 (wr32 m (sqh_first h) NULL) (sqh_last h) (sqh_first h).
Definition SIMPLEQ_INSERT_HEAD (h e : Z) (m : mem) : mem :=
  let m := wr32 m (sqe_next e) (rd32 m (sqh_first h)) in
  let m := if rd32 m (sqe_next e) =? NULL then wr32 m (sqh_last h) (sqe_next e) else m in
  wr32 m (sqh_first h) e.
Definition SIMPLEQ_INSERT_TAIL (h e : Z) (m : mem) : mem :=
  let m := wr32 m (sqe_next e) NULL in
  let m := wr32 m (rd32 m (sqh_last h)) e in
  wr32 m (sqh_last h) (sqe_next e).
Definition SIMPLEQ_INSERT_AFTER (h x e : Z) (m : mem) : mem :=
  let m := wr32 m (sqe_next e) (rd32 m (sqe_next x)) in
  let m := if rd32 m (sqe_next e) =? NULL then wr32 m (sqh_last h) (sqe_next e) else m in
  wr32 m (sqe_next x) e.
Definition SIMPLEQ_REMOVE_HEAD (h : Z) (m : mem) : mem :=
  let m := wr32 m (sqh_first h) (rd32 m (sqe_next (rd32 m (sqh_first h)))) in
  if rd32 m (sqh_first h) =? NULL then wr32 m (sqh_last h) (sqh_first h) else m.
Definition SIMPLEQ_REMOVE_AFTER (h x : Z) (m : mem) : mem :=
  let m := wr32 m (sqe_next x) (rd32 m (sqe_next (rd32 m (sqe_next x)))) in
  if rd32 m (sqe_next x) =? NULL then wr32 m (sqh_last h) (sqe_next x) else m.
Definition SIMPLEQ_REMOVE (fuel : nat) (h e : Z) (m : mem) : option mem :=
  if rd32 m (sqh_first h) =? e then Some (SIMPLEQ_REMOVE_HEAD h m)
  else cur ← find_before fuel (rd32 m (sqh_first h)) e m;
       let m := wr32 m (sqe_next cur) (rd32 m (sqe_next (rd32 m (sqe_next cur)))) in
       Some (if rd32 m (sqe_next cur) =? NULL then wr32 m (sqh_last h) (sqe_next cur) else m).
Definition SIMPLEQ_CONCAT (h1 h2 : Z) (m : mem) : mem :=
  if negb (SIMPLEQ_EMPTY h2 m) then
    let m := wr32 m (rd32 m (sqh_last h1)) (rd32 m (sqh_first h2)) in
    let m := wr32 m (sqh_last h1) (rd32 m (sqh_last h2)) in
    SIMPLEQ_INIT h2 m
  else m.
Definition SIMPLEQ_LAST (h : Z) (m : mem) : Z :=
  if SIMPLEQ_EMPTY h m then NULL else wrap 32 (rd32 m (sqh_last h) - off).

Definition sqcells (h : Z) (l : list Z) : list Z := sqh_last h :: sqh_first h :: (nx <$> l).
Definition simpleq (m : mem) (h : Z) (l : list Z) : Prop :=
  exists q, sseg m (sqh_first h) l q /\ rd32 m q = NULL /\ rd32 m (sqh_last h) = q /\ apart (sqcells h l).
Definition sqlinkable (h : Z) (l : list Z) (e : Z) : Prop := apart (sqcells h (e :: l)) /\ urange 32 e /\ e <> NULL.

Lemma sqcells_mid h l1 e l2 : sqcells h (l1 ++ e :: l2) ≡ₚ sqcells h (e :: l1 ++ l2).
Proof. unfold sqcells; cbn; rewrite !fmap_app; cbn; solve_Permutation. Qed.
Lemma simpleq_cells m h l q : sseg m (sqh_first h) l q -> sqcells h l ≡ₚ sqh_last h :: q :: sseg_cells (sqh_first h) l.
Proof. intros Hs; unfold sqcells; by rewrite (sseg_cells_perm _ _ _ _ Hs). Qed.
Lemma sseg_mid_in m p l1 r l2 q : sseg m p l1 r -> sseg m r l2 q -> r ∈ q :: sseg_cells p (l1 ++ l2).
Proof.
  intros H1 H2; rewrite (sseg_cells_app _ _ _ _ _ H1); destruct l2 as [|y l2]; cbn in *; [subst; set_solver|set_solver].
Qed.
Lemma sseg_split m p l1 r l2 q : sseg m p (l1 ++ l2) q -> sseg m p l1 r -> sseg m r l2 q.
Proof.
  intros (r' & H1 & H2)%sseg_app Hr.
  assert (r' = r) as -> by (rewrite (sseg_end _ _ _ _ H1), (sseg_end _ _ _ _ Hr); done); done.
Qed.

(** Side conditions of reads among the cells [last :: L]. *)
Ltac cell :=
  first [cell_ne | assumption | solve [apply elem_of_cons; right; first [assumption|set_solver +]] | solve [apply elem_of_cons; left; reflexivity]].

(** The insertions behind a cell [r] and the removals behind it. *)
Lemma simpleq_link m h l1 r l2 e :
  simpleq m h (l1 ++ l2) -> sseg m (sqh_first h) l1 r -> sqlinkable h (l1 ++ l2) e ->
  simpleq (let m := wr32 m (nx e) (rd32 m r) in
           let m := if rd32 m (nx e) =? NULL then wr32 m (sqh_last h) (nx e) else m in
           wr32 m r e) h (l1 ++ e :: l2).
Proof.
  intros (q & Hs & Hq & Hl & Hap) Hs1 (Hap' & He & Hne).
  pose proof (sseg_split _ _ _ _ _ _ Hs Hs1) as Hs2; pose proof (sseg_mid_in _ _ _ _ _ _ Hs1 Hs2) as Hr.
  assert (apart (sqh_last h :: nx e :: q :: sseg_cells (sqh_first h) (l1 ++ l2))) as HL.
  { eapply apart_perm; [|exact Hap']; change (sqcells h (e :: l1 ++ l2)) with (sqh_last h :: sqh_first h :: nx e :: (nx <$> l1 ++ l2)).
    rewrite (sseg_cells_perm _ _ _ _ Hs); solve_Permutation. }
  pose proof (sseg_range _ _ _ _ Hs) as HF; apply Forall_app in HF as [_ HF].
  pose proof (sseg_next _ _ _ _ Hs2 Hq) as Hrl.
  destruct (sseg_link m (sqh_first h) l1 r l2 q e) as (q' & Hs' & Hq' & Eq'); try done.
  { by apply (apart_sub [sqh_last h]). }
  { eapply Forall_impl; [exact HF|]; naive_solver. }
  cbv zeta; rewrite rd32_wr32_val by apply rd32_range.
  set (m1 := wr32 m (nx e) (rd32 m r)) in *; set (m2 := if rd32 m r =? NULL then wr32 m1 (sqh_last h) (nx e) else m1).
  set (L := nx e :: q :: sseg_cells (sqh_first h) (l1 ++ l2)) in *.
  assert (r ∈ L) by (unfold L; apply elem_of_cons; by right); assert (nx e ∈ L) by (unfold L; set_solver +).
  assert (sqh_last h ∉ L) as Hnl by (destruct HL as (Hn & _); by apply NoDup_cons in Hn as [Hn _]).
  assert (forall a, a ∈ L -> rd32 m2 a = rd32 m1 a) as Hm2.
  { intros a Ha; unfold m2; destruct (rd32 m r =? NULL); [|done]; apply (rd32_wr32_apart _ _ _ _ _ HL); cell. }
  assert (forall a, a ∈ L -> rd32 (wr32 m2 r e) a = rd32 (wr32 m1 r e) a) as Hfr.
  { intros a Ha; destruct (decide (r = a)) as [->|Hne']; [by rewrite !rd32_wr32_eq|].
    rewrite !(rd32_wr32_apart _ _ _ _ _ HL) by cell; by apply Hm2. }
  assert (q' ∈ L) by (rewrite Eq'; destruct l2; set_solver).
  assert (q' :: sseg_cells (sqh_first h) (l1 ++ e :: l2) ≡ₚ L) as HpL.
  { rewrite (sseg_cells_perm _ _ _ _ Hs'); unfold L; rewrite (sseg_cells_perm _ _ _ _ Hs), !fmap_app; cbn; solve_Permutation. }
  exists q'; split_and!.
  - eapply sseg_frame; [|exact Hs']; intros a Ha; apply Hfr; rewrite <- HpL; set_solver.
  - by rewrite Hfr.
  - rewrite (rd32_wr32_apart _ _ _ _ _ HL) by cell; unfold m2; rewrite Hrl; destruct l2 as [|y l2]; cbn.
    + rewrite Eq'; apply rd32_wr32_val; destruct HL as (_ & _ & HF'); inversion HF' as [|? ? _ H2]; by inversion H2.
    + inversion HF as [|? ? [_ Hy] _]; rewrite (proj2 (Z.eqb_neq _ _) Hy), Eq', <- Hl; unfold m1.
      apply (rd32_wr32_apart _ _ _ _ _ HL); cell.
  - eapply apart_perm; [|exact Hap']; by rewrite sqcells_mid.
Qed.

Lemma simpleq_cut m h l1 r e l2 :
  simpleq m h (l1 ++ e :: l2) -> sseg m (sqh_first h) l1 r ->
  simpleq (let m := wr32 m r (rd32 m (nx (rd32 m r))) in if rd32 m r =? NULL then wr32 m (sqh_last h) r else m) h (l1 ++ l2).
Proof.
  intros (q & Hs & Hq & Hl & Hap) Hs1.
  pose proof (sseg_split _ _ _ _ _ _ Hs Hs1) as Hs2; pose proof (sseg_mid_in _ _ _ _ _ _ Hs1 Hs2) as Hr.
  assert (rd32 m r = e) as Hre by (by destruct Hs2).
  pose proof (apart_perm _ _ (simpleq_cells _ _ _ _ Hs) Hap) as HL.
  pose proof (sseg_range _ _ _ _ Hs) as HF; apply Forall_app in HF as [_ HF]; inversion HF as [|? ? _ HF2]; subst.
  assert (rd32 m (nx (rd32 m r)) = default NULL (head l2)) as Hnx by (destruct Hs2 as (_ & _ & Hs2); by eapply sseg_next).
  destruct (sseg_cut m (sqh_first h) l1 r (rd32 m r) l2 (rd32 m (sqh_last h))) as (q' & Hs' & Hq' & Eq'); try done.
  { by apply (apart_sub [sqh_last h]). }
  cbv zeta; rewrite rd32_wr32_val by apply rd32_range.
  set (m1 := wr32 m r (rd32 m (nx (rd32 m r)))) in *; set (q := rd32 m (sqh_last h)) in *.
  set (L := q :: sseg_cells (sqh_first h) (l1 ++ rd32 m r :: l2)) in *.
  assert (sqh_last h ∉ L) as Hnl by (destruct HL as (Hn & _); by apply NoDup_cons in Hn as [Hn _]).
  set (m2 := if rd32 m (nx (rd32 m r)) =? NULL then wr32 m1 (sqh_last h) r else m1).
  assert (forall a, a ∈ L -> rd32 m2 a = rd32 m1 a) as Hm2.
  { intros a Ha; unfold m2; destruct (rd32 m (nx (rd32 m r)) =? NULL); [|done]; apply (rd32_wr32_apart _ _ _ _ _ HL); cell. }
  assert (nx (rd32 m r) :: q' :: sseg_cells (sqh_first h) (l1 ++ l2) ≡ₚ L) as HpL.
  { rewrite (sseg_cells_perm _ _ _ _ Hs'); unfold L; rewrite (sseg_cells_perm _ _ _ _ Hs), !fmap_app; cbn; solve_Permutation. }
  exists q'; split_and!.
  - eapply sseg_frame; [|exact Hs']; intros a Ha; apply Hm2; rewrite <- HpL; set_solver.
  - rewrite Hm2; [done|]; rewrite <- HpL; set_solver.
  - unfold m2; rewrite Hnx; destruct l2 as [|y l2]; cbn.
    + rewrite Eq'; apply rd32_wr32_val; destruct HL as (_ & _ & HF'); rewrite Forall_forall in HF'; apply HF'; by apply elem_of_cons; right.
    + inversion HF2 as [|? ? [_ Hy] _]; rewrite (proj2 (Z.eqb_neq _ _) Hy), Eq'; unfold m1.
      apply (rd32_wr32_apart _ _ _ _ _ HL); cell.
  - apply (apart_sub [nx (rd32 m r)]); eapply apart_perm; [|exact Hap]; rewrite sqcells_mid; unfold sqcells; cbn; solve_Permutation.
Qed.

Lemma simpleq_insert_tail m h l e :
  simpleq m h l -> sqlinkable h l e -> simpleq (SIMPLEQ_INSERT_TAIL h e m) h (l ++ [e]).
Proof.
  intros (q & Hs & Hq & Hl & Hap) (Hap' & He & Hne); pose proof null_range.
  assert (apart (sqh_last h :: nx e :: q :: sseg_cells (sqh_first h) l)) as HL.
  { eapply apart_perm; [|exact Hap']; unfold sqcells; cbn [fmap list_fmap]; rewrite (sseg_cells_perm _ _ _ _ Hs); solve_Permutation. }
  unfold SIMPLEQ_INSERT_TAIL; change (sqe_next e) with (nx e); cell_facts HL.
  assert (rd32 (wr32 m (nx e) NULL) (sqh_last h) = q) as -> by (rdw HL; done).
  exists (nx e); split_and!; [|rdw HL; done|rdw HL; done|].
  - apply sseg_app; exists q; split; [eapply sseg_frame; [|exact Hs]; intros a Ha; rdw HL; done|].
    cbn; split_and!; [rdw HL; done|done|done].
  - eapply apart_perm; [|exact Hap']; rewrite (sqcells_mid h l e []), app_nil_r; done.
Qed.

Lemma simpleq_init_ok m h : apart (sqcells h []) -> simpleq (SIMPLEQ_INIT h m) h [].
Proof.
  intros HL; pose proof null_range; exists (sqh_first h); unfold SIMPLEQ_INIT; unfold sqcells in HL; cbn in HL; cell_facts HL.
  split_and!; [done|rdw HL; done|rdw HL; done|done].
Qed.

Lemma simpleq_frame m m' h l : (forall a, a ∈ sqcells h l -> rd32 m' a = rd32 m a) -> simpleq m h l -> simpleq m' h l.
Proof.
  intros Hf (q & Hs & Hq & Hl & Hap); exists q.
  assert (forall a, a ∈ sqh_last h :: q :: sseg_cells (sqh_first h) l -> rd32 m' a = rd32 m a) as Hf'.
  { intros a; rewrite <- (simpleq_cells _ _ _ _ Hs); apply Hf. }
  split_and!; [|rewrite Hf'; set_solver|rewrite Hf'; set_solver|done].
  eapply sseg_frame; [|exact Hs]; intros a Ha; apply Hf'; set_solver.
Qed.

Lemma simpleq_concat m h1 h2 l1 l2 :
  simpleq m h1 l1 -> simpleq m h2 l2 -> apart (sqcells h1 l1 ++ sqcells h2 l2) ->
  simpleq (SIMPLEQ_CONCAT h1 h2 m) h1 (l1 ++ l2) /\ simpleq (SIMPLEQ_CONCAT h1 h2 m) h2 [].
Proof.
  intros (q1 & Hs1 & Hq1 & Hl1 & Hap1) H2 HL; pose proof H2 as (q2 & Hs2 & Hq2 & Hl2 & Hap2); pose proof null_range.
  assert (SIMPLEQ_EMPTY h2 m = (default NULL (head l2) =? NULL)) as He by (unfold SIMPLEQ_EMPTY; by rewrite (sseg_next _ _ _ _ Hs2 Hq2)).
  unfold SIMPLEQ_CONCAT; rewrite He; pose proof (sseg_range _ _ _ _ Hs2) as HF; destruct l2 as [|y l2]; cbn [head default negb].
  { rewrite app_nil_r; split; [by exists q1|done]. }
  inversion HF as [|? ? [Hyr Hyn] _]; cbn [from_option id]; rewrite (proj2 (Z.eqb_neq _ _) Hyn); cbn [negb].
  pose proof Hs2 as (Hy & _ & Hs2'); rewrite Hy, Hl1.
  rewrite (simpleq_cells _ _ _ _ Hs1), (simpleq_cells _ _ _ _ Hs2) in HL; cbn [sseg_cells] in HL.
  assert (apart (sqh_last h2 :: q2 :: sqh_first h2 :: sqh_last h1 :: q1 :: sseg_cells (nx y) l2 ++ sseg_cells (sqh_first h1) l1)) as HL'
    by (eapply apart_perm; [|exact HL]; solve_Permutation).
  clear HL; rename HL' into HL; cell_facts HL.
  assert (rd32 (wr32 m q1 y) (sqh_last h2) = q2) as -> by (rdw HL; done).
  unfold SIMPLEQ_INIT; split.
  - exists q2; split_and!; [|rdw HL; done|rdw HL; done|].
    + apply sseg_app; exists q1; split; [eapply sseg_frame; [|exact Hs1]; intros a Ha; rdw HL; done|].
      cbn; split_and!; [rdw HL; done|done|eapply sseg_frame; [|exact Hs2']; intros a Ha; rdw HL; done].
    + apply (apart_sub [sqh_last h2; sqh_first h2]); eapply apart_perm; [|exact HL].
      unfold sqcells; rewrite fmap_app; cbn [fmap list_fmap].
      pose proof (sseg_cells_perm _ _ _ _ Hs1) as P1; pose proof (sseg_cells_perm _ _ _ _ Hs2') as P2.
      transitivity (sqh_last h2 :: sqh_first h2 :: sqh_last h1 :: (q2 :: sseg_cells (nx y) l2) ++ (q1 :: sseg_cells (sqh_first h1) l1));
        [solve_Permutation|]; rewrite P1, P2; solve_Permutation.
  - exists (sqh_first h2); split_and!; [done|rdw HL; done|rdw HL; done|].
    apply (apart_sub (nx y :: (nx <$> l2))); eapply apart_perm; [|exact Hap2]; unfold sqcells; cbn; solve_Permutation.
Qed.

Lemma simpleq_remove m h l1 x l2 fuel :
  simpleq m h (l1 ++ x :: l2) -> (length l1 <= fuel)%nat ->
  exists m', SIMPLEQ_REMOVE fuel h x m = Some m' /\ simpleq m' h (l1 ++ l2).
Proof.
  intros Hl Hfu; pose proof Hl as (q & Hs & Hq & _ & Hap); unfold SIMPLEQ_REMOVE.
  pose proof (apart_NoDup _ _ (apart_sub [sqh_last h] _ Hap)) as Hnd.
  pose proof (sseg_next _ _ _ _ Hs Hq) as Hf.
  destruct l1 as [|y l1 _] using rev_ind.
  - rewrite Hf, Z.eqb_refl; eexists; split; [done|]; by apply (simpleq_cut m h [] (sqh_first h) x).
  - rewrite length_app in Hfu; cbn [length] in Hfu; rewrite <- !app_assoc in Hl, Hnd, Hf, Hs; cbn [app] in Hl, Hnd, Hf, Hs.
    assert (rd32 m (sqh_first h) <> x) as Hne.
    { rewrite Hf; destruct l1 as [|z l1]; cbn [app head default from_option] in *; apply NoDup_cons in Hnd as [Hnd _]; set_solver. }
    rewrite (proj2 (Z.eqb_neq _ _) Hne), (find_before_ok m (sqh_first h) l1 y x l2 q) by (done || lia); cbn [mbind option_bind].
    eexists; split; [done|]; destruct (sseg_cell _ _ _ _ _ _ Hs) as (_ & _ & _ & Hsy & _).
    apply (simpleq_cut m h (l1 ++ [y]) (nx y) x); [by rewrite <- app_assoc|done].
Qed.

(** ** STAILQ *)

Definition stqh_first (h : Z) : Z := h.
Definition stqh_last (h : Z) : Z := h + 4.
Definition stqe_next (e : Z) : Z := e + off.

Definition STAILQ_FIRST (h : Z) (m : mem) : Z := rd32 m (stqh_first h).
Definition STAILQ_EMPTY (h : Z) (m : mem) : bool := STAILQ_FIRST h m =? NULL.
Definition STAILQ_NEXT (e : Z) (m : mem) : Z := rd32 m (stqe_next e).
Fixpoint stailq_foreach (fuel : nat) (var : Z) (m : mem) : option (list Z) :=
  if var =? NULL then Some []
  else match fuel with O => None | S fuel => cons var <$> stailq_foreach fuel (rd32 m (stqe_next var)) m end.
Definition STAILQ_FOREACH (fuel : nat) (h : Z) (m : mem) : option (list Z) :=
  stailq_foreach fuel (rd32 m (stqh_first h)) m.

Definition STAILQ_INIT (h : Z) (m : mem) : mem := wr32 (wr32 m (stqh_first h) NULL) (stqh_last h) (stqh_first h).
Definition STAILQ_INSERT_HEAD (h e : Z) (m : mem) : mem :=
  let m := wr32 m (stqe_next e) (rd32 m (stqh_first h)) in
  let m := if rd32 m (stqe_next e) =? NULL then wr32 m (stqh_last h) (stqe_next e) else m in
  wr32 m (stqh_first h) e.
Definition STAILQ_INSERT_TAIL (h e : Z) (m : mem) : mem :=
  let m := wr32 m (stqe_next e) NULL in
  let m := wr32 m (rd32 m (stqh_last h)) e in
  wr32 m (stqh_last h) (stqe_next e).
Definition STAILQ_INSERT_AFTER (h x e : Z) (m : mem) : mem :=
  let m := wr32 m (stqe_next e) (rd32 m (stqe_next x)) in
  let m := if rd32 m (stqe_next e) =? NULL then wr32 m (stqh_last h) (stqe_next e) else m in
  wr32 m (stqe_next x) e.
Definition STAILQ_REMOVE_HEAD (h : Z) (m : mem) : mem :=
  let m := wr32 m (stqh_first h) (rd32 m (stqe_next (rd32 m (stqh_first h)))) in
  if rd32 m (stqh_first h) =? NULL then wr32 m (stqh_last h) (stqh_first h) else m.
Definition STAILQ_REMOVE (fuel : nat) (h e : Z) (m : mem) : option mem :=
  if rd32 m (stqh_first h) =? e then Some (STAILQ_REMOVE_HEAD h m)
  else cur ← find_before fuel (rd32 m (stqh_first h)) e m;
       let m := wr32 m (stqe_next cur) (rd32 m (stqe_next (rd32 m (stqe_next cur)))) in
       Some (if rd32 m (stqe_next cur) =? NULL then wr32 m (stqh_last h) (stqe_next cur) else m).
Definition STAILQ_CONCAT (h1 h2 : Z) (m : mem) : mem :=
  if negb (STAILQ_EMPTY h2 m) then
    let m := wr32 m (rd32 m (stqh_last h1)) (rd32 m (stqh_first h2)) in
    let m := wr32 m (stqh_last h1) (rd32 m (stqh_last h2)) in
    STAILQ_INIT h2 m
  else m.
Definition STAILQ_LAST (h : Z) (m : mem) : Z :=
  if STAILQ_EMPTY h m then NULL else wrap 32 (rd32 m (stqh_last h) - off).

(** ** The interface the two share *)

#[local] Strategy opaque [rd32 wr32].

Record sq_ops := SqOps {
  sq_first : Z -> mem -> Z; sq_empty : Z -> mem -> bool; sq_next : Z -> mem -> Z; sq_last : Z -> mem -> Z;
  sq_foreach : nat -> Z -> mem -> option (list Z);
  sq_init : Z -> mem -> mem; sq_insert_head : Z -> Z -> mem -> mem; sq_insert_tail : Z -> Z -> mem -> mem;
  sq_insert_after : Z -> Z -> Z -> mem -> mem; sq_remove_head : Z -> mem -> mem;
  sq_remove : nat -> Z -> Z -> mem -> option mem; sq_concat : Z -> Z -> mem -> mem }.

Definition SIMPLEQ : sq_ops :=
  SqOps SIMPLEQ_FIRST SIMPLEQ_EMPTY SIMPLEQ_NEXT SIMPLEQ_LAST SIMPLEQ_FOREACH SIMPLEQ_INIT SIMPLEQ_INSERT_HEAD
    SIMPLEQ_INSERT_TAIL SIMPLEQ_INSERT_AFTER SIMPLEQ_REMOVE_HEAD SIMPLEQ_REMOVE SIMPLEQ_CONCAT.
Definition STAILQ : sq_ops :=
  SqOps STAILQ_FIRST STAILQ_EMPTY STAILQ_NEXT STAILQ_LAST STAILQ_FOREACH STAILQ_INIT STAILQ_INSERT_HEAD
    STAILQ_INSERT_TAIL STAILQ_INSERT_AFTER STAILQ_REMOVE_HEAD STAILQ_REMOVE STAILQ_CONCAT.

Lemma simpleq_last m h l : simpleq m h l -> SIMPLEQ_LAST h m = default NULL (last l).
Proof.
  intros (q & Hs & Hq & Hl & _); unfold SIMPLEQ_LAST, SIMPLEQ_EMPTY; rewrite (sseg_next _ _ _ _ Hs Hq), Hl, (sseg_end _ _ _ _ Hs).
  pose proof (sseg_range _ _ _ _ Hs) as HF; destruct l as [|x l _] using rev_ind; [done|].
  assert (default NULL (head (l ++ [x])) <> NULL) as Hne by (destruct l; cbn; inversion HF; naive_solver).
  rewrite (proj2 (Z.eqb_neq _ _) Hne), last_snoc; cbn; apply Forall_app in HF as [_ HF]; inversion HF as [|? ? [Hx _] _].
  unfold sle_next; by replace (x + off - off) with x by lia; apply wrap_id.
Qed.

(** The simple queues and the singly linked tail queues of queue.h
    implement lists: access to the first and the last element, traversal,
    insertion at both ends and behind an element, removal at the head and of
    any element by search (which ends), and concatenation, which leaves the
    second queue empty.  The two families of macros satisfy one
    specification. *)
Theorem simple_queues_refine_list O :
  O = SIMPLEQ \/ O = STAILQ ->
  (forall m h, apart (sqcells h []) -> simpleq (sq_init O h m) h []) /\
  forall m h l, simpleq m h l ->
  sq_first O h m = default NULL (head l) /\ (sq_empty O h m = true <-> l = []) /\
  sq_last O h m = default NULL (last l) /\
  (forall fuel, (length l <= fuel)%nat -> sq_foreach O fuel h m = Some l) /\
  (forall e, sqlinkable h l e ->
     simpleq (sq_insert_head O h e m) h (e :: l) /\ simpleq (sq_insert_tail O h e m) h (l ++ [e])) /\
  (forall e l', l = e :: l' -> simpleq (sq_remove_head O h m) h l') /\
  (forall l1 x l2, l = l1 ++ x :: l2 ->
     sq_next O x m = default NULL (head l2) /\
     (forall e, sqlinkable h l e -> simpleq (sq_insert_after O h x e m) h (l1 ++ x :: e :: l2)) /\
     (forall fuel, (length l1 <= fuel)%nat -> exists m', sq_remove O fuel h x m = Some m' /\ simpleq m' h (l1 ++ l2))) /\
  (forall h2 l2, simpleq m h2 l2 -> apart (sqcells h l ++ sqcells h2 l2) ->
     simpleq (sq_concat O h h2 m) h (l ++ l2) /\ simpleq (sq_concat O h h2 m) h2 []).
Proof.
  intros HO; assert (O = SIMPLEQ) as -> by (destruct HO; [done|subst; reflexivity]); clear HO.
  split; [apply simpleq_init_ok|]; intros m h l Hl; pose proof Hl as (q & Hs & Hq & _).
  pose proof (sseg_range _ _ _ _ Hs) as HF; pose proof (sseg_next _ _ _ _ Hs Hq) as Hf; split_and!.
  - done.
  - cbn; unfold SIMPLEQ_EMPTY; rewrite Hf, Z.eqb_eq; destruct l as [|x l]; [done|]; inversion HF; cbn; naive_solver.
  - by apply simpleq_last.
  - intros fuel Hfu; by apply (sseg_foreach m (sqh_first h) l q fuel).
  - intros e He; split; [by apply (simpleq_link m h [] (sqh_first h) l e)|by apply simpleq_insert_tail].
  - intros e l' ->; by apply (simpleq_cut m h [] (sqh_first h) e l').
  - intros l1 x l2 ->; destruct (sseg_cell _ _ _ _ _ _ Hs) as (r & _ & _ & Hsx & Hs2).
    split_and!; [by apply (sseg_next m _ l2 q)| |intros; by apply simpleq_remove].
    intros e He; rewrite (cons_middle x), (app_assoc l1 [x]).
    apply (simpleq_link m h (l1 ++ [x]) (nx x) l2 e); [by rewrite <- app_assoc|done|by rewrite <- app_assoc].
  - intros h2 l2 H2 Hap; by apply simpleq_concat.
Qed.

(** SIMPLEQ_REMOVE_AFTER takes out the element behind [x]. *)
Lemma simpleq_remove_after m h l1 x y l2 :
  simpleq m h (l1 ++ x :: y :: l2) -> simpleq (SIMPLEQ_REMOVE_AFTER h x m) h (l1 ++ x :: l2).
Proof.
  intros Hl; pose proof Hl as (q & Hs & _); destruct (sseg_cell _ _ _ _ _ _ Hs) as (r & _ & _ & Hsx & _).
  rewrite (cons_middle x), (app_assoc l1 [x]); apply (simpleq_cut m h (l1 ++ [x]) (nx x) y l2); [by rewrite <- app_assoc|done].
Qed.
End Single.

(** Three packets (their link is at offset 8) on a queue at 0x1000. *)
Lemma slist_ops_refine_list_witness :
  let m := SLIST_INSERT_AFTER 8 0x2000 0x3000 (SLIST_INSERT_HEAD 8 0x1000 0x2000 (SLIST_INIT 0x1000 ∅)) in
  slist 8 m 0x1000 [0x2000; 0x3000].
Proof.
  assert (slist 8 (SLIST_INSERT_HEAD 8 0x1000 0x2000 (SLIST_INIT 0x1000 ∅)) 0x1000 [0x2000]) as H1
    by (split; [by vm_compute|apart_concrete]).
  destruct (slist_ops_refine_list 8 _ _ _ H1) as (_ & _ & _ & Hm).
  destruct (Hm [] 0x2000 [] eq_refl) as (_ & Hi & _).
  apply Hi; split; [apart_concrete|done].
Defined.

Lemma simple_queues_refine_list_witness :
  let m := sq_insert_tail (STAILQ 8) 0x1000 0x3000 (sq_insert_head (STAILQ 8) 0x1000 0x2000 (sq_init (STAILQ 8) 0x1000 ∅)) in
  simpleq 8 m 0x1000 [0x2000; 0x3000] /\
  exists m', sq_remove (STAILQ 8) 1 0x1000 0x3000 m = Some m' /\ simpleq 8 m' 0x1000 [0x2000].
Proof.
  destruct (simple_queues_refine_list 8 (STAILQ 8) (or_intror eq_refl)) as [Hi Hq].
  assert (simpleq 8 (sq_init (STAILQ 8) 0x1000 ∅) 0x1000 []) as H0 by (apply Hi; apart_concrete).
  destruct (Hq _ _ _ H0) as (_ & _ & _ & _ & Ha & _).
  destruct (Ha 0x2000 ltac:(split; [apart_concrete|done])) as [H1 _].
  destruct (Hq _ _ _ H1) as (_ & _ & _ & _ & Ha1 & _).
  destruct (Ha1 0x3000 ltac:(split; [apart_concrete|done])) as [_ H2].
  destruct (Hq _ _ _ H2) as (_ & _ & _ & _ & _ & _ & Hr & _).
  destruct (Hr [0x2000] 0x3000 [] eq_refl) as (_ & _ & Hx).
  split; [exact H2|]; destruct (Hx 1%nat ltac:(cbn; lia)) as (m' & H3 & H4); exists m'; split; [exact H3|exact H4].
Defined.
