(* ===== verification/Lists.v ===== *)
(** * Lists: the doubly linked LIST macros of include/bmk/queue.h

    LIST elements point back at the cell that points at them, like those of
    TAILQ, but a LIST head does not know its end. *)
From S2P Require Import Prelude Mem Cells Tailq.

(** ** LIST *)

Section List.
(** [off] is the offset of the LIST_ENTRY in its structure. *)
Variable off : Z.

Definition lh_first (h : Z) : Z := h.
Definition le_next (e : Z) : Z := e + off.
Definition le_prev (e : Z) : Z := e + off + 4.

Definition LIST_FIRST (h : Z) (m : mem) : Z := rd32 m (lh_first h).
Definition LIST_EMPTY (h : Z) (m : mem) : bool := rd32 m (lh_first h) =? NULL.
Definition LIST_NEXT (e : Z) (m : mem) : Z := rd32 m (le_next e).
Fixpoint list_foreach (fuel : nat) (var : Z) (m : mem) : option (list Z) :=
  if var =? NULL then Some []
  else match fuel with O => None | S fuel => cons var <$> list_foreach fuel (rd32 m (le_next var)) m end.
Definition LIST_FOREACH (fuel : nat) (h : Z) (m : mem) : option (list Z) :=
  list_foreach fuel (rd32 m (lh_first h)) m.

Definition LIST_INIT (h : Z) (m : mem) : mem := wr32 m (lh_first h) NULL.
Definition LIST_INSERT_AFTER (x e : Z) (m : mem) : mem :=
  let m := wr32 m (le_next e) (rd32 m (le_next x)) in
  let m := if negb (rd32 m (le_next e) =? NULL) then wr32 m (le_prev (rd32 m (le_next x))) (le_next e) else m in
  let m := wr32 m (le_next x) e in
  wr32 m (le_prev e) (le_next x).
Definition LIST_INSERT_BEFORE (x e : Z) (m : mem) : mem :=
  let m := wr32 m (le_prev e) (rd32 m (le_prev x)) in
  let m := wr32 m (le_next e) x in
  let m := wr32 m (rd32 m (le_prev x)) e in
  wr32 m (le_prev x) (le_next e).
Definition LIST_INSERT_HEAD (h e : Z) (m : mem) : mem :=
  let m := wr32 m (le_next e) (rd32 m (lh_first h)) in
  let m := if negb (rd32 m (le_next e) =? NULL) then wr32 m (le_prev (rd32 m (lh_first h))) (le_next e) else m in
  let m := wr32 m (lh_first h) e in
  wr32 m (le_prev e) (lh_first h).
Definition LIST_REMOVE (e : Z) (m : mem) : mem :=
  let m := if negb (rd32 m (le_next e) =? NULL) then wr32 m (le_prev (rd32 m (le_next e))) (rd32 m (le_prev e)) else m in
  wr32 m (rd32 m (le_prev e)) (rd32 m (le_next e)).
Definition LIST_REPLACE (e e2 : Z) (m : mem) : mem :=
  let m := wr32 m (le_next e2) (rd32 m (le_next e)) in
  let m := if negb (rd32 m (le_next e2) =? NULL) then wr32 m (le_prev (rd32 m (le_next e2))) (le_next e2) else m in
  let m := wr32 m (le_prev e2) (rd32 m (le_prev e)) in
  wr32 m (rd32 m (le_prev e2)) e2.
Definition LIST_MOVE (h1 h2 : Z) (m : mem) : mem :=
  let m := LIST_INIT h2 m in
  if negb (LIST_EMPTY h1 m) then
    let m := wr32 m (lh_first h2) (rd32 m (lh_first h1)) in LIST_INIT h1 m
  else m.

(** The links of a LIST are those of a tail queue without the pointer to its
    end. *)
Local Abbreviation seg := (seg off).
Local Abbreviation seg_cells := (seg_cells off).
Definition lcells (h : Z) (l : list Z) : list Z := lh_first h :: flat_map (fun e => [le_next e; le_prev e]) l.
Definition llist (m : mem) (h : Z) (l : list Z) : Prop :=
  exists q, seg m (lh_first h) l q /\ rd32 m q = NULL /\ apart (lcells h l).
Definition llinkable (h : Z) (l : list Z) (e : Z) : Prop := apart (lcells h (e :: l)) /\ urange 32 e /\ e <> NULL.

Lemma lcells_mid h l1 e l2 : lcells h (l1 ++ e :: l2) ≡ₚ le_next e :: le_prev e :: lcells h (l1 ++ l2).
Proof. unfold lcells; rewrite !flat_map_app; cbn; solve_Permutation. Qed.
Lemma lcells_seg m h l q : seg m (lh_first h) l q -> lcells h l ≡ₚ q :: seg_cells (lh_first h) l.
Proof. intros Hs; by rewrite (seg_cells_perm _ _ _ _ _ Hs). Qed.
Lemma seg_range m p l q : seg m p l q -> Forall (fun e => urange 32 e /\ e <> NULL) l.
Proof.
  revert p; induction l as [|e l IH]; intros p; cbn; [constructor|]; intros (He & Hne & _ & Hs).
  constructor; [split; [rewrite <- He; apply rd32_range|done]|by eapply IH].
Qed.
Lemma seg_end m p l q : seg m p l q -> q = default p (le_next <$> last l).
Proof.
  destruct l as [|e l _] using rev_ind; [done|]; intros (r & _ & _ & _ & _ & Hq)%seg_app; by rewrite last_snoc.
Qed.
Lemma seg_split m p l1 r l2 q : seg m p (l1 ++ l2) q -> seg m p l1 r -> seg m r l2 q.
Proof.
  intros (r' & H1 & H2)%seg_app Hr.
  assert (r' = r) as -> by (rewrite (seg_end _ _ _ _ H1), (seg_end _ _ _ _ Hr); done); done.
Qed.

(** Insertion behind the cell [r]. *)
Lemma llist_link m h l1 r l2 e :
  llist m h (l1 ++ l2) -> seg m (lh_first h) l1 r -> llinkable h (l1 ++ l2) e ->
  llist (let m := wr32 m (le_next e) (rd32 m r) in
         let m := if negb (rd32 m (le_next e) =? NULL) then wr32 m (le_prev (rd32 m r)) (le_next e) else m in
         let m := wr32 m r e in
         wr32 m (le_prev e) r) h (l1 ++ e :: l2).
Proof.
  intros (q & Hs & Hq & Hap) Hs1 (Hap' & He & Hne); pose proof null_range.
  pose proof (seg_split _ _ _ _ _ _ Hs Hs1) as Hs2; pose proof (seg_range _ _ _ _ Hs2) as HF2.
  assert (apart (le_next e :: le_prev e :: q :: seg_cells (lh_first h) (l1 ++ l2))) as HL.
  { eapply apart_perm; [|exact Hap']; rewrite (lcells_mid h [] e (l1 ++ l2) : lcells h (e :: l1 ++ l2) ≡ₚ _); cbn [app]; by rewrite (lcells_seg _ _ _ _ Hs). }
  rewrite (seg_cells_app _ _ _ _ _ _ Hs1) in HL.
  assert (apart (lcells h (l1 ++ e :: l2))) as Hapn by (eapply apart_perm; [|exact Hap']; rewrite lcells_mid; by rewrite (lcells_mid h [] e (l1 ++ l2) : lcells h (e :: l1 ++ l2) ≡ₚ _)).
  cbv zeta; rewrite rd32_wr32_val by apply rd32_range; destruct l2 as [|y l2]; cbn [Tailq.seg Tailq.seg_cells] in *.
  - subst q; rewrite Hq; rewrite app_nil_r in HL; cell_facts HL; change (negb (NULL =? NULL)) with false; cbv iota.
    exists (le_next e); split_and!; [|rdw HL; done|done].
    apply seg_app; exists r; split; [eapply seg_frame; [|exact Hs1]; intros a Ha; rdw HL; done|].
    cbn [Tailq.seg]; split_and!; [rdw HL; done|done|rdw HL; done|done].
  - destruct Hs2 as (Hy & Hyn & Hpy & Hs2); rewrite Hy, (proj2 (Z.eqb_neq _ _) Hyn); cbn [negb].
    assert (apart (le_next e :: le_prev e :: q :: r :: le_prev y :: seg_cells (tqe_next off y) l2 ++ seg_cells (lh_first h) l1)) as HL'
      by (eapply apart_perm; [|exact HL]; change (le_prev y) with (tqe_prev off y); solve_Permutation).
    clear HL; rename HL' into HL; cell_facts HL; assert (urange 32 y) by (inversion HF2 as [|? ? []]; done).
    assert (rd32 (wr32 m (le_next e) y) r = y) as -> by (rdw HL; done).
    exists q; split_and!; [|rdw HL; done|done].
    apply seg_app; exists r; split; [eapply seg_frame; [|exact Hs1]; intros a Ha; rdw HL; done|].
    cbn [Tailq.seg]; change (tqe_prev off) with le_prev; change (tqe_next off e) with (le_next e).
    split_and!; [rdw HL; done|done|rdw HL; done|rdw HL; done|done|rdw HL; done|].
    eapply seg_frame; [|exact Hs2]; intros a Ha; rdw HL; done.
Qed.

(** A list split at an element, with its cells. *)
Lemma llist_split m h l1 x l2 : llist m h (l1 ++ x :: l2) ->
  exists q r, seg m (lh_first h) l1 r /\ rd32 m r = x /\ x <> NULL /\ urange 32 x /\ rd32 m (le_prev x) = r /\
    seg m (le_next x) l2 q /\ rd32 m q = NULL /\
    lcells h (l1 ++ x :: l2) ≡ₚ r :: le_prev x :: q :: seg_cells (le_next x) l2 ++ seg_cells (lh_first h) l1.
Proof.
  intros (q & Hs & Hq & Hap); pose proof (lcells_seg _ _ _ _ Hs) as Hp.
  pose proof Hs as (r & Hs1 & Hr & Hne & Hpv & Hs2)%seg_app.
  exists q, r; split_and!; try done; [rewrite <- Hr; apply rd32_range|].
  rewrite Hp, (seg_cells_app _ _ _ _ _ _ Hs1); cbn [Tailq.seg_cells]; change (tqe_prev off x) with (le_prev x).
  change (tqe_next off x) with (le_next x); solve_Permutation.
Qed.

Lemma llist_insert_before m h l1 x l2 e :
  llist m h (l1 ++ x :: l2) -> llinkable h (l1 ++ x :: l2) e -> llist (LIST_INSERT_BEFORE x e m) h (l1 ++ e :: x :: l2).
Proof.
  intros Hl (HL & He & Hne); destruct (llist_split _ _ _ _ _ Hl) as (q & r & Hs1 & Hr & Hxn & Hx & Hpv & Hs2 & Hq & Hp).
  assert (apart (lcells h (l1 ++ e :: x :: l2))) as Hapn by
    (eapply apart_perm; [|exact HL]; rewrite lcells_mid; by rewrite (lcells_mid h [] e (l1 ++ x :: l2) : lcells h (e :: l1 ++ x :: l2) ≡ₚ _)).
  rewrite (lcells_mid h [] e (l1 ++ x :: l2) : lcells h (e :: l1 ++ x :: l2) ≡ₚ _) in HL; cbn [app] in HL; rewrite Hp in HL.
  unfold LIST_INSERT_BEFORE; rewrite Hpv; cell_facts HL.
  assert (rd32 (wr32 (wr32 m (le_prev e) r) (le_next e) x) (le_prev x) = r) as -> by (rdw HL; done).
  exists q; split_and!; [|rdw HL; done|done].
  apply seg_app; exists r; split; [eapply seg_frame; [|exact Hs1]; intros a Ha; rdw HL; done|].
  cbn [Tailq.seg]; change (tqe_prev off) with le_prev; change (tqe_next off) with le_next.
  split_and!; [rdw HL; done|done|rdw HL; done|rdw HL; done|done|rdw HL; done|].
  eapply seg_frame; [|exact Hs2]; intros a Ha; rdw HL; done.
Qed.

Lemma llist_remove m h l1 e l2 : llist m h (l1 ++ e :: l2) -> llist (LIST_REMOVE e m) h (l1 ++ l2).
Proof.
  intros Hl; destruct (llist_split _ _ _ _ _ Hl) as (q & r & Hs1 & Hr & Hen & He & Hpv & Hs2 & Hq & Hp).
  destruct Hl as (_ & _ & _ & HL); pose proof null_range.
  assert (apart (lcells h (l1 ++ l2))) as Hapn by
    (apply (apart_sub [le_next e; le_prev e]); eapply apart_perm; [|exact HL]; by rewrite lcells_mid).
  pose proof (seg_range _ _ _ _ Hs2) as HF2; rewrite Hp in HL; unfold LIST_REMOVE; rewrite Hpv.
  destruct l2 as [|y l2]; cbn [Tailq.seg Tailq.seg_cells] in *.
  - subst q; rewrite Hq; change (negb (NULL =? NULL)) with false; cbv iota; rewrite Hpv, Hq; cell_facts HL.
    exists r; rewrite app_nil_r; split_and!; [|rdw HL; done|by rewrite app_nil_r in Hapn].
    eapply seg_frame; [|exact Hs1]; intros a Ha; rdw HL; done.
  - destruct Hs2 as (Hy & Hyn & Hpy & Hs2); rewrite Hy, (proj2 (Z.eqb_neq _ _) Hyn); cbn [negb].
    change (tqe_prev off) with le_prev in *; cbn [app] in HL; cell_facts HL.
    assert (urange 32 y) by (inversion HF2 as [|? ? []]; done).
    assert (rd32 (wr32 m (le_prev y) r) (le_prev e) = r) as -> by (rdw HL; done).
    assert (rd32 (wr32 m (le_prev y) r) (le_next e) = y) as -> by (rdw HL; done).
    exists q; split_and!; [|rdw HL; done|done].
    apply seg_app; exists r; split; [eapply seg_frame; [|exact Hs1]; intros a Ha; rdw HL; done|].
    cbn [Tailq.seg]; change (tqe_prev off) with le_prev; split_and!; [rdw HL; done|done|rdw HL; done|].
    eapply seg_frame; [|exact Hs2]; intros a Ha; rdw HL; done.
Qed.

Lemma llist_replace m h l1 e l2 e2 :
  llist m h (l1 ++ e :: l2) -> llinkable h (l1 ++ e :: l2) e2 -> llist (LIST_REPLACE e e2 m) h (l1 ++ e2 :: l2).
Proof.
  intros Hl (HL & He2 & Hne2); destruct (llist_split _ _ _ _ _ Hl) as (q & r & Hs1 & Hr & Hen & He & Hpv & Hs2 & Hq & Hp).
  pose proof null_range; pose proof (seg_range _ _ _ _ Hs2) as HF2.
  assert (apart (lcells h (l1 ++ e2 :: l2))) as Hapn by
    (apply (apart_sub [le_next e; le_prev e]); eapply apart_perm; [|exact HL];
     rewrite lcells_mid; rewrite (lcells_mid h [] e2 (l1 ++ e :: l2) : lcells h (e2 :: l1 ++ e :: l2) ≡ₚ _); cbn [app];
     rewrite lcells_mid; solve_Permutation).
  rewrite (lcells_mid h [] e2 (l1 ++ e :: l2) : lcells h (e2 :: l1 ++ e :: l2) ≡ₚ _) in HL; cbn [app] in HL; rewrite Hp in HL.
  unfold LIST_REPLACE; destruct l2 as [|y l2]; cbn [Tailq.seg Tailq.seg_cells] in *.
  - subst q; rewrite Hq; cell_facts HL; rewrite rd32_wr32_val by done; change (negb (NULL =? NULL)) with false; cbv iota.
    assert (rd32 (wr32 m (le_next e2) NULL) (le_prev e) = r) as -> by (rdw HL; done).
    rewrite rd32_wr32_val by done; exists (le_next e2); split_and!; [|rdw HL; done|done].
    apply seg_app; exists r; split; [eapply seg_frame; [|exact Hs1]; intros a Ha; rdw HL; done|].
    cbn [Tailq.seg]; change (tqe_prev off) with le_prev; split_and!; [rdw HL; done|done|rdw HL; done|done].
  - destruct Hs2 as (Hy & Hyn & Hpy & Hs2); change (tqe_prev off) with le_prev in *; cbn [app] in HL; cell_facts HL.
    assert (urange 32 y) by (inversion HF2 as [|? ? []]; done).
    rewrite Hy, rd32_wr32_val, (proj2 (Z.eqb_neq _ _) Hyn) by done; cbn [negb].
    assert (rd32 (wr32 (wr32 m (le_next e2) y) (le_prev y) (le_next e2)) (le_prev e) = r) as -> by (rdw HL; done).
    rewrite rd32_wr32_val by done; exists q; split_and!; [|rdw HL; done|done].
    apply seg_app; exists r; split; [eapply seg_frame; [|exact Hs1]; intros a Ha; rdw HL; done|].
    cbn [Tailq.seg]; change (tqe_prev off) with le_prev; change (tqe_next off e2) with (le_next e2).
    split_and!; [rdw HL; done|done|rdw HL; done|rdw HL; done|done|rdw HL; done|].
    eapply seg_frame; [|exact Hs2]; intros a Ha; rdw HL; done.
Qed.

Lemma llist_head m h l : llist m h l -> LIST_FIRST h m = default NULL (head l) /\ (LIST_EMPTY h m = true <-> l = []).
Proof.
  intros (q & Hs & Hq & _); unfold LIST_EMPTY, LIST_FIRST; pose proof (seg_range _ _ _ _ Hs) as HF.
  assert (rd32 m (lh_first h) = default NULL (head l)) as ->
    by (destruct l; cbn in *; [by subst|by destruct Hs]).
  split; [done|]; rewrite Z.eqb_eq; destruct l as [|x l]; [done|]; inversion HF; cbn; naive_solver.
Qed.

(** The LIST macros implement lists: access, traversal, insertion at the
    head, behind and before an element, removal and replacement of an
    element without a pointer to the head. *)
Theorem list_ops_refine_list m h l :
  llist m h l ->
  LIST_FIRST h m = default NULL (head l) /\ (LIST_EMPTY h m = true <-> l = []) /\
  (forall fuel, (length l <= fuel)%nat -> LIST_FOREACH fuel h m = Some l) /\
  (forall e, llinkable h l e -> llist (LIST_INSERT_HEAD h e m) h (e :: l)) /\
  (forall l1 x l2, l = l1 ++ x :: l2 ->
     LIST_NEXT x m = default NULL (head l2) /\ llist (LIST_REMOVE x m) h (l1 ++ l2) /\
     forall e, llinkable h l e ->
       llist (LIST_INSERT_AFTER x e m) h (l1 ++ x :: e :: l2) /\
       llist (LIST_INSERT_BEFORE x e m) h (l1 ++ e :: x :: l2) /\
       llist (LIST_REPLACE x e m) h (l1 ++ e :: l2)).
Proof.
  intros Hl; destruct (llist_head _ _ _ Hl) as [Hf He]; split_and!; [done|done| | |].
  - intros fuel Hfu; destruct Hl as (q & Hs & Hq & _); by apply (seg_foreach off m (lh_first h) l q).
  - intros e Hle; by apply (llist_link m h [] (lh_first h) l e).
  - intros l1 x l2 ->; destruct (llist_split _ _ _ _ _ Hl) as (q & r & Hs1 & Hr & Hxn & Hx & Hpv & Hs2 & Hq & _); split_and!.
    + unfold LIST_NEXT; destruct l2; cbn in *; [by subst|by destruct Hs2].
    + by apply llist_remove.
    + intros e Hle; split_and!; [|by apply llist_insert_before|by apply llist_replace].
      rewrite (cons_middle x), (app_assoc l1 [x]).
      apply (llist_link m h (l1 ++ [x]) (le_next x) l2 e); [by rewrite <- app_assoc| |by rewrite <- app_assoc].
      apply seg_app; exists r; by cbn.
Qed.

Lemma llist_init_ok m h : urange 32 h -> llist (LIST_INIT h m) h [].
Proof.
  intros Hh; exists (lh_first h); split_and!; [done|apply rd32_wr32_val, null_range|].
  unfold lcells; cbn; split_and!; [apply NoDup_singleton|set_solver|by apply Forall_singleton].
Qed.

(** LIST_MOVE moves the elements, but leaves the back pointer of the first
    one at the old head: taking that element out afterwards makes the old
    head point at its successor, and the new head keeps the element that was
    removed. *)
Lemma list_move_stale m h1 h2 x l :
  llist m h1 (x :: l) -> apart (lh_first h2 :: lcells h1 (x :: l)) ->
  let m1 := LIST_MOVE h1 h2 m in let m2 := LIST_REMOVE x m1 in
  (forall fuel, (S (length l) <= fuel)%nat -> LIST_FOREACH fuel h2 m1 = Some (x :: l)) /\
  LIST_EMPTY h1 m1 = true /\
  LIST_FIRST h2 m2 = x /\ LIST_FIRST h1 m2 = default NULL (head l).
Proof.
  intros Hl HL; destruct (llist_split _ _ [] _ _ Hl) as (q & r & Hs1 & Hr & Hxn & Hx & Hpv & Hs2 & Hq & Hp).
  cbn in Hs1; subst r; cbn [app] in Hp; rewrite Hp in HL; pose proof null_range; pose proof (rd32_range m (le_next x)).
  assert (rd32 m (le_next x) = default NULL (head l)) as Hnx by (destruct l; cbn in *; [by subst|by destruct Hs2]).
  cbn [Tailq.seg_cells] in HL; rewrite app_nil_r in HL; cbv zeta.
  assert (forall a, a ∈ seg_cells (le_next x) l -> a ∈ q :: seg_cells (le_next x) l) as HC by set_solver +.
  assert (q ∈ q :: seg_cells (le_next x) l) as HqC by set_solver +.
  assert (le_next x ∈ q :: seg_cells (le_next x) l) as Hin by (destruct l; cbn in Hs2 |- *; [rewrite Hs2|]; set_solver +).
  assert (forall y, head l = Some y -> y <> NULL /\ le_prev y ∈ q :: seg_cells (le_next x) l /\ le_prev y <> le_next x) as Hy.
  { intros y; destruct l; cbn in Hs2 |- *; [done|]; intros [= ->]; split_and!; [tauto|set_solver +|].
    destruct HL as (Hn & _); cbn in Hn; rewrite !NoDup_cons, !not_elem_of_cons in Hn; change (tqe_prev off y) with (le_prev y) in Hn; destruct_and! Hn; congruence. }
  remember (q :: seg_cells (le_next x) l) as C eqn:EC; cell_facts HL; unfold LIST_MOVE, LIST_EMPTY, LIST_INIT.
  assert (rd32 (wr32 m (lh_first h2) NULL) (lh_first h1) = x) as -> by (rdw HL; done).
  rewrite (proj2 (Z.eqb_neq _ _) Hxn); cbn [negb].
  set (m1 := wr32 (wr32 _ _ x) (lh_first h1) NULL).
  assert (forall a, a ∈ C -> rd32 m1 a = rd32 m a) as Hf by (intros a Ha; unfold m1; rdw HL; done).
  assert (rd32 m1 (le_prev x) = lh_first h1) as Hpv1 by (unfold m1; rdw HL; done).
  assert (rd32 m1 (lh_first h2) = x) as Hf2 by (unfold m1; rdw HL; done).
  pose proof (Hf _ Hin) as Hnx1; rewrite Hnx in Hnx1.
  assert (rd32 (LIST_REMOVE x m1) (lh_first h2) = x /\ rd32 (LIST_REMOVE x m1) (lh_first h1) = default NULL (head l)) as [? ?].
  { unfold LIST_REMOVE; rewrite Hpv1, Hnx1; rewrite Hnx in *; destruct (head l) as [y|]; cbn [default from_option id] in *.
    - destruct (Hy y eq_refl) as (Hyn & Hyc & Hyx); rewrite (proj2 (Z.eqb_neq _ _) Hyn); cbn [negb].
      assert (rd32 (wr32 m1 (le_prev y) (lh_first h1)) (le_prev x) = lh_first h1) as -> by (rdw HL; done).
      assert (rd32 (wr32 m1 (le_prev y) (lh_first h1)) (le_next x) = y) as -> by (rdw HL; done); split; rdw HL; done.
    - change (negb (NULL =? NULL)) with false; cbv iota; rewrite Hpv1, Hnx1; split; rdw HL; done. }
  split_and!; [|unfold m1; rdw HL; done|done|done].
  intros fuel Hfu; unfold LIST_FOREACH; destruct fuel as [|fuel]; [lia|].
  rewrite Hf2; cbn [list_foreach]; rewrite (proj2 (Z.eqb_neq _ _) Hxn).
  assert (list_foreach fuel (rd32 m1 (le_next x)) m1 = Some l) as ->; [|done].
  apply (seg_foreach off m1 (le_next x) l q); [eapply seg_frame; [|exact Hs2]; intros; apply Hf; auto|rewrite Hf; auto|lia].
Qed.
End List.

(** Two elements (their LIST_ENTRY is at offset 4) on a list. *)
Definition demo_l : mem := LIST_INSERT_HEAD 4 0x1000 0x2000 (LIST_INIT 0x1000 ∅).

Lemma demo_l_ok : llist 4 demo_l 0x1000 [0x2000].
Proof. exists 0x2004; split_and!; [by vm_compute|by vm_compute|apart_concrete]. Qed.

Lemma list_ops_refine_list_witness :
  llist 4 (LIST_INSERT_BEFORE 4 0x2000 0x3000 demo_l) 0x1000 [0x3000; 0x2000] /\
  llist 4 (LIST_REMOVE 4 0x2000 demo_l) 0x1000 [].
Proof.
  destruct (list_ops_refine_list 4 _ _ _ demo_l_ok) as (_ & _ & _ & _ & Hm).
  destruct (Hm [] 0x2000 [] eq_refl) as (_ & Hr & Hi); split; [|exact Hr].
  destruct (Hi 0x3000) as (_ & Hb & _); [split; [apart_concrete|done]|exact Hb].
Defined.
