(* ===== verification/Circleq.v ===== *)
(** * Circleq: the circular queues of include/bmk/queue.h

    The head of a CIRCLEQ is a node of the ring: its two pointers stand for
    the links of the elements, and the ends of the queue point at it.  The
    model treats head and elements alike through [cnext] and [cprev], the
    places of a node's links. *)
From S2P Require Import Prelude Mem Cells.

Section Circleq.
(** [off] is the offset of the CIRCLEQ_ENTRY, [h] the head. *)
Variable off : Z.
Variable h : Z.

Definition cqh_first : Z := h.
Definition cqh_last : Z := h + 4.
Definition cqe_next (e : Z) : Z := e + off.
Definition cqe_prev (e : Z) : Z := e + off + 4.

(** ** The macros *)

Definition CIRCLEQ_FIRST (m : mem) : Z := rd32 m cqh_first.
Definition CIRCLEQ_LAST (m : mem) : Z := rd32 m cqh_last.
Definition CIRCLEQ_NEXT (e : Z) (m : mem) : Z := rd32 m (cqe_next e).
Definition CIRCLEQ_PREV (e : Z) (m : mem) : Z := rd32 m (cqe_prev e).
Definition CIRCLEQ_EMPTY (m : mem) : bool := CIRCLEQ_FIRST m =? h.
Definition CIRCLEQ_LOOP_NEXT (e : Z) (m : mem) : Z :=
  if rd32 m (cqe_next e) =? h then rd32 m cqh_first else rd32 m (cqe_next e).
Definition CIRCLEQ_LOOP_PREV (e : Z) (m : mem) : Z :=
  if rd32 m (cqe_prev e) =? h then rd32 m cqh_last else rd32 m (cqe_prev e).

Definition CIRCLEQ_INIT (m : mem) : mem := wr32 (wr32 m cqh_first h) cqh_last h.
Definition CIRCLEQ_INSERT_AFTER (x e : Z) (m : mem) : mem :=
  let m := wr32 m (cqe_next e) (rd32 m (cqe_next x)) in
  let m := wr32 m (cqe_prev e) x in
  let m := if rd32 m (cqe_next x) =? h then wr32 m cqh_last e else wr32 m (cqe_prev (rd32 m (cqe_next x))) e in
  wr32 m (cqe_next x) e.
Definition CIRCLEQ_INSERT_BEFORE (x e : Z) (m : mem) : mem :=
  let m := wr32 m (cqe_next e) x in
  let m := wr32 m (cqe_prev e) (rd32 m (cqe_prev x)) in
  let m := if rd32 m (cqe_prev x) =? h then wr32 m cqh_first e else wr32 m (cqe_next (rd32 m (cqe_prev x))) e in
  wr32 m (cqe_prev x) e.
Definition CIRCLEQ_INSERT_HEAD (e : Z) (m : mem) : mem :=
  let m := wr32 m (cqe_next e) (rd32 m cqh_first) in
  let m := wr32 m (cqe_prev e) h in
  let m := if rd32 m cqh_last =? h then wr32 m cqh_last e else wr32 m (cqe_prev (rd32 m cqh_first)) e in
  wr32 m cqh_first e.
Definition CIRCLEQ_INSERT_TAIL (e : Z) (m : mem) : mem :=
  let m := wr32 m (cqe_next e) h in
  let m := wr32 m (cqe_prev e) (rd32 m cqh_last) in
  let m := if rd32 m cqh_first =? h then wr32 m cqh_first e else wr32 m (cqe_next (rd32 m cqh_last)) e in
  wr32 m cqh_last e.
Definition CIRCLEQ_REMOVE (e : Z) (m : mem) : mem :=
  let m := if rd32 m (cqe_next e) =? h then wr32 m cqh_last (rd32 m (cqe_prev e))
           else wr32 m (cqe_prev (rd32 m (cqe_next e))) (rd32 m (cqe_prev e)) in
  if rd32 m (cqe_prev e) =? h then wr32 m cqh_first (rd32 m (cqe_next e))
  else wr32 m (cqe_next (rd32 m (cqe_prev e))) (rd32 m (cqe_next e)).

Fixpoint circleq_foreach (fuel : nat) (var : Z) (m : mem) : option (list Z) :=
  if var =? h then Some []
  else match fuel with O => None | S fuel => cons var <$> circleq_foreach fuel (rd32 m (cqe_next var)) m end.
Definition CIRCLEQ_FOREACH (fuel : nat) (m : mem) : option (list Z) := circleq_foreach fuel (rd32 m cqh_first) m.
Fixpoint circleq_foreach_reverse (fuel : nat) (var : Z) (m : mem) : option (list Z) :=
  if var =? h then Some []
  else match fuel with O => None | S fuel => cons var <$> circleq_foreach_reverse fuel (rd32 m (cqe_prev var)) m end.
Definition CIRCLEQ_FOREACH_REVERSE (fuel : nat) (m : mem) : option (list Z) :=
  circleq_foreach_reverse fuel (rd32 m cqh_last) m.

(** ** The ring *)

(** Where a node of the ring, head or element, keeps its links. *)
Definition cnext (a : Z) : Z := if a =? h then cqh_first else cqe_next a.
Definition cprev (a : Z) : Z := if a =? h then cqh_last else cqe_prev a.
Definition link (m : mem) (a b : Z) : Prop := rd32 m (cnext a) = b /\ rd32 m (cprev b) = a.
(** From the node [a] through the elements [l] to the node [b]. *)
Fixpoint path (m : mem) (a : Z) (l : list Z) (b : Z) : Prop :=
  match l with [] => link m a b | e :: l => link m a e /\ path m e l b end.
Definition ccells (ns : list Z) : list Z := flat_map (fun a => [cnext a; cprev a]) ns.
Definition circleq (m : mem) (l : list Z) : Prop := path m h l h /\ NoDup (h :: l) /\ apart (ccells (h :: l)).
Definition clinkable (l : list Z) (e : Z) : Prop := apart (ccells (e :: h :: l)) /\ urange 32 e /\ e ∉ h :: l.

Lemma path_app m a l1 x l2 b : path m a (l1 ++ x :: l2) b <-> path m a l1 x /\ path m x l2 b.
Proof. revert a; induction l1 as [|y l1 IH]; intros a; cbn; [done|]; rewrite IH; tauto. Qed.
Lemma path_frame m m' a l b :
  (forall y, y ∈ a :: l -> rd32 m' (cnext y) = rd32 m (cnext y)) ->
  (forall y, y ∈ l ++ [b] -> rd32 m' (cprev y) = rd32 m (cprev y)) -> path m a l b -> path m' a l b.
Proof.
  revert a; induction l as [|x l IH]; intros a Hn Hp; cbn; unfold link.
  - rewrite Hn, Hp by set_solver; done.
  - rewrite Hn, Hp by set_solver; intros [? ?]; split; [done|]; apply IH; set_solver.
Qed.
Lemma path_ends m a l b : path m a l b ->
  rd32 m (cnext a) = default b (head l) /\ rd32 m (cprev b) = default a (last l).
Proof.
  revert a; induction l as [|x l IH]; intros a; cbn [path]; [done|]; intros [[H1 _] [_ H2]%IH]; split; [done|].
  rewrite H2, last_cons; by destruct (last l).
Qed.
Lemma cnext_e e : e <> h -> cnext e = cqe_next e.
Proof. intros; unfold cnext; by rewrite (proj2 (Z.eqb_neq _ _)). Qed.
Lemma cprev_e e : e <> h -> cprev e = cqe_prev e.
Proof. intros; unfold cprev; by rewrite (proj2 (Z.eqb_neq _ _)). Qed.
Lemma cnext_h : cnext h = cqh_first.
Proof. unfold cnext; by rewrite Z.eqb_refl. Qed.
Lemma cprev_h : cprev h = cqh_last.
Proof. unfold cprev; by rewrite Z.eqb_refl. Qed.
Lemma cprev_cnext a : cprev a = cnext a + 4.
Proof. unfold cnext, cprev, cqh_first, cqh_last, cqe_next, cqe_prev; by destruct (a =? h). Qed.

(** Reads after writes among the links of the nodes [ns]. *)
Section Nodes.
Context (ns : list Z) (Hap : apart (ccells ns)).

Lemma in_ccells a : a ∈ ns -> cnext a ∈ ccells ns /\ cprev a ∈ ccells ns.
Proof. intros (ns1 & ns2 & ->)%list_elem_of_split; unfold ccells; rewrite flat_map_app; cbn; set_solver. Qed.
Lemma nodes_apart a b : a ∈ ns -> b ∈ ns -> a <> b ->
  cnext a <> cnext b /\ cprev a <> cprev b /\ cnext a <> cprev b /\ cprev a <> cnext b.
Proof.
  intros Ha Hb Hab; destruct Hap as (Hn & Hs & _).
  apply list_elem_of_split in Ha as (n1 & n2 & E); subst ns.
  assert (b ∈ n1 ++ n2) as (n3 & n4 & E)%list_elem_of_split by set_solver.
  assert (ccells (n1 ++ a :: n2) ≡ₚ cnext a :: cprev a :: cnext b :: cprev b :: ccells (n3 ++ n4)) as Hp.
  { transitivity (cnext a :: cprev a :: ccells (n1 ++ n2)); [unfold ccells; rewrite !flat_map_app; cbn; solve_Permutation|].
    rewrite E; unfold ccells; rewrite !flat_map_app; cbn; solve_Permutation. }
  rewrite Hp in Hn; rewrite !NoDup_cons, !not_elem_of_cons in Hn; naive_solver.
Qed.
Lemma next_next m a v b : a ∈ ns -> b ∈ ns -> urange 32 v ->
  rd32 (wr32 m (cnext a) v) (cnext b) = if decide (a = b) then v else rd32 m (cnext b).
Proof.
  intros Ha Hb Hv; case_decide as E; [subst; by apply rd32_wr32_val|].
  apply (rd32_wr32_apart _ _ _ _ _ Hap); [by apply in_ccells..|by apply nodes_apart].
Qed.
Lemma prev_prev m a v b : a ∈ ns -> b ∈ ns -> urange 32 v ->
  rd32 (wr32 m (cprev a) v) (cprev b) = if decide (a = b) then v else rd32 m (cprev b).
Proof.
  intros Ha Hb Hv; case_decide as E; [subst; by apply rd32_wr32_val|].
  apply (rd32_wr32_apart _ _ _ _ _ Hap); [by apply in_ccells..|by apply nodes_apart].
Qed.
Lemma next_ne_prev a b : a ∈ ns -> b ∈ ns -> cnext a <> cprev b.
Proof.
  intros Ha Hb; destruct (decide (a = b)) as [->|E]; [rewrite cprev_cnext; lia|].
  by apply nodes_apart.
Qed.
Lemma next_prev m a v b : a ∈ ns -> b ∈ ns -> rd32 (wr32 m (cnext a) v) (cprev b) = rd32 m (cprev b).
Proof. intros Ha Hb; apply (rd32_wr32_apart _ _ _ _ _ Hap); [by apply in_ccells..|by apply next_ne_prev]. Qed.
Lemma prev_next m a v b : a ∈ ns -> b ∈ ns -> rd32 (wr32 m (cprev a) v) (cnext b) = rd32 m (cnext b).
Proof.
  intros Ha Hb; apply (rd32_wr32_apart _ _ _ _ _ Hap); [by apply in_ccells..|].
  intros E; by apply (next_ne_prev b a).
Qed.
End Nodes.

(** Replacing the link at the end of a path, and at its start. *)
Lemma path_left m m' l c e a :
  path m h l c -> a = default h (last l) -> link m' a e -> NoDup (h :: l) ->
  (forall y, y ∈ h :: l -> y <> a -> rd32 m' (cnext y) = rd32 m (cnext y)) ->
  (forall y, y ∈ l -> rd32 m' (cprev y) = rd32 m (cprev y)) -> path m' h l e.
Proof.
  destruct l as [|x l _] using rev_ind; [by intros _ ->|]; intros [Hp _]%path_app; rewrite last_snoc; cbn; intros -> Hl Hn Hf1 Hf2.
  apply path_app; split; [|done]; eapply path_frame; [| |exact Hp].
  - intros y Hy; apply Hf1; [set_solver|]; intros ->.
    change (h :: l ++ [x]) with ((h :: l) ++ [x]) in Hn; apply NoDup_app in Hn as (_ & Hn & _); set_solver.
  - intros y Hy; by apply Hf2.
Qed.
Lemma path_right m m' l e b :
  (forall x l', l = x :: l' -> path m x l' h) -> b = default h (head l) -> link m' e b -> NoDup (h :: l) ->
  (forall y, y ∈ l -> rd32 m' (cnext y) = rd32 m (cnext y)) ->
  (forall y, y ∈ h :: l -> y <> b -> rd32 m' (cprev y) = rd32 m (cprev y)) -> path m' e l h.
Proof.
  destruct l as [|x l]; [by intros _ ->|]; intros Hp; cbn; intros -> Hl Hn Hf1 Hf2; split; [done|].
  rewrite !NoDup_cons in Hn; eapply path_frame; [| |exact (Hp x l eq_refl)]; [by apply Hf1|].
  intros y Hy; apply Hf2; set_solver.
Qed.
Lemma path_parts m l1 l2 a b : path m a (l1 ++ l2) b ->
  exists c, path m a l1 c /\ forall x l', l2 = x :: l' -> path m x l' b.
Proof.
  destruct l2 as [|x l2]; [rewrite app_nil_r; intros H; by exists b|intros [H1 H2]%path_app; exists x; split; [done|]].
  by intros ? ? [= <- <-].
Qed.

Lemma ring_insert m m' l1 l2 e a b :
  path m h (l1 ++ l2) h -> NoDup (h :: l1 ++ l2) -> a = default h (last l1) -> b = default h (head l2) ->
  link m' a e -> link m' e b ->
  (forall y, y ∈ h :: l1 ++ l2 -> y <> a -> rd32 m' (cnext y) = rd32 m (cnext y)) ->
  (forall y, y ∈ h :: l1 ++ l2 -> y <> b -> rd32 m' (cprev y) = rd32 m (cprev y)) -> path m' h (l1 ++ e :: l2) h.
Proof.
  intros (c & H1 & H2)%path_parts [Hh (Hn1 & Hn12 & Hn2)%NoDup_app]%NoDup_cons -> -> Ha Hb Hf1 Hf2; apply path_app; split.
  - eapply path_left; [exact H1|done|done| | |]; [apply NoDup_cons; set_solver|intros y Hy; apply Hf1; set_solver|].
    intros y Hy; apply Hf2; [set_solver|]; intros ->; destruct l2; cbn in *; set_solver.
  - eapply path_right; [exact H2|done|done| | |]; [apply NoDup_cons; set_solver| |intros y Hy; apply Hf2; set_solver].
    intros y Hy; apply Hf1; [set_solver|]; intros ->; destruct (last l1) eqn:E; cbn in *; [|set_solver].
    apply last_Some in E as [? ->]; set_solver.
Qed.
Lemma ring_remove m m' l1 l2 e a b :
  path m h (l1 ++ e :: l2) h -> NoDup (h :: l1 ++ l2) -> a = default h (last l1) -> b = default h (head l2) ->
  link m' a b ->
  (forall y, y ∈ h :: l1 ++ l2 -> y <> a -> rd32 m' (cnext y) = rd32 m (cnext y)) ->
  (forall y, y ∈ h :: l1 ++ l2 -> y <> b -> rd32 m' (cprev y) = rd32 m (cprev y)) -> path m' h (l1 ++ l2) h.
Proof.
  intros [H1 H2]%path_app Hn -> -> Hab Hf1 Hf2; pose proof Hn as [Hh (Hn1 & Hn12 & Hn2)%NoDup_app]%NoDup_cons.
  assert (path m' h l1 (default h (head l2))) as Hl.
  { eapply path_left; [exact H1|done|done| | |]; [apply NoDup_cons; set_solver|intros y Hy; apply Hf1; set_solver|].
    intros y Hy; apply Hf2; [set_solver|]; intros ->; destruct l2; cbn in *; set_solver. }
  destruct l2 as [|x l2]; [by rewrite app_nil_r|]; apply path_app; split; [done|].
  cbn in H2; destruct H2 as [_ H2]; eapply path_frame; [| |exact H2].
  - intros y Hy; apply Hf1; [set_solver|]; intros ->; destruct (last l1) eqn:E; cbn in *; [|set_solver].
    apply last_Some in E as [? ->]; set_solver.
  - intros y Hy; apply Hf2; [set_solver|]; cbn; apply NoDup_cons in Hn2 as [? _]; set_solver.
Qed.

(** The write to a neighbour's link that the macros do by cases. *)
Lemma wr_cprev m c v : (if c =? h then wr32 m cqh_last v else wr32 m (cqe_prev c) v) = wr32 m (cprev c) v.
Proof. unfold cprev; by destruct (c =? h). Qed.
Lemma wr_cnext m c v : (if c =? h then wr32 m cqh_first v else wr32 m (cqe_next c) v) = wr32 m (cnext c) v.
Proof. unfold cnext; by destruct (c =? h). Qed.

(** Reads of links after writes of links; [H : apart (ccells ns)], with the
    membership of the nodes and the ranges of the values in the context. *)
Ltac links H :=
  repeat first [rewrite (next_next _ H) by assumption | rewrite (prev_prev _ H) by assumption
               |rewrite (next_prev _ H) by assumption | rewrite (prev_next _ H) by assumption].

Lemma path_range m a l b : path m a l b -> urange 32 b /\ Forall (urange 32) l.
Proof.
  revert a; induction l as [|x l IH]; intros a; cbn; [intros [<- _]; split; [apply rd32_range|done]|].
  intros [[<- _] Hp]; destruct (IH _ Hp); split; [done|]; constructor; [apply rd32_range|done].
Qed.
Lemma ends_in (l1 l2 : list Z) :
  default h (last l1) ∈ h :: l1 ++ l2 /\ default h (head l2) ∈ h :: l1 ++ l2.
Proof.
  split; [destruct (last l1) as [x|] eqn:E|destruct l2 as [|x l2]]; cbn; [|set_solver +..].
  apply last_Some in E as [? ->]; set_solver +.
Qed.

Lemma ring_add m l1 l2 e a b : circleq m (l1 ++ l2) -> clinkable (l1 ++ l2) e ->
  a = default h (last l1) -> b = default h (head l2) ->
  circleq (wr32 (wr32 (wr32 (wr32 m (cnext e) b) (cprev e) a) (cprev b) e) (cnext a) e) (l1 ++ e :: l2) /\
  circleq (wr32 (wr32 (wr32 (wr32 m (cnext e) b) (cprev e) a) (cnext a) e) (cprev b) e) (l1 ++ e :: l2).
Proof.
  intros (Hp & Hn & _) (HA & He & Hni) Ea Eb; pose proof (path_range _ _ _ _ Hp) as [Hh HF].
  destruct (ends_in l1 l2) as [Hain Hbin]; rewrite <- Ea in Hain; rewrite <- Eb in Hbin.
  assert (forall y, y ∈ h :: l1 ++ l2 -> y ∈ e :: h :: l1 ++ l2) as Hup by set_solver +.
  assert (forall y, y ∈ h :: l1 ++ l2 -> urange 32 y) as Hur.
  { intros y [->|Hy]%elem_of_cons; [done|]; by eapply Forall_forall. }
  pose proof (Hup _ Hain); pose proof (Hup _ Hbin); pose proof (Hur _ Hain); pose proof (Hur _ Hbin).
  assert (e ∈ e :: h :: l1 ++ l2) by set_solver +.
  assert (e <> a) by (intros ->; done); assert (e <> b) by (intros ->; done).
  assert (forall y, y ∈ h :: l1 ++ l2 -> e <> y) as Hey by (intros y Hy ->; done).
  assert (forall m', (path m' h (l1 ++ e :: l2) h -> circleq m' (l1 ++ e :: l2))) as Hc.
  { intros m' Hp'; split_and!; [done|rewrite <- (Permutation_middle l1 l2 e), Permutation_swap; by apply NoDup_cons|].
    eapply apart_perm; [|exact HA]; unfold ccells; cbn; rewrite !flat_map_app; cbn; solve_Permutation. }
  split; apply Hc; (apply (ring_insert m _ l1 l2 e a b); [done|done|done|done| | | |]).
  1,5: split; links HA; repeat case_decide; try done; congruence.
  1,4: split; links HA; repeat case_decide; try done; congruence.
  all: intros y Hy Hne; pose proof (Hup _ Hy); pose proof (Hey _ Hy); links HA; repeat case_decide; try done; congruence.
Qed.

Lemma circleq_remove m l1 e l2 : circleq m (l1 ++ e :: l2) -> circleq (CIRCLEQ_REMOVE e m) (l1 ++ l2).
Proof.
  intros (Hp & Hn & HA); pose proof (path_range _ _ _ _ Hp) as [Hh HF].
  pose proof Hp as [[_ Ha]%path_ends [Hb _]%path_ends]%path_app.
  assert (NoDup (h :: l1 ++ l2) /\ e ∉ h :: l1 ++ l2) as [Hn' Hni].
  { rewrite <- (Permutation_middle l1 l2 e), Permutation_swap in Hn; by apply NoDup_cons in Hn as [? ?]. }
  assert (e <> h) as Heh by set_solver.
  destruct (ends_in l1 l2) as [Hain Hbin].
  assert (forall y, y ∈ h :: l1 ++ l2 -> y ∈ h :: l1 ++ e :: l2) as Hup by set_solver +.
  assert (forall y, y ∈ h :: l1 ++ e :: l2 -> urange 32 y) as Hur.
  { intros y [->|Hy]%elem_of_cons; [done|]; by eapply Forall_forall. }
  assert (e ∈ h :: l1 ++ e :: l2) by set_solver +.
  set (a := default h (last l1)) in *; set (b := default h (head l2)) in *.
  assert (e <> a) by (intros E; by rewrite <- E in Hain); assert (e <> b) by (intros E; by rewrite <- E in Hbin).
  pose proof (Hup _ Hain) as Ia; pose proof (Hup _ Hbin) as Ib; pose proof (Hur _ Ia); pose proof (Hur _ Ib).
  unfold CIRCLEQ_REMOVE; rewrite <- !cnext_e, <- !cprev_e by done; rewrite Ha, Hb, wr_cprev.
  assert (rd32 (wr32 m (cprev b) a) (cprev e) = a) as -> by (links HA; rewrite decide_False by done; done).
  assert (rd32 (wr32 m (cprev b) a) (cnext e) = b) as -> by (links HA; done).
  rewrite wr_cnext; split_and!; [|done|].
  - apply (ring_remove m _ l1 l2 e a b); [exact Hp|done|done|done| | |].
    + split; links HA; by repeat (rewrite decide_True by done).
    + intros y Hy Hne; pose proof (Hup _ Hy); links HA; rewrite decide_False; done.
    + intros y Hy Hne; pose proof (Hup _ Hy); links HA; rewrite decide_False; done.
  - apply (apart_sub [cnext e; cprev e]); eapply apart_perm; [|exact HA]; unfold ccells; cbn; rewrite !flat_map_app; cbn; solve_Permutation.
Qed.

(** The reads the insertions make behind their first two writes. *)
Lemma clinkable_reads m l e : circleq m l -> clinkable l e -> e <> h /\ forall v w y, y ∈ h :: l ->
  rd32 (wr32 m (cnext e) v) (cprev y) = rd32 m (cprev y) /\
  (urange 32 v -> rd32 (wr32 (wr32 m (cnext e) v) (cprev e) w) (cnext y) = rd32 m (cnext y)) /\
  (urange 32 w -> rd32 (wr32 (wr32 m (cnext e) v) (cprev e) w) (cprev y) = rd32 m (cprev y)).
Proof.
  intros _ (HA & He & Hni); split; [set_solver|]; intros v w y Hy.
  assert (y ∈ e :: h :: l) by set_solver; assert (e ∈ e :: h :: l) by set_solver +; assert (e <> y) by (by intros ->).
  split_and!; intros; links HA; rewrite ?decide_False by done; done.
Qed.

Lemma circleq_insert_after m l1 x l2 e : circleq m (l1 ++ x :: l2) -> clinkable (l1 ++ x :: l2) e ->
  circleq (CIRCLEQ_INSERT_AFTER x e m) (l1 ++ x :: e :: l2).
Proof.
  intros Hc Hl; destruct (clinkable_reads _ _ _ Hc Hl) as [Heh Hrd]; pose proof Hc as (Hp & Hn & _).
  pose proof Hp as [_ [Hx _]%path_ends]%path_app; pose proof (path_range _ _ _ _ Hp) as [_ HF].
  assert (x <> h) as Hxh by (apply NoDup_cons in Hn as [? _]; set_solver).
  destruct (Hrd (rd32 m (cnext x)) x x ltac:(set_solver +)) as (_ & R1 & _); specialize (R1 (rd32_range _ _)).
  unfold CIRCLEQ_INSERT_AFTER; rewrite <- !cnext_e, <- (cprev_e e) by done; rewrite R1, wr_cprev, Hx.
  rewrite (cons_middle x), (app_assoc l1 [x]) in *; apply (ring_add m (l1 ++ [x]) l2 e); [done|done|by rewrite last_snoc|done].
Qed.
Lemma circleq_insert_before m l1 x l2 e : circleq m (l1 ++ x :: l2) -> clinkable (l1 ++ x :: l2) e ->
  circleq (CIRCLEQ_INSERT_BEFORE x e m) (l1 ++ e :: x :: l2).
Proof.
  intros Hc Hl; destruct (clinkable_reads _ _ _ Hc Hl) as [Heh Hrd]; pose proof Hc as (Hp & Hn & _).
  pose proof Hp as [[_ Hx]%path_ends _]%path_app.
  assert (x <> h) as Hxh by (apply NoDup_cons in Hn as [? _]; set_solver).
  destruct (Hrd x (rd32 m (cprev x)) x ltac:(set_solver +)) as (R1 & _ & R2); specialize (R2 (rd32_range _ _)).
  unfold CIRCLEQ_INSERT_BEFORE; rewrite <- (cnext_e e), <- !cprev_e by done; rewrite R1, R2, wr_cnext, Hx.
  by apply (ring_add m l1 (x :: l2) e).
Qed.
Lemma circleq_empty m l : circleq m l -> (rd32 m cqh_first = h <-> l = []) /\ (rd32 m cqh_last = h <-> l = []).
Proof.
  intros ([Hf Hl]%path_ends & [Hn _]%NoDup_cons & _); rewrite <- cnext_h, <- cprev_h, Hf, Hl; split.
  - destruct l; cbn; [done|set_solver].
  - destruct l as [|x l _] using rev_ind; [done|]; rewrite last_snoc; cbn; split; [set_solver|by destruct l].
Qed.
Lemma circleq_insert_head m l e : circleq m l -> clinkable l e -> circleq (CIRCLEQ_INSERT_HEAD e m) (e :: l).
Proof.
  intros Hc Hl; destruct (clinkable_reads _ _ _ Hc Hl) as [Heh Hrd]; pose proof Hc as (Hp & Hn & _).
  destruct (circleq_empty _ _ Hc) as [E1 E2]; pose proof Hp as [Hf _]%path_ends; pose proof (path_range _ _ _ _ Hp) as [Hh _].
  destruct (Hrd (rd32 m (cnext h)) h h ltac:(set_solver +)) as (_ & R1 & R2); specialize (R1 (rd32_range _ _)); specialize (R2 Hh).
  unfold CIRCLEQ_INSERT_HEAD; rewrite <- (cnext_e e), <- (cprev_e e), <- cnext_h by done; rewrite <- cprev_h, R1, R2, cprev_h.
  assert ((rd32 m cqh_last =? h) = (rd32 m (cnext h) =? h)) as -> by (apply eq_true_iff_eq; rewrite !Z.eqb_eq, cnext_h; tauto).
  rewrite wr_cprev, Hf; by apply (ring_add m [] l e).
Qed.
Lemma circleq_insert_tail m l e : circleq m l -> clinkable l e -> circleq (CIRCLEQ_INSERT_TAIL e m) (l ++ [e]).
Proof.
  intros Hc Hl; destruct (clinkable_reads _ _ _ Hc Hl) as [Heh Hrd]; pose proof Hc as (Hp & Hn & _).
  destruct (circleq_empty _ _ Hc) as [E1 E2]; pose proof Hp as [_ Hf]%path_ends; pose proof (path_range _ _ _ _ Hp) as [Hh _].
  destruct (Hrd h (rd32 m (cprev h)) h ltac:(set_solver +)) as (R0 & R1 & R2); specialize (R1 Hh); specialize (R2 (rd32_range _ _)).
  unfold CIRCLEQ_INSERT_TAIL; rewrite <- (cnext_e e), <- (cprev_e e), <- cprev_h by done; rewrite R0, <- cnext_h, R1, R2, cnext_h.
  assert ((rd32 m cqh_first =? h) = (rd32 m (cprev h) =? h)) as -> by (apply eq_true_iff_eq; rewrite !Z.eqb_eq, cprev_h; tauto).
  rewrite wr_cnext, Hf; rewrite <- (app_nil_r l) in Hc, Hl; by apply (ring_add m l [] e).
Qed.

Lemma path_foreach m a l fuel : path m a l h -> h ∉ l -> (length l <= fuel)%nat ->
  circleq_foreach fuel (rd32 m (cnext a)) m = Some l.
Proof.
  revert a fuel; induction l as [|x l IH]; intros a fuel; cbn [path].
  - intros [-> _] _ _; destruct fuel; cbn; by rewrite Z.eqb_refl.
  - intros [[-> _] Hp] Hh Hf; destruct fuel as [|fuel]; cbn in Hf; [lia|]; cbn [circleq_foreach].
    assert (x <> h) by set_solver; rewrite (proj2 (Z.eqb_neq _ _)), <- cnext_e by done.
    rewrite (IH x fuel Hp); [done|set_solver|lia].
Qed.
Lemma path_foreach_reverse m l b fuel : path m h l b -> h ∉ l -> (length l <= fuel)%nat ->
  circleq_foreach_reverse fuel (rd32 m (cprev b)) m = Some (rev l).
Proof.
  revert b fuel; induction l as [|x l IH] using rev_ind; intros b fuel.
  - intros [_ ->] _ _; destruct fuel; cbn; by rewrite Z.eqb_refl.
  - intros [Hp [_ ->]]%path_app Hh Hf; rewrite length_app in Hf; cbn in Hf; destruct fuel as [|fuel]; [lia|]; cbn [circleq_foreach_reverse].
    assert (x <> h) by set_solver; rewrite (proj2 (Z.eqb_neq _ _)), <- cprev_e, rev_app_distr by done.
    rewrite (IH x fuel Hp); [done|set_solver|lia].
Qed.

Lemma circleq_neighbours m l1 x l2 : circleq m (l1 ++ x :: l2) ->
  rd32 m (cqe_next x) = default h (head l2) /\ rd32 m (cqe_prev x) = default h (last l1) /\ x <> h.
Proof.
  intros (Hp & [Hn _]%NoDup_cons & _); pose proof Hp as [[_ H1]%path_ends [H2 _]%path_ends]%path_app.
  assert (x <> h) by set_solver; by rewrite <- cnext_e, <- cprev_e.
Qed.

(** Around the ring: behind the last element comes the first. *)
Lemma circleq_loop m l1 x l2 : circleq m (l1 ++ x :: l2) ->
  Some (CIRCLEQ_LOOP_NEXT x m) = head (l2 ++ l1 ++ [x]) /\ Some (CIRCLEQ_LOOP_PREV x m) = last (x :: l2 ++ l1).
Proof.
  intros Hc; destruct (circleq_neighbours _ _ _ _ Hc) as (Hn & Hp & Hx); pose proof Hc as ([Hf Hl]%path_ends & [Hh _]%NoDup_cons & _).
  rewrite cnext_h in Hf; rewrite cprev_h in Hl; unfold CIRCLEQ_LOOP_NEXT, CIRCLEQ_LOOP_PREV; rewrite Hn, Hp, Hf, Hl; split.
  - destruct l2 as [|y l2]; cbn; [rewrite Z.eqb_refl; by destruct l1|].
    by rewrite (proj2 (Z.eqb_neq y h)) by set_solver.
  - destruct l1 as [|y l1 _] using rev_ind; cbn.
    + rewrite Z.eqb_refl, app_nil_r; by destruct (last (x :: l2)) eqn:E; [|apply last_None in E].
    + rewrite last_snoc; cbn; rewrite (proj2 (Z.eqb_neq y h)) by set_solver.
      by rewrite (app_assoc l2), app_comm_cons, last_snoc.
Qed.

Lemma circleq_init_ok m : urange 32 h -> urange 32 (h + 4) -> circleq (CIRCLEQ_INIT m) [].
Proof.
  intros Hh Hh4; assert (apart (ccells [h])) as HA.
  { unfold ccells; cbn [flat_map app]; rewrite cnext_h, cprev_h; unfold cqh_first, cqh_last; split_and!.
    - apply NoDup_cons; split; [rewrite list_elem_of_singleton; lia|apply NoDup_singleton].
    - intros a b; rewrite !elem_of_cons, !elem_of_nil; lia.
    - rewrite !Forall_cons; by split_and!. }
  assert (h ∈ [h]) by set_solver +; unfold CIRCLEQ_INIT; rewrite <- cnext_h, <- cprev_h.
  split_and!; [split; links HA; by rewrite decide_True|apply NoDup_singleton|done].
Qed.

(** C28: the CIRCLEQ macros implement lists: the ends and the neighbours,
    traversal in both directions, insertion at both ends and on both sides
    of an element, removal, and the successor and predecessor around the
    ring, where the first element follows the last. *)
Theorem circleq_refines_list m l :
  circleq m l ->
  CIRCLEQ_FIRST m = default h (head l) /\ CIRCLEQ_LAST m = default h (last l) /\ (CIRCLEQ_EMPTY m = true <-> l = []) /\
  (forall fuel, (length l <= fuel)%nat ->
     CIRCLEQ_FOREACH fuel m = Some l /\ CIRCLEQ_FOREACH_REVERSE fuel m = Some (rev l)) /\
  (forall e, clinkable l e -> circleq (CIRCLEQ_INSERT_HEAD e m) (e :: l) /\ circleq (CIRCLEQ_INSERT_TAIL e m) (l ++ [e])) /\
  (forall l1 x l2, l = l1 ++ x :: l2 ->
     CIRCLEQ_NEXT x m = default h (head l2) /\ CIRCLEQ_PREV x m = default h (last l1) /\
     Some (CIRCLEQ_LOOP_NEXT x m) = head (l2 ++ l1 ++ [x]) /\ Some (CIRCLEQ_LOOP_PREV x m) = last (x :: l2 ++ l1) /\
     circleq (CIRCLEQ_REMOVE x m) (l1 ++ l2) /\
     forall e, clinkable l e ->
       circleq (CIRCLEQ_INSERT_AFTER x e m) (l1 ++ x :: e :: l2) /\ circleq (CIRCLEQ_INSERT_BEFORE x e m) (l1 ++ e :: x :: l2)).
Proof.
  intros Hc; pose proof Hc as (Hp & [Hh _]%NoDup_cons & _); pose proof Hp as [Hf Hl]%path_ends.
  destruct (circleq_empty _ _ Hc) as [He _]; rewrite cnext_h in Hf; rewrite cprev_h in Hl; split_and!; [done|done| | | |].
  - unfold CIRCLEQ_EMPTY; by rewrite Z.eqb_eq.
  - intros fuel Hfu; unfold CIRCLEQ_FOREACH, CIRCLEQ_FOREACH_REVERSE; rewrite <- cnext_h, <- cprev_h.
    split; [by apply path_foreach|by apply path_foreach_reverse].
  - intros e Hle; split; [by apply circleq_insert_head|by apply circleq_insert_tail].
  - intros l1 x l2 ->; destruct (circleq_neighbours _ _ _ _ Hc) as (? & ? & _); destruct (circleq_loop _ _ _ _ Hc) as [? ?].
    split_and!; [done..|by apply circleq_remove|].
    intros e Hle; split; [by apply circleq_insert_after|by apply circleq_insert_before].
Qed.
End Circleq.

(** A ring of two elements (their CIRCLEQ_ENTRY is at offset 4). *)
Lemma circleq_refines_list_witness :
  let m := CIRCLEQ_INSERT_TAIL 4 0x1000 0x2000 (CIRCLEQ_INIT 0x1000 ∅) in
  circleq 4 0x1000 (CIRCLEQ_INSERT_BEFORE 4 0x1000 0x2000 0x3000 m) [0x3000; 0x2000] /\
  circleq 4 0x1000 (CIRCLEQ_REMOVE 4 0x1000 0x2000 m) [].
Proof.
  intros m; assert (circleq 4 0x1000 m [0x2000]) as H1.
  { split_and!; [by vm_compute|apply (bool_decide_unpack _); by vm_compute|apart_concrete]. }
  destruct (circleq_refines_list 4 0x1000 m [0x2000] H1) as (_ & _ & _ & _ & _ & Hm).
  destruct (Hm [] 0x2000 [] eq_refl) as (_ & _ & _ & _ & Hr & Hi); split; [|exact Hr].
  destruct (Hi 0x3000) as (_ & Hb); [|exact Hb].
  split_and!; [apart_concrete|apply (bool_decide_unpack _); by vm_compute|apply (bool_decide_unpack _); by vm_compute].
Defined.
