(* ===== verification/QueueDebug.v ===== *)
(** * QueueDebug: the checking variant of include/bmk/queue.h

    With QUEUEDEBUG the macros of queue.h check the links around the element
    they work on before they touch anything, abort when a link is
    inconsistent, and overwrite the links of a removed element with the
    address 1.  The macros here (suffix [_DBG]) are the checking ones; what
    they do between the checks are the macros of Tailq.v, TailqOps.v,
    Lists.v and Circleq.v.  The theorems: on a well-formed queue no check
    fires and the checking macros do what the plain ones do; typical misuses
    are stopped before memory is changed. *)
From S2P Require Import Prelude Mem Cells Tailq TailqOps Lists Circleq.

(** [panic] in the kernel, [err(1, ...)] outside: the call does not return. *)
Definition QUEUEDEBUG_ABORT {A} (msg : string) : outcome A := Halt msg.

(** [if (bad) QUEUEDEBUG_ABORT(msg)], followed by the rest. *)
Definition check {A} (bad : bool) (msg : string) (k : outcome A) : outcome A :=
  if bad then QUEUEDEBUG_ABORT msg else k.

Lemma check_ok {A} bad msg (k : outcome A) : bad = false -> check bad msg k = k.
Proof. by intros ->. Qed.
Lemma check_bad {A} bad msg (k : outcome A) : bad = true -> check bad msg k = Halt msg.
Proof. by intros ->. Qed.
Lemma check_Ret {A} bad msg (k : outcome A) a : check bad msg k = Ret a <-> bad = false /\ k = Ret a.
Proof. destruct bad; cbn; naive_solver. Qed.

(** A guarded comparison of a link that holds. *)
Lemma guard_eq (g : bool) a b : (g = true -> a = b) -> g && negb (a =? b) = false.
Proof. destruct g; [|done]; intros ->; [by rewrite Z.eqb_refl|done]. Qed.
Lemma guard_ne (g : bool) a b : g = true -> a <> b -> g && negb (a =? b) = true.
Proof. intros -> ?; by rewrite (proj2 (Z.eqb_neq _ _)). Qed.
Lemma nonnull x : negb (x =? NULL) = true <-> x <> NULL.
Proof. by rewrite negb_true_iff, Z.eqb_neq. Qed.

(** The address links of removed elements are set to. *)
Definition POISON : Z := 1.
Lemma poison_range : urange 32 POISON.
Proof. by vm_compute. Qed.

(** ** TAILQ *)

Section TailqDebug.
Variable off : Z.
Local Abbreviation tqe_next := (tqe_next off).
Local Abbreviation tqe_prev := (tqe_prev off).
Local Abbreviation tailq := (tailq off).
Local Abbreviation cells := (cells off).
Local Abbreviation linkable := (linkable off).

Definition QUEUEDEBUG_TAILQ_INSERT_HEAD {A} (h : Z) (m : mem) (k : outcome A) : outcome A :=
  check (negb (rd32 m (tqh_first h) =? NULL) && negb (rd32 m (tqe_prev (rd32 m (tqh_first h))) =? tqh_first h))
    "TAILQ_INSERT_HEAD" k.
Definition QUEUEDEBUG_TAILQ_INSERT_TAIL {A} (h : Z) (m : mem) (k : outcome A) : outcome A :=
  check (negb (rd32 m (rd32 m (tqh_last h)) =? NULL)) "TAILQ_INSERT_TAIL" k.
Definition QUEUEDEBUG_TAILQ_OP {A} (e : Z) (m : mem) (k : outcome A) : outcome A :=
  check (negb (rd32 m (tqe_next e) =? NULL) && negb (rd32 m (tqe_prev (rd32 m (tqe_next e))) =? tqe_next e))
    "TAILQ_* forw" $
  check (negb (rd32 m (rd32 m (tqe_prev e)) =? e)) "TAILQ_* back" k.
Definition QUEUEDEBUG_TAILQ_PREREMOVE {A} (h e : Z) (m : mem) (k : outcome A) : outcome A :=
  check ((rd32 m (tqe_next e) =? NULL) && negb (rd32 m (tqh_last h) =? tqe_next e)) "TAILQ_PREREMOVE" k.
Definition QUEUEDEBUG_TAILQ_POSTREMOVE (e : Z) (m : mem) : mem :=
  wr32 (wr32 m (tqe_next e) POISON) (tqe_prev e) POISON.

Definition TAILQ_INSERT_HEAD_DBG (h e : Z) (m : mem) : outcome mem :=
  QUEUEDEBUG_TAILQ_INSERT_HEAD h m $ Ret (TAILQ_INSERT_HEAD off h e m).
Definition TAILQ_INSERT_TAIL_DBG (h e : Z) (m : mem) : outcome mem :=
  QUEUEDEBUG_TAILQ_INSERT_TAIL h m $ Ret (TAILQ_INSERT_TAIL off h e m).
Definition TAILQ_INSERT_AFTER_DBG (h x e : Z) (m : mem) : outcome mem :=
  QUEUEDEBUG_TAILQ_OP x m $ Ret (TAILQ_INSERT_AFTER off h x e m).
Definition TAILQ_INSERT_BEFORE_DBG (x e : Z) (m : mem) : outcome mem :=
  QUEUEDEBUG_TAILQ_OP x m $ Ret (TAILQ_INSERT_BEFORE off x e m).
Definition TAILQ_REMOVE_DBG (h e : Z) (m : mem) : outcome mem :=
  QUEUEDEBUG_TAILQ_PREREMOVE h e m $ QUEUEDEBUG_TAILQ_OP e m $
  Ret (QUEUEDEBUG_TAILQ_POSTREMOVE e (TAILQ_REMOVE off h e m)).
Definition TAILQ_REPLACE_DBG (h e e2 : Z) (m : mem) : outcome mem :=
  Ret (QUEUEDEBUG_TAILQ_POSTREMOVE e (TAILQ_REPLACE off h e e2 m)).

(** The links around an element of a queue pass the checks. *)
Lemma tailq_op_ok {A} m h l1 x l2 (k : outcome A) : tailq m h (l1 ++ x :: l2) -> QUEUEDEBUG_TAILQ_OP x m k = k.
Proof.
  intros Ht; destruct (tailq_split _ _ _ _ _ _ Ht) as (r & q & _ & Hr & Hx & Hp & Hs & Hq & _).
  unfold QUEUEDEBUG_TAILQ_OP; rewrite !check_ok; [done| |].
  - by rewrite Hp, Hr, Z.eqb_refl.
  - apply guard_eq; rewrite nonnull; intros Hn.
    destruct l2 as [|y l2]; cbn in Hs; [subst q; congruence|]; destruct Hs as (-> & _ & ? & _); done.
Qed.
Lemma tailq_last_check m h l1 x l2 : tailq m h (l1 ++ x :: l2) ->
  (rd32 m (tqe_next x) =? NULL) = true -> rd32 m (tqh_last h) = tqe_next x /\ l2 = [].
Proof.
  intros Ht; destruct (tailq_split _ _ _ _ _ _ Ht) as (r & q & _ & Hr & Hx & Hp & Hs & Hq & Hl & _).
  rewrite Z.eqb_eq; intros Hn; destruct l2 as [|y l2]; cbn in Hs; [by subst|].
  destruct Hs as (Hy & Hyn & _); congruence.
Qed.

(** Overwriting the links of an element that is not on the queue. *)
Lemma tailq_poison m h l e : tailq m h l -> apart (cells h (e :: l)) ->
  tailq (QUEUEDEBUG_TAILQ_POSTREMOVE e m) h l /\
  rd32 (QUEUEDEBUG_TAILQ_POSTREMOVE e m) (tqe_next e) = POISON /\
  rd32 (QUEUEDEBUG_TAILQ_POSTREMOVE e m) (tqe_prev e) = POISON.
Proof.
  intros Ht HL; rewrite cells_cons in HL; pose proof poison_range; unfold QUEUEDEBUG_TAILQ_POSTREMOVE.
  pose proof (fun m' => tailq_frame off m m' h l) as Hf; remember (Tailq.cells off h l) as C eqn:EC; clear EC; cell_facts HL.
  split_and!; [apply Hf; [|done]; intros a Ha; rdw HL; done|rdw HL; done|rdw HL; done].
Qed.

Lemma tailq_remove_dbg_ok m h l1 x l2 : tailq m h (l1 ++ x :: l2) -> exists m',
  TAILQ_REMOVE_DBG h x m = Ret m' /\ tailq m' h (l1 ++ l2) /\ rd32 m' (tqe_next x) = POISON /\ rd32 m' (tqe_prev x) = POISON.
Proof.
  intros Ht; eexists; split; [|apply tailq_poison; [by apply tailq_remove_ok|]].
  - unfold TAILQ_REMOVE_DBG, QUEUEDEBUG_TAILQ_PREREMOVE.
    rewrite check_ok; [by rewrite (tailq_op_ok _ _ _ _ _ _ Ht)|]; apply guard_eq; intros E; by destruct (tailq_last_check _ _ _ _ _ Ht E).
  - destruct Ht as (_ & _ & _ & _ & Hap & _); rewrite cells_mid in Hap; by rewrite cells_cons.
Qed.

Lemma tailq_replace_dbg_ok m h l1 x l2 e : tailq m h (l1 ++ x :: l2) -> linkable h (l1 ++ x :: l2) e -> exists m',
  TAILQ_REPLACE_DBG h x e m = Ret m' /\ tailq m' h (l1 ++ e :: l2) /\ rd32 m' (tqe_next x) = POISON /\ rd32 m' (tqe_prev x) = POISON.
Proof.
  intros Ht He; eexists; split; [done|]; apply tailq_poison; [by apply tailq_replace_ok|].
  destruct He as (Hap & _); eapply apart_perm; [|exact Hap]; rewrite !cells_cons, !cells_mid; solve_Permutation.
Qed.

(** An element whose links are overwritten cannot be taken out again, unless
    the words behind the address 1 happen to look like its neighbours. *)
Lemma tailq_remove_poisoned m h x :
  rd32 m (tqe_next x) = POISON -> rd32 m (tqe_prev x) = POISON ->
  rd32 m (tqe_prev POISON) <> tqe_next x \/ rd32 m POISON <> x -> exists msg, TAILQ_REMOVE_DBG h x m = Halt msg.
Proof.
  intros Hn Hp Hw; unfold TAILQ_REMOVE_DBG, QUEUEDEBUG_TAILQ_PREREMOVE, QUEUEDEBUG_TAILQ_OP; rewrite Hn, Hp.
  rewrite check_ok by done.
  destruct (decide (rd32 m (tqe_prev POISON) = tqe_next x)) as [E|E].
  - destruct Hw as [?|Hw]; [done|]; rewrite check_ok by (by apply guard_eq).
    rewrite check_bad; [eauto|]; by apply negb_true_iff, Z.eqb_neq.
  - rewrite check_bad; [eauto|]; by apply guard_ne.
Qed.

(** Taking the last element of one queue out through the head of another. *)
Lemma tailq_remove_wrong_head m h l1 x h2 l2 :
  tailq m h (l1 ++ [x]) -> tailq m h2 l2 -> apart (cells h (l1 ++ [x]) ++ cells h2 l2) ->
  TAILQ_REMOVE_DBG h2 x m = Halt "TAILQ_PREREMOVE".
Proof.
  intros Ht Ht2 (Hn & _); apply NoDup_app in Hn as (_ & Hn & _).
  destruct (tailq_split _ _ _ _ _ _ Ht) as (r & q & _ & _ & _ & _ & Hs & Hq & _); cbn in Hs; subst q.
  apply check_bad, guard_ne; [by rewrite Hq|]; intros E; apply (Hn (tqe_next x)).
  - rewrite cells_mid; set_solver +.
  - rewrite <- E; by apply (tailq_end_in off m).
Qed.

(** C21: the checking TAILQ macros.  On a queue in memory no check fires:
    insertion does exactly what the plain macros do, removal and replacement
    give the same queues and leave the links of the element that was taken
    out at the address 1.  Misuse is stopped: a second removal of the element
    (unless the words at the address 1 imitate its neighbours), and the
    removal of the last element of a queue through the head of another. *)
Theorem queuedebug_tailq m h l :
  tailq m h l ->
  (forall e, TAILQ_INSERT_HEAD_DBG h e m = Ret (TAILQ_INSERT_HEAD off h e m) /\
     TAILQ_INSERT_TAIL_DBG h e m = Ret (TAILQ_INSERT_TAIL off h e m)) /\
  (forall l1 x l2, l = l1 ++ x :: l2 ->
     (forall e, TAILQ_INSERT_AFTER_DBG h x e m = Ret (TAILQ_INSERT_AFTER off h x e m) /\
        TAILQ_INSERT_BEFORE_DBG x e m = Ret (TAILQ_INSERT_BEFORE off x e m)) /\
     (exists m', TAILQ_REMOVE_DBG h x m = Ret m' /\ tailq m' h (l1 ++ l2) /\
        rd32 m' (tqe_next x) = POISON /\ rd32 m' (tqe_prev x) = POISON /\
        (rd32 m' (tqe_prev POISON) <> tqe_next x \/ rd32 m' POISON <> x ->
         exists msg, TAILQ_REMOVE_DBG h x m' = Halt msg)) /\
     (forall e, linkable h l e -> exists m', TAILQ_REPLACE_DBG h x e m = Ret m' /\ tailq m' h (l1 ++ e :: l2) /\
        rd32 m' (tqe_next x) = POISON /\ rd32 m' (tqe_prev x) = POISON)) /\
  (forall l1 x h2 l2, l = l1 ++ [x] -> tailq m h2 l2 -> apart (cells h l ++ cells h2 l2) ->
     TAILQ_REMOVE_DBG h2 x m = Halt "TAILQ_PREREMOVE").
Proof.
  intros Ht; split_and!.
  - intros e; pose proof Ht as (q & Hs & Hq & Hl & _); split; apply check_ok; [|by rewrite Hl, Hq].
    apply guard_eq; rewrite nonnull; destruct l as [|x l]; cbn in Hs; [by subst q|]; by destruct Hs as (-> & _ & ? & _).
  - intros l1 x l2 ->; split_and!.
    + intros e; split; by eapply tailq_op_ok.
    + destruct (tailq_remove_dbg_ok _ _ _ _ _ Ht) as (m' & ? & ? & ? & ?); exists m'; split_and!; [done..|].
      by apply tailq_remove_poisoned.
    + intros e He; by apply tailq_replace_dbg_ok.
  - intros l1 x h2 l2 -> Ht2 Hap; by eapply tailq_remove_wrong_head.
Qed.

End TailqDebug.

Lemma queuedebug_tailq_witness :
  (exists m', TAILQ_REMOVE_DBG 52 0x1000 0x2000 demo_q = Ret m' /\ tailq 52 m' 0x1000 [0x3000]) /\
  TAILQ_INSERT_TAIL_DBG 52 0x1000 0x4000 demo_q = Ret (TAILQ_INSERT_TAIL 52 0x1000 0x4000 demo_q).
Proof.
  destruct (queuedebug_tailq 52 demo_q 0x1000 [0x2000; 0x3000] demo_q_ok) as (Hi & Hx & _).
  destruct (Hx [] 0x2000 [0x3000] eq_refl) as (_ & (m' & Hm & Ht & _) & _).
  split; [exists m'; split; [exact Hm|exact Ht]|exact (proj2 (Hi 0x4000))].
Defined.

(** ** LIST *)

Section ListDebug.
Variable off : Z.
Local Abbreviation le_next := (le_next off).
Local Abbreviation le_prev := (le_prev off).
Local Abbreviation llist := (llist off).
Local Abbreviation lcells := (lcells off).
Local Abbreviation llinkable := (llinkable off).

Definition QUEUEDEBUG_LIST_INSERT_HEAD {A} (h : Z) (m : mem) (k : outcome A) : outcome A :=
  check (negb (rd32 m (lh_first h) =? NULL) && negb (rd32 m (le_prev (rd32 m (lh_first h))) =? lh_first h))
    "LIST_INSERT_HEAD" k.
Definition QUEUEDEBUG_LIST_OP {A} (e : Z) (m : mem) (k : outcome A) : outcome A :=
  check (negb (rd32 m (le_next e) =? NULL) && negb (rd32 m (le_prev (rd32 m (le_next e))) =? le_next e))
    "LIST_* forw" $
  check (negb (rd32 m (rd32 m (le_prev e)) =? e)) "LIST_* back" k.
Definition QUEUEDEBUG_LIST_POSTREMOVE (e : Z) (m : mem) : mem :=
  wr32 (wr32 m (le_next e) POISON) (le_prev e) POISON.

Definition LIST_INSERT_AFTER_DBG (x e : Z) (m : mem) : outcome mem :=
  QUEUEDEBUG_LIST_OP x m $ Ret (LIST_INSERT_AFTER off x e m).
Definition LIST_INSERT_BEFORE_DBG (x e : Z) (m : mem) : outcome mem :=
  QUEUEDEBUG_LIST_OP x m $ Ret (LIST_INSERT_BEFORE off x e m).
Definition LIST_INSERT_HEAD_DBG (h e : Z) (m : mem) : outcome mem :=
  QUEUEDEBUG_LIST_INSERT_HEAD h m $ Ret (LIST_INSERT_HEAD off h e m).
Definition LIST_REMOVE_DBG (e : Z) (m : mem) : outcome mem :=
  QUEUEDEBUG_LIST_OP e m $ Ret (QUEUEDEBUG_LIST_POSTREMOVE e (LIST_REMOVE off e m)).
Definition LIST_REPLACE_DBG (e e2 : Z) (m : mem) : outcome mem :=
  Ret (QUEUEDEBUG_LIST_POSTREMOVE e (LIST_REPLACE off e e2 m)).

Lemma llist_op_ok {A} m h l1 x l2 (k : outcome A) : llist m h (l1 ++ x :: l2) -> QUEUEDEBUG_LIST_OP x m k = k.
Proof.
  intros Ht; destruct (llist_split _ _ _ _ _ _ Ht) as (q & r & _ & Hr & Hx & _ & Hp & Hs & Hq & _).
  unfold QUEUEDEBUG_LIST_OP; rewrite !check_ok; [done| |].
  - by rewrite Hp, Hr, Z.eqb_refl.
  - apply guard_eq; rewrite nonnull; intros Hn.
    destruct l2 as [|y l2]; cbn in Hs; [subst q; congruence|]; by destruct Hs as (-> & _ & ? & _).
Qed.

Lemma llist_frame m m' h l : (forall a, a ∈ lcells h l -> rd32 m' a = rd32 m a) -> llist m h l -> llist m' h l.
Proof.
  intros Hf (q & Hs & Hq & Hap); exists q; pose proof (lcells_seg _ _ _ _ _ Hs) as Hp.
  assert (forall a, a ∈ q :: seg_cells off (lh_first h) l -> rd32 m' a = rd32 m a) as Hf' by (intros a; rewrite <- Hp; apply Hf).
  split_and!; [|rewrite Hf'; [done|set_solver +]|done].
  eapply seg_frame; [|exact Hs]; intros a Ha; apply Hf'; set_solver.
Qed.

Lemma llist_poison m h l e : llist m h l -> apart (le_next e :: le_prev e :: lcells h l) ->
  llist (QUEUEDEBUG_LIST_POSTREMOVE e m) h l /\
  rd32 (QUEUEDEBUG_LIST_POSTREMOVE e m) (le_next e) = POISON /\ rd32 (QUEUEDEBUG_LIST_POSTREMOVE e m) (le_prev e) = POISON.
Proof.
  intros Ht HL; pose proof poison_range; unfold QUEUEDEBUG_LIST_POSTREMOVE.
  pose proof (fun m' => llist_frame m m' h l) as Hf; remember (Lists.lcells off h l) as C eqn:EC; clear EC; cell_facts HL.
  split_and!; [apply Hf; [|done]; intros a Ha; rdw HL; done|rdw HL; done|rdw HL; done].
Qed.

(** The checking LIST macros: silent on a list, with the results of the plain
    ones; the links of an element that was taken out are 1, and taking it out
    again aborts.  LIST_MOVE leaves the first element pointing back at the old
    head ([list_move_stale]); the check of the next insertion at the new head
    finds it. *)
Theorem queuedebug_list m h l :
  llist m h l ->
  (forall e, LIST_INSERT_HEAD_DBG h e m = Ret (LIST_INSERT_HEAD off h e m)) /\
  (forall l1 x l2, l = l1 ++ x :: l2 ->
     (forall e, LIST_INSERT_AFTER_DBG x e m = Ret (LIST_INSERT_AFTER off x e m) /\
        LIST_INSERT_BEFORE_DBG x e m = Ret (LIST_INSERT_BEFORE off x e m)) /\
     (exists m', LIST_REMOVE_DBG x m = Ret m' /\ llist m' h (l1 ++ l2) /\
        (rd32 m' (le_prev POISON) <> le_next x \/ rd32 m' POISON <> x -> exists msg, LIST_REMOVE_DBG x m' = Halt msg)) /\
     (forall e, llinkable h l e -> exists m', LIST_REPLACE_DBG x e m = Ret m' /\ llist m' h (l1 ++ e :: l2))) /\
  (forall x l' h2 e, l = x :: l' -> apart (lh_first h2 :: lcells h l) ->
     LIST_INSERT_HEAD_DBG h2 e (LIST_MOVE h h2 m) = Halt "LIST_INSERT_HEAD").
Proof.
  intros Ht; split_and!.
  - intros e; pose proof Ht as (q & Hs & Hq & _); apply check_ok, guard_eq; rewrite nonnull.
    destruct l as [|x l]; cbn in Hs; [by subst q|]; by destruct Hs as (-> & _ & ? & _).
  - intros l1 x l2 ->; split_and!.
    + intros e; split; by eapply llist_op_ok.
    + destruct (llist_poison (LIST_REMOVE off x m) h (l1 ++ l2) x) as (? & Hn & Hp); [by apply llist_remove| |].
      { destruct Ht as (_ & _ & _ & Hap); by rewrite lcells_mid in Hap. }
      eexists; split_and!; [by eapply llist_op_ok|done|]; revert Hn Hp; generalize (QUEUEDEBUG_LIST_POSTREMOVE x (LIST_REMOVE off x m)).
      intros m' Hn Hp Hw; unfold LIST_REMOVE_DBG, QUEUEDEBUG_LIST_OP; rewrite Hn, Hp.
      destruct (decide (rd32 m' (le_prev POISON) = le_next x)) as [E|E].
      * destruct Hw as [?|Hw]; [done|]; rewrite check_ok, check_bad; [eauto| |by apply guard_eq]; by apply negb_true_iff, Z.eqb_neq.
      * rewrite check_bad; [eauto|]; by apply guard_ne.
    + intros e He; destruct (llist_poison (LIST_REPLACE off x e m) h (l1 ++ e :: l2) x) as (? & _); [by apply llist_replace| |by eexists].
      destruct He as (Hap & _); eapply apart_perm; [|exact Hap].
      unfold Lists.lcells; cbn; rewrite !flat_map_app; cbn; solve_Permutation.
  - intros x l' h2 e -> HL; destruct (llist_split _ _ _ [] _ _ Ht) as (q & r & Hs1 & Hr & Hxn & Hx & Hpv & _ & _ & Hp).
    cbn in Hs1; subst r; cbn [app] in Hp; rewrite Hp in HL; pose proof null_range.
    remember (q :: Tailq.seg_cells off (Lists.le_next off x) l' ++ Tailq.seg_cells off (lh_first h) []) as C eqn:EC; clear EC; cell_facts HL.
    unfold LIST_MOVE, LIST_EMPTY, LIST_INIT.
    assert (rd32 (wr32 m (lh_first h2) NULL) (lh_first h) = x) as -> by (rdw HL; done).
    rewrite (proj2 (Z.eqb_neq _ _) Hxn); cbn [negb]; apply check_bad, guard_ne.
    + apply nonnull; rdw HL; done.
    + assert (rd32 (wr32 (wr32 (wr32 m (lh_first h2) NULL) (lh_first h2) x) (lh_first h) NULL) (lh_first h2) = x) as -> by (rdw HL; done).
      rdw HL; congruence.
Qed.
End ListDebug.

Lemma queuedebug_list_witness :
  (exists m', LIST_REMOVE_DBG 4 0x2000 demo_l = Ret m' /\ llist 4 m' 0x1000 []) /\
  LIST_INSERT_HEAD_DBG 4 0x8000 0x3000 (LIST_MOVE 0x1000 0x8000 demo_l) = Halt "LIST_INSERT_HEAD".
Proof.
  destruct (queuedebug_list 4 _ _ _ demo_l_ok) as (_ & Hx & Hm).
  destruct (Hx [] 0x2000 [] eq_refl) as (_ & (m' & Hr & Ht & _) & _).
  split; [exists m'; split; [exact Hr|exact Ht]|].
  apply (Hm 0x2000 [] 0x8000 0x3000 eq_refl); apart_concrete.
Defined.

(** ** CIRCLEQ *)

Section CircleqDebug.
Variable off : Z.
Variable h : Z.
Local Abbreviation cqe_next := (cqe_next off).
Local Abbreviation cqe_prev := (cqe_prev off).
Local Abbreviation cqh_first := (cqh_first h).
Local Abbreviation cqh_last := (cqh_last h).
Local Abbreviation circleq := (circleq off h).

(** The head's address laundered through a register: the value is the same,
    the compiler just cannot know it. *)
Definition __launder_type (x : Z) : Z := x.
Definition CIRCLEQ_ENDC : Z := __launder_type h.

Definition QUEUEDEBUG_CIRCLEQ_HEAD {A} (m : mem) (k : outcome A) : outcome A :=
  check (negb (rd32 m cqh_first =? CIRCLEQ_ENDC) && negb (rd32 m (cqe_prev (rd32 m cqh_first)) =? CIRCLEQ_ENDC))
    "CIRCLEQ head forw" $
  check (negb (rd32 m cqh_last =? CIRCLEQ_ENDC) && negb (rd32 m (cqe_next (rd32 m cqh_last)) =? CIRCLEQ_ENDC))
    "CIRCLEQ head back" k.
Definition QUEUEDEBUG_CIRCLEQ_ELM {A} (e : Z) (m : mem) (k : outcome A) : outcome A :=
  (if rd32 m (cqe_next e) =? CIRCLEQ_ENDC
   then check (negb (rd32 m cqh_last =? e)) "CIRCLEQ elm last"
   else check (negb (rd32 m (cqe_prev (rd32 m (cqe_next e))) =? e)) "CIRCLEQ elm forw") $
  (if rd32 m (cqe_prev e) =? CIRCLEQ_ENDC
   then check (negb (rd32 m cqh_first =? e)) "CIRCLEQ elm first"
   else check (negb (rd32 m (cqe_next (rd32 m (cqe_prev e))) =? e)) "CIRCLEQ elm prev") k.
Definition QUEUEDEBUG_CIRCLEQ_POSTREMOVE (e : Z) (m : mem) : mem :=
  wr32 (wr32 m (cqe_next e) POISON) (cqe_prev e) POISON.

Definition CIRCLEQ_INSERT_AFTER_DBG (x e : Z) (m : mem) : outcome mem :=
  QUEUEDEBUG_CIRCLEQ_HEAD m $ QUEUEDEBUG_CIRCLEQ_ELM x m $ Ret (CIRCLEQ_INSERT_AFTER off h x e m).
Definition CIRCLEQ_INSERT_BEFORE_DBG (x e : Z) (m : mem) : outcome mem :=
  QUEUEDEBUG_CIRCLEQ_HEAD m $ QUEUEDEBUG_CIRCLEQ_ELM x m $ Ret (CIRCLEQ_INSERT_BEFORE off h x e m).
Definition CIRCLEQ_INSERT_HEAD_DBG (e : Z) (m : mem) : outcome mem :=
  QUEUEDEBUG_CIRCLEQ_HEAD m $ Ret (CIRCLEQ_INSERT_HEAD off h e m).
Definition CIRCLEQ_INSERT_TAIL_DBG (e : Z) (m : mem) : outcome mem :=
  QUEUEDEBUG_CIRCLEQ_HEAD m $ Ret (CIRCLEQ_INSERT_TAIL off h e m).
Definition CIRCLEQ_REMOVE_DBG (e : Z) (m : mem) : outcome mem :=
  QUEUEDEBUG_CIRCLEQ_HEAD m $ QUEUEDEBUG_CIRCLEQ_ELM e m $
  Ret (QUEUEDEBUG_CIRCLEQ_POSTREMOVE e (CIRCLEQ_REMOVE off h e m)).

Lemma circleq_head_ok {A} m l (k : outcome A) : circleq m l -> QUEUEDEBUG_CIRCLEQ_HEAD m k = k.
Proof.
  intros Hc; pose proof Hc as ([Hf Hl]%path_ends & [Hh _]%NoDup_cons & _); rewrite cnext_h in Hf; rewrite cprev_h in Hl.
  unfold QUEUEDEBUG_CIRCLEQ_HEAD, CIRCLEQ_ENDC, __launder_type; rewrite Hf, Hl, !check_ok; [done| |].
  - apply guard_eq; destruct l as [|x l _] using rev_ind; [by rewrite Z.eqb_refl|]; rewrite last_snoc; intros _.
    change (default h (Some x)) with x.
    by destruct (circleq_neighbours _ _ _ _ _ _ Hc).
  - apply guard_eq; destruct l as [|x l]; [by rewrite Z.eqb_refl|]; intros _.
    change (default h (head (x :: l))) with x.
    by destruct (circleq_neighbours _ _ _ [] _ _ Hc) as (_ & ? & _).
Qed.

Lemma circleq_elm_ok {A} m l1 x l2 (k : outcome A) : circleq m (l1 ++ x :: l2) -> QUEUEDEBUG_CIRCLEQ_ELM x m k = k.
Proof.
  intros Hc; destruct (circleq_neighbours _ _ _ _ _ _ Hc) as (Hn & Hp & Hx).
  pose proof Hc as ([Hf Hl]%path_ends & [Hh _]%NoDup_cons & _); rewrite cnext_h in Hf; rewrite cprev_h in Hl.
  unfold QUEUEDEBUG_CIRCLEQ_ELM, CIRCLEQ_ENDC, __launder_type; rewrite Hn, Hp.
  assert (forall k : outcome A, (if default h (head l2) =? h then check (negb (rd32 m cqh_last =? x)) "CIRCLEQ elm last"
     else check (negb (rd32 m (cqe_prev (default h (head l2))) =? x)) "CIRCLEQ elm forw") k = k) as ->.
  { intros k'; destruct l2 as [|y l2]; [change (default h (head [])) with h|change (default h (head (y :: l2))) with y].
    - rewrite Z.eqb_refl, check_ok; [done|]; by rewrite Hl, last_snoc, Z.eqb_refl.
    - rewrite (proj2 (Z.eqb_neq y h)) by set_solver; rewrite check_ok; [done|].
      rewrite (cons_middle x), (app_assoc l1 [x]) in Hc; destruct (circleq_neighbours _ _ _ _ _ _ Hc) as (_ & -> & _).
      by rewrite last_snoc, Z.eqb_refl. }
  destruct l1 as [|y l1 _] using rev_ind; [change (default h (last [])) with h|rewrite last_snoc; change (default h (Some y)) with y].
  - rewrite Z.eqb_refl, check_ok; [done|]; by rewrite Hf, Z.eqb_refl.
  - rewrite (proj2 (Z.eqb_neq y h)) by set_solver; rewrite check_ok; [done|].
    rewrite <- app_assoc in Hc; cbn [app] in Hc; destruct (circleq_neighbours _ _ _ _ _ _ Hc) as (-> & _).
    change (default h (head (x :: l2))) with x; by rewrite Z.eqb_refl.
Qed.

Lemma circleq_poison m l e : circleq m l -> apart (ccells off h (e :: h :: l)) -> e ∉ h :: l ->
  circleq (QUEUEDEBUG_CIRCLEQ_POSTREMOVE e m) l /\
  rd32 (QUEUEDEBUG_CIRCLEQ_POSTREMOVE e m) (cqe_next e) = POISON /\
  rd32 (QUEUEDEBUG_CIRCLEQ_POSTREMOVE e m) (cqe_prev e) = POISON.
Proof.
  intros (Hp & Hn & Hap) HA He; pose proof poison_range; unfold QUEUEDEBUG_CIRCLEQ_POSTREMOVE.
  assert (e <> h) as Heh by set_solver; rewrite <- (cnext_e off h e), <- (cprev_e off h e) by done.
  assert (e ∈ e :: h :: l) as Hin by set_solver +.
  assert (forall y, y ∈ h :: l -> y ∈ e :: h :: l /\ e <> y) as Hup by (intros y Hy; split; [set_solver|by intros ->]).
  split_and!.
  - split_and!; [|done|done]; eapply path_frame; [| |exact Hp].
    + intros y Hy; destruct (Hup y Hy) as [Hi Hne].
      rewrite (prev_next _ _ _ HA), (next_next _ _ _ HA) by done; by rewrite decide_False.
    + intros y Hy; destruct (Hup y) as [Hi Hne]; [set_solver|].
      rewrite (prev_prev _ _ _ HA), (next_prev _ _ _ HA) by done; by rewrite decide_False.
  - rewrite (prev_next _ _ _ HA), (next_next _ _ _ HA) by done; by rewrite decide_True.
  - rewrite (prev_prev _ _ _ HA) by done; by rewrite decide_True.
Qed.

(** The checking CIRCLEQ macros: silent on a ring, with the results of the
    plain ones; the links of an element that was taken out are 1, and taking
    it out again aborts. *)
Theorem queuedebug_circleq m l :
  circleq m l ->
  (forall e, CIRCLEQ_INSERT_HEAD_DBG e m = Ret (CIRCLEQ_INSERT_HEAD off h e m) /\
     CIRCLEQ_INSERT_TAIL_DBG e m = Ret (CIRCLEQ_INSERT_TAIL off h e m)) /\
  (forall l1 x l2, l = l1 ++ x :: l2 ->
     (forall e, CIRCLEQ_INSERT_AFTER_DBG x e m = Ret (CIRCLEQ_INSERT_AFTER off h x e m) /\
        CIRCLEQ_INSERT_BEFORE_DBG x e m = Ret (CIRCLEQ_INSERT_BEFORE off h x e m)) /\
     (exists m', CIRCLEQ_REMOVE_DBG x m = Ret m' /\ circleq m' (l1 ++ l2) /\
        rd32 m' (cqe_next x) = POISON /\ rd32 m' (cqe_prev x) = POISON /\
        (h <> POISON -> rd32 m' (cqe_prev POISON) <> x \/ rd32 m' (cqe_next POISON) <> x ->
         exists msg, CIRCLEQ_REMOVE_DBG x m' = Halt msg))).
Proof.
  intros Hc; split.
  { intros e; split; by eapply circleq_head_ok. }
  intros l1 x l2 ->; split.
  { intros e; unfold CIRCLEQ_INSERT_AFTER_DBG, CIRCLEQ_INSERT_BEFORE_DBG; rewrite !(circleq_head_ok _ _ _ Hc).
    by rewrite !(circleq_elm_ok _ _ _ _ _ Hc). }
  assert ((x ∉ h :: l1 ++ l2) /\ apart (ccells off h (x :: h :: l1 ++ l2))) as [Hx HA].
  { destruct Hc as (_ & Hn & Hap); split.
    - rewrite <- Permutation_middle, Permutation_swap, NoDup_cons in Hn; tauto.
    - eapply apart_perm; [|exact Hap]; unfold ccells; cbn; rewrite !flat_map_app; cbn; solve_Permutation. }
  destruct (circleq_poison (CIRCLEQ_REMOVE off h x m) (l1 ++ l2) x) as (Hr & Hn & Hp); [by apply circleq_remove|done|done|].
  exists (QUEUEDEBUG_CIRCLEQ_POSTREMOVE x (CIRCLEQ_REMOVE off h x m)); split_and!; [|done..|].
  { unfold CIRCLEQ_REMOVE_DBG; by rewrite (circleq_head_ok _ _ _ Hc), (circleq_elm_ok _ _ _ _ _ Hc). }
  revert Hr Hn Hp; generalize (QUEUEDEBUG_CIRCLEQ_POSTREMOVE x (CIRCLEQ_REMOVE off h x m)); intros m' Hr Hn Hp Hh Hw.
  unfold CIRCLEQ_REMOVE_DBG, QUEUEDEBUG_CIRCLEQ_ELM, CIRCLEQ_ENDC, __launder_type.
  rewrite (circleq_head_ok _ _ _ Hr), Hn, Hp, (proj2 (Z.eqb_neq POISON h)) by done.
  destruct (decide (rd32 m' (cqe_prev POISON) = x)) as [E|E].
  - destruct Hw as [?|Hw]; [done|]; rewrite check_ok, check_bad; [eauto| |by rewrite E, Z.eqb_refl]; by apply negb_true_iff, Z.eqb_neq.
  - rewrite check_bad; [eauto|]; by apply negb_true_iff, Z.eqb_neq.
Qed.
End CircleqDebug.
