(* ===== verification/Foreach.v ===== *)
(** * Foreach: traversals with a body, and static initializers, of queue.h

    The _FOREACH_SAFE macros read the neighbour of an element before the body
    runs on it, so that the body may unlink the element, free it, or reuse
    its links.  [foreach_safe] is that loop; the macros differ in where it
    starts and which neighbour it reads.  The _HEAD_INITIALIZER macros give
    the words of an empty head at compile time. *)
From S2P Require Import Prelude Mem Cells Tailq TailqOps Queues Lists Circleq.

(** ** The loop *)

(** [body] may change the memory and an accumulated state, and says whether
    to go on ([false] is [break]).  [None]: not done within [fuel] rounds. *)
Fixpoint foreach_safe {A} (next : Z -> mem -> Z) (fuel : nat) (body : Z -> mem * A -> bool * (mem * A)) (var : Z)
    (s : mem * A) : option (mem * A) :=
  if var =? NULL then Some s
  else match fuel with
       | O => None
       | S fuel =>
           let tvar := next var (fst s) in
           let '(more, s) := body var s in
           if (more : bool) then foreach_safe next fuel body tvar s else Some s
       end.

(** The elements from [var] on, as [next] finds them. *)
Fixpoint visits (next : Z -> mem -> Z) (m : mem) (var : Z) (l : list Z) : Prop :=
  match l with [] => var = NULL | e :: l => var = e /\ e <> NULL /\ visits next m (next e m) l end.

Lemma visits_frame next m m' var l :
  (forall y, y ∈ l -> next y m' = next y m) -> visits next m var l -> visits next m' var l.
Proof.
  revert var; induction l as [|e l IH]; intros var Hf; [done|]; cbn [visits]; intros (? & ? & Hv); split_and!; [done..|].
  rewrite Hf by set_solver +; apply IH; [|done]; intros y Hy; apply Hf; set_solver.
Qed.

(** Whatever the body does to the element it is given and to the rest of the
    memory: as long as it does not change the neighbours of the elements that
    are still to come, the loop ends and has run the body once for every
    element, in order. *)
Lemma foreach_safe_visits {A} next (body : Z -> mem * A -> bool * (mem * A)) l var s fuel :
  visits next (fst s) var l -> (length l <= fuel)%nat ->
  (forall l1 e l2 s, l = l1 ++ e :: l2 ->
     fst (body e s) = true /\ forall y, y ∈ l2 -> next y (fst (snd (body e s))) = next y (fst s)) ->
  foreach_safe next fuel body var s = Some (foldl (fun s e => snd (body e s)) s l).
Proof.
  revert var s fuel; induction l as [|e l IH]; intros var s fuel Hv Hf Hb; cbn [visits] in Hv.
  { subst var; by destruct fuel. }
  destruct Hv as (-> & Hne & Hv); destruct fuel as [|fuel]; cbn [length] in Hf; [lia|].
  cbn [foreach_safe foldl]; rewrite (proj2 (Z.eqb_neq _ _) Hne).
  destruct (Hb [] e l s eq_refl) as [Hm Hk]; destruct (body e s) as [more s'] eqn:E; cbn in Hm, Hk; subst more; cbn [snd].
  apply IH; [|lia|].
  - eapply visits_frame; [|exact Hv]; exact Hk.
  - intros l1 y l2 s0 ->; by apply (Hb (e :: l1)).
Qed.

(** A body that collects the elements and overwrites their link at [link]
    (the element is freed, or put on another queue). *)
Definition clobber (link : Z -> Z) (v e : Z) (s : mem * list Z) : bool * (mem * list Z) :=
  (true, (wr32 (fst s) (link e) v, snd s ++ [e])).

Lemma clobber_fold link v l s : snd (foldl (fun s e => snd (clobber link v e s)) s l) = snd s ++ l.
Proof.
  revert s; induction l as [|e l IH]; intros s; cbn [foldl]; [by rewrite app_nil_r|]; rewrite IH; cbn; by rewrite <- app_assoc.
Qed.

(** With the links as distinct objects, the loop visits them all. *)
Lemma foreach_safe_clobber (link : Z -> Z) v l var m fuel :
  visits (fun e m => rd32 m (link e)) m var l -> apart (link <$> l) -> (length l <= fuel)%nat ->
  exists m', foreach_safe (fun e m => rd32 m (link e)) fuel (clobber link v) var (m, []) = Some (m', l).
Proof.
  intros Hv Hap Hf; eexists; rewrite (foreach_safe_visits _ _ l); [|done|done|].
  - by rewrite (surjective_pairing (foldl _ _ l)), clobber_fold.
  - intros l1 e l2 s ->; split; [done|]; intros y Hy; cbn.
    rewrite fmap_app, fmap_cons in Hap; apply apart_sub in Hap.
    apply (rd32_wr32_apart _ _ _ _ _ Hap); [set_solver +|set_solver|].
    destruct Hap as ([Hn _]%NoDup_cons & _); intros E; apply Hn; rewrite E; set_solver.
Qed.

(** ** The macros *)

Section Foreach.
Variable off : Z.

Definition SLIST_FOREACH_SAFE {A} fuel (body : Z -> mem * A -> bool * (mem * A)) (h : Z) (s : mem * A) : option (mem * A) :=
  foreach_safe (SLIST_NEXT off) fuel body (SLIST_FIRST h (fst s)) s.
Definition LIST_FOREACH_SAFE {A} fuel (body : Z -> mem * A -> bool * (mem * A)) (h : Z) (s : mem * A) : option (mem * A) :=
  foreach_safe (LIST_NEXT off) fuel body (LIST_FIRST h (fst s)) s.
Definition SIMPLEQ_FOREACH_SAFE {A} fuel (body : Z -> mem * A -> bool * (mem * A)) (h : Z) (s : mem * A) : option (mem * A) :=
  foreach_safe (SIMPLEQ_NEXT off) fuel body (SIMPLEQ_FIRST h (fst s)) s.
Definition STAILQ_FOREACH_SAFE {A} fuel (body : Z -> mem * A -> bool * (mem * A)) (h : Z) (s : mem * A) : option (mem * A) :=
  foreach_safe (STAILQ_NEXT off) fuel body (STAILQ_FIRST h (fst s)) s.
Definition TAILQ_FOREACH_REVERSE_SAFE {A} fuel (body : Z -> mem * A -> bool * (mem * A)) (h : Z) (s : mem * A) : option (mem * A) :=
  foreach_safe (TAILQ_PREV off) fuel body (TAILQ_LAST h (fst s)) s.

(** TAILQ_FOREACH_SAFE of TailqOps.v is the same loop. *)
Lemma tailq_foreach_safe_eq {A} fuel (body : Z -> mem * A -> bool * (mem * A)) var s :
  tailq_foreach_safe off fuel body var s = foreach_safe (TAILQ_NEXT off) fuel body var s.
Proof.
  revert var s; induction fuel as [|fuel IH]; intros var s; cbn; [done|]; destruct (var =? NULL); [done|].
  destruct (body var s) as [[] ?]; [apply IH|done].
Qed.

Lemma sseg_visits m p l q : sseg off m p l q -> rd32 m q = NULL ->
  visits (fun e m => rd32 m (e + off)) m (rd32 m p) l.
Proof.
  revert p; induction l as [|e l IH]; intros p; cbn [sseg visits]; [by intros ->|].
  intros (He & Hne & Hs) Hq; split_and!; [done|done|by apply IH].
Qed.
Lemma seg_sseg m p l q : seg off m p l q -> sseg off m p l q.
Proof.
  revert p; induction l as [|e l IH]; intros p; cbn [seg sseg]; [done|]; intros (? & ? & _ & ?); split_and!; [done..|by apply IH].
Qed.
Lemma apart_links (h : list Z) l (C : list Z) : apart C -> C ≡ₚ h ++ ((fun e => e + off) <$> l) -> apart ((fun e => e + off) <$> l).
Proof. intros HC Hp; rewrite Hp in HC; by apply apart_sub in HC. Qed.
Lemma pair_links l : flat_map (fun e => [e + off; e + off + 4]) l ≡ₚ ((fun e => e + off + 4) <$> l) ++ ((fun e => e + off) <$> l).
Proof. induction l as [|e l IH]; cbn; [done|]; rewrite IH; solve_Permutation. Qed.

(** The safe traversals: on a list or queue in memory, with a body that
    overwrites the link of the element it is given, the loop ends and has
    visited exactly the elements, in order (STAILQ and SIMPLEQ share their
    layout). *)
Theorem foreach_safe_ok m h l v fuel :
  (length l <= fuel)%nat ->
  (slist off m h l -> exists m', SLIST_FOREACH_SAFE fuel (clobber (sle_next off) v) h (m, []) = Some (m', l)) /\
  (llist off m h l -> exists m', LIST_FOREACH_SAFE fuel (clobber (le_next off) v) h (m, []) = Some (m', l)) /\
  (simpleq off m h l ->
     (exists m', SIMPLEQ_FOREACH_SAFE fuel (clobber (sqe_next off) v) h (m, []) = Some (m', l)) /\
     (exists m', STAILQ_FOREACH_SAFE fuel (clobber (stqe_next off) v) h (m, []) = Some (m', l))) /\
  (tailq off m h l -> exists m', TAILQ_FOREACH_SAFE off fuel (clobber (tqe_next off) v) h (m, []) = Some (m', l)).
Proof.
  intros Hf; split_and!.
  - intros [(q & Hs & Hq)%schain_sseg Hap]; apply foreach_safe_clobber; [by apply (sseg_visits _ _ _ q)| |done].
    by apply (apart_sub [slh_first h]).
  - intros (q & Hs & Hq & Hap); apply foreach_safe_clobber; [apply (sseg_visits _ _ _ q); [by apply seg_sseg|done]| |done].
    apply (apart_links (lh_first h :: ((fun e => e + off + 4) <$> l)) l _ Hap); unfold lcells; by rewrite (pair_links l).
  - intros (q & Hs & Hq & Hl & Hap).
    assert (apart ((fun e => e + off) <$> l)) as HA by (by apply (apart_sub [sqh_last h; sqh_first h])).
    split; (apply foreach_safe_clobber; [by apply (sseg_visits _ _ _ q)|done|done]).
  - intros (q & Hs & Hq & Hl & Hap & _); unfold TAILQ_FOREACH_SAFE; rewrite tailq_foreach_safe_eq.
    apply foreach_safe_clobber; [apply (sseg_visits _ _ _ q); [by apply seg_sseg|done]| |done].
    apply (apart_links (tqh_last h :: tqh_first h :: ((fun e => e + off + 4) <$> l)) l _ Hap); unfold cells; by rewrite (pair_links l).
Qed.

Lemma tailq_purge_reverse_ok (P : Z -> bool) h rest kept m acc fuel :
  tailq off m h (rest ++ kept) -> (length rest <= fuel)%nat ->
  exists m', foreach_safe (TAILQ_PREV off) fuel (purge_body off P h) (default NULL (last rest)) (m, acc) =
      Some (m', acc ++ filter (fun e => P e = true) (reverse rest)) /\
    tailq off m' h (filter (fun e => P e = false) rest ++ kept).
Proof.
  revert kept m acc fuel; induction rest as [|e rest IH] using rev_ind; intros kept m acc fuel Ht Hf.
  { exists m; rewrite !app_nil_r; split; [by destruct fuel|done]. }
  rewrite length_app in Hf; cbn [length] in Hf; destruct fuel as [|fuel]; [lia|]; rewrite <- app_assoc in Ht; cbn [app] in Ht.
  destruct (tailq_split _ _ _ _ _ _ Ht) as (r & q & _ & _ & Hne & _).
  rewrite last_snoc, reverse_app; cbn [default from_option id foreach_safe].
  rewrite (proj2 (Z.eqb_neq _ _) Hne); cbn [purge_body fst snd]; rewrite (tailq_prev_ok _ _ _ _ _ _ Ht), !filter_app, reverse_singleton.
  destruct (P e) eqn:E.
  - apply tailq_remove_ok in Ht.
    destruct (IH kept _ (acc ++ [e]) fuel Ht ltac:(lia)) as (m' & Hm & Hk); exists m'.
    rewrite filter_cons_True, filter_cons_False, filter_nil, app_nil_r by (rewrite E; done); by rewrite Hm, <- app_assoc.
  - destruct (IH (e :: kept) m acc fuel Ht ltac:(lia)) as (m' & Hm & Hk); exists m'.
    rewrite filter_cons_False, filter_cons_True, filter_nil, <- app_assoc by (rewrite E; done); by rewrite Hm.
Qed.

(** A traversal with TAILQ_FOREACH_REVERSE_SAFE whose body removes elements
    visits the whole queue backwards and leaves exactly the others. *)
Theorem tailq_foreach_reverse_safe_ok (P : Z -> bool) m h l fuel :
  tailq off m h l -> (length l <= fuel)%nat ->
  exists m', TAILQ_FOREACH_REVERSE_SAFE fuel (purge_body off P h) h (m, []) =
      Some (m', filter (fun e => P e = true) (reverse l)) /\
    tailq off m' h (filter (fun e => P e = false) l).
Proof.
  intros Ht Hf; pose proof Ht as (z & Hs & Hz & Hl & _); unfold TAILQ_FOREACH_REVERSE_SAFE, TAILQ_LAST; cbn [fst].
  rewrite Hl, (seg_last off m h l z z) by done.
  rewrite <- (app_nil_r l) in Ht; destruct (tailq_purge_reverse_ok P h l [] m [] fuel Ht Hf) as (m' & Hm & Hk).
  exists m'; by rewrite app_nil_r in Hk.
Qed.

(** ** Static initializers *)

(** The words of the head at [h], as the compiler lays them out. *)
Definition SLIST_HEAD_INITIALIZER (h : Z) : list Z := [NULL].
Definition LIST_HEAD_INITIALIZER (h : Z) : list Z := [NULL].
Definition SIMPLEQ_HEAD_INITIALIZER (h : Z) : list Z := [NULL; sqh_first h].
Definition TAILQ_HEAD_INITIALIZER (h : Z) : list Z := [NULL; tqh_first h].
Definition STAILQ_HEAD_INITIALIZER (h : Z) : list Z := [NULL; stqh_first h].
Definition CIRCLEQ_HEAD_INITIALIZER (h : Z) : list Z := [h; h].

(** The data section holds the words [ws] from [h] on. *)
Definition initialized (m : mem) (h : Z) (ws : list Z) : Prop := map (fun i => rd32 m (h + 4 * Z.of_nat i)) (seq 0 (length ws)) = ws.

Lemma head_apart h : 0 <= h -> h + 4 < 2 ^ 32 -> apart [h + 4; h].
Proof.
  intros; split_and!; [|intros a b; rewrite !elem_of_cons, !elem_of_nil; lia|rewrite !Forall_cons; unfold urange; split_and!; [lia..|done]].
  repeat constructor; rewrite ?elem_of_cons, ?elem_of_nil; lia.
Qed.

(** A statically initialized head is an empty list, queue or ring, as after
    the _INIT macro. *)
Theorem initializers_ok m h :
  0 <= h -> h + 4 < 2 ^ 32 ->
  (initialized m h (SLIST_HEAD_INITIALIZER h) -> slist off m h []) /\
  (initialized m h (LIST_HEAD_INITIALIZER h) -> llist off m h []) /\
  (initialized m h (SIMPLEQ_HEAD_INITIALIZER h) -> simpleq off m h []) /\
  (initialized m h (STAILQ_HEAD_INITIALIZER h) -> simpleq off m h []) /\
  (initialized m h (TAILQ_HEAD_INITIALIZER h) -> tailq off m h []) /\
  (initialized m h (CIRCLEQ_HEAD_INITIALIZER h) -> circleq off h m []).
Proof.
  intros H0 H1; pose proof (head_apart h H0 H1) as HA; pose proof (apart_sub [h + 4] [h] HA) as HA1.
  unfold initialized; cbn [length seq map SLIST_HEAD_INITIALIZER LIST_HEAD_INITIALIZER SIMPLEQ_HEAD_INITIALIZER
    STAILQ_HEAD_INITIALIZER TAILQ_HEAD_INITIALIZER CIRCLEQ_HEAD_INITIALIZER].
  replace (h + 4 * Z.of_nat 0) with h by lia; replace (h + 4 * Z.of_nat 1) with (h + 4) by lia.
  split_and!; intros [=].
  - by split.
  - by exists h.
  - by exists h.
  - by exists h.
  - exists h; split_and!; [done..|constructor].
  - split_and!; [|apply NoDup_singleton|].
    + cbn; unfold link; by rewrite cnext_h, cprev_h.
    + unfold ccells; cbn; rewrite cnext_h, cprev_h; by rewrite Permutation_swap.
Qed.
End Foreach.
