(* ===== verification/SchedMem.v ===== *)
(** * SchedMem: the scheduler over thread structures in memory

    Sched.v keeps the thread structures in a map and its queues as lists.
    Here the same functions of sched.c work on the bytes: the fields at their
    offsets in [struct bmk_thread], the queues [threads] and [zombies] linked
    with the macros of queue.h.  The theorem at the end is the refinement
    between the two. *)
From S2P Require Import Prelude Mem Cells Tailq TailqOps Iface Sched SchedThms.

(** ** What the queue macros leave alone *)

(** [m'] is [m] after stores to words of [C]. *)
Definition writes (C : list Z) : mem -> mem -> Prop := rtc (fun m m' => exists a v, a ∈ C /\ m' = wr32 m a v).

Lemma writes_refl C m : writes C m m.
Proof. apply rtc_refl. Qed.
Lemma writes_trans C m1 m2 m3 : writes C m1 m2 -> writes C m2 m3 -> writes C m1 m3.
Proof. intros H1 H2; by etrans. Qed.
Lemma writes_wr C m m' a v : a ∈ C -> writes C m m' -> writes C m (wr32 m' a v).
Proof. intros Ha Hw; eapply rtc_r; [exact Hw|]; by exists a, v. Qed.
Lemma writes_mono C C' m m' : C ⊆ C' -> writes C m m' -> writes C' m m'.
Proof. intros Hs; apply rtc_subrel; intros x y (a & v & Ha & ->); exists a, v; split; [by apply Hs|done]. Qed.
Lemma writes_byte C m m' x : writes C m m' -> (forall a, a ∈ C -> x < a \/ a + 4 <= x) -> rd8 m' x = rd8 m x.
Proof.
  intros Hw Hx; induction Hw as [|m1 m2 m3 (a & v & Ha & ->) _ IH]; [done|].
  rewrite IH; apply rd8_wr32_ne; destruct (Hx a Ha); lia.
Qed.
(** Words outside [C] keep their values, when all words are distinct objects
    of [L]. *)
Lemma writes_frame C L m m' a : writes C m m' -> apart L -> C ⊆ L -> a ∈ L -> a ∉ C -> rd32 m' a = rd32 m a.
Proof.
  intros Hw HL Hsub Ha Hna; induction Hw as [|m1 m2 m3 (w & v & Hwi & ->) _ IH]; [done|].
  rewrite IH; apply (rd32_wr32_apart _ _ _ _ _ HL); [by apply Hsub|done|congruence].
Qed.
#[export] Hint Resolve writes_refl : bmk.

Section Frames.
Variable off : Z.
Local Abbreviation tailq := (tailq off).
Local Abbreviation cells := (cells off).

Lemma insert_tail_writes m h l e :
  tailq m h l -> linkable off h l e -> writes (cells h (e :: l)) m (TAILQ_INSERT_TAIL off h e m).
Proof.
  intros Ht (Hap & He & Hne); pose proof (tailq_end_in off m h l _ Ht eq_refl) as Hq.
  pose proof (cells_cons off h e l) as Hp.
  assert (forall w, w ∈ cells h l -> w ∈ cells h (e :: l)) as Hup by (intros w; rewrite Hp; set_solver +).
  assert (tqe_next off e ∈ cells h (e :: l) /\ tqe_prev off e ∈ cells h (e :: l) /\ tqh_last h ∈ cells h (e :: l)) as (I1 & I2 & I3)
    by (rewrite Hp; unfold Tailq.cells; set_solver +).
  assert (tqe_next off e <> tqh_last h /\ tqe_prev off e <> tqh_last h) as [N1 N2].
  { rewrite Hp in Hap; destruct Hap as (Hn & _); unfold Tailq.cells in Hn; rewrite !NoDup_cons, !not_elem_of_cons in Hn; naive_solver. }
  assert (forall v, rd32 (wr32 m (tqe_next off e) v) (tqh_last h) = rd32 m (tqh_last h)) as E1
    by (intros; by apply (rd32_wr32_apart _ _ _ _ _ Hap)).
  assert (forall v w, rd32 (wr32 (wr32 m (tqe_next off e) v) (tqe_prev off e) w) (tqh_last h) = rd32 m (tqh_last h)) as E2
    by (intros; rewrite <- (E1 v); by apply (rd32_wr32_apart _ _ _ _ _ Hap)).
  unfold TAILQ_INSERT_TAIL; rewrite E1, E2; repeat (apply writes_wr; [by auto|]); apply writes_refl.
Qed.

Lemma insert_head_writes m h l e :
  tailq m h l -> linkable off h l e -> writes (cells h (e :: l)) m (TAILQ_INSERT_HEAD off h e m).
Proof.
  intros (q & Hs & Hq & Hl & _ & Hr) (Hap & He & Hne); pose proof null_range; pose proof (cells_cons off h e l) as Hp.
  assert (tqe_next off e ∈ cells h (e :: l) /\ tqe_prev off e ∈ cells h (e :: l) /\ tqh_last h ∈ cells h (e :: l) /\
    tqh_first h ∈ cells h (e :: l)) as (I1 & I2 & I3 & I4) by (rewrite Hp; unfold Tailq.cells; set_solver +).
  assert (tqe_next off e <> tqh_first h) as N1.
  { rewrite Hp in Hap; destruct Hap as (Hn & _); unfold Tailq.cells in Hn; rewrite !NoDup_cons, !not_elem_of_cons in Hn; naive_solver. }
  assert (forall v, rd32 (wr32 m (tqe_next off e) v) (tqh_first h) = rd32 m (tqh_first h)) as E1
    by (intros; by apply (rd32_wr32_apart _ _ _ _ _ Hap)).
  unfold TAILQ_INSERT_HEAD; rewrite E1; pose proof (seg_head _ _ _ _ _ Hs Hq) as Hh; rewrite Hh.
  rewrite rd32_wr32_val by (rewrite <- Hh; apply rd32_range).
  destruct l as [|y l]; cbn [head default from_option id].
  - change (negb (NULL =? NULL)) with false; cbv iota; repeat (apply writes_wr; [done|]); apply writes_refl.
  - destruct Hs as (_ & Hy & _); rewrite (proj2 (Z.eqb_neq _ _) Hy); cbn [negb].
    do 2 (apply writes_wr; [done|]); apply writes_wr; [|apply writes_wr; [done|apply writes_refl]].
    rewrite Hp; unfold Tailq.cells; cbn [flat_map app]; set_solver +.
Qed.

Lemma remove_writes m h l1 e l2 :
  tailq m h (l1 ++ e :: l2) -> writes (cells h (l1 ++ e :: l2)) m (TAILQ_REMOVE off h e m).
Proof.
  intros Ht; destruct (tailq_split _ _ _ _ _ _ Ht) as (r & q & Hs1 & Hr & Hne & Hpv & Hs2 & Hq & Hl & _ & _ & Hp).
  destruct Ht as (_ & _ & _ & _ & Hap & _).
  assert (forall w, w ∈ cells h (l1 ++ e :: l2) -> w <> tqe_prev off e -> forall v,
    rd32 (wr32 m w v) (tqe_prev off e) = r) as Hpe.
  { intros w Hwi Hwn v; rewrite <- Hpv; apply (rd32_wr32_apart _ _ _ _ _ Hap); [done|rewrite Hp; set_solver +|done]. }
  assert (r ∈ cells h (l1 ++ e :: l2) /\ tqh_last h ∈ cells h (l1 ++ e :: l2)) as [Ir Il] by (rewrite Hp; set_solver +).
  unfold TAILQ_REMOVE; rewrite (seg_head _ _ _ _ _ Hs2 Hq), Hpv.
  rewrite Hp in Hap; destruct Hap as (Hn & _); rewrite !NoDup_cons, !not_elem_of_cons in Hn.
  destruct l2 as [|y l2]; cbn [head default from_option id].
  - change (negb (NULL =? NULL)) with false; cbv iota; rewrite Hpe by (done || naive_solver).
    repeat (apply writes_wr; [done|]); apply writes_refl.
  - destruct Hs2 as (_ & Hy & _); rewrite (proj2 (Z.eqb_neq _ _) Hy); cbn [negb Tailq.seg_cells app] in *.
    assert (tqe_prev off y ∈ cells h (l1 ++ e :: y :: l2)) as Iy by (rewrite Hp; set_solver +).
    rewrite !not_elem_of_cons in Hn; rewrite Hpe by (done || naive_solver).
    repeat (apply writes_wr; [done|]); apply writes_refl.
Qed.
End Frames.

(** ** The functions of sched.c on memory *)

(** A 64-bit signed time in memory. *)
Definition ld64 (m : mem) (a : Z) : Z := i64 (rd32 m a + 2 ^ 32 * rd32 m (a + 4)).
Definition st64 (m : mem) (a v : Z) : mem := wr32 (wr32 m a v) (a + 4) (Z.shiftr v 32).

(** [struct bmk_thread] at its i386 offsets; the TAILQ_ENTRY is at 52. *)
Definition bt_entries : Z := 52.
Definition name_bytes (w : Z) : list Z := [w mod 256; w / 256 mod 256; w / 65536 mod 256; w / 16777216 mod 256].
Definition load_thread (m : mem) (t : Z) : bmk_thread :=
  BmkThread (name_bytes (rd32 m t) ++ name_bytes (rd32 m (t + 4)) ++ name_bytes (rd32 m (t + 8)) ++ name_bytes (rd32 m (t + 12)))
    [rd32 m (t + 16); rd32 m (t + 20)] (ld64 m (t + 24)) (i32 (rd32 m (t + 32))) (i32 (rd32 m (t + 36)))
    (rd32 m (t + 40)) (rd32 m (t + 44)) (rd32 m (t + 48)).

Section SchedMem.
(** The addresses of [threads], [zombies] and [current_thread]. *)
Variables THREADS ZOMBIES CURRENT : Z.

Definition mem_flags (t : Z) (m : mem) : Z := i32 (rd32 m (t + 32)).
Definition mem_set_flags (t f : Z) (m : mem) : mem := wr32 m (t + 32) f.
Definition mem_is_runnable (t : Z) (m : mem) : bool := negb (Z.land (mem_flags t m) THREAD_RUNNABLE =? 0).
Definition mem_set_runnable (t : Z) (m : mem) : mem := mem_set_flags t (Z.lor (mem_flags t m) THREAD_RUNNABLE) m.
Definition mem_clear_runnable (t : Z) (m : mem) : mem := mem_set_flags t (Z.land (mem_flags t m) (Z.lnot THREAD_RUNNABLE)) m.
Definition mem_setwakeup (t abstime : Z) (m : mem) : mem := st64 m (t + 24) abstime.
Definition mem_wake (t : Z) (m : mem) : mem := mem_set_runnable t (mem_setwakeup t (-1) m).
Definition mem_block (t : Z) (m : mem) : mem := mem_clear_runnable t (mem_setwakeup t (-1) m).
Definition mem_nanosleep (now nsec : Z) (m : mem) : mem :=
  let t := rd32 m CURRENT in
  mem_clear_runnable t (mem_setwakeup t (i64 (u64 (u64 now + u64 nsec))) m).

(** The body of the loop over [threads]: the state is memory and [next]. *)
Definition scan_body (tm t : Z) (s : mem * Z) : bool * (mem * Z) :=
  let '(m, next) := s in
  let m :=
    if negb (mem_is_runnable t m) && (0 <=? ld64 m (t + 24)) then
      if ld64 m (t + 24) <=? tm then mem_wake t (mem_set_flags t (Z.lor (mem_flags t m) THREAD_TIMEDOUT) m) else m
    else m in
  if mem_is_runnable t m then
    (false, (TAILQ_INSERT_TAIL bt_entries THREADS t (TAILQ_REMOVE bt_entries THREADS t m), t))
  else (true, (m, next)).
Definition mem_scan (fuel : nat) (tm : Z) (m : mem) : option (mem * Z) :=
  TAILQ_FOREACH_SAFE bt_entries fuel (scan_body tm) THREADS (m, NULL).
Fixpoint mem_pick (fuel : nat) (ticks : list tick) (m : mem) : option (Z * mem * list tick) :=
  match ticks with
  | [] => None
  | k :: ticks =>
      '(m, next) ← mem_scan fuel (tk_now k) m;
      if negb (next =? NULL) then Some (next, m, ticks)
      else mem_pick fuel ticks (foldl (fun m t => mem_wake t m) m (tk_woken k))
  end.
Definition mem_dispatch (fuel : nat) (ticks : list tick) (m : mem) : option (mem * list tick) :=
  let prev := rd32 m CURRENT in
  '(next, m, ticks) ← mem_pick fuel ticks m;
  Some (if negb (prev =? next) then wr32 m CURRENT next else m, ticks).
Definition mem_exit_final (m : mem) : mem :=
  let t := rd32 m CURRENT in
  let m := TAILQ_REMOVE bt_entries THREADS t m in
  let m := mem_clear_runnable t m in
  TAILQ_INSERT_HEAD bt_entries ZOMBIES t m.

(** ** The representation *)

Definition links (ts : list Z) : list Z :=
  [tqh_last THREADS; tqh_first THREADS; tqh_last ZOMBIES; tqh_first ZOMBIES] ++
  flat_map (fun e => [tqe_next bt_entries e; tqe_prev bt_entries e]) ts.
Definition fields (t : Z) : list Z :=
  [t; t + 4; t + 8; t + 12; t + 16; t + 20; t + 24; t + 24 + 4; t + 32; t + 36; t + 40; t + 44; t + 48].
Definition footprint (ts : list Z) : list Z := CURRENT :: links ts ++ flat_map fields ts.

(** Memory [m] holds the scheduler state [s]; [ts] are the threads that
    exist. *)
Record holds {H} (m : mem) (ts : list Z) (s : sched H) : Prop := {
  h_apart : apart (footprint ts);
  h_threads : tailq bt_entries m THREADS (threads s);
  h_zombies : tailq bt_entries m ZOMBIES (zombies s);
  h_current : rd32 m CURRENT = current_thread s;
  h_dom t : is_Some (thr s !! t) <-> t ∈ ts;
  h_thr t th : thr s !! t = Some th -> load_thread m t = th /\ urange 5 (bt_flags th);
  h_queues : NoDup (threads s ++ zombies s) /\ (forall t, t ∈ threads s ++ zombies s -> t ∈ ts) }.

(** [*bmk_sched_geterrno()] is the error number of the current thread. *)
Lemma geterrno_points {H} m ts (s : sched H) :
  holds m ts s -> current_thread s ∈ ts -> i32 (rd32 m (bmk_sched_geterrno s)) = errno s.
Proof.
  intros Hh [th Hth]%(h_dom _ _ _ Hh); destruct (h_thr _ _ _ Hh _ _ Hth) as [Hl _].
  unfold errno, bmk_sched_geterrno, bmk_sched_current, getthr; rewrite Hth; cbn [default]; by rewrite <- Hl.
Qed.

(** Fields and links are different words, and so are the fields of different
    threads. *)
Lemma foot_in ts a : a ∈ footprint ts <-> a = CURRENT \/ a ∈ links ts \/ a ∈ flat_map fields ts.
Proof. unfold footprint; rewrite elem_of_cons, elem_of_app; done. Qed.
Lemma footprint_cons t ts :
  footprint (t :: ts) ≡ₚ (tqe_next bt_entries t :: tqe_prev bt_entries t :: fields t) ++ footprint ts.
Proof. unfold footprint, links; cbn [flat_map]; generalize (fields t), (flat_map fields ts); intros F G; solve_Permutation. Qed.
#[global] Instance footprint_perm : Proper ((≡ₚ) ==> (≡ₚ)) footprint.
Proof. intros ts ts' Hp; unfold footprint, links; by rewrite Hp. Qed.
Lemma field_in ts t a : t ∈ ts -> a ∈ fields t -> a ∈ flat_map fields ts.
Proof. intros (l1 & l2 & ->)%list_elem_of_split Ha; rewrite flat_map_app, elem_of_app; right; cbn [flat_map]; rewrite elem_of_app; by left. Qed.
Lemma field_not_link ts t a : apart (footprint ts) -> t ∈ ts -> a ∈ fields t -> (a ∉ links ts) /\ a <> CURRENT.
Proof.
  intros (Hn & _) Ht Ha; pose proof (field_in ts t a Ht Ha) as Hf; unfold footprint in Hn.
  apply NoDup_cons in Hn as [Hc (_ & Hd & _)%NoDup_app]; split; [intros Hl; by apply (Hd a)|].
  intros ->; apply Hc; rewrite elem_of_app; by right.
Qed.
Lemma fields_apart ts t u a : apart (footprint ts) -> t ∈ ts -> u ∈ ts -> t <> u -> a ∈ fields t -> a ∉ fields u.
Proof.
  intros (Hn & _) Ht Hu Hne Ha Hau; unfold footprint in Hn.
  apply NoDup_cons in Hn as [_ (_ & _ & Hn)%NoDup_app].
  apply list_elem_of_split in Ht as (l1 & l2 & ->).
  assert (u ∈ l1 ++ l2) as (l3 & l4 & E)%list_elem_of_split by (clear - Hu Hne; set_solver).
  assert (flat_map fields (l1 ++ t :: l2) ≡ₚ fields t ++ fields u ++ flat_map fields (l3 ++ l4)) as Hp.
  { rewrite flat_map_app; cbn [flat_map]; rewrite (Permutation_app_comm (flat_map fields l1)), <- app_assoc; f_equiv.
    rewrite (Permutation_app_comm (flat_map fields l2)), <- flat_map_app, E, !flat_map_app; cbn [flat_map].
    rewrite (Permutation_app_comm (flat_map fields l3)), <- app_assoc; f_equiv; apply Permutation_app_comm. }
  rewrite Hp in Hn; apply NoDup_app in Hn as (_ & Hd & _); apply (Hd a Ha); rewrite elem_of_app; by left.
Qed.

Lemma cells_links ts l : (forall t, t ∈ l -> t ∈ ts) ->
  cells bt_entries THREADS l ⊆ links ts /\ cells bt_entries ZOMBIES l ⊆ links ts.
Proof.
  intros Hl; assert (forall a, a ∈ flat_map (fun e => [tqe_next bt_entries e; tqe_prev bt_entries e]) l ->
    a ∈ flat_map (fun e => [tqe_next bt_entries e; tqe_prev bt_entries e]) ts) as Hf.
  { intros a; rewrite !list_elem_of_In, !in_flat_map; intros (e & He & Ha); exists e; split; [|done].
    by apply list_elem_of_In, Hl, list_elem_of_In. }
  unfold cells, links; split; intros a; rewrite elem_of_app, !elem_of_cons; naive_solver.
Qed.
Lemma links_foot ts a : a ∈ links ts -> a ∈ footprint ts.
Proof. rewrite foot_in; tauto. Qed.
Lemma fields_foot ts t a : t ∈ ts -> a ∈ fields t -> a ∈ footprint ts.
Proof. intros; rewrite foot_in; right; right; by eapply field_in. Qed.
Lemma load_frame m m' t : (forall a, a ∈ fields t -> rd32 m' a = rd32 m a) -> load_thread m' t = load_thread m t.
Proof.
  intros Hf; unfold load_thread, ld64; rewrite !Hf; [done|..]; unfold fields; rewrite !elem_of_cons; tauto.
Qed.

Section Ops.
Context {H : Type}.
Implicit Types s : sched H.

Lemma getthr_load m ts s t : holds m ts s -> t ∈ ts -> getthr (thr s) t = load_thread m t /\ urange 5 (bt_flags (load_thread m t)).
Proof.
  intros Hh Ht; apply (h_dom _ _ _ Hh) in Ht as [th Eth]; destruct (h_thr _ _ _ Hh _ _ Eth) as [E Hu].
  unfold getthr; rewrite Eth, E; done.
Qed.

(** A change inside the fields of one thread. *)
Lemma holds_field m m' ts s t f :
  holds m ts s -> t ∈ ts ->
  (forall a, a ∈ footprint ts -> a ∉ fields t -> rd32 m' a = rd32 m a) ->
  load_thread m' t = f (load_thread m t) -> urange 5 (bt_flags (f (load_thread m t))) ->
  holds m' ts (upd f t s).
Proof.
  intros Hh Ht Hf El Hu; pose proof (h_apart _ _ _ Hh) as Hap; destruct (h_queues _ _ _ Hh) as [Hnd Hq].
  assert (forall a, a ∈ links ts \/ a = CURRENT -> rd32 m' a = rd32 m a) as Hlk.
  { intros a Ha; apply Hf; [rewrite foot_in; tauto|]; intros Hin.
    destruct (field_not_link ts t a Hap Ht Hin); naive_solver. }
  constructor; cbn; [done| | | | | |done].
  - eapply tailq_frame; [|apply (h_threads _ _ _ Hh)]; intros a Ha; apply Hlk; left.
    destruct (cells_links ts (threads s)) as [Hc _]; [intros; apply Hq; set_solver|by apply Hc].
  - eapply tailq_frame; [|apply (h_zombies _ _ _ Hh)]; intros a Ha; apply Hlk; left.
    destruct (cells_links ts (zombies s)) as [_ Hc]; [intros; apply Hq; set_solver|by apply Hc].
  - rewrite Hlk by (by right); apply (h_current _ _ _ Hh).
  - intros u; rewrite <- (h_dom _ _ _ Hh u); destruct (decide (t = u)) as [->|Hne];
      [rewrite lookup_alter_eq; by rewrite fmap_is_Some|by rewrite lookup_alter_ne].
  - intros u th; destruct (decide (t = u)) as [->|Hne].
    + rewrite lookup_alter_eq; intros (th0 & E & ->)%fmap_Some; destruct (h_thr _ _ _ Hh _ _ E) as [<- _]; done.
    + rewrite lookup_alter_ne by done; intros E; destruct (h_thr _ _ _ Hh _ _ E) as [<- Hu']; split; [|done].
      assert (u ∈ ts) by (apply (h_dom _ _ _ Hh); by eexists).
      apply load_frame; intros a Ha; apply Hf; [by eapply fields_foot|]; by apply (fields_apart ts u t).
Qed.

Lemma i32_small v : urange 5 v -> i32 (u32 v) = v.
Proof. intros Hv; unwrap; change (2 ^ 5) with 32 in Hv; zlia. Qed.
Lemma ld64_st64 m a v : srange 64 v -> ld64 (st64 m a v) a = v.
Proof.
  intros Hv; unfold ld64, st64; rewrite rd32_wr32_eq, rd32_wr32_ne, rd32_wr32_eq by lia.
  rewrite shiftr_div by lia; zlia.
Qed.

Lemma holds_flags (g : Z -> Z) m ts s t :
  (forall f, urange 5 f -> urange 5 (g f)) -> holds m ts s -> t ∈ ts ->
  holds (mem_set_flags t (g (mem_flags t m)) m) ts (upd (fun th => with_flags (g (bt_flags th)) th) t s).
Proof.
  intros Hg Hh Ht; destruct (getthr_load _ _ _ _ Hh Ht) as [_ Hu]; pose proof (h_apart _ _ _ Hh) as Hap.
  apply (holds_field m); [done|done| | |by apply Hg].
  - intros a Ha Hna; apply (rd32_wr32_apart _ _ _ _ _ Hap); [|done|].
    + apply (fields_foot ts t); [done|]; unfold fields; rewrite !elem_of_cons; tauto.
    + intros <-; apply Hna; unfold fields; rewrite !elem_of_cons; tauto.
  - unfold mem_set_flags, load_thread, with_flags, ld64; cbn [bt_flags bt_name bt_tls bt_wakeup_time bt_errno bt_stackbase btcb_sp btcb_ip].
    rewrite rd32_wr32_eq, !rd32_wr32_ne by lia; by rewrite i32_small by (apply Hg, Hu).
Qed.
Lemma holds_wakeup m ts s t v : srange 64 v -> holds m ts s -> t ∈ ts -> holds (mem_setwakeup t v m) ts (upd (with_wakeup v) t s).
Proof.
  intros Hv Hh Ht; destruct (getthr_load _ _ _ _ Hh Ht) as [_ Hu]; pose proof (h_apart _ _ _ Hh) as Hap.
  assert (t + 24 ∈ fields t /\ t + 24 + 4 ∈ fields t) as [I1 I2] by (unfold fields; rewrite !elem_of_cons; tauto).
  apply (holds_field m); [done|done| | |done].
  - intros a Ha Hna; unfold mem_setwakeup, st64; rewrite !(rd32_wr32_apart _ _ _ _ _ Hap);
      [done|by apply (fields_foot ts t)|done|congruence|by apply (fields_foot ts t)|done|congruence].
  - unfold mem_setwakeup, load_thread, with_wakeup; rewrite ld64_st64 by done.
    cbn [bt_flags bt_name bt_tls bt_wakeup_time bt_errno bt_stackbase btcb_sp btcb_ip].
    unfold st64; rewrite !rd32_wr32_ne by lia; done.
Qed.

Lemma upd_upd f g t s : upd f t (upd g t s) = upd (fun th => f (g th)) t s.
Proof. unfold upd, set_thr; cbn; f_equal; apply alter_alter_eq. Qed.

(** The operations on flags. *)
Lemma flags_ops f : urange 5 f ->
  urange 5 (Z.lor f THREAD_RUNNABLE) /\ urange 5 (Z.lor f THREAD_TIMEDOUT) /\ urange 5 (Z.land f (Z.lnot THREAD_RUNNABLE)).
Proof.
  intros Hf; assert (forall k, (k < 32)%nat -> let f := Z.of_nat k in urange 5 (Z.lor f THREAD_RUNNABLE) /\
    urange 5 (Z.lor f THREAD_TIMEDOUT) /\ urange 5 (Z.land f (Z.lnot THREAD_RUNNABLE))) as Hk.
  { intros k Hk; cbv zeta; do 32 (destruct k as [|k]; [apply (bool_decide_unpack _); by vm_compute|]); lia. }
  specialize (Hk (Z.to_nat f)); cbv zeta in Hk; unfold urange in Hf; change (2 ^ 5) with 32 in Hf.
  rewrite Z2Nat.id in Hk by lia; apply Hk; lia.
Qed.

Lemma holds_wake m ts s t : holds m ts s -> t ∈ ts -> holds (mem_wake t m) ts (bmk_sched_wake t s).
Proof.
  intros Hh Ht; apply (holds_wakeup _ _ _ t (-1)) in Hh; [|by vm_compute|done].
  apply (holds_flags (fun f => Z.lor f THREAD_RUNNABLE)) with (t := t) in Hh; [|intros; by apply flags_ops|done].
  by rewrite upd_upd in Hh.
Qed.
Lemma holds_block m ts s t : holds m ts s -> t ∈ ts -> holds (mem_block t m) ts (bmk_sched_block t s).
Proof.
  intros Hh Ht; apply (holds_wakeup _ _ _ t (-1)) in Hh; [|by vm_compute|done].
  apply (holds_flags (fun f => Z.land f (Z.lnot THREAD_RUNNABLE))) with (t := t) in Hh; [|intros; by apply flags_ops|done].
  by rewrite upd_upd in Hh.
Qed.

(** ** Changing the queues *)

Lemma cells_apart ts l z :
  apart (footprint ts) -> NoDup (l ++ z) -> (forall t, t ∈ l ++ z -> t ∈ ts) ->
  apart (cells bt_entries THREADS l ++ cells bt_entries ZOMBIES z).
Proof.
  intros Hap Hn Hin; assert (l ++ z ⊆+ ts) as [k Hk]%submseteq_Permutation by (by apply NoDup_submseteq).
  apply (apart_sub (CURRENT :: flat_map fields ts ++ flat_map (fun e => [tqe_next bt_entries e; tqe_prev bt_entries e]) k)).
  eapply apart_perm; [|exact Hap]; unfold footprint, links, cells.
  rewrite (Permutation_flat_map (fun e => [tqe_next bt_entries e; tqe_prev bt_entries e]) Hk), !flat_map_app.
  generalize (flat_map fields ts); intros F; solve_Permutation.
Qed.
Lemma cells_disjoint ts l z a :
  apart (footprint ts) -> NoDup (l ++ z) -> (forall t, t ∈ l ++ z -> t ∈ ts) ->
  a ∈ cells bt_entries THREADS l -> a ∉ cells bt_entries ZOMBIES z.
Proof.
  intros Hap Hn Hin Ha Hz; destruct (cells_apart ts l z Hap Hn Hin) as ((_ & Hd & _)%NoDup_app & _); by apply (Hd a).
Qed.

(** A change confined to the links. *)
Lemma holds_links m m' ts s l z :
  holds m ts s -> (forall a, a ∈ footprint ts -> a ∉ links ts -> rd32 m' a = rd32 m a) ->
  tailq bt_entries m' THREADS l -> tailq bt_entries m' ZOMBIES z ->
  NoDup (l ++ z) -> (forall t, t ∈ l ++ z -> t ∈ ts) -> holds m' ts (set_threads l (set_zombies z s)).
Proof.
  intros Hh Hf Hl Hz Hn Hin; pose proof (h_apart _ _ _ Hh) as Hap; constructor; cbn; [done|done|done| | | |done].
  - rewrite Hf; [apply (h_current _ _ _ Hh)|rewrite foot_in; tauto|].
    destruct Hap as (Hnd & _); unfold footprint in Hnd; apply NoDup_cons in Hnd as [Hc _]; set_solver.
  - apply (h_dom _ _ _ Hh).
  - intros t th E; destruct (h_thr _ _ _ Hh _ _ E) as [<- Hu]; split; [|done].
    assert (t ∈ ts) as Ht by (apply (h_dom _ _ _ Hh); by eexists).
    apply load_frame; intros a Ha; apply Hf; [by eapply fields_foot|by eapply field_not_link].
Qed.

(** Memory that agrees on the words of the representation. *)
Lemma holds_frame m m' ts s :
  (forall a, a ∈ footprint ts -> rd32 m' a = rd32 m a) -> holds m ts s -> holds m' ts s.
Proof.
  intros Hf [Hap Ht Hz Hc Hd Hth [Hn Hq]].
  constructor; [done| | | |done| |done].
  - eapply tailq_frame; [|exact Ht]; intros a Ha; apply Hf, links_foot.
    destruct (cells_links ts (threads s)) as [Hl _]; [intros; apply Hq; set_solver|by apply Hl].
  - eapply tailq_frame; [|exact Hz]; intros a Ha; apply Hf, links_foot.
    destruct (cells_links ts (zombies s)) as [_ Hl]; [intros; apply Hq; set_solver|by apply Hl].
  - rewrite Hf; [done|]; rewrite foot_in; by left.
  - intros t th E; destruct (Hth t th E) as [<- ?]; split; [|done]; apply load_frame; intros a Ha; apply Hf.
    eapply fields_foot; [apply Hd; by eexists|done].
Qed.

Lemma queue_member m h l t : tailq bt_entries m h l -> t ∈ l -> urange 32 t /\ t <> NULL.
Proof.
  intros Ht (l1 & l2 & ->)%list_elem_of_split; destruct (tailq_split _ _ _ _ _ _ Ht) as (r & q & _ & _ & ? & _ & _ & _ & _ & ? & _); done.
Qed.

Lemma holds_unlink m ts s l1 t l2 : holds m ts s -> threads s = l1 ++ t :: l2 ->
  holds (TAILQ_REMOVE bt_entries THREADS t m) ts (set_threads (l1 ++ l2) s).
Proof.
  intros Hh E; pose proof (h_apart _ _ _ Hh) as Hap; destruct (h_queues _ _ _ Hh) as [Hn Hin]; rewrite E in Hn, Hin.
  pose proof (h_threads _ _ _ Hh) as Ht; rewrite E in Ht.
  assert (cells bt_entries THREADS (l1 ++ t :: l2) ⊆ links ts) as Hsub by (apply cells_links; intros; apply Hin; set_solver).
  assert (forall a, a ∈ footprint ts -> a ∉ cells bt_entries THREADS (l1 ++ t :: l2) ->
    rd32 (TAILQ_REMOVE bt_entries THREADS t m) a = rd32 m a) as Hf.
  { intros a Ha Hna; eapply writes_frame; [by apply remove_writes|exact Hap| |done|done]; intros b Hb; by apply links_foot, Hsub. }
  apply (holds_links m _ _ s (l1 ++ l2) (zombies s)); [done|intros a Ha Hna; apply Hf; [done|]; auto|by apply tailq_remove_ok| | |].
  - eapply tailq_frame; [|apply (h_zombies _ _ _ Hh)]; intros a Ha; apply Hf.
    + apply links_foot; destruct (cells_links ts (zombies s)) as [_ Hc]; [intros; apply Hin; set_solver|by apply Hc].
    + intros Hc; by apply (cells_disjoint ts _ (zombies s) a Hap Hn Hin).
  - rewrite <- app_assoc in Hn |- *; cbn in Hn; rewrite <- Permutation_middle in Hn; by apply NoDup_cons in Hn as [_ ?].
  - intros u Hu; apply Hin; set_solver.
Qed.

Lemma thread_linkable m ts s t :
  holds m ts s -> t ∈ ts -> t ∉ threads s ++ zombies s -> urange 32 t -> t <> NULL ->
  linkable bt_entries THREADS (threads s) t /\ cells bt_entries THREADS (t :: threads s) ⊆ links ts.
Proof.
  intros Hh Hts Hni Hu Hne; pose proof (h_apart _ _ _ Hh) as Hap; destruct (h_queues _ _ _ Hh) as [Hn Hin].
  assert (NoDup ((t :: threads s) ++ zombies s)) as Hn' by (cbn; by apply NoDup_cons).
  assert (forall u, u ∈ (t :: threads s) ++ zombies s -> u ∈ ts) as Hin' by (cbn; intros u [->|?]%elem_of_cons; auto).
  split; [split; [|done]; eapply apart_sub; rewrite Permutation_app_comm; by apply (cells_apart ts (t :: threads s) (zombies s))|].
  apply cells_links; intros; apply Hin'; set_solver.
Qed.

(** Linking a thread into [threads], at either end. *)
Lemma holds_link m m' ts s t l :
  holds m ts s -> t ∈ ts -> t ∉ threads s ++ zombies s -> urange 32 t -> t <> NULL -> l ≡ₚ t :: threads s ->
  (linkable bt_entries THREADS (threads s) t -> cells bt_entries THREADS (t :: threads s) ⊆ footprint ts ->
   tailq bt_entries m' THREADS l /\
   forall a, a ∈ footprint ts -> a ∉ cells bt_entries THREADS (t :: threads s) -> rd32 m' a = rd32 m a) ->
  holds m' ts (set_threads l s).
Proof.
  intros Hh Hts Hni Hu Hne Hl Hop; pose proof (h_apart _ _ _ Hh) as Hap; destruct (h_queues _ _ _ Hh) as [Hn Hin].
  assert (NoDup ((t :: threads s) ++ zombies s)) as Hn' by (cbn; by apply NoDup_cons).
  assert (forall u, u ∈ (t :: threads s) ++ zombies s -> u ∈ ts) as Hin' by (cbn; intros u [->|?]%elem_of_cons; auto).
  destruct (thread_linkable m ts s t) as [Hlk Hsub]; [done..|].
  destruct Hop as [Ht Hf]; [done|intros b Hb; by apply links_foot, Hsub|].
  apply (holds_links m _ _ s l (zombies s)); [done|intros a Ha Hna; apply Hf; [done|]; auto|done| | |].
  - eapply tailq_frame; [|apply (h_zombies _ _ _ Hh)]; intros a Ha; apply Hf.
    + apply links_foot; destruct (cells_links ts (zombies s)) as [_ Hc]; [intros; apply Hin; set_solver|by apply Hc].
    + intros Hc; by apply (cells_disjoint ts _ (zombies s) a Hap Hn' Hin').
  - by rewrite Hl.
  - intros u; rewrite Hl; apply Hin'.
Qed.

Lemma holds_link_tail m ts s t : holds m ts s -> t ∈ ts -> t ∉ threads s ++ zombies s -> urange 32 t -> t <> NULL ->
  holds (TAILQ_INSERT_TAIL bt_entries THREADS t m) ts (set_threads (threads s ++ [t]) s).
Proof.
  intros Hh ? ? ? ?; apply (holds_link m _ _ _ t); [done..| |].
  - by rewrite Permutation_app_comm.
  - intros Hlk Hsub; split; [apply tailq_insert_tail_ok; [apply (h_threads _ _ _ Hh)|done]|].
    intros a Ha Hna; eapply writes_frame; [eapply insert_tail_writes; [apply (h_threads _ _ _ Hh)|done]|apply (h_apart _ _ _ Hh)|done..].
Qed.

Lemma holds_link_head m ts s t : holds m ts s -> t ∈ ts -> t ∉ threads s ++ zombies s -> urange 32 t -> t <> NULL ->
  holds (TAILQ_INSERT_HEAD bt_entries THREADS t m) ts (set_threads (t :: threads s) s).
Proof.
  intros Hh ? ? ? ?; apply (holds_link m _ _ _ t); [done..|].
  intros Hlk Hsub; split; [apply tailq_insert_head_ok; [apply (h_threads _ _ _ Hh)|done]|].
  intros a Ha Hna; eapply writes_frame; [eapply insert_head_writes; [apply (h_threads _ _ _ Hh)|done]|apply (h_apart _ _ _ Hh)|done..].
Qed.

Lemma zombie_linkable m ts s t :
  holds m ts s -> t ∈ ts -> t ∉ threads s ++ zombies s -> urange 32 t -> t <> NULL ->
  linkable bt_entries ZOMBIES (zombies s) t /\ cells bt_entries ZOMBIES (t :: zombies s) ⊆ links ts.
Proof.
  intros Hh Hts Hni Hu Hne; pose proof (h_apart _ _ _ Hh) as Hap; destruct (h_queues _ _ _ Hh) as [Hn Hin].
  assert (NoDup (threads s ++ t :: zombies s)) as Hn' by (rewrite <- Permutation_middle; by apply NoDup_cons).
  assert (forall u, u ∈ threads s ++ t :: zombies s -> u ∈ ts) as Hin'.
  { intros u; rewrite elem_of_app, elem_of_cons; intros [?|[->|?]]; [apply Hin; set_solver|done|apply Hin; set_solver]. }
  split; [split; [|done]; eapply apart_sub; by apply (cells_apart ts (threads s) (t :: zombies s))|].
  apply cells_links; intros; apply Hin'; set_solver.
Qed.

Lemma link_zombie_writes m ts s t : holds m ts s -> t ∈ ts -> t ∉ threads s ++ zombies s -> urange 32 t -> t <> NULL ->
  writes (footprint ts) m (TAILQ_INSERT_HEAD bt_entries ZOMBIES t m).
Proof.
  intros Hh ? ? ? ?; destruct (zombie_linkable m ts s t) as [Hlk Hsub]; [done..|].
  eapply writes_mono; [|by eapply insert_head_writes; [apply (h_zombies _ _ _ Hh)|]]; intros a Ha; by apply links_foot, Hsub.
Qed.

Lemma holds_link_zombie m ts s t : holds m ts s -> t ∈ ts -> t ∉ threads s ++ zombies s -> urange 32 t -> t <> NULL ->
  holds (TAILQ_INSERT_HEAD bt_entries ZOMBIES t m) ts (set_zombies (t :: zombies s) s).
Proof.
  intros Hh Hts Hni Hu Hne; pose proof (h_apart _ _ _ Hh) as Hap; destruct (h_queues _ _ _ Hh) as [Hn Hin].
  assert (NoDup (threads s ++ t :: zombies s)) as Hn' by (rewrite <- Permutation_middle; by apply NoDup_cons).
  assert (forall u, u ∈ threads s ++ t :: zombies s -> u ∈ ts) as Hin'.
  { intros u; rewrite elem_of_app, elem_of_cons; intros [?|[->|?]]; [apply Hin; set_solver|done|apply Hin; set_solver]. }
  destruct (zombie_linkable m ts s t) as [Hlk Hsub]; [done..|].
  assert (forall a, a ∈ footprint ts -> a ∉ cells bt_entries ZOMBIES (t :: zombies s) ->
    rd32 (TAILQ_INSERT_HEAD bt_entries ZOMBIES t m) a = rd32 m a) as Hf.
  { intros a Ha Hna; eapply writes_frame; [eapply insert_head_writes; [apply (h_zombies _ _ _ Hh)|done]|exact Hap| |done|done]; intros b Hb; by apply links_foot, Hsub. }
  apply (holds_links m _ _ s (threads s) (t :: zombies s)); [done|intros a Ha Hna; apply Hf; [done|]; auto| | |done|done].
  - eapply tailq_frame; [|apply (h_threads _ _ _ Hh)]; intros a Ha; apply Hf.
    + apply links_foot; destruct (cells_links ts (threads s)) as [Hc _]; [intros; apply Hin; set_solver|by apply Hc].
    + by apply (cells_disjoint ts (threads s) _ a Hap Hn' Hin').
  - apply tailq_insert_head_ok; [apply (h_zombies _ _ _ Hh)|done].
Qed.

(** ** The words that are written *)

Lemma field_writes ts t a v m m' : t ∈ ts -> a ∈ fields t -> writes (footprint ts) m m' -> writes (footprint ts) m (wr32 m' a v).
Proof. intros Ht Ha; apply writes_wr; by eapply fields_foot. Qed.
Lemma flags_writes ts t f m m' : t ∈ ts -> writes (footprint ts) m m' -> writes (footprint ts) m (mem_set_flags t f m').
Proof. intros; apply (field_writes ts t); [done|unfold fields; rewrite !elem_of_cons; tauto|done]. Qed.
Lemma setwakeup_writes ts t v m m' : t ∈ ts -> writes (footprint ts) m m' -> writes (footprint ts) m (mem_setwakeup t v m').
Proof.
  intros; unfold mem_setwakeup, st64; apply (field_writes ts t); [done|unfold fields; rewrite !elem_of_cons; tauto|].
  apply (field_writes ts t); [done|unfold fields; rewrite !elem_of_cons; tauto|done].
Qed.
Lemma wake_writes ts t m m' : t ∈ ts -> writes (footprint ts) m m' -> writes (footprint ts) m (mem_wake t m').
Proof. intros; by apply flags_writes, setwakeup_writes. Qed.
Lemma block_writes ts t m m' : t ∈ ts -> writes (footprint ts) m m' -> writes (footprint ts) m (mem_block t m').
Proof. intros; by apply flags_writes, setwakeup_writes. Qed.
Lemma unlink_writes m ts s l1 t l2 : holds m ts s -> threads s = l1 ++ t :: l2 ->
  writes (footprint ts) m (TAILQ_REMOVE bt_entries THREADS t m).
Proof.
  intros Hh E; destruct (h_queues _ _ _ Hh) as [_ Hin]; rewrite E in Hin.
  pose proof (h_threads _ _ _ Hh) as Ht; rewrite E in Ht; eapply writes_mono; [|by apply remove_writes].
  intros a Ha; apply links_foot; revert Ha; apply cells_links; intros; apply Hin; set_solver.
Qed.
Lemma rotate_writes m ts s t : holds m ts s -> t ∈ threads s ->
  writes (footprint ts) m (TAILQ_INSERT_TAIL bt_entries THREADS t (TAILQ_REMOVE bt_entries THREADS t m)).
Proof.
  intros Hh Ht; destruct (queue_member _ _ _ _ (h_threads _ _ _ Hh) Ht) as [Hu Hne].
  destruct (h_queues _ _ _ Hh) as [Hn Hin]; pose proof Ht as (l1 & l2 & E)%list_elem_of_split.
  assert (t ∉ (l1 ++ l2) ++ zombies s) as Hni.
  { rewrite E in Hn; rewrite <- app_assoc in Hn |- *; cbn in Hn; rewrite <- Permutation_middle in Hn; by apply NoDup_cons in Hn as [? _]. }
  pose proof (holds_unlink m ts s l1 t l2 Hh E) as Hh'.
  destruct (thread_linkable _ ts (set_threads (l1 ++ l2) s) t Hh') as [Hlk Hsub]; [apply Hin; set_solver|done..|].
  eapply writes_trans; [by eapply unlink_writes|].
  eapply writes_mono; [|by eapply insert_tail_writes; [apply (h_threads _ _ _ Hh')|]].
  intros a Ha; by apply links_foot, Hsub.
Qed.

(** ** The scheduler pass *)

Lemma holds_rotate m ts s t : holds m ts s -> t ∈ threads s ->
  holds (TAILQ_INSERT_TAIL bt_entries THREADS t (TAILQ_REMOVE bt_entries THREADS t m)) ts
    (set_threads (tq_insert_tail t (tq_remove t (threads s))) s).
Proof.
  intros Hh Ht; destruct (queue_member _ _ _ _ (h_threads _ _ _ Hh) Ht) as [Hu Hne].
  destruct (h_queues _ _ _ Hh) as [Hn Hin]; pose proof Ht as (l1 & l2 & E)%list_elem_of_split.
  assert (t ∉ (l1 ++ l2) ++ zombies s) as Hni.
  { rewrite E in Hn; rewrite <- app_assoc in Hn |- *; cbn in Hn; rewrite <- Permutation_middle in Hn; by apply NoDup_cons in Hn as [? _]. }
  rewrite E, tq_remove_split by set_solver.
  apply (holds_link_tail _ _ (set_threads (l1 ++ l2) s)); [by apply holds_unlink|apply Hin; set_solver|done|done|done].
Qed.

Lemma is_runnable_load m t : is_runnable (load_thread m t) = mem_is_runnable t m.
Proof. reflexivity. Qed.

Definition scan_result (o : option Z) (T : gmap Z bmk_thread) s : sched H :=
  match o with Some t => set_threads (tq_insert_tail t (tq_remove t (threads s))) (set_thr T s) | None => set_thr T s end.

Lemma holds_expire tm m ts s t : holds m ts s -> t ∈ ts ->
  holds (if negb (mem_is_runnable t m) && (0 <=? ld64 m (t + 24)) then
           if ld64 m (t + 24) <=? tm then mem_wake t (mem_set_flags t (Z.lor (mem_flags t m) THREAD_TIMEDOUT) m) else m
         else m) ts
    (set_thr (let th := getthr (thr s) t in
       if negb (is_runnable th) && (0 <=? bt_wakeup_time th) then
         if bt_wakeup_time th <=? tm
         then alter (fun th => wake_thread (with_flags (Z.lor (bt_flags th) THREAD_TIMEDOUT) th)) t (thr s) else thr s
       else thr s) s) /\
  writes (footprint ts) m
    (if negb (mem_is_runnable t m) && (0 <=? ld64 m (t + 24)) then
       if ld64 m (t + 24) <=? tm then mem_wake t (mem_set_flags t (Z.lor (mem_flags t m) THREAD_TIMEDOUT) m) else m
     else m).
Proof.
  intros Hh Ht; split; [|destruct (_ && _); [|apply writes_refl]; destruct (_ <=? tm); [|apply writes_refl];
    by apply wake_writes, flags_writes, writes_refl].
  revert Hh Ht.
  intros Hh Ht; destruct (getthr_load _ _ _ _ Hh Ht) as [-> _]; cbv zeta.
  rewrite is_runnable_load; change (bt_wakeup_time (load_thread m t)) with (ld64 m (t + 24)).
  assert (holds m ts (set_thr (thr s) s)) as Hs by (by destruct s).
  destruct (_ && _); [|done]; destruct (_ <=? tm); [|done].
  apply (holds_flags (fun f => Z.lor f THREAD_TIMEDOUT)) with (t := t) in Hh; [|intros; by apply flags_ops|done].
  apply holds_wake with (t := t) in Hh; [|done]; unfold bmk_sched_wake in Hh; by rewrite upd_upd in Hh.
Qed.

Lemma scan_ok tm ts l2 : forall l1 m s fuel,
  holds m ts s -> threads s = l1 ++ l2 -> (length l2 <= fuel)%nat ->
  let '(o, T) := sched_scan tm l2 (thr s) in
  exists m', tailq_foreach_safe bt_entries fuel (scan_body tm) (default NULL (head l2)) (m, NULL) = Some (m', default NULL o) /\
    holds m' ts (scan_result o T s) /\ (forall t, o = Some t -> urange 32 t /\ t <> NULL) /\ writes (footprint ts) m m'.
Proof.
  induction l2 as [|t l2 IH]; intros l1 m s fuel Hh E Hf.
  { cbn; exists m; split_and!; [by destruct fuel|by destruct s|done|apply writes_refl]. }
  assert (t ∈ threads s) as Ht by (rewrite E; set_solver +).
  destruct (queue_member _ _ _ _ (h_threads _ _ _ Hh) Ht) as [Hu Hne].
  assert (t ∈ ts) as Hts by (apply (h_queues _ _ _ Hh); set_solver).
  pose proof (h_threads _ _ _ Hh) as Hq; rewrite E in Hq.
  destruct (tailq_split _ _ _ _ _ _ Hq) as (r & q & _ & _ & _ & _ & Hs2 & Hq2 & _).
  destruct fuel as [|fuel]; cbn [length] in Hf; [lia|]; cbn [sched_scan head default from_option id tailq_foreach_safe].
  rewrite (proj2 (Z.eqb_neq _ _) Hne); unfold TAILQ_NEXT at 1; cbn [fst]; rewrite (seg_head _ _ _ _ _ Hs2 Hq2); unfold scan_body at 1.
  destruct (holds_expire tm m ts s t Hh Hts) as [H1 W1]; cbv zeta in H1; cbv zeta.
  match type of H1 with holds ?a _ (set_thr ?b _) => set (m1 := a) in *; set (T1 := b) in * end; clearbody m1 T1.
  destruct (getthr_load _ _ _ _ H1 Hts) as [Eg _]; change (thr (set_thr T1 s)) with T1 in Eg.
  rewrite Eg, is_runnable_load; destruct (mem_is_runnable t m1).
  - exists (TAILQ_INSERT_TAIL bt_entries THREADS t (TAILQ_REMOVE bt_entries THREADS t m1)); split_and!; [done| |by intros ? [= <-]|].
    + by apply (holds_rotate m1 ts (set_thr T1 s) t).
    + eapply writes_trans; [exact W1|by apply (rotate_writes m1 ts (set_thr T1 s) t)].
  - specialize (IH (l1 ++ [t]) m1 (set_thr T1 s) fuel H1); change (thr (set_thr T1 s)) with T1 in IH.
    destruct (sched_scan tm l2 T1) as [o T]; destruct IH as (m' & E1 & H2 & H3 & W2); [by rewrite <- app_assoc|lia|].
    exists m'; split_and!; [done|by destruct o|done|by eapply writes_trans].
Qed.

Lemma pick_ok ts ticks : forall m s fuel,
  holds m ts s -> (length (threads s) <= fuel)%nat -> Forall (fun k => Forall (fun t => t ∈ ts) (tk_woken k)) ticks ->
  match sched_pick ticks s with
  | Some (t, s', rest) => exists m', mem_pick fuel ticks m = Some (t, m', rest) /\ holds m' ts s' /\ current_thread s' = current_thread s /\
      urange 32 t /\ writes (footprint ts) m m'
  | None => mem_pick fuel ticks m = None
  end.
Proof.
  induction ticks as [|k ticks IH]; intros m s fuel Hh Hf HF; [done|]; cbn [sched_pick mem_pick].
  inversion HF as [|? ? Hk HF']; subst; pose proof (scan_ok (tk_now k) ts (threads s) [] m s fuel Hh eq_refl Hf) as Hscan.
  destruct (sched_scan (tk_now k) (threads s) (thr s)) as [o T]; destruct Hscan as (m' & E & H' & Hn & W).
  assert (mem_scan fuel (tk_now k) m = Some (m', default NULL o)) as ->.
  { unfold mem_scan, TAILQ_FOREACH_SAFE, TAILQ_FIRST; cbn [fst]; destruct (h_threads _ _ _ Hh) as (q & Hs & Hq & _).
    by rewrite (seg_head _ _ _ _ _ Hs Hq). }
  cbn [mbind option_bind]; destruct o as [t|]; cbn [default from_option id].
  - rewrite (proj2 (Z.eqb_neq _ _) (proj2 (Hn t eq_refl))); cbn [negb]; exists m'; split_and!; [done|done|done|by apply Hn|done].
  - change (negb (NULL =? NULL)) with false; cbv iota; cbn [scan_result] in H'.
    assert (forall l m s, holds m ts s -> Forall (fun t => t ∈ ts) l ->
      holds (foldl (fun m t => mem_wake t m) m l) ts (foldl (fun s t => bmk_sched_wake t s) s l) /\
      threads (foldl (fun s t => bmk_sched_wake t s) s l) = threads s /\
      current_thread (foldl (fun s t => bmk_sched_wake t s) s l) = current_thread s /\
      writes (footprint ts) m (foldl (fun m t => mem_wake t m) m l)) as Hw.
    { clear; induction l as [|t l IH]; intros m s Hh Hl; cbn [foldl]; [split_and!; [done..|apply writes_refl]|]; inversion Hl; subst.
      destruct (IH (mem_wake t m) (bmk_sched_wake t s)) as (? & -> & -> & W); [by apply holds_wake|done|split_and!; [done..|]].
      eapply writes_trans; [|exact W]; by apply wake_writes, writes_refl. }
    destruct (Hw (tk_woken k) m' (set_thr T s) H' Hk) as (H2 & E2 & E3 & W3); specialize (IH _ _ fuel H2).
    rewrite E2 in IH; specialize (IH Hf HF').
    destruct (sched_pick ticks _) as [[[t s'] rest]|]; [|done].
    destruct IH as (m2 & ? & ? & E4 & ? & W4); exists m2; split_and!; [done|done|by rewrite E4, E3|done|].
    eapply writes_trans; [exact W|]; by eapply writes_trans.
Qed.

Lemma holds_set_current m ts s t : holds m ts s -> urange 32 t -> holds (wr32 m CURRENT t) ts (set_current t s).
Proof.
  intros Hh Ht; pose proof (h_apart _ _ _ Hh) as Hap; destruct (h_queues _ _ _ Hh) as [Hn Hin].
  assert (CURRENT ∈ footprint ts) as Ic by (rewrite foot_in; tauto).
  assert (forall a, a ∈ links ts \/ a ∈ flat_map fields ts -> rd32 (wr32 m CURRENT t) a = rd32 m a) as Hf.
  { intros a Ha; apply (rd32_wr32_apart _ _ _ _ _ Hap); [done|rewrite foot_in; tauto|].
    intros <-; destruct Hap as (Hnd & _); unfold footprint in Hnd; apply NoDup_cons in Hnd as [Hc _]; rewrite elem_of_app in Hc; tauto. }
  constructor; cbn; [done| | | | | |done].
  - eapply tailq_frame; [|apply (h_threads _ _ _ Hh)]; intros a Ha; apply Hf; left.
    destruct (cells_links ts (threads s)) as [Hc _]; [intros; apply Hin; set_solver|by apply Hc].
  - eapply tailq_frame; [|apply (h_zombies _ _ _ Hh)]; intros a Ha; apply Hf; left.
    destruct (cells_links ts (zombies s)) as [_ Hc]; [intros; apply Hin; set_solver|by apply Hc].
  - by apply rd32_wr32_val.
  - apply (h_dom _ _ _ Hh).
  - intros u th E; destruct (h_thr _ _ _ Hh _ _ E) as [<- Hu]; split; [|done].
    apply load_frame; intros a Ha; apply Hf; right; eapply field_in; [apply (h_dom _ _ _ Hh); by eexists|done].
Qed.

Lemma dispatch_ok ts ticks m s fuel :
  holds m ts s -> (length (threads s) <= fuel)%nat -> Forall (fun k => Forall (fun t => t ∈ ts) (tk_woken k)) ticks ->
  match sched_dispatch ticks s with
  | Some (s', rest) => exists m', mem_dispatch fuel ticks m = Some (m', rest) /\ holds m' ts s' /\ writes (footprint ts) m m'
  | None => mem_dispatch fuel ticks m = None
  end.
Proof.
  intros Hh Hf HF; pose proof (pick_ok ts ticks m s fuel Hh Hf HF) as Hp; unfold sched_dispatch, mem_dispatch.
  rewrite (h_current _ _ _ Hh); destruct (sched_pick ticks s) as [[[t s'] rest]|]; [|by rewrite Hp].
  destruct Hp as (m' & -> & H' & Ec & Hu & W); cbn [mbind option_bind]; unfold bmk_sched_current; rewrite <- Ec.
  destruct (decide (current_thread s' = t)) as [E|E].
  - rewrite (proj2 (Z.eqb_eq _ _) E); by exists m'.
  - rewrite (proj2 (Z.eqb_neq _ _) E); cbn [negb]; exists (wr32 m' CURRENT t); split_and!; [done|by apply holds_set_current|].
    apply writes_wr; [rewrite foot_in; by left|done].
Qed.

Lemma exit_ok m ts s : holds m ts s -> current_thread s ∈ threads s ->
  holds (mem_exit_final m) ts (exit_final s) /\ writes (footprint ts) m (mem_exit_final m).
Proof.
  intros Hh Ht; unfold mem_exit_final, exit_final, bmk_sched_current; rewrite (h_current _ _ _ Hh); set (t := current_thread s) in *.
  destruct (queue_member _ _ _ _ (h_threads _ _ _ Hh) Ht) as [Hu Hne]; destruct (h_queues _ _ _ Hh) as [Hn Hin].
  pose proof Ht as (l1 & l2 & E)%list_elem_of_split; assert (t ∈ ts) as Hts by (apply Hin; set_solver).
  assert (t ∉ (l1 ++ l2) ++ zombies s) as Hni.
  { rewrite E in Hn; rewrite <- app_assoc in Hn |- *; cbn in Hn; rewrite <- Permutation_middle in Hn; by apply NoDup_cons in Hn as [? _]. }
  pose proof (unlink_writes m ts s l1 t l2 Hh E) as W1.
  rewrite E, tq_remove_split by set_solver.
  apply (holds_unlink _ _ _ l1 t l2) in Hh; [|done].
  apply (holds_flags (fun f => Z.land f (Z.lnot THREAD_RUNNABLE))) with (t := t) in Hh; [|intros; by apply flags_ops|done].
  split; [by apply (holds_link_zombie _ _ _ t Hh)|].
  eapply writes_trans; [by eapply flags_writes, W1|]; by apply (link_zombie_writes _ _ _ t Hh).
Qed.

Lemma holds_unlink_zombie m ts s z1 t z2 : holds m ts s -> zombies s = z1 ++ t :: z2 ->
  holds (TAILQ_REMOVE bt_entries ZOMBIES t m) ts (set_zombies (z1 ++ z2) s).
Proof.
  intros Hh E; pose proof (h_apart _ _ _ Hh) as Hap; destruct (h_queues _ _ _ Hh) as [Hn Hin]; rewrite E in Hn, Hin.
  pose proof (h_zombies _ _ _ Hh) as Ht; rewrite E in Ht.
  assert (cells bt_entries ZOMBIES (z1 ++ t :: z2) ⊆ links ts) as Hsub by (apply cells_links; intros; apply Hin; set_solver).
  assert (forall a, a ∈ footprint ts -> a ∉ cells bt_entries ZOMBIES (z1 ++ t :: z2) ->
    rd32 (TAILQ_REMOVE bt_entries ZOMBIES t m) a = rd32 m a) as Hf.
  { intros a Ha Hna; eapply writes_frame; [by apply remove_writes|exact Hap| |done|done]; intros b Hb; by apply links_foot, Hsub. }
  apply (holds_links m _ _ s (threads s) (z1 ++ z2)); [done|intros a Ha Hna; apply Hf; [done|]; auto| |by apply tailq_remove_ok| |].
  - eapply tailq_frame; [|apply (h_threads _ _ _ Hh)]; intros a Ha; apply Hf.
    + apply links_foot; destruct (cells_links ts (threads s)) as [Hc _]; [intros; apply Hin; set_solver|by apply Hc].
    + by apply (cells_disjoint ts (threads s) _ a Hap Hn Hin).
  - rewrite app_assoc in Hn |- *; rewrite <- Permutation_middle in Hn; by apply NoDup_cons in Hn as [_ ?].
  - intros u Hu; apply Hin; set_solver.
Qed.

Lemma unlink_zombie_writes m ts s z1 t z2 : holds m ts s -> zombies s = z1 ++ t :: z2 ->
  writes (footprint ts) m (TAILQ_REMOVE bt_entries ZOMBIES t m).
Proof.
  intros Hh E; destruct (h_queues _ _ _ Hh) as [_ Hin]; rewrite E in Hin.
  pose proof (h_zombies _ _ _ Hh) as Ht; rewrite E in Ht; eapply writes_mono; [|by apply remove_writes].
  intros a Ha; apply links_foot; revert Ha; apply cells_links; intros; apply Hin; set_solver.
Qed.

(** The words of the other threads and of the queues lie outside a thread's
    structure. *)
Lemma outside_thread t ts a : apart (footprint (t :: ts)) -> a ∈ footprint ts -> a + 4 <= t \/ t + SIZEOF_THREAD <= a.
Proof.
  intros Hap Ha.
  rewrite footprint_cons in Hap; destruct Hap as (Hn & Hs & _); apply NoDup_app in Hn as (_ & Hd & _).
  assert (forall w, w ∈ tqe_next bt_entries t :: tqe_prev bt_entries t :: fields t -> w + 4 <= a \/ a + 4 <= w) as Hw.
  { intros w Hwi; apply Hs; [apply elem_of_app; by left|apply elem_of_app; by right|]; intros ->; by apply (Hd a). }
  unfold fields, tqe_next, tqe_prev, bt_entries in Hw; repeat setoid_rewrite elem_of_cons in Hw.
  assert (forall k, (k < 15)%nat -> t + 4 * Z.of_nat k + 4 <= a \/ a + 4 <= t + 4 * Z.of_nat k) as Hk.
  { intros k Hk; apply Hw; do 15 (destruct k as [|k]; [cbn; rewrite ?Z.add_0_r; repeat first [left; lia|right]|]); lia. }
  assert (forall k, (k <= 15)%nat -> a + 4 <= t \/ t + 4 * Z.of_nat k <= a \/ k = 0%nat) as Hall.
  { induction k as [|k IH]; [by right; right|]; intros Hle; specialize (IH ltac:(lia)); specialize (Hk k ltac:(lia)); lia. }
  specialize (Hall 15%nat ltac:(lia)); unfold SIZEOF_THREAD; lia.
Qed.

(** A thread that is on no queue ceases to exist; its structure may be
    overwritten. *)
Lemma holds_drop m m' ts s t h : holds m (t :: ts) s -> t ∉ threads s ++ zombies s ->
  (forall a, a ∈ footprint ts -> rd32 m' a = rd32 m a) ->
  holds m' ts (set_thr (delete t (thr s)) (set_hp h s)).
Proof.
  intros Hh Hni Hf; pose proof (h_apart _ _ _ Hh) as Hap; destruct (h_queues _ _ _ Hh) as [Hn Hin].
  assert (forall u, u ∈ threads s ++ zombies s -> u ∈ ts) as Hin'.
  { intros u Hu; pose proof (Hin u Hu) as [->|?]%elem_of_cons; done. }
  assert (t ∉ ts) as Hts.
  { intros Ht; destruct Hap as (Hnd & _); unfold footprint in Hnd; cbn [flat_map] in Hnd.
    apply NoDup_cons in Hnd as [_ (_ & _ & (_ & Hd & _)%NoDup_app)%NoDup_app].
    apply (Hd t); [by left|]; apply (field_in ts t t Ht); by left. }
  constructor; cbn.
  - rewrite footprint_cons in Hap; by apply apart_sub in Hap.
  - eapply tailq_frame; [|apply (h_threads _ _ _ Hh)]; intros a Ha; apply Hf, links_foot.
    destruct (cells_links ts (threads s)) as [Hc _]; [intros; apply Hin'; set_solver|by apply Hc].
  - eapply tailq_frame; [|apply (h_zombies _ _ _ Hh)]; intros a Ha; apply Hf, links_foot.
    destruct (cells_links ts (zombies s)) as [_ Hc]; [intros; apply Hin'; set_solver|by apply Hc].
  - rewrite Hf; [apply (h_current _ _ _ Hh)|rewrite foot_in; tauto].
  - intros u; pose proof (h_dom _ _ _ Hh u) as Hd; rewrite elem_of_cons in Hd; destruct (decide (t = u)) as [->|Hne].
    + rewrite lookup_delete_eq; split; [by intros [? [=]]|done].
    + rewrite lookup_delete_ne by done; rewrite Hd; split; [intros [?|?]; [congruence|done]|by right].
  - intros u th [Hne E]%lookup_delete_Some; destruct (h_thr _ _ _ Hh _ _ E) as [<- Hu]; split; [|done].
    assert (u ∈ t :: ts) as [?|Hu']%elem_of_cons by (apply (h_dom _ _ _ Hh); by eexists); [congruence|].
    apply load_frame; intros a Ha; apply Hf; by eapply fields_foot.
  - done.
Qed.
Lemma nanosleep_ok m ts s now nsec : holds m ts s -> current_thread s ∈ ts ->
  holds (mem_nanosleep now nsec m) ts (bmk_sched_nanosleep now nsec s) /\ writes (footprint ts) m (mem_nanosleep now nsec m).
Proof.
  intros Hh Hc; unfold mem_nanosleep, bmk_sched_nanosleep, bmk_sched_current; rewrite (h_current _ _ _ Hh).
  split; [|by apply flags_writes, setwakeup_writes, writes_refl].
  apply (holds_wakeup _ _ _ (current_thread s) (i64 (u64 (u64 now + u64 nsec)))) in Hh; [|by apply sext_range|done].
  apply (holds_flags (fun f => Z.land f (Z.lnot THREAD_RUNNABLE))) with (t := current_thread s) in Hh; [done|intros; by apply flags_ops|done].
Qed.

(** C12: the scheduler on lists is what the pointer code does.  When memory
    holds a scheduler state (thread structures at their offsets, the queues
    [threads] and [zombies] linked through them, nothing overlapping), the
    code of sched.c on that memory keeps holding the state that the list
    model computes: waking, blocking, arming a timeout, going to sleep,
    choosing the next thread with TAILQ_FOREACH_SAFE over the linked
    structures, moving it to the end with TAILQ_REMOVE and
    TAILQ_INSERT_TAIL while the loop breaks, and moving an exiting thread to
    the zombies.  The traversal ends within the length of the queue. *)
Theorem scheduler_memory_refinement m ts s :
  holds m ts s ->
  (forall t, t ∈ ts ->
     holds (mem_wake t m) ts (bmk_sched_wake t s) /\ holds (mem_block t m) ts (bmk_sched_block t s) /\
     forall tm, srange 64 tm -> holds (mem_setwakeup t tm m) ts (bmk_sched_setwakeup t tm s)) /\
  (current_thread s ∈ ts -> forall now nsec, holds (mem_nanosleep now nsec m) ts (bmk_sched_nanosleep now nsec s)) /\
  (forall ticks fuel, (length (threads s) <= fuel)%nat -> Forall (fun k => Forall (fun t => t ∈ ts) (tk_woken k)) ticks ->
     match sched_dispatch ticks s with
     | Some (s', rest) => exists m', mem_dispatch fuel ticks m = Some (m', rest) /\ holds m' ts s'
     | None => mem_dispatch fuel ticks m = None
     end) /\
  (current_thread s ∈ threads s -> holds (mem_exit_final m) ts (exit_final s)).
Proof.
  intros Hh; split_and!.
  - intros t Ht; split_and!; [by apply holds_wake|by apply holds_block|intros; by apply holds_wakeup].
  - intros Hc now nsec; by apply nanosleep_ok.
  - intros ticks fuel Hf HF; pose proof (dispatch_ok ts ticks m s fuel Hh Hf HF) as Hd.
    destruct (sched_dispatch ticks s) as [[s' rest]|]; [|done]; destruct Hd as (m' & ? & ? & _); by exists m'.
  - intros Hc; by apply exit_ok.
Qed.
End Ops.

(** ** The reaper *)

Section Reap.
Context {H : Type} `{!HeapOps H}.
Implicit Types s : sched H.
(** What the allocator does to the structure it takes back: it may write
    anything into it, and nothing else. *)
Variable scribble : Z -> mem -> mem.
Hypothesis scribble_frame : forall t m a, a + 4 <= t \/ t + SIZEOF_THREAD <= a -> rd32 (scribble t m) a = rd32 m a.

(** Releasing a thread: its stack, unless the creator provided it, and its
    structure. *)
Definition reap_free (t : Z) (m : mem) (h : H) : outcome H :=
  h ← (if Z.land (mem_flags t m) THREAD_EXTSTACK =? 0 then h_memfree (rd32 m (t + 40)) h else Ret h); h_memfree t h.
(** The body of the loop over [zombies]; the heap is [Halt] once the
    allocator has panicked. *)
Definition reap_body (prev t : Z) (s : mem * outcome H) : bool * (mem * outcome H) :=
  let '(m, h) := s in
  if negb (t =? prev) then
    let m := TAILQ_REMOVE bt_entries ZOMBIES t m in
    let h := h ← h; reap_free t m h in
    (match h with Ret _ => true | Halt _ => false end, (scribble t m, h))
  else (true, s).
Definition mem_reap (fuel : nat) (prev : Z) (m : mem) (h : H) : option (mem * outcome H) :=
  TAILQ_FOREACH_SAFE bt_entries fuel (reap_body prev) ZOMBIES (m, Ret h).

(** A thread on no queue is released. *)
Lemma holds_forget m ts s t h : holds m (t :: ts) s -> t ∉ threads s ++ zombies s ->
  holds (scribble t m) ts (set_thr (delete t (thr s)) (set_hp h s)).
Proof.
  intros Hh Hni; apply (holds_drop m); [done|done|]; intros a Ha; by apply scribble_frame, (outside_thread t ts), Ha; apply (h_apart _ _ _ Hh).
Qed.

#[global] Instance holds_perm m : Proper ((≡ₚ) ==> (=) ==> iff) (@holds H m).
Proof.
  assert (forall ts ts' s, ts ≡ₚ ts' -> holds m ts s -> holds m ts' s) as Himp.
  { intros ts ts' s Hp Hh; constructor; [|apply Hh|apply Hh|apply Hh| |apply Hh|].
    - rewrite <- Hp; apply (h_apart _ _ _ Hh).
    - intros t; rewrite <- Hp; apply (h_dom _ _ _ Hh).
    - destruct (h_queues _ _ _ Hh) as [Hn Hin]; split; [done|]; intros t; rewrite <- Hp; apply Hin. }
  intros ts ts' Hp s s' <-; split; by apply Himp.
Qed.

Lemma load_flags m t : bt_flags (load_thread m t) = mem_flags t m.
Proof. reflexivity. Qed.
Lemma load_stackbase m t : bt_stackbase (load_thread m t) = rd32 m (t + 40).
Proof. reflexivity. Qed.

Lemma foreach_safe_step {A} fuel (body : Z -> mem * A -> bool * (mem * A)) t (x : mem * A) : t <> NULL ->
  tailq_foreach_safe bt_entries (S fuel) body t x =
    let '(more, x') := body t x in
    if (more : bool) then tailq_foreach_safe bt_entries fuel body (TAILQ_NEXT bt_entries t (fst x)) x' else Some x'.
Proof. intros Hne; cbn [tailq_foreach_safe]; by rewrite (proj2 (Z.eqb_neq _ _) Hne). Qed.

Lemma reap_body_free prev t m h : t <> prev ->
  let m1 := TAILQ_REMOVE bt_entries ZOMBIES t m in
  reap_body prev t (m, Ret h) =
    (match reap_free t m1 h with Ret _ => true | Halt _ => false end, (scribble t m1, reap_free t m1 h)).
Proof.
  intros Hne; unfold reap_body; generalize (TAILQ_REMOVE bt_entries ZOMBIES t m); intros m1.
  rewrite (proj2 (Z.eqb_neq _ _) Hne); reflexivity.
Qed.
Lemma reap_body_skip t (x : mem * outcome H) : reap_body t t x = (true, x).
Proof. destruct x; unfold reap_body; by rewrite Z.eqb_refl. Qed.
Lemma sched_reap_free prev t l s m : t <> prev -> getthr (thr s) t = load_thread m t ->
  sched_reap prev (t :: l) s =
    h ← reap_free t m (hp s);
    sched_reap prev l (set_thr (delete t (thr s)) (set_hp h (set_zombies (tq_remove t (zombies s)) s))).
Proof.
  intros Hne E; cbn [sched_reap]; rewrite decide_True by done; rewrite E, load_flags, load_stackbase; unfold reap_free.
  cbn [hp set_zombies mbind outcome_bind].
  by destruct (if Z.land (mem_flags t m) THREAD_EXTSTACK =? 0 then h_memfree (rd32 m (t + 40)) (hp s) else Ret (hp s)).
Qed.

Lemma reap_ok prev z2 : forall z1 m ts s fuel,
  holds m ts s -> zombies s = z1 ++ z2 -> (length z2 <= fuel)%nat ->
  match sched_reap prev z2 s with
  | Ret s' => exists m' ts', holds m' ts' s' /\
      tailq_foreach_safe bt_entries fuel (reap_body prev) (default NULL (head z2)) (m, Ret (hp s)) = Some (m', Ret (hp s'))
  | Halt e => exists m',
      tailq_foreach_safe bt_entries fuel (reap_body prev) (default NULL (head z2)) (m, Ret (hp s)) = Some (m', Halt e)
  end.
Proof.
  induction z2 as [|t z2 IH]; intros z1 m ts s fuel Hh E Hf.
  { cbn; exists m, ts; split; [done|by destruct fuel]. }
  assert (t ∈ zombies s) as Ht by (rewrite E; set_solver +).
  destruct (queue_member _ _ _ _ (h_zombies _ _ _ Hh) Ht) as [_ Hne]; destruct (h_queues _ _ _ Hh) as [Hn Hin].
  assert (t ∈ ts) as Hts by (apply Hin; set_solver).
  pose proof (h_zombies _ _ _ Hh) as Hq; rewrite E in Hq.
  destruct (tailq_split _ _ _ _ _ _ Hq) as (r & q & _ & _ & _ & _ & Hs2 & Hq2 & _).
  destruct fuel as [|fuel]; cbn [length] in Hf; [lia|]; cbn [head default from_option id].
  rewrite foreach_safe_step by done; unfold TAILQ_NEXT; cbn [fst]; rewrite (seg_head _ _ _ _ _ Hs2 Hq2).
  destruct (decide (t = prev)) as [<-|Htp].
  { rewrite reap_body_skip; cbn [sched_reap]; rewrite decide_False by (intros Hx; by apply Hx).
    apply (IH (z1 ++ [t]) m ts s fuel Hh); [by rewrite <- app_assoc|lia]. }
  assert (t ∉ threads s ++ z1 ++ z2) as Hni.
  { rewrite E, app_assoc in Hn; rewrite app_assoc; rewrite <- Permutation_middle in Hn; by apply NoDup_cons in Hn as [? _]. }
  pose proof (holds_unlink_zombie _ _ _ _ _ _ Hh E) as H1; 
  assert (getthr (thr s) t = load_thread (TAILQ_REMOVE bt_entries ZOMBIES t m) t) as Eg by exact (proj1 (getthr_load _ _ _ _ H1 Hts)).
  rewrite (sched_reap_free _ _ _ _ _ Htp Eg), (reap_body_free _ _ _ _ Htp); cbv zeta.
  generalize dependent (TAILQ_REMOVE bt_entries ZOMBIES t m); intros m1 H1 _.
  destruct (reap_free t m1 (hp s)) as [h2|e]; cbn [mbind outcome_bind]; [|by eexists].
  rewrite E, tq_remove_split by (clear - Hni; set_solver).
  apply elem_of_Permutation in Hts as [ts2 Hp]; rewrite Hp in H1; apply holds_forget with (h := h2) in H1; [|done].
  apply (IH z1 _ ts2 _ fuel H1 eq_refl); lia.
Qed.

(** The reaper on linked structures.  The loop over [zombies] with
    TAILQ_FOREACH_SAFE releases, in queue order, the stack and the structure
    of every zombie but the caller, although the allocator may overwrite a
    structure as soon as it is released: the memory left behind holds the
    state the list model computes, and a panic of the allocator in the one
    is the same panic in the other. *)
Theorem reaper_memory_refinement m ts s prev fuel :
  holds m ts s -> (length (zombies s) <= fuel)%nat ->
  match sched_reap prev (zombies s) s with
  | Ret s' => exists m' ts', holds m' ts' s' /\ mem_reap fuel prev m (hp s) = Some (m', Ret (hp s'))
  | Halt e => exists m', mem_reap fuel prev m (hp s) = Some (m', Halt e)
  end.
Proof.
  intros Hh Hf; pose proof (reap_ok prev (zombies s) [] m ts s fuel Hh eq_refl Hf) as Hr.
  unfold mem_reap, TAILQ_FOREACH_SAFE, TAILQ_FIRST; cbn [fst]; destruct (h_zombies _ _ _ Hh) as (q & Hs & Hq & _).
  by rewrite (seg_head _ _ _ _ _ Hs Hq).
Qed.
End Reap.
End SchedMem.
Arguments holds_frame {THREADS ZOMBIES CURRENT H} _ _ _ _ _ _.

(** Two threads on the queue, the second one current and blocked. *)
Definition demo_sm : mem :=
  let m := TAILQ_INIT 0x1010 (TAILQ_INIT 0x1000 ∅) in
  let m := wr32 (wr32 m (0x2000 + 32) 1) 0x1020 0x3000 in
  TAILQ_INSERT_HEAD bt_entries 0x1000 0x2000 (TAILQ_INSERT_TAIL bt_entries 0x1000 0x3000 m).
(** A heap that records what is released. *)
Definition demo_heap : HeapOps (list Z) :=
  {| h_xmalloc n h := Halt "out of memory"; h_memfree p h := Ret (p :: h); h_poke a v h := h |}.
Definition demo_ss : sched (list Z) :=
  Sched (<[0x2000 := load_thread demo_sm 0x2000]> (<[0x3000 := load_thread demo_sm 0x3000]> ∅)) [0x2000; 0x3000] [] [] 0x3000 0 [].

Lemma demo_holds : holds 0x1000 0x1010 0x1020 demo_sm [0x2000; 0x3000] demo_ss.
Proof.
  constructor.
  - apart_concrete.
  - exists (0x3000 + 52); split_and!; [by vm_compute|by vm_compute|by vm_compute|apart_concrete|apply (bool_decide_unpack _); by vm_compute].
  - exists 0x1010; split_and!; [by vm_compute|by vm_compute|by vm_compute|apart_concrete|constructor].
  - by vm_compute.
  - intros t; cbn [thr demo_ss]; rewrite !lookup_insert_is_Some', lookup_empty, !elem_of_cons, elem_of_nil; split; [|naive_solver].
    intros [<-|[<-|[? E]]]; [tauto|tauto|discriminate E].
  - intros t th; cbn [thr demo_ss]; rewrite lookup_insert_Some, lookup_insert_Some, lookup_empty.
    intros [[E1 E2]|[_ [[E1 E2]|[_ E]]]]; [| |discriminate E]; subst t th; split; try reflexivity.
    + vm_compute; split; congruence.
    + vm_compute; split; congruence.
  - split; [apply (bool_decide_unpack _); by vm_compute|done].
Qed.

Lemma scheduler_memory_refinement_witness :
  holds 0x1000 0x1010 0x1020 (mem_wake 0x3000 demo_sm) [0x2000; 0x3000] (bmk_sched_wake 0x3000 demo_ss) /\
  match sched_dispatch [Tick 0 []] demo_ss with
  | Some (s', rest) => exists m', mem_dispatch 0x1000 0x1020 2 [Tick 0 []] demo_sm = Some (m', rest) /\
      holds 0x1000 0x1010 0x1020 m' [0x2000; 0x3000] s'
  | None => mem_dispatch 0x1000 0x1020 2 [Tick 0 []] demo_sm = None
  end.
Proof.
  destruct (scheduler_memory_refinement 0x1000 0x1010 0x1020 demo_sm [0x2000; 0x3000] demo_ss demo_holds) as (Hw & _ & Hd & _).
  assert (0x3000 ∈ [0x2000; 0x3000]) as H3 by (apply elem_of_cons; right; apply elem_of_cons; left; reflexivity).
  destruct (Hw 0x3000 H3) as [H4 _]; split; [exact H4|].
  assert (Forall (fun k => Forall (fun t => t ∈ [0x2000; 0x3000]) (tk_woken k)) [Tick 0 []]) as HF by (repeat constructor).
  exact (Hd [Tick 0 []] 2%nat (le_n 2) HF).
Defined.

Lemma demo_current : current_thread demo_ss ∈ threads demo_ss.
Proof. apply elem_of_cons; right; apply elem_of_cons; left; reflexivity. Qed.

(** The second thread exits and the first one reaps it. *)
Lemma reaper_memory_refinement_witness :
  match @sched_reap _ demo_heap 0x2000 (zombies (exit_final demo_ss)) (exit_final demo_ss) with
  | Ret s' => exists m' ts', holds 0x1000 0x1010 0x1020 m' ts' s' /\
      @mem_reap 0x1010 _ demo_heap (fun t m => wr32 m t 0xdeadbeef) 1 0x2000 (mem_exit_final 0x1000 0x1010 0x1020 demo_sm) [] = Some (m', Ret (hp s'))
  | Halt e => exists m',
      @mem_reap 0x1010 _ demo_heap (fun t m => wr32 m t 0xdeadbeef) 1 0x2000 (mem_exit_final 0x1000 0x1010 0x1020 demo_sm) [] = Some (m', Halt e)
  end.
Proof.
  apply (@reaper_memory_refinement 0x1000 0x1010 0x1020 _ demo_heap (fun t m => wr32 m t 0xdeadbeef)
    ltac:(unfold SIZEOF_THREAD; intros; apply rd32_wr32_ne; lia)
    (mem_exit_final 0x1000 0x1010 0x1020 demo_sm) [0x2000; 0x3000] (exit_final demo_ss) 0x2000 1%nat).
  - exact (proj1 (exit_ok 0x1000 0x1010 0x1020 demo_sm _ demo_ss demo_holds demo_current)).
  - exact (le_n 1).
Defined.
