(* ===== verification/Fiber.v ===== *)
(** * Fiber: the rumpuser threading hypercalls of rumpfiber.c

    Wait queues, mutexes, reader/writer locks, condition variables and the
    current lwp, on top of the scheduler.  Objects are named by their
    addresses; a [struct waithead] is the list of the threads whose [struct
    waiter] is linked on it, in queue order.  A thread is inside at most one
    [wait], so its [struct waiter] (a local variable) is named by the thread.
    As in Sched.v, a function that calls [bmk_sched] is cut at that call. *)
From S2P Require Import Prelude Iface Sched.

(** ** Data *)

Definition BMK_TLS_RUMPLWP : Z := 0.
Definition BMK_TLS_USERLWP : Z := 1.

(** The enumerations of the hypercall interface.  [rumpuser_rw_tryenter] has a
    [default] branch and takes an optional enumerator; the other functions
    that switch on one have no such branch and are modelled on enumerators
    only. *)
Inductive rumprwlock := RUMPUSER_RW_READER | RUMPUSER_RW_WRITER.
Inductive rumplwpop := RUMPUSER_LWP_CREATE | RUMPUSER_LWP_DESTROY | RUMPUSER_LWP_SET | RUMPUSER_LWP_CLEAR.

Record rumpuser_mtx := Mtx { mtx_v : Z; mtx_flags : Z; mtx_o : Z }.
Record rumpuser_rw := Rw { rw_v : Z; rw_o : Z }.

(** Addresses of the wait queues inside the structures, and their sizes. *)
Definition mtx_waiters (m : Z) : Z := m.
Definition rw_rwait (r : Z) : Z := r.
Definition rw_wwait (r : Z) : Z := r + 8.
Definition cv_waiters (c : Z) : Z := c.
Definition SIZEOF_MTX : Z := 20.
Definition SIZEOF_RW : Z := 24.
Definition SIZEOF_CV : Z := 12.

(** The state: the scheduler, the queues by address, [onlist] of the waiter
    of each thread, the objects by address (a condition variable is its
    [nwaiters]), and the upcalls [rumpuser__hyp]. *)
Record fib (H : Type) := Fib {
  sc : sched H;
  whs : gmap Z (list Z);
  onlist : gmap Z bool;
  mtxs : gmap Z rumpuser_mtx;
  rws : gmap Z rumpuser_rw;
  cvs : gmap Z Z;
  rumpuser__hyp : Z;
}.
Arguments Fib {_} _ _ _ _ _ _ _.
Arguments sc {_} _.
Arguments whs {_} _.
Arguments onlist {_} _.
Arguments mtxs {_} _.
Arguments rws {_} _.
Arguments cvs {_} _.
Arguments rumpuser__hyp {_} _.

Section Fiber.
Context {H : Type} `{HeapOps H}.
Implicit Types s : fib H.

Definition set_sc (x : sched H) s : fib H := Fib x (whs s) (onlist s) (mtxs s) (rws s) (cvs s) (rumpuser__hyp s).
Definition set_whs (x : gmap Z (list Z)) s : fib H := Fib (sc s) x (onlist s) (mtxs s) (rws s) (cvs s) (rumpuser__hyp s).
Definition set_onlist (x : gmap Z bool) s : fib H := Fib (sc s) (whs s) x (mtxs s) (rws s) (cvs s) (rumpuser__hyp s).
Definition set_mtxs (x : gmap Z rumpuser_mtx) s : fib H := Fib (sc s) (whs s) (onlist s) x (rws s) (cvs s) (rumpuser__hyp s).
Definition set_rws (x : gmap Z rumpuser_rw) s : fib H := Fib (sc s) (whs s) (onlist s) (mtxs s) x (cvs s) (rumpuser__hyp s).
Definition set_cvs (x : gmap Z Z) s : fib H := Fib (sc s) (whs s) (onlist s) (mtxs s) (rws s) x (rumpuser__hyp s).
Definition set_hyp (x : Z) s : fib H := Fib (sc s) (whs s) (onlist s) (mtxs s) (rws s) (cvs s) x.

Definition cur s : Z := bmk_sched_current (sc s).
Definition queue s (wh : Z) : list Z := default [] (whs s !! wh).
Definition set_queue (wh : Z) (l : list Z) s : fib H := set_whs (<[wh := l]> (whs s)) s.
Definition is_onlist s (t : Z) : bool := default false (onlist s !! t).
Definition getmtx s (m : Z) : rumpuser_mtx := default (Mtx 0 0 NULL) (mtxs s !! m).
Definition getrw s (r : Z) : rumpuser_rw := default (Rw 0 NULL) (rws s !! r).
Definition getcv s (c : Z) : Z := default 0 (cvs s !! c).
Definition put_mtx (m : Z) (x : rumpuser_mtx) s : fib H := set_mtxs (<[m := x]> (mtxs s)) s.
Definition put_rw (r : Z) (x : rumpuser_rw) s : fib H := set_rws (<[r := x]> (rws s)) s.
Definition put_cv (c : Z) (n : Z) s : fib H := set_cvs (<[c := n]> (cvs s)) s.

(** ** Initialisation and errno *)

Definition rumpuser_init (RUMPUSER_VERSION version hyp : Z) s : Z * fib H :=
  if negb (version =? RUMPUSER_VERSION) then (EINVAL, s) else (0, set_hyp hyp s).
Definition rumpuser_seterrno (error : Z) s : fib H := set_sc (seterrno error (sc s)) s.

(** ** Waiting *)

(** [wait] up to [bmk_sched]; [now] is what [bmk_clock_now] returns. *)
Definition wait_block (wh nsec now : Z) s : fib H :=
  let w := cur s in
  let s := set_queue wh (tq_insert_tail w (queue s wh)) s in
  let s := set_onlist (<[w := true]> (onlist s)) s in
  let s := set_sc (bmk_sched_block w (sc s)) s in
  if negb (nsec =? 0) then set_sc (bmk_sched_setwakeup w (i64 (u64 (u64 now + nsec))) (sc s)) s else s.

(** [wait] after [bmk_sched]: its result and the state.  The waiter is a
    local variable: it is gone when [wait] returns. *)
Definition wait_resume (wh : Z) s : Z * fib H :=
  let w := cur s in
  let s := if is_onlist s w then set_queue wh (tq_remove w (queue s wh)) s else s in
  (if is_onlist s w then ETIMEDOUT else 0, set_onlist (delete w (onlist s)) s).

Definition wakeup_one (wh : Z) s : fib H :=
  match queue s wh with
  | [] => s
  | w :: _ =>
      let s := set_queue wh (tq_remove w (queue s wh)) s in
      let s := set_onlist (<[w := false]> (onlist s)) s in
      set_sc (bmk_sched_wake w (sc s)) s
  end.

(** The loop of [wakeup_all], which takes the first element off the queue
    each time; [fuel] bounds its turns. *)
Fixpoint wakeup_all_loop (fuel : nat) (wh : Z) s : option (fib H) :=
  match queue s wh with
  | [] => Some s
  | w :: _ =>
      match fuel with
      | O => None
      | S fuel =>
          let s := set_queue wh (tq_remove w (queue s wh)) s in
          let s := set_onlist (<[w := false]> (onlist s)) s in
          wakeup_all_loop fuel wh (set_sc (bmk_sched_wake w (sc s)) s)
      end
  end.
Definition wakeup_all (wh : Z) s : fib H := default s (wakeup_all_loop (length (queue s wh)) wh s).

(** ** Threads *)

Definition rumpuser_thread_create (bouncer f arg : Z) (thrname : list Z) (joinable pri cpuidx : Z) s
    : outcome (Z * option Z * fib H) :=
  '(thr, x) ← bmk_sched_create bouncer thrname NULL joinable f arg NULL 0 (sc s);
  if thr =? NULL then Ret (EINVAL, None, set_sc x s) else Ret (0, Some thr, set_sc x s).
(** [inl]: blocked at the call of [bmk_sched] in the waiting loop of
    [bmk_sched_exit]; [inr]: at its last call, from which it never returns. *)
Definition rumpuser_thread_exit s : fib H + fib H :=
  match exit_gate (sc s) with
  | Some x => inl (set_sc x s)
  | None => inr (set_sc (exit_final (sc s)) s)
  end.
Definition rumpuser_thread_join (p : Z) s : outcome (fib H + fib H) :=
  r ← bmk_sched_join p (sc s);
  Ret (match r with inl x => inl (set_sc x s) | inr x => inr (set_sc x s) end).

(** ** The current lwp *)

Definition rumpuser_curlwp s : outcome Z := bmk_sched_gettls (cur s) BMK_TLS_RUMPLWP (sc s).
Definition rumpuser_curlwpop (op : rumplwpop) (l : Z) s : outcome (fib H) :=
  match op with
  | RUMPUSER_LWP_CREATE | RUMPUSER_LWP_DESTROY => Ret s
  | RUMPUSER_LWP_SET =>
      c ← rumpuser_curlwp s;
      _ ← c_assert (c =? NULL) "rumpuser_curlwp() == NULL";
      x ← bmk_sched_settls (cur s) BMK_TLS_RUMPLWP l (sc s);
      Ret (set_sc x s)
  | RUMPUSER_LWP_CLEAR =>
      c ← rumpuser_curlwp s;
      _ ← c_assert (c =? l) "rumpuser_curlwp() == l";
      x ← bmk_sched_settls (cur s) BMK_TLS_RUMPLWP NULL (sc s);
      Ret (set_sc x s)
  end.

(** ** Mutexes *)

Definition rumpuser_mutex_init (flags : Z) s : outcome (Z * fib H) :=
  '(mtx, h) ← h_xmalloc SIZEOF_MTX (hp (sc s));
  let s := set_sc (set_hp h (sc s)) s in
  Ret (mtx, set_queue (mtx_waiters mtx) [] (put_mtx mtx (Mtx 0 flags NULL) s)).

Definition rumpuser_mutex_tryenter (mtx : Z) s : outcome (Z * fib H) :=
  l ← bmk_sched_gettls (cur s) BMK_TLS_RUMPLWP (sc s);
  let m := getmtx s mtx in
  if negb (mtx_v m =? 0) && negb (mtx_o m =? l) then Ret (EBUSY, s)
  else Ret (0, put_mtx mtx (Mtx (i32 (mtx_v m + 1)) (mtx_flags m) l) s).

Definition rumpuser_mutex_enter_nowrap (mtx : Z) s : outcome (fib H) :=
  '(rv, s) ← rumpuser_mutex_tryenter mtx s;
  if negb (rv =? 0) then c_panic "spin mutex error" else Ret s.

Definition rumpuser_mutex_exit (mtx : Z) s : outcome (fib H) :=
  let m := getmtx s mtx in
  _ ← c_assert (0 <? mtx_v m) "mtx->v > 0";
  let v := mtx_v m - 1 in
  if v =? 0 then Ret (wakeup_one (mtx_waiters mtx) (put_mtx mtx (Mtx v (mtx_flags m) NULL) s))
  else Ret (put_mtx mtx (Mtx v (mtx_flags m) (mtx_o m)) s).

Definition rumpuser_mutex_destroy (mtx : Z) s : outcome (fib H) :=
  _ ← c_assert ((match queue s (mtx_waiters mtx) with [] => true | _ => false end) && (mtx_o (getmtx s mtx) =? NULL))
        "TAILQ_EMPTY(&mtx->waiters) && mtx->o == NULL";
  h ← h_memfree mtx (hp (sc s));
  Ret (set_sc (set_hp h (sc s)) (set_mtxs (delete mtx (mtxs s)) s)).

Definition rumpuser_mutex_owner (mtx : Z) s : Z := mtx_o (getmtx s mtx).

(** ** Reader/writer locks *)

Definition rumpuser_rw_init s : outcome (Z * fib H) :=
  '(rw, h) ← h_xmalloc SIZEOF_RW (hp (sc s));
  let s := set_sc (set_hp h (sc s)) s in
  Ret (rw, set_queue (rw_wwait rw) [] (set_queue (rw_rwait rw) [] (put_rw rw (Rw 0 NULL) s))).

(** The argument is a C [int]: a value that is no enumerator ([None]) takes
    the [default] branch. *)
Definition rumpuser_rw_tryenter (lk : option rumprwlock) (rw : Z) s : outcome (Z * fib H) :=
  let r := getrw s rw in
  match lk with
  | Some RUMPUSER_RW_WRITER =>
      if rw_o r =? NULL then l ← rumpuser_curlwp s; Ret (0, put_rw rw (Rw (rw_v r) l) s)
      else Ret (EBUSY, s)
  | Some RUMPUSER_RW_READER =>
      if (rw_o r =? NULL) && (match queue s (rw_wwait rw) with [] => true | _ => false end)
      then Ret (0, put_rw rw (Rw (i32 (rw_v r + 1)) (rw_o r)) s)
      else Ret (EBUSY, s)
  | None => Ret (EINVAL, s)
  end.

Definition rumpuser_rw_exit (rw : Z) s : fib H :=
  let r := getrw s rw in
  let r := if negb (rw_o r =? NULL) then Rw (rw_v r) NULL else Rw (i32 (rw_v r - 1)) (rw_o r) in
  let s := put_rw rw r s in
  match queue s (rw_wwait rw) with
  | _ :: _ => if rw_o r =? NULL then wakeup_one (rw_wwait rw) s else s
  | [] => if (match queue s (rw_rwait rw) with [] => false | _ => true end) && (rw_o r =? NULL)
          then wakeup_all (rw_rwait rw) s else s
  end.

Definition rumpuser_rw_destroy (rw : Z) s : outcome (fib H) :=
  h ← h_memfree rw (hp (sc s));
  Ret (set_sc (set_hp h (sc s)) (set_rws (delete rw (rws s)) s)).

Definition rumpuser_rw_held (lk : rumprwlock) (rw : Z) s : outcome bool :=
  match lk with
  | RUMPUSER_RW_WRITER => l ← rumpuser_curlwp s; Ret (rw_o (getrw s rw) =? l)
  | RUMPUSER_RW_READER => Ret (0 <? rw_v (getrw s rw))
  end.

Definition rumpuser_rw_downgrade (rw : Z) s : outcome (fib H) :=
  l ← rumpuser_curlwp s;
  _ ← c_assert (rw_o (getrw s rw) =? l) "rw->o == rumpuser_curlwp()";
  Ret (put_rw rw (Rw (-1) (rw_o (getrw s rw))) s).

Definition rumpuser_rw_tryupgrade (rw : Z) s : outcome (Z * fib H) :=
  if rw_v (getrw s rw) =? -1 then l ← rumpuser_curlwp s; Ret (0, put_rw rw (Rw 1 l) s)
  else Ret (EBUSY, s).

(** ** Condition variables, without the upcalls *)

Definition rumpuser_cv_init s : outcome (Z * fib H) :=
  '(cv, h) ← h_xmalloc SIZEOF_CV (hp (sc s));
  let s := set_sc (set_hp h (sc s)) s in
  Ret (cv, set_queue (cv_waiters cv) [] (put_cv cv 0 s)).

Definition rumpuser_cv_destroy (cv : Z) s : outcome (fib H) :=
  _ ← c_assert (getcv s cv =? 0) "cv->nwaiters == 0";
  h ← h_memfree cv (hp (sc s));
  Ret (set_sc (set_hp h (sc s)) (set_cvs (delete cv (cvs s)) s)).

Definition rumpuser_cv_wait_nowrap (cv mtx now : Z) s : outcome (fib H) :=
  let s := put_cv cv (i32 (getcv s cv + 1)) s in
  s ← rumpuser_mutex_exit mtx s;
  Ret (wait_block (cv_waiters cv) 0 now s).
Definition cv_wait_nowrap_resumed (cv mtx : Z) s : outcome (fib H) :=
  let '(_, s) := wait_resume (cv_waiters cv) s in
  s ← rumpuser_mutex_enter_nowrap mtx s;
  Ret (put_cv cv (i32 (getcv s cv - 1)) s).

Definition rumpuser_cv_signal (cv : Z) s : fib H := wakeup_one (cv_waiters cv) s.
Definition rumpuser_cv_broadcast (cv : Z) s : fib H := wakeup_all (cv_waiters cv) s.
Definition rumpuser_cv_has_waiters (cv : Z) s : bool := negb (getcv s cv =? 0).

(** ** Functions that call back into the rump kernel

    [hyp_backend_unschedule] and [hyp_backend_schedule] are the upcalls the
    rump kernel registered with [rumpuser_init]; the first yields the lock
    count [nlocks] the second is given back. *)
Section Upcalls.
Variable hyp_backend_unschedule : Z -> fib H -> outcome (Z * fib H).
Variable hyp_backend_schedule : Z -> Z -> fib H -> outcome (fib H).

Definition rumpkern_unsched (interlock : Z) s : outcome (Z * fib H) := hyp_backend_unschedule interlock s.
Definition rumpkern_sched (nlocks interlock : Z) s : outcome (fib H) := hyp_backend_schedule nlocks interlock s.

(** The loop of [rumpuser_mutex_enter]: [inl] when the lock was got and the
    function returns, [inr] at the [bmk_sched] inside [wait]. *)
Definition mutex_enter_loop (nlocks mtx now : Z) s : outcome (fib H + Z * fib H) :=
  '(rv, s) ← rumpuser_mutex_tryenter mtx s;
  if negb (rv =? 0) then Ret (inr (nlocks, wait_block (mtx_waiters mtx) 0 now s))
  else s ← rumpkern_sched nlocks NULL s; Ret (inl s).
Definition rumpuser_mutex_enter (mtx now : Z) s : outcome (fib H + Z * fib H) :=
  '(rv, s) ← rumpuser_mutex_tryenter mtx s;
  if negb (rv =? 0) then
    '(nlocks, s) ← rumpkern_unsched NULL s;
    mutex_enter_loop nlocks mtx now s
  else Ret (inl s).
Definition mutex_enter_resumed (nlocks mtx now : Z) s : outcome (fib H + Z * fib H) :=
  mutex_enter_loop nlocks mtx now (snd (wait_resume (mtx_waiters mtx) s)).

Definition rw_queue (lk : rumprwlock) (rw : Z) : Z :=
  match lk with RUMPUSER_RW_WRITER => rw_wwait rw | RUMPUSER_RW_READER => rw_rwait rw end.
Definition rw_enter_loop (nlocks : Z) (lk : rumprwlock) (rw now : Z) s : outcome (fib H + Z * fib H) :=
  '(rv, s) ← rumpuser_rw_tryenter (Some lk) rw s;
  if negb (rv =? 0) then Ret (inr (nlocks, wait_block (rw_queue lk rw) 0 now s))
  else s ← rumpkern_sched nlocks NULL s; Ret (inl s).
Definition rumpuser_rw_enter (lk : rumprwlock) (rw now : Z) s : outcome (fib H + Z * fib H) :=
  '(rv, s) ← rumpuser_rw_tryenter (Some lk) rw s;
  if negb (rv =? 0) then
    '(nlocks, s) ← rumpkern_unsched NULL s;
    rw_enter_loop nlocks lk rw now s
  else Ret (inl s).
Definition rw_enter_resumed (nlocks : Z) (lk : rumprwlock) (rw now : Z) s : outcome (fib H + Z * fib H) :=
  rw_enter_loop nlocks lk rw now (snd (wait_resume (rw_queue lk rw) s)).

Definition cv_unsched (mtx : Z) s : outcome (Z * fib H) :=
  '(nlocks, s) ← rumpkern_unsched mtx s;
  s ← rumpuser_mutex_exit mtx s;
  Ret (nlocks, s).
(** The two flag bits are defined in rumpuser.h, which is not part of the
    repository. *)
Definition cv_resched (RUMPUSER_MTX_SPIN RUMPUSER_MTX_KMUTEX mtx nlocks : Z) s : outcome (fib H) :=
  let both := Z.lor RUMPUSER_MTX_KMUTEX RUMPUSER_MTX_SPIN in
  if Z.land (mtx_flags (getmtx s mtx)) both =? both
  then s ← rumpkern_sched nlocks mtx s; rumpuser_mutex_enter_nowrap mtx s
  else s ← rumpuser_mutex_enter_nowrap mtx s; rumpkern_sched nlocks mtx s.

(** [rumpuser_cv_timedwait]; [rumpuser_cv_wait] is the case of no timeout. *)
Definition cv_timeout (sec nsec : Z) : Z := u64 (u64 (sec * (1000 * 1000 * 1000)) + u64 nsec).
Definition cv_wait_block (cv mtx nsec now : Z) s : outcome (Z * fib H) :=
  let s := put_cv cv (i32 (getcv s cv + 1)) s in
  '(nlocks, s) ← cv_unsched mtx s;
  Ret (nlocks, wait_block (cv_waiters cv) nsec now s).
Definition cv_wait_resumed (SPIN KMUTEX cv mtx nlocks : Z) s : outcome (Z * fib H) :=
  let '(rv, s) := wait_resume (cv_waiters cv) s in
  s ← cv_resched SPIN KMUTEX mtx nlocks s;
  Ret (rv, put_cv cv (i32 (getcv s cv - 1)) s).
Definition rumpuser_cv_wait (cv mtx now : Z) s : outcome (Z * fib H) := cv_wait_block cv mtx 0 now s.
Definition rumpuser_cv_timedwait (cv mtx sec nsec now : Z) s : outcome (Z * fib H) :=
  cv_wait_block cv mtx (cv_timeout sec nsec) now s.
End Upcalls.
End Fiber.
