(* ===== verification/FiberThms.v ===== *)
(** * FiberThms: the theorems on rumpfiber.c

    Wait queues are first-in first-out and [wait] tells a wake-up from a
    timeout; mutexes exclude each other and lose no wake-up; what the
    reader/writer locks and the condition variables do and fail to do. *)
From S2P Require Import Prelude Mem Pages Memalloc Heap Iface Alloc Sched SchedThms Fiber.

Section FiberThms.
Context {H : Type} `{HeapOps H}.
Implicit Types (s : fib H) (t u w wh m : Z).

(** [t] is the running thread. *)
Definition running t s : fib H := set_sc (set_current t (sc s)) s.
(** The lwp of a thread. *)
Definition lwp_of s t : Z := default 0 (bt_tls (getthr (thr (sc s)) t) !! 0%nat).
Definition runs s t : bool := is_runnable (getthr (thr (sc s)) t).
Definition exists_thr s t : Prop := is_Some (thr (sc s) !! t).

Lemma queue_set_eq wh l s : queue (set_queue wh l s) wh = l.
Proof. unfold queue, set_queue; cbn; by rewrite lookup_insert_eq. Qed.
Lemma queue_set_ne wh wh' l s : wh <> wh' -> queue (set_queue wh l s) wh' = queue s wh'.
Proof. intros; unfold queue, set_queue; cbn; by rewrite lookup_insert_ne. Qed.

Lemma curlwp_running t s : rumpuser_curlwp (running t s) = Ret (lwp_of s t).
Proof. done. Qed.

Lemma lwp_upd f t u s :
  (forall th, bt_tls (f th) = bt_tls th) -> lwp_of (set_sc (upd f t (sc s)) s) u = lwp_of s u.
Proof.
  intros Hf; unfold lwp_of, upd, set_thr, set_sc; cbn [sc thr].
  destruct (decide (t = u)) as [->|]; [|by rewrite getthr_alter_ne].
  destruct (thr (sc s) !! u) as [th|] eqn:E; [by rewrite getthr_alter_eq, Hf by done|].
  unfold getthr; by rewrite lookup_alter_eq, E.
Qed.

(** ** Wait queues *)

(** The queues and the [onlist] marks agree, and a thread waits once. *)
Record queues_ok s : Prop := {
  qo_nodup : forall wh, NoDup (queue s wh);
  qo_one : forall wh wh' t, t ∈ queue s wh -> t ∈ queue s wh' -> wh = wh';
  qo_onlist : forall t, onlist s !! t = Some true <-> exists wh, t ∈ queue s wh;
}.

Lemma wait_block_queue wh nsec now s wh' :
  queue (wait_block wh nsec now s) wh' = (if decide (wh = wh') then queue s wh ++ [cur s] else queue s wh') /\
  onlist (wait_block wh nsec now s) = <[cur s := true]> (onlist s).
Proof.
  unfold wait_block, queue; destruct (negb _); (split; [|done]); case_decide as Hd; subst; cbn;
    first [by rewrite lookup_insert_eq|by rewrite lookup_insert_ne].
Qed.

Lemma wait_block_ok wh nsec now s :
  queues_ok s -> onlist s !! cur s = None -> queues_ok (wait_block wh nsec now s).
Proof.
  intros [Hn H1 Ho] Hc.
  assert (forall wh, (cur s ∉ queue s wh)) as Hnew by (intros wh' Hx; rewrite (proj2 (Ho (cur s))) in Hc; eauto; done).
  assert (forall a t, t ∈ queue (wait_block wh nsec now s) a <-> t ∈ queue s a \/ (wh = a /\ t = cur s)) as Hin.
  { intros a t; destruct (wait_block_queue wh nsec now s a) as [-> _]; case_decide as Hd; subst; [|naive_solver].
    rewrite elem_of_app, list_elem_of_singleton; naive_solver. }
  split.
  - intros wh'; destruct (wait_block_queue wh nsec now s wh') as [-> _]; case_decide; [|done].
    apply NoDup_app; split_and!; [done| |apply NoDup_singleton]; intros x Hx ->%list_elem_of_singleton; by apply (Hnew wh).
  - intros a b t [Ha|[-> ->]]%Hin [Hb|[-> Hc']]%Hin; [by apply (H1 _ _ t)| | |done].
    + subst t; by apply Hnew in Ha.
    + by apply Hnew in Hb.
  - intros t; destruct (wait_block_queue wh nsec now s wh) as [_ ->]; rewrite lookup_insert_Some, Ho; setoid_rewrite Hin.
    destruct (decide (cur s = t)) as [<-|Hne]; naive_solver.
Qed.

Lemma dequeue_ok wh w s s' :
  queues_ok s -> w ∈ queue s wh ->
  (forall a, queue s' a = if decide (wh = a) then tq_remove w (queue s wh) else queue s a) ->
  (forall t, t <> w -> onlist s' !! t = onlist s !! t) -> onlist s' !! w <> Some true -> queues_ok s'.
Proof.
  intros [Hn H1 Ho] Hw Hq Hol Hwo.
  assert (forall a t, t ∈ queue s' a <-> t <> w /\ t ∈ queue s a) as Hin.
  { intros a t; rewrite Hq; case_decide as Hd; subst; [apply elem_of_tq_remove|].
    split; [|tauto]; intros Ht; split; [|done]; intros ->; by apply Hd, (H1 _ _ w). }
  split.
  - intros a; rewrite Hq; case_decide; [|done]; by apply NoDup_filter.
  - intros a b t [_ Ha]%Hin [_ Hb]%Hin; by apply (H1 _ _ t).
  - intros t; destruct (decide (t = w)) as [->|Hne].
    + split; [done|]; intros (a & [? _]%Hin); done.
    + rewrite Hol, Ho by done; setoid_rewrite Hin; naive_solver.
Qed.

(** One turn of a wake-up: the first waiter leaves the queue and runs. *)
Definition wake_first wh w s : fib H :=
  set_sc (bmk_sched_wake w (sc s))
    (set_onlist (<[w := false]> (onlist s)) (set_queue wh (tq_remove w (queue s wh)) s)).

Lemma wake_first_queue wh w s a :
  queue (wake_first wh w s) a = if decide (wh = a) then tq_remove w (queue s wh) else queue s a.
Proof. case_decide; subst; unfold queue; cbn; [by rewrite lookup_insert_eq|by rewrite lookup_insert_ne]. Qed.

Lemma wake_first_ok wh w l s : queues_ok s -> queue s wh = w :: l ->
  queues_ok (wake_first wh w s) /\ queue (wake_first wh w s) wh = l.
Proof.
  intros Hok Hq; split.
  - eapply (dequeue_ok wh w s); [done|rewrite Hq; constructor|apply wake_first_queue| |]; cbn.
    + intros t Ht; by rewrite lookup_insert_ne.
    + by rewrite lookup_insert_eq.
  - rewrite wake_first_queue, decide_True, Hq, tq_remove_cons_eq by done.
    pose proof (qo_nodup _ Hok wh) as Hn; rewrite Hq in Hn; apply NoDup_cons in Hn as [? _]; by apply tq_remove_notin.
Qed.

Lemma wakeup_one_eq wh s : wakeup_one wh s = match queue s wh with [] => s | w :: _ => wake_first wh w s end.
Proof. unfold wakeup_one; destruct (queue s wh) eqn:E; unfold wake_first; by rewrite ?E. Qed.

(** Waking the threads [l] of the queue [wh] one after the other. *)
Definition wake_list wh (l : list Z) s : fib H := foldl (fun s w => wake_first wh w s) s l.

Lemma wakeup_all_loop_S n wh s : wakeup_all_loop (S n) wh s =
  match queue s wh with [] => Some s | w :: _ => wakeup_all_loop n wh (wake_first wh w s) end.
Proof. cbn [wakeup_all_loop]; destruct (queue s wh) eqn:E; [done|]; unfold wake_first; by rewrite E. Qed.

Lemma wakeup_all_loop_ok wh l s : queues_ok s -> queue s wh = l ->
  wakeup_all_loop (length l) wh s = Some (wake_list wh l s) /\ queues_ok (wake_list wh l s) /\ queue (wake_list wh l s) wh = [].
Proof.
  revert s; induction l as [|w l IH]; intros s Hok Hq.
  - cbn; by rewrite Hq.
  - destruct (wake_first_ok wh w l s Hok Hq) as [Hok' Hq'].
    destruct (IH _ Hok' Hq') as (E & ? & ?); split_and!; [|done..].
    cbn [length]; rewrite wakeup_all_loop_S, Hq; exact E.
Qed.

Lemma wakeup_all_eq wh s : queues_ok s -> wakeup_all wh s = wake_list wh (queue s wh) s.
Proof. intros Hok; unfold wakeup_all; by destruct (wakeup_all_loop_ok wh (queue s wh) s Hok eq_refl) as (-> & _). Qed.

Lemma wake_list_frame wh l s t :
  (forall a, a <> wh -> queue (wake_list wh l s) a = queue s a) /\
  ((t ∉ l) -> onlist (wake_list wh l s) !! t = onlist s !! t /\ thr (sc (wake_list wh l s)) !! t = thr (sc s) !! t) /\
  (t ∈ l -> exists_thr s t -> onlist (wake_list wh l s) !! t = Some false /\ runs (wake_list wh l s) t = true).
Proof.
  revert s; induction l as [|w l IH]; intros s; [cbn; set_solver|].
  destruct (IH (wake_first wh w s)) as (Hq & Hout & Hin); clear IH.
  change (wake_list wh (w :: l) s) with (wake_list wh l (wake_first wh w s)); split_and!.
  - intros a Ha; rewrite Hq, wake_first_queue, decide_False by done; done.
  - intros [Hw Hl]%not_elem_of_cons; destruct (Hout Hl) as [-> ->]; cbn.
    by rewrite lookup_insert_ne, lookup_alter_ne.
  - intros Ht Hex; destruct (decide (t ∈ l)) as [Hl|Hl].
    + apply Hin; [done|]; unfold exists_thr; cbn; by rewrite lookup_alter_is_Some.
    + assert (t = w) as -> by set_solver; destruct (Hout Hl) as [-> E]; cbn; rewrite lookup_insert_eq; split; [done|].
      unfold runs, getthr; rewrite E; cbn; rewrite lookup_alter_eq; destruct Hex as [th ->]; cbn [fmap option_fmap option_map default].
      apply set_runnable_runnable.
Qed.

(** Nothing else changes: no lock, no other queue, no thread but those of
    [ts], nothing of the scheduler but thread structures. *)
Definition touches wh (ts : list Z) s s' : Prop :=
  mtxs s' = mtxs s /\ rws s' = rws s /\ cvs s' = cvs s /\ rumpuser__hyp s' = rumpuser__hyp s /\
  sc s' = set_thr (thr (sc s')) (sc s) /\
  (forall a, a <> wh -> queue s' a = queue s a) /\
  (forall t, (t ∉ ts) -> onlist s' !! t = onlist s !! t /\ thr (sc s') !! t = thr (sc s) !! t).

Lemma wait_block_touches wh nsec now s : touches wh [cur s] s (wait_block wh nsec now s).
Proof.
  unfold wait_block; destruct (negb (nsec =? 0)); (split_and!; [done..| |]).
  - intros a Ha; exact (queue_set_ne wh a _ s (not_eq_sym Ha)).
  - intros t Ht%not_elem_of_cons; destruct Ht as [Ht _]; cbn; by rewrite lookup_insert_ne, !lookup_alter_ne.
  - intros a Ha; exact (queue_set_ne wh a _ s (not_eq_sym Ha)).
  - intros t Ht%not_elem_of_cons; destruct Ht as [Ht _]; cbn; by rewrite lookup_insert_ne, !lookup_alter_ne.
Qed.
Lemma wake_list_touches wh l s : touches wh l s (wake_list wh l s).
Proof.
  assert (mtxs (wake_list wh l s) = mtxs s /\ rws (wake_list wh l s) = rws s /\ cvs (wake_list wh l s) = cvs s /\
    rumpuser__hyp (wake_list wh l s) = rumpuser__hyp s /\ sc (wake_list wh l s) = set_thr (thr (sc (wake_list wh l s))) (sc s)) as (H1 & H2 & H3 & H4 & H5).
  { revert s; induction l as [|w l IH]; intros s; [cbn; by destruct s as [[] ? ? ? ? ? ?]|].
    change (wake_list wh (w :: l) s) with (wake_list wh l (wake_first wh w s)); destruct (IH (wake_first wh w s)) as (-> & -> & -> & -> & E).
    split_and!; [done..|]; rewrite E at 1; done. }
  split_and!; [done..| |].
  - intros a Ha; by apply (wake_list_frame wh l s 0).
  - intros t Ht; by apply (wake_list_frame wh l s t).
Qed.
Lemma wait_block_thread wh nsec now s : exists_thr s (cur s) ->
  runs (wait_block wh nsec now s) (cur s) = false /\
  bt_wakeup_time (getthr (thr (sc (wait_block wh nsec now s))) (cur s)) = if nsec =? 0 then -1 else i64 (u64 (u64 now + nsec)).
Proof.
  intros Hex; unfold runs, wait_block; destruct (nsec =? 0); cbn [negb]; cbn.
  - rewrite getthr_alter_eq by done; split; [apply clear_runnable_blocked|done].
  - rewrite getthr_alter_eq by (by apply lookup_alter_is_Some); rewrite getthr_alter_eq by done.
    split; [exact (clear_runnable_blocked (with_wakeup _ _))|done].
Qed.

(** C24: wait queues are first-in first-out and conserve threads.  In a state
    where queues and marks agree, [wait] appends the running thread to the
    queue, marks it and stops it, to be run again after the timeout if there
    is one; [wakeup_one] takes exactly the longest waiting thread off, marks
    it and makes it runnable, or does nothing when nobody waits; [wakeup_all]
    ends, empties the queue and does so for all of them.  No lock, no other
    queue and no other thread changes, and queues and marks still agree. *)
Theorem wait_queues_fifo s wh :
  queues_ok s -> (forall a t, t ∈ queue s a -> exists_thr s t) ->
  (forall nsec now, onlist s !! cur s = None -> exists_thr s (cur s) ->
     let s' := wait_block wh nsec now s in
     queues_ok s' /\ touches wh [cur s] s s' /\ queue s' wh = queue s wh ++ [cur s] /\
     onlist s' !! cur s = Some true /\ runs s' (cur s) = false /\
     bt_wakeup_time (getthr (thr (sc s')) (cur s)) = if nsec =? 0 then -1 else i64 (u64 (u64 now + nsec))) /\
  match queue s wh with
  | [] => wakeup_one wh s = s
  | w :: l =>
      let s' := wakeup_one wh s in
      queues_ok s' /\ touches wh [w] s s' /\ queue s' wh = l /\ onlist s' !! w = Some false /\ runs s' w = true
  end /\
  (let s' := wakeup_all wh s in
   queues_ok s' /\ touches wh (queue s wh) s s' /\ queue s' wh = [] /\
   is_Some (wakeup_all_loop (length (queue s wh)) wh s) /\
   forall t, t ∈ queue s wh -> onlist s' !! t = Some false /\ runs s' t = true).
Proof.
  intros Hok Hex; split_and!.
  - intros nsec now Hc Hcur s'; destruct (wait_block_thread wh nsec now s Hcur) as [Hr Hw].
    destruct (wait_block_queue wh nsec now s wh) as [Hq Ho]; rewrite decide_True in Hq by done; unfold s'.
    split_and!; [by apply wait_block_ok|apply wait_block_touches|done|rewrite Ho; apply lookup_insert_eq|done|done].
  - rewrite wakeup_one_eq; destruct (queue s wh) as [|w l] eqn:Hq; [done|]; intros s'.
    destruct (wake_first_ok wh w l s Hok Hq) as [? ?], (wake_list_frame wh [w] s w) as (_ & _ & Hw).
    destruct Hw as [? ?]; [constructor|apply (Hex wh); rewrite Hq; constructor|].
    split_and!; [done|exact (wake_list_touches wh [w] s)|done..].
  - intros s'; unfold s'; rewrite wakeup_all_eq by done; destruct (wakeup_all_loop_ok wh (queue s wh) s Hok eq_refl) as (E & ? & ?).
    split_and!; [done|apply wake_list_touches|done|rewrite E; by eexists|].
    intros t Ht; apply (wake_list_frame wh _ s t); eauto.
Qed.

(** [wait] tells a wake-up from a timeout.  When the thread that waited on
    [wh] runs again, [wait] returns 0 exactly if a wake-up took it off the
    queue and ETIMEDOUT exactly if it was still queued; either way it is on
    no queue afterwards, the other waiters keep their order, and its waiter is
    gone. *)
Theorem wait_result s wh :
  queues_ok s -> is_Some (onlist s !! cur s) -> (onlist s !! cur s = Some true -> cur s ∈ queue s wh) ->
  let '(rv, s') := wait_resume wh s in
  (rv = 0 <-> onlist s !! cur s = Some false) /\ (rv = ETIMEDOUT <-> cur s ∈ queue s wh) /\
  queues_ok s' /\ onlist s' !! cur s = None /\ (forall a, (cur s ∉ queue s' a)) /\
  (forall a, queue s' a = tq_remove (cur s) (queue s a)).
Proof.
  intros Hok [b Hb] Hin; unfold wait_resume, is_onlist; rewrite Hb; cbn [default].
  destruct b; cbn [from_option id].
  - specialize (Hin Hb).
    set (s' := set_onlist _ _).
    assert (forall a, queue s' a = if decide (wh = a) then tq_remove (cur s) (queue s wh) else queue s a) as Hq.
    { intros a; unfold queue; cbn; case_decide; subst; [by rewrite lookup_insert_eq|by rewrite lookup_insert_ne]. }
    assert (forall a, queue s' a = tq_remove (cur s) (queue s a)) as Hq'.
    { intros a; rewrite Hq; case_decide as Hd; [by subst|]; symmetry; apply tq_remove_notin.
      intros Hx; by apply Hd, (qo_one _ Hok _ _ (cur s)). }
    cbn [onlist set_queue set_whs]; rewrite ?Hb; cbn [from_option id]; split_and!; try done.
    + eapply (dequeue_ok wh (cur s) s); [done|done|done| |]; cbn.
      * intros t Ht; by rewrite lookup_delete_ne.
      * by rewrite lookup_delete_eq.
    + apply lookup_delete_eq.
    + intros a; rewrite Hq'; rewrite elem_of_tq_remove; tauto.
  - assert (forall a, (cur s ∉ queue s a)) as Hno.
    { intros a Ha; rewrite (proj2 (qo_onlist _ Hok (cur s))) in Hb; [done|eauto]. }
    cbn [onlist set_queue set_whs]; rewrite ?Hb; cbn [from_option id]; split_and!; try done.
    + split; [unfold ETIMEDOUT; lia|]; intros Hx; by apply Hno in Hx.
    + destruct Hok as [? ? Ho]; split; [done|done|]; intros t; cbn; rewrite lookup_delete_Some, Ho.
      split; [tauto|]; intros (a & Ha); split; [|eauto]; intros <-; by apply (Hno a).
    + apply lookup_delete_eq.
    + intros a; symmetry; exact (tq_remove_notin (cur s) (queue s a) (Hno a)).
Qed.

(** ** Mutexes *)

Lemma tryenter_cases m t s rv s' : rumpuser_mutex_tryenter m (running t s) = Ret (rv, s') ->
  let x := getmtx s m in
  (rv = 0 /\ (mtx_v x = 0 \/ mtx_o x = lwp_of s t) /\
   s' = put_mtx m (Mtx (i32 (mtx_v x + 1)) (mtx_flags x) (lwp_of s t)) (running t s)) \/
  (rv = EBUSY /\ mtx_v x <> 0 /\ mtx_o x <> lwp_of s t /\ s' = running t s).
Proof.
  unfold rumpuser_mutex_tryenter; change (bmk_sched_gettls _ _ _) with (Ret (lwp_of s t)).
  change (getmtx (running t s) m) with (getmtx s m); cbn [mbind outcome_bind].
  destruct (Z.eqb_spec (mtx_v (getmtx s m)) 0) as [E|E], (Z.eqb_spec (mtx_o (getmtx s m)) (lwp_of s t)) as [E'|E'];
    cbn [negb andb]; intros [= <- <-]; auto.
Qed.

Lemma exit_cases m t s : 0 < mtx_v (getmtx s m) ->
  let x := getmtx s m in
  rumpuser_mutex_exit m (running t s) = Ret
    (if mtx_v x =? 1 then wakeup_one (mtx_waiters m) (put_mtx m (Mtx 0 (mtx_flags x) NULL) (running t s))
     else put_mtx m (Mtx (mtx_v x - 1) (mtx_flags x) (mtx_o x)) (running t s)).
Proof.
  intros Hv; unfold rumpuser_mutex_exit; change (getmtx (running t s) m) with (getmtx s m).
  rewrite (proj2 (Z.ltb_lt _ _) Hv); cbn [c_assert mbind outcome_bind].
  destruct (Z.eqb_spec (mtx_v (getmtx s m)) 1) as [->|]; [done|].
  by rewrite (proj2 (Z.eqb_neq _ _)) by lia.
Qed.

Lemma getmtx_put_eq m x s : getmtx (put_mtx m x s) m = x.
Proof. unfold getmtx, put_mtx; cbn; by rewrite lookup_insert_eq. Qed.

Lemma wake_first_runs wh w s t : exists_thr s t -> runs (wake_first wh w s) t = (if decide (t = w) then true else runs s t).
Proof.
  intros Hex; unfold runs; cbn; case_decide as Hd.
  - subst; rewrite getthr_alter_eq by done; apply set_runnable_runnable.
  - by rewrite getthr_alter_ne.
Qed.

Lemma wake_first_exists wh w s t : exists_thr (wake_first wh w s) t <-> exists_thr s t.
Proof. unfold exists_thr; cbn; apply lookup_alter_is_Some. Qed.

(** The phases of a thread that uses the mutex [m]: outside of
    [rumpuser_mutex_enter], about to try again in its loop, or in [wait]. *)
Inductive phase := Out | Trying | Waiting.

Definition fset {A} (f : Z -> A) (t : Z) (x : A) : Z -> A := fun u => if decide (u = t) then x else f u.
Lemma fset_eq {A} (f : Z -> A) t x : fset f t x t = x.
Proof. unfold fset; by rewrite decide_True. Qed.
Lemma fset_ne {A} (f : Z -> A) t x u : u <> t -> fset f t x u = f u.
Proof. intros; unfold fset; by rewrite decide_False. Qed.

Section Mutex.
Variable m : Z.
Variable lwp : Z -> Z.

(** A configuration: the state, the phase of each thread, and how often each
    thread has entered without leaving. *)
Record mcfg := MCfg { mc_s : fib H; mc_ph : Z -> phase; mc_hold : Z -> nat }.

(** The steps of the threads, each of them run as the current thread and each
    with an lwp of its own.  Between the steps anything may happen that does
    not touch the mutex, its queue and the waiters of its users, and that
    does not stop a thread that was woken. *)
Inductive mstep : mcfg -> mcfg -> Prop :=
| ms_enter t s ph hold s' :
    ph t = Out -> lwp_of s t = lwp t -> mtx_v (getmtx s m) < 2 ^ 31 - 1 ->
    rumpuser_mutex_tryenter m (running t s) = Ret (0, s') ->
    mstep (MCfg s ph hold) (MCfg s' ph (fset hold t (S (hold t))))
| ms_contend t s ph hold s' :
    ph t = Out -> lwp_of s t = lwp t -> rumpuser_mutex_tryenter m (running t s) = Ret (EBUSY, s') ->
    mstep (MCfg s ph hold) (MCfg s' (fset ph t Trying) hold)
| ms_retry t s ph hold s' :
    ph t = Trying -> lwp_of s t = lwp t -> mtx_v (getmtx s m) < 2 ^ 31 - 1 ->
    rumpuser_mutex_tryenter m (running t s) = Ret (0, s') ->
    mstep (MCfg s ph hold) (MCfg s' (fset ph t Out) (fset hold t (S (hold t))))
| ms_wait t now s ph hold s' :
    ph t = Trying -> lwp_of s t = lwp t -> exists_thr s t ->
    rumpuser_mutex_tryenter m (running t s) = Ret (EBUSY, s') ->
    mstep (MCfg s ph hold) (MCfg (wait_block (mtx_waiters m) 0 now s') (fset ph t Waiting) hold)
| ms_resume t s ph hold :
    ph t = Waiting ->
    mstep (MCfg s ph hold) (MCfg (snd (wait_resume (mtx_waiters m) (running t s))) (fset ph t Trying) hold)
| ms_exit t s ph hold s' :
    ph t = Out -> (0 < hold t)%nat -> rumpuser_mutex_exit m (running t s) = Ret s' ->
    mstep (MCfg s ph hold) (MCfg s' ph (fset hold t (hold t - 1)%nat))
| ms_other s ph hold s' :
    getmtx s' m = getmtx s m -> queue s' (mtx_waiters m) = queue s (mtx_waiters m) ->
    (forall t, ph t <> Out -> onlist s' !! t = onlist s !! t) ->
    (forall t, ph t = Waiting -> exists_thr s t -> exists_thr s' t) ->
    (forall t, ph t = Waiting -> onlist s !! t = Some false -> runs s t = true -> runs s' t = true) ->
    mstep (MCfg s ph hold) (MCfg s' ph hold).

(** A thread taken off the queue that has not run yet. *)
Definition woken (c : mcfg) t : Prop :=
  mc_ph c t = Waiting /\ onlist (mc_s c) !! t = Some false /\ runs (mc_s c) t = true.

(** The mutex is free and nobody is inside, or exactly one thread is, as
    often as the counter says and as the owner. *)
Definition excl (v o : Z) (hold : Z -> nat) : Prop :=
  (v = 0 /\ o = NULL /\ forall t, hold t = O) \/
  (exists t, v = Z.of_nat (hold t) /\ (0 < hold t)%nat /\ v < 2 ^ 31 /\ o = lwp t /\ forall u, u <> t -> hold u = O).

Record mtx_inv (c : mcfg) : Prop := {
  mi_nodup : NoDup (queue (mc_s c) (mtx_waiters m));
  mi_queue : forall t, t ∈ queue (mc_s c) (mtx_waiters m) -> mc_ph c t = Waiting /\ onlist (mc_s c) !! t = Some true;
  mi_wait : forall t, mc_ph c t = Waiting -> exists_thr (mc_s c) t /\
    ((onlist (mc_s c) !! t = Some true /\ t ∈ queue (mc_s c) (mtx_waiters m)) \/ woken c t);
  mi_excl : excl (mtx_v (getmtx (mc_s c) m)) (mtx_o (getmtx (mc_s c) m)) (mc_hold c);
  mi_next : mtx_v (getmtx (mc_s c) m) = 0 -> queue (mc_s c) (mtx_waiters m) <> [] ->
    exists t, mc_ph c t = Trying \/ woken c t;
}.

Hypothesis lwp_inj : forall t u, lwp t = lwp u -> t = u.
Hypothesis lwp_nonnull : forall t, lwp t <> NULL.

Lemma excl_enter v o hold t : excl v o hold -> v = 0 \/ o = lwp t -> v < 2 ^ 31 - 1 ->
  excl (i32 (v + 1)) (lwp t) (fset hold t (S (hold t))).
Proof.
  intros [(-> & -> & Hh)|(u & -> & Hu & Hv & -> & Hh)] Hc Hb.
  - right; exists t; rewrite fset_eq, Hh; split_and!; [done|lia|done|done|].
    intros u Hut; rewrite fset_ne by done; apply Hh.
  - destruct Hc as [Hc|Hc]; [lia|]; apply lwp_inj in Hc; subst u.
    right; exists t; rewrite fset_eq, sext_id; [|unfold srange; lia|lia]; split_and!; [lia|lia|lia|done|].
    intros u Hut; rewrite fset_ne by done; by apply Hh.
Qed.

Lemma excl_exit v o hold t : excl v o hold -> (0 < hold t)%nat ->
  0 < v /\ o = lwp t /\ excl (v - 1) (if v =? 1 then NULL else o) (fset hold t (hold t - 1)%nat).
Proof.
  intros [(-> & -> & Hh)|(u & -> & Hu & Hv & -> & Hh)] Ht; [by rewrite Hh in Ht; lia|].
  destruct (decide (t = u)) as [->|Hne]; [|rewrite (Hh t) in Ht by done; lia].
  split_and!; [lia|done|]; destruct (Z.eqb_spec (Z.of_nat (hold u)) 1) as [E|E].
  - left; split_and!; [lia|done|]; intros x; unfold fset; case_decide as Hx; [lia|by apply Hh].
  - right; exists u; rewrite fset_eq; split_and!; [lia|lia|lia|done|].
    intros x Hx; rewrite fset_ne by done; by apply Hh.
Qed.

Lemma excl_other v o hold t : excl v o hold -> v <> 0 -> o <> lwp t -> hold t = O.
Proof.
  intros [(-> & _)|(u & _ & _ & _ & -> & Hh)] Hv Ho; [done|]; apply Hh; by intros ->.
Qed.

(** A step that changes only the mutex word and leaves it taken. *)
Lemma mtx_inv_taken s ph hold s' ph' hold' t :
  mtx_inv (MCfg s ph hold) -> (forall wh, queue s' wh = queue s wh) -> onlist s' = onlist s ->
  thr (sc s') = thr (sc s) -> ph t <> Waiting -> (forall u, u <> t -> ph' u = ph u) -> ph' t <> Waiting ->
  excl (mtx_v (getmtx s' m)) (mtx_o (getmtx s' m)) hold' -> mtx_v (getmtx s' m) <> 0 \/ ph' t = Trying ->
  mtx_inv (MCfg s' ph' hold').
Proof.
  intros [Hn Hq Hw He Hx] Eq Eo Et Hpt Hph Hpt' He' Hv; cbn in *.
  assert (forall u, u <> t -> woken (MCfg s ph hold) u -> woken (MCfg s' ph' hold') u) as Hwk.
  { intros u Hu (? & ? & ?); unfold woken, runs in *; cbn in *; rewrite Eo, Et, Hph; auto. }
  split; cbn; rewrite ?Eq.
  - done.
  - intros u Hu; rewrite Eo; destruct (decide (u = t)) as [->|]; [by apply Hq in Hu as [? _]|rewrite Hph by done; auto].
  - intros u Hu; destruct (decide (u = t)) as [->|Hne]; [done|]; rewrite Hph in Hu by done.
    destruct (Hw _ Hu) as [? Hc]; rewrite Eo; split; [unfold exists_thr; by rewrite Et|]; destruct Hc; auto.
  - done.
  - intros Hv0 Hne; destruct Hv as [?|?]; [done|]; eauto.
Qed.

Lemma enter_inv t s ph hold s' ph' :
  mtx_inv (MCfg s ph hold) -> ph t <> Waiting -> (forall u, u <> t -> ph' u = ph u) -> ph' t <> Waiting ->
  lwp_of s t = lwp t -> mtx_v (getmtx s m) < 2 ^ 31 - 1 -> rumpuser_mutex_tryenter m (running t s) = Ret (0, s') ->
  mtx_inv (MCfg s' ph' (fset hold t (S (hold t)))).
Proof.
  intros Hi Hpt Hph Hpt' Hl Hb Htry; apply tryenter_cases in Htry as [(_ & Hc & ->)|(E & _)]; [|discriminate E].
  pose proof (excl_enter _ _ _ t (mi_excl _ Hi) ltac:(by rewrite <- Hl) Hb) as He; cbn [mc_s] in He.
  apply (mtx_inv_taken s ph hold _ _ _ t); try done; rewrite getmtx_put_eq; cbn [mtx_v mtx_o]; rewrite ?Hl.
  - done.
  - left; destruct He as [(_ & E & _)|(u & E & Hu & _)]; [by apply lwp_nonnull in E|rewrite E; lia].
Qed.

Lemma wait_inv t now s ph hold :
  mtx_inv (MCfg s ph hold) -> ph t = Trying -> exists_thr s t -> mtx_v (getmtx s m) <> 0 ->
  mtx_inv (MCfg (wait_block (mtx_waiters m) 0 now (running t s)) (fset ph t Waiting) hold).
Proof.
  intros [Hn Hq Hw He Hx] Hpt Hex Hv; cbn [mc_s mc_ph mc_hold] in *.
  set (s' := wait_block (mtx_waiters m) 0 now (running t s)).
  assert (queue s' (mtx_waiters m) = queue s (mtx_waiters m) ++ [t]) as Eq.
  { destruct (wait_block_queue (mtx_waiters m) 0 now (running t s) (mtx_waiters m)) as [E _].
    unfold s'; rewrite E, decide_True by done; done. }
  assert (onlist s' = <[t := true]> (onlist s)) as Eo by done.
  assert (forall u, u <> t -> runs s' u = runs s u) as Er
    by (intros u Hu; unfold runs, s'; cbn; rewrite getthr_alter_ne; done).
  assert (forall u, exists_thr s' u <-> exists_thr s u) as Ee by (intros u; unfold exists_thr, s'; cbn; apply lookup_alter_is_Some).
  assert (t ∉ queue s (mtx_waiters m)) as Hnt by (intros Hx'; apply Hq in Hx' as [? _]; congruence).
  split; cbn [mc_s mc_ph mc_hold]; rewrite ?Eq.
  - apply NoDup_app; split_and!; [done| |apply NoDup_singleton]; by intros u Hu ->%list_elem_of_singleton.
  - intros u [Hu| ->%list_elem_of_singleton]%elem_of_app; rewrite Eo; [|by rewrite fset_eq, lookup_insert_eq].
    rewrite fset_ne, lookup_insert_ne by (by intros ->); auto.
  - intros u Hu; rewrite Ee, Eo; destruct (decide (u = t)) as [->|Hne].
    + split; [done|]; left; rewrite lookup_insert_eq; split; [done|]; apply elem_of_app; right; constructor.
    + rewrite fset_ne in Hu by done; destruct (Hw _ Hu) as [? [[? ?]|(? & ? & ?)]]; (split; [done|]).
      * left; rewrite lookup_insert_ne by done; split; [done|]; by apply elem_of_app; left.
      * right; unfold woken; cbn [mc_s mc_ph]; by rewrite fset_ne, Eo, Er, lookup_insert_ne by done.
  - done.
  - intros Hv0; by exfalso; apply Hv.
Qed.

Lemma resume_inv t s ph hold :
  mtx_inv (MCfg s ph hold) -> ph t = Waiting ->
  mtx_inv (MCfg (snd (wait_resume (mtx_waiters m) (running t s))) (fset ph t Trying) hold).
Proof.
  intros [Hn Hq Hw He Hx] Hpt; cbn [mc_s mc_ph mc_hold] in *.
  set (s' := snd (wait_resume (mtx_waiters m) (running t s))).
  assert (queue s' (mtx_waiters m) = tq_remove t (queue s (mtx_waiters m))) as Eq.
  { unfold s', wait_resume, is_onlist; change (cur (running t s)) with t; change (onlist (running t s)) with (onlist s).
    destruct (Hw _ Hpt) as [_ [[E Hin]|(_ & E & _)]]; cbn [mc_s] in E; rewrite E; cbn [default from_option id snd];
      [apply queue_set_eq|].
    symmetry; apply (tq_remove_notin t (queue s (mtx_waiters m))).
    intros Hin; apply Hq in Hin as [_ ?]; congruence. }
  assert (onlist s' = delete t (onlist s)) as Eo by (unfold s', wait_resume; destruct (is_onlist (running t s) _); reflexivity).
  assert (sc s' = set_current t (sc s)) as Es by (unfold s', wait_resume; destruct (is_onlist (running t s) _); reflexivity).
  assert (getmtx s' m = getmtx s m) as Em by (unfold s', wait_resume; destruct (is_onlist (running t s) _); reflexivity).
  split; cbn [mc_s mc_ph mc_hold]; rewrite ?Eq, ?Em.
  - by apply NoDup_filter.
  - intros u [Hu Hin]%elem_of_tq_remove; rewrite fset_ne, Eo, lookup_delete_ne by done; auto.
  - intros u Hu; destruct (decide (u = t)) as [->|Hne]; [by rewrite fset_eq in Hu|].
    rewrite fset_ne in Hu by done; destruct (Hw _ Hu) as [? Hc]; rewrite Eo, lookup_delete_ne by done.
    split; [unfold exists_thr; by rewrite Es|]; destruct Hc as [[? ?]|(? & ? & ?)].
    + left; rewrite elem_of_tq_remove; done.
    + right; unfold woken, runs; cbn [mc_s mc_ph]; rewrite fset_ne, Eo, Es, lookup_delete_ne; done.
  - done.
  - intros _ _; exists t; left; apply fset_eq.
Qed.

(** The mutex is released for good: the first waiter, if any, is woken. *)
Lemma release_inv s ph hold t x :
  mtx_inv (MCfg s ph hold) -> ph t = Out -> excl 0 NULL (fset hold t (hold t - 1)%nat) -> mtx_v x = 0 -> mtx_o x = NULL ->
  mtx_inv (MCfg (wakeup_one (mtx_waiters m) (put_mtx m x (running t s))) ph (fset hold t (hold t - 1)%nat)).
Proof.
  intros [Hn Hq Hw He Hx] Hpt He' Hxv Hxo; cbn [mc_s mc_ph mc_hold] in *; rewrite wakeup_one_eq.
  change (queue (put_mtx m x (running t s))) with (queue s).
  destruct (queue s (mtx_waiters m)) as [|w l] eqn:Eq.
  - split; cbn [mc_s mc_ph mc_hold]; rewrite ?getmtx_put_eq, ?Hxv, ?Hxo; try done; by change (queue (put_mtx m x (running t s))) with (queue s); rewrite Eq.
  - set (s1 := put_mtx m x (running t s)).
    assert (queue (wake_first (mtx_waiters m) w s1) (mtx_waiters m) = l) as Eql.
    { rewrite wake_first_queue, decide_True by done; change (queue s1) with (queue s); rewrite Eq, tq_remove_cons_eq.
      apply NoDup_cons in Hn as [? _]; by apply tq_remove_notin. }
    assert (onlist (wake_first (mtx_waiters m) w s1) = <[w := false]> (onlist s)) as Eo by done.
    assert (getmtx (wake_first (mtx_waiters m) w s1) m = x) as Em by apply getmtx_put_eq.
    assert (forall u, ph u = Waiting -> exists_thr s1 u) as Hex by (intros u Hu; by destruct (Hw u Hu)).
    assert (woken (MCfg (wake_first (mtx_waiters m) w s1) ph (fset hold t (hold t - 1)%nat)) w) as Hwo.
    { destruct (Hq w) as [Hpw _]; [constructor|]; unfold woken; cbn [mc_s mc_ph].
      by rewrite Eo, lookup_insert_eq, wake_first_runs, decide_True by auto. }
    apply NoDup_cons in Hn as [Hwl Hn]; split; cbn [mc_s mc_ph mc_hold]; rewrite ?Eql, ?Em, ?Hxv, ?Hxo; try done.
    + intros u Hu; rewrite Eo, lookup_insert_ne by (by intros ->); apply Hq; by constructor.
    + intros u Hu; rewrite wake_first_exists; split; [auto|]; destruct (decide (u = w)) as [->|Hne]; [by right|].
      rewrite Eo, lookup_insert_ne by done; destruct (Hw u Hu) as [_ [[? Hin]|(? & ? & Hr)]].
      * left; split; [done|]; by apply elem_of_cons in Hin as [?|?].
      * right; unfold woken; cbn [mc_s mc_ph]; rewrite Eo, lookup_insert_ne, wake_first_runs, decide_False by auto; done.
    + intros _ _; exists w; by right.
Qed.

Lemma mtx_inv_step c c' : mtx_inv c -> mstep c c' -> mtx_inv c'.
Proof.
  intros Hi Hst; destruct Hst as [t s ph hold s' Hp Hl Hb Ht|t s ph hold s' Hp Hl Ht|t s ph hold s' Hp Hl Hb Ht
    |t now s ph hold s' Hp Hl Hex Ht|t s ph hold Hp|t s ph hold s' Hp Hh Hx|s ph hold s' Em Eq Eo Ee Er].
  - apply (enter_inv t s ph); auto; by rewrite Hp.
  - apply tryenter_cases in Ht as [(E & _)|(_ & _ & _ & ->)]; [discriminate E|].
    apply (mtx_inv_taken s ph hold _ _ _ t); try done; [by rewrite Hp|apply fset_ne|by rewrite fset_eq|apply (mi_excl _ Hi)|].
    right; apply fset_eq.
  - apply (enter_inv t s ph); auto; [by rewrite Hp|apply fset_ne|by rewrite fset_eq].
  - apply tryenter_cases in Ht as [(E & _)|(_ & Hv & _ & ->)]; [discriminate E|]; by apply wait_inv.
  - by apply resume_inv.
  - destruct (excl_exit _ _ _ t (mi_excl _ Hi) Hh) as (Hv & Ho & He); cbn [mc_s mc_hold] in *.
    rewrite exit_cases in Hx by done; injection Hx as <-.
    destruct (Z.eqb_spec (mtx_v (getmtx s m)) 1) as [E|E].
    + rewrite E in He; by apply release_inv.
    + apply (mtx_inv_taken s ph hold _ _ _ t); try done; rewrite ?getmtx_put_eq; cbn [mtx_v mtx_o]; try done;
        [by rewrite Hp|by rewrite Hp|left; lia].
  - destruct Hi as [Hn Hq Hw He Hx]; cbn [mc_s mc_ph mc_hold] in *.
    assert (forall u, woken (MCfg s ph hold) u -> woken (MCfg s' ph hold) u) as Hwk.
    { intros u (? & ? & ?); unfold woken; cbn in *; split_and!; [done|rewrite Eo; congruence|auto]. }
    split; cbn [mc_s mc_ph mc_hold]; rewrite ?Eq, ?Em; try done.
    + intros u Hu; destruct (Hq _ Hu); rewrite Eo; [done|congruence].
    + intros u Hu; destruct (Hw _ Hu) as [? Hc]; rewrite Eo by congruence; split; [auto|]; destruct Hc; auto.
    + intros Hv Hne; destruct (Hx Hv Hne) as [u [?|?]]; eauto.
Qed.

(** C15: mutual exclusion.  However threads with distinct lwps enter, wait,
    are resumed and leave, and whatever the rest of the system does in between,
    at most one thread is inside at a time; the counter says how often and
    [rumpuser_mutex_owner] reports its lwp; its exit never fails the
    assertion, it can enter again, and any other thread is told EBUSY. *)
Theorem mutex_exclusion c0 c t :
  mtx_inv c0 -> rtc mstep c0 c -> (0 < mc_hold c t)%nat ->
  (forall u, (0 < mc_hold c u)%nat -> u = t) /\
  mtx_v (getmtx (mc_s c) m) = Z.of_nat (mc_hold c t) /\ rumpuser_mutex_owner m (mc_s c) = lwp t /\
  (exists s', rumpuser_mutex_exit m (running t (mc_s c)) = Ret s') /\
  (forall u, lwp_of (mc_s c) u = lwp u ->
     exists s', rumpuser_mutex_tryenter m (running u (mc_s c)) = Ret (if decide (u = t) then 0 else EBUSY, s')).
Proof.
  intros Hi Hr Ht.
  assert (mtx_inv c) as Hc by (induction Hr; eauto using mtx_inv_step).
  destruct (mi_excl _ Hc) as [(_ & _ & Hh)|(w & Hv & Hw & Hb & Ho & Hh)]; [rewrite Hh in Ht; lia|].
  destruct (decide (t = w)) as [->|Hne]; [|rewrite Hh in Ht by done; lia].
  split_and!.
  - intros u Hu; destruct (decide (u = w)); [done|]; rewrite Hh in Hu by done; lia.
  - done.
  - done.
  - rewrite exit_cases by lia; eauto.
  - intros u Hl; destruct (rumpuser_mutex_tryenter m (running u (mc_s c))) as [[rv s']|] eqn:E.
    + exists s'; apply tryenter_cases in E as [(-> & [?|E] & _)|(-> & _ & E & _)]; [lia| |]; rewrite Hl, Ho in E.
      * apply lwp_inj in E as ->; by rewrite decide_True.
      * rewrite decide_False; [done|congruence].
    + revert E; unfold rumpuser_mutex_tryenter; change (bmk_sched_gettls _ _ _) with (Ret (lwp_of (mc_s c) u)).
      cbn [mbind outcome_bind]; by destruct (_ && _).
Qed.

(** C16: no wake-up is lost.  Whenever the mutex is free while threads are
    queued on it, some thread is on its way to try again: one that was taken
    off the queue and is runnable, or one already in its loop.  And a queued
    thread is never one that was woken: it stays until its turn. *)
Theorem mutex_no_lost_wakeup c0 c :
  mtx_inv c0 -> rtc mstep c0 c ->
  (mtx_v (getmtx (mc_s c) m) = 0 -> queue (mc_s c) (mtx_waiters m) <> [] ->
     exists t, mc_ph c t = Trying \/ (mc_ph c t = Waiting /\ onlist (mc_s c) !! t = Some false /\ runs (mc_s c) t = true)) /\
  (forall t, mc_ph c t = Waiting -> t ∈ queue (mc_s c) (mtx_waiters m) \/ runs (mc_s c) t = true).
Proof.
  intros Hi Hr; assert (mtx_inv c) as Hc by (induction Hr; eauto using mtx_inv_step).
  split; [apply (mi_next _ Hc)|]; intros t Ht; destruct (mi_wait _ Hc t Ht) as [_ [[_ ?]|(_ & _ & ?)]]; auto.
Qed.
End Mutex.

(** A mutex fresh from [rumpuser_mutex_init]. *)
Lemma mtx_inv_fresh m lwp s :
  mtx_v (getmtx s m) = 0 -> mtx_o (getmtx s m) = NULL -> queue s (mtx_waiters m) = [] ->
  mtx_inv m lwp (MCfg s (fun _ => Out) (fun _ => O)).
Proof.
  intros Ev Eo Eq; split; cbn [mc_s mc_ph mc_hold]; rewrite ?Eq, ?Ev, ?Eo; try done.
  - apply NoDup_nil_2.
  - by intros t ?%elem_of_nil.
  - by left.
Qed.

(** Threads without an lwp share a mutex.  Ownership is recorded by lwp,
    so if neither of two threads has one, both can be inside at once. *)
Theorem mutex_null_lwp_shared m t u s :
  mtx_v (getmtx s m) = 0 -> lwp_of s t = NULL -> lwp_of s u = NULL ->
  exists s1 s2, rumpuser_mutex_tryenter m (running t s) = Ret (0, s1) /\
    rumpuser_mutex_tryenter m (running u s1) = Ret (0, s2) /\ mtx_v (getmtx s2 m) = 2.
Proof.
  intros Em Ht Hu.
  set (s1 := put_mtx m (Mtx 1 (mtx_flags (getmtx s m)) NULL) (running t s)).
  exists s1, (put_mtx m (Mtx 2 (mtx_flags (getmtx s m)) NULL) (running u s1)); split_and!.
  - unfold rumpuser_mutex_tryenter; change (bmk_sched_gettls _ _ _) with (Ret (lwp_of s t)).
    change (getmtx (running t s) m) with (getmtx s m); rewrite Ht, Em; reflexivity.
  - unfold rumpuser_mutex_tryenter; change (bmk_sched_gettls _ _ _) with (Ret (lwp_of s u)).
    change (getmtx (running u s1) m) with (getmtx s1 m); unfold s1 at 1 2 3 4 5; rewrite getmtx_put_eq, Hu; done.
  - by rewrite getmtx_put_eq.
Qed.

(** ** Reader/writer locks *)

Lemma getrw_put_eq r x s : getrw (put_rw r x s) r = x.
Proof. unfold getrw, put_rw; cbn; by rewrite lookup_insert_eq. Qed.

(** [rumpuser_rw_tryenter] on every branch.  A writer is refused exactly
    while another writer owns the lock and becomes the owner otherwise; a
    reader is refused exactly while a writer owns the lock or is queued (so
    readers do not starve writers) and is counted otherwise; a refusal changes
    nothing; any other request is EINVAL. *)
Theorem rw_tryenter_correct r t s :
  let x := getrw s r in
  rumpuser_rw_tryenter (Some RUMPUSER_RW_WRITER) r (running t s) =
    Ret (if rw_o x =? NULL then (0, put_rw r (Rw (rw_v x) (lwp_of s t)) (running t s)) else (EBUSY, running t s)) /\
  (rw_o x = NULL -> queue s (rw_wwait r) = [] -> rw_v x < 2 ^ 31 - 1 -> - 2 ^ 31 <= rw_v x ->
     rumpuser_rw_tryenter (Some RUMPUSER_RW_READER) r (running t s) =
       Ret (0, put_rw r (Rw (rw_v x + 1) NULL) (running t s))) /\
  (rw_o x <> NULL \/ queue s (rw_wwait r) <> [] ->
     rumpuser_rw_tryenter (Some RUMPUSER_RW_READER) r (running t s) = Ret (EBUSY, running t s)) /\
  rumpuser_rw_tryenter None r (running t s) = Ret (EINVAL, running t s).
Proof.
  unfold rumpuser_rw_tryenter; change (getrw (running t s) r) with (getrw s r).
  change (queue (running t s)) with (queue s); split_and!; [| | |done].
  - by destruct (_ =? NULL).
  - intros -> -> Hv Hv'; cbn [Z.eqb andb NULL]; rewrite sext_id; [done|unfold srange; lia|lia].
  - destruct (Z.eqb_spec (rw_o (getrw s r)) NULL) as [E|E], (queue s (rw_wwait r)) as [|w l]; try done.
    intros [?|?]; done.
Qed.

(** [rumpuser_rw_exit] prefers writers.  When the lock becomes free of its
    writer (or a reader leaves) and writers are queued, exactly the first
    one is woken and no reader; otherwise all queued readers are woken. *)
Theorem rw_exit_policy r s :
  queues_ok s ->
  let s0 := put_rw r (if rw_o (getrw s r) =? NULL then Rw (i32 (rw_v (getrw s r) - 1)) NULL
                      else Rw (rw_v (getrw s r)) NULL) s in
  rumpuser_rw_exit r s =
    match queue s (rw_wwait r) with
    | w :: _ => wake_first (rw_wwait r) w s0
    | [] => wake_list (rw_rwait r) (queue s (rw_rwait r)) s0
    end.
Proof.
  intros Hok s0; unfold rumpuser_rw_exit.
  assert (put_rw r (if negb (rw_o (getrw s r) =? NULL) then Rw (rw_v (getrw s r)) NULL
     else Rw (i32 (rw_v (getrw s r) - 1)) (rw_o (getrw s r))) s = s0 /\
     rw_o (if negb (rw_o (getrw s r) =? NULL) then Rw (rw_v (getrw s r)) NULL
     else Rw (i32 (rw_v (getrw s r) - 1)) (rw_o (getrw s r))) = NULL) as [-> ->].
  { unfold s0; destruct (Z.eqb_spec (rw_o (getrw s r)) NULL) as [->|]; done. }
  change (queue s0) with (queue s); assert (queues_ok s0) as Hok0 by (by destruct Hok).
  destruct (queue s (rw_wwait r)) as [|w l] eqn:Ew; cbn [Z.eqb NULL].
  - rewrite andb_true_r; destruct (queue s (rw_rwait r)) as [|u l'] eqn:Er; [done|].
    rewrite wakeup_all_eq by done; change (queue s0) with (queue s); by rewrite Er.
  - rewrite wakeup_one_eq; change (queue s0) with (queue s); by rewrite Ew.
Qed.

(** A writer is let in while readers are inside.  With the lock free, a
    reader enters; then a writer's attempt succeeds too, and both hold it. *)
Theorem rw_writer_ignores_readers r t u s :
  getrw s r = Rw 0 NULL -> queue s (rw_wwait r) = [] -> lwp_of s u <> NULL ->
  exists s1 s2, rumpuser_rw_tryenter (Some RUMPUSER_RW_READER) r (running t s) = Ret (0, s1) /\
    rumpuser_rw_tryenter (Some RUMPUSER_RW_WRITER) r (running u s1) = Ret (0, s2) /\
    rumpuser_rw_held RUMPUSER_RW_READER r s2 = Ret true /\ rumpuser_rw_held RUMPUSER_RW_WRITER r s2 = Ret true.
Proof.
  intros Er Eq Hu; set (s1 := put_rw r (Rw 1 NULL) (running t s)).
  exists s1, (put_rw r (Rw 1 (lwp_of s u)) (running u s1)); split_and!.
  - unfold rumpuser_rw_tryenter; change (getrw (running t s) r) with (getrw s r); rewrite Er.
    change (queue (running t s)) with (queue s); by rewrite Eq.
  - unfold rumpuser_rw_tryenter; change (getrw (running u s1) r) with (getrw s1 r).
    unfold s1 at 1 2; by rewrite getrw_put_eq.
  - unfold rumpuser_rw_held; by rewrite getrw_put_eq.
  - unfold rumpuser_rw_held; rewrite getrw_put_eq; change (rumpuser_curlwp _) with (Ret (lwp_of s u)).
    cbn [mbind outcome_bind rw_o]; by rewrite Z.eqb_refl.
Qed.

Lemma wakeup_all_rws wh s : rws (wakeup_all wh s) = rws s.
Proof.
  assert (forall n (x : fib H), match wakeup_all_loop n wh x with Some y => rws y = rws x | None => True end) as Hs.
  { induction n as [|n IH]; intros x; [cbn; by destruct (queue x wh)|].
    rewrite wakeup_all_loop_S; destruct (queue x wh) as [|w l]; [done|]. apply (IH (wake_first wh w x)). }
  unfold wakeup_all; specialize (Hs (length (queue s wh)) s).
  by destruct (wakeup_all_loop _ wh s).
Qed.

(** A downgrade does not downgrade.  After [rumpuser_rw_downgrade] the
    caller still owns the lock and readers are still refused; and when it then
    leaves, the reader count stays at -1, so any thread that holds nothing
    can "upgrade" and become the owner. *)
Theorem rw_downgrade_broken r t u s :
  rw_o (getrw s r) = lwp_of s t -> lwp_of s t <> NULL -> queues_ok s ->
  exists s1, rumpuser_rw_downgrade r (running t s) = Ret s1 /\
    rumpuser_rw_tryenter (Some RUMPUSER_RW_READER) r (running u s1) = Ret (EBUSY, running u s1) /\
    getrw (rumpuser_rw_exit r s1) r = Rw (-1) NULL /\
    exists s2, rumpuser_rw_tryupgrade r (running u (rumpuser_rw_exit r s1)) = Ret (0, s2) /\
      rw_o (getrw s2 r) = lwp_of (rumpuser_rw_exit r s1) u.
Proof.
  intros Eo Hn Hok; set (s1 := put_rw r (Rw (-1) (lwp_of s t)) (running t s)).
  assert (getrw s1 r = Rw (-1) (lwp_of s t)) as E1 by apply getrw_put_eq.
  assert (getrw (rumpuser_rw_exit r s1) r = Rw (-1) NULL) as E2.
  { unfold rumpuser_rw_exit; rewrite E1; cbn [rw_o rw_v]; rewrite (proj2 (Z.eqb_neq _ _) Hn); cbn [negb rw_o].
    set (s2 := put_rw r (Rw (-1) NULL) s1); assert (getrw s2 r = Rw (-1) NULL) as E2 by apply getrw_put_eq.
    destruct (queue s2 (rw_wwait r)) as [|w l] eqn:Ew; cbn [Z.eqb NULL].
    - rewrite andb_true_r; destruct (queue s2 (rw_rwait r)); [done|].
      unfold getrw; by rewrite wakeup_all_rws.
    - by rewrite wakeup_one_eq, Ew. }
  exists s1; split_and!; [| |done|].
  - unfold rumpuser_rw_downgrade; rewrite curlwp_running; cbn [mbind outcome_bind].
    change (getrw (running t s) r) with (getrw s r); rewrite Eo, Z.eqb_refl; done.
  - unfold rumpuser_rw_tryenter; change (getrw (running u s1) r) with (getrw s1 r); rewrite E1; cbn [rw_o].
    by rewrite (proj2 (Z.eqb_neq _ _) Hn).
  - eexists; split; [|].
    + unfold rumpuser_rw_tryupgrade.
      change (getrw (running u (rumpuser_rw_exit r s1)) r) with (getrw (rumpuser_rw_exit r s1) r); rewrite E2.
      cbn [rw_v Z.eqb]; rewrite curlwp_running; reflexivity.
    + by rewrite getrw_put_eq.
Qed.

(** ** Condition variables *)

Lemma wakeup_one_frame wh s :
  mtxs (wakeup_one wh s) = mtxs s /\ cvs (wakeup_one wh s) = cvs s /\
  current_thread (sc (wakeup_one wh s)) = current_thread (sc s) /\
  (forall u, exists_thr (wakeup_one wh s) u <-> exists_thr s u) /\
  (forall u, lwp_of (wakeup_one wh s) u = lwp_of s u) /\
  (forall a, a <> wh -> queue (wakeup_one wh s) a = queue s a) /\
  (forall t, (t ∉ queue s wh) -> onlist (wakeup_one wh s) !! t = onlist s !! t).
Proof.
  rewrite wakeup_one_eq; destruct (queue s wh) as [|w l] eqn:E; [done|]; split_and!; try done.
  - intros u; apply wake_first_exists.
  - intros u; by apply (lwp_upd wake_thread w u s).
  - intros a Ha; by rewrite wake_first_queue, decide_False.
  - intros t [Ht _]%not_elem_of_cons; cbn; by rewrite lookup_insert_ne.
Qed.

Lemma wakeup_one_ok wh s : queues_ok s -> queues_ok (wakeup_one wh s).
Proof.
  intros Hok; rewrite wakeup_one_eq; destruct (queue s wh) as [|w l] eqn:E; [done|]; by apply (wake_first_ok wh w l).
Qed.

(** [rumpuser_cv_wait_nowrap], called by a thread that holds the mutex
    once, gives the mutex up, queues the thread behind the other waiters, counts
    it, and stops it; the queues stay consistent. *)
Theorem cv_wait_releases cv mtx now t s :
  queues_ok s -> onlist s !! t = None -> exists_thr s t -> mtx_v (getmtx s mtx) = 1 ->
  cv_waiters cv <> mtx_waiters mtx -> 0 <= getcv s cv < 2 ^ 31 - 1 ->
  exists s', rumpuser_cv_wait_nowrap cv mtx now (running t s) = Ret s' /\
    mtx_v (getmtx s' mtx) = 0 /\ mtx_o (getmtx s' mtx) = NULL /\ getcv s' cv = getcv s cv + 1 /\
    queue s' (cv_waiters cv) = queue s (cv_waiters cv) ++ [t] /\ onlist s' !! t = Some true /\
    runs s' t = false /\ queues_ok s'.
Proof.
  intros Hok Hon Hex Hv Hne Hcv.
  assert (forall a, (t ∉ queue s a)) as Hnt by (intros a Ha; rewrite (proj2 (qo_onlist _ Hok t)) in Hon; eauto; done).
  unfold rumpuser_cv_wait_nowrap; change (put_cv cv ?n (running t s)) with (running t (put_cv cv n s)).
  set (s0 := put_cv cv _ s); rewrite (exit_cases mtx t s0) by (change (getmtx s0 mtx) with (getmtx s mtx); lia).
  change (getmtx s0 mtx) with (getmtx s mtx); rewrite Hv; cbn [Z.eqb Pos.eqb mbind outcome_bind].
  set (s1 := put_mtx mtx _ (running t s0)).
  destruct (wakeup_one_frame (mtx_waiters mtx) s1) as (Em & Ec & Et & Ee & _ & Eq & Eo).
  assert (queues_ok (wakeup_one (mtx_waiters mtx) s1)) as Hok1 by (apply wakeup_one_ok; by destruct Hok).
  set (s2 := wakeup_one (mtx_waiters mtx) s1) in *.
  assert (cur s2 = t) as Ecur by (unfold cur, bmk_sched_current; by rewrite Et).
  assert (onlist s2 !! t = None) as Eon by (rewrite Eo; [done|apply Hnt]).
  eexists; split; [reflexivity|]; split_and!.
  - unfold getmtx; change (mtxs (wait_block _ _ _ s2)) with (mtxs s2); rewrite Em; cbn; by rewrite lookup_insert_eq.
  - unfold getmtx; change (mtxs (wait_block _ _ _ s2)) with (mtxs s2); rewrite Em; cbn; by rewrite lookup_insert_eq.
  - unfold getcv; change (cvs (wait_block _ _ _ s2)) with (cvs s2); rewrite Ec; cbn.
    rewrite lookup_insert_eq; change (i32 (getcv s cv + 1) = getcv s cv + 1); apply sext_id; [unfold srange; lia|lia].
  - destruct (wait_block_queue (cv_waiters cv) 0 now s2 (cv_waiters cv)) as [E _].
    rewrite E, decide_True, Ecur, Eq by done; done.
  - destruct (wait_block_queue (cv_waiters cv) 0 now s2 (cv_waiters cv)) as [_ E].
    by rewrite E, Ecur, lookup_insert_eq.
  - unfold runs; cbn; rewrite Ecur, getthr_alter_eq by (by apply Ee); apply clear_runnable_blocked.
  - apply wait_block_ok; [done|by rewrite Ecur].
Qed.

Lemma wait_resume_frame wh s :
  mtxs (snd (wait_resume wh s)) = mtxs s /\ cvs (snd (wait_resume wh s)) = cvs s /\ sc (snd (wait_resume wh s)) = sc s /\
  queue (snd (wait_resume wh s)) wh = (if is_onlist s (cur s) then tq_remove (cur s) (queue s wh) else queue s wh).
Proof.
  unfold wait_resume; destruct (is_onlist s (cur s)) eqn:E; split_and!; try reflexivity.
  unfold queue at 1; cbn; by rewrite lookup_insert_eq.
Qed.

Lemma cv_resumed_eq cv mtx t s :
  let s1 := snd (wait_resume (cv_waiters cv) (running t s)) in
  cv_wait_nowrap_resumed cv mtx (running t s) =
    (if negb (mtx_v (getmtx s mtx) =? 0) && negb (mtx_o (getmtx s mtx) =? lwp_of s t) then c_panic "spin mutex error"
     else Ret (put_cv cv (i32 (getcv s cv - 1))
            (put_mtx mtx (Mtx (i32 (mtx_v (getmtx s mtx) + 1)) (mtx_flags (getmtx s mtx)) (lwp_of s t)) s1))).
Proof.
  intros s1; unfold cv_wait_nowrap_resumed; destruct (wait_resume_frame (cv_waiters cv) (running t s)) as (Em & Ec & Es & _).
  rewrite (surjective_pairing (wait_resume (cv_waiters cv) (running t s))); fold s1; fold s1 in Em, Ec, Es.
  unfold rumpuser_mutex_enter_nowrap, rumpuser_mutex_tryenter.
  assert (bmk_sched_gettls (cur s1) BMK_TLS_RUMPLWP (sc s1) = Ret (lwp_of s t)) as ->
    by (unfold cur; rewrite Es; reflexivity).
  assert (getmtx s1 mtx = getmtx s mtx) as -> by (unfold getmtx; by rewrite Em).
  cbn [mbind outcome_bind]; destruct (_ && _); [done|]; cbn [mbind outcome_bind Z.eqb negb].
  change (getcv (put_mtx mtx ?x s1) cv) with (getcv s1 cv).
  by assert (getcv s1 cv = getcv s cv) as -> by (unfold getcv; by rewrite Ec).
Qed.

(** C33: a waiter of [rumpuser_cv_wait_nowrap] that runs again takes the mutex
    if it is free or already its own, and is uncounted; if another lwp holds
    the mutex, the kernel panics. *)
Theorem cv_wait_resumes cv mtx t s :
  0 < getcv s cv < 2 ^ 31 -> 0 <= mtx_v (getmtx s mtx) < 2 ^ 31 - 1 ->
  (mtx_v (getmtx s mtx) = 0 \/ mtx_o (getmtx s mtx) = lwp_of s t ->
     exists s', cv_wait_nowrap_resumed cv mtx (running t s) = Ret s' /\
       mtx_v (getmtx s' mtx) = mtx_v (getmtx s mtx) + 1 /\ rumpuser_mutex_owner mtx s' = lwp_of s t /\
       getcv s' cv = getcv s cv - 1) /\
  (mtx_v (getmtx s mtx) <> 0 -> mtx_o (getmtx s mtx) <> lwp_of s t ->
     cv_wait_nowrap_resumed cv mtx (running t s) = c_panic "spin mutex error").
Proof.
  intros Hc Hv; rewrite cv_resumed_eq; split.
  - intros Hok; destruct (negb _ && negb _) eqn:E.
    { apply andb_true_iff in E as [E1%negb_true_iff%Z.eqb_neq E2%negb_true_iff%Z.eqb_neq]; tauto. }
    eexists; split; [reflexivity|].
    rewrite !sext_id by (unfold srange; lia); split_and!.
    + change (getmtx (put_cv ?a ?b ?x) mtx) with (getmtx x mtx); by rewrite getmtx_put_eq.
    + unfold rumpuser_mutex_owner; change (getmtx (put_cv ?a ?b ?x) mtx) with (getmtx x mtx); by rewrite getmtx_put_eq.
    + unfold getcv at 1; cbn; by rewrite lookup_insert_eq.
  - intros H1 H2; by rewrite (proj2 (Z.eqb_neq _ _) H1), (proj2 (Z.eqb_neq _ _) H2).
Qed.

(** The re-entry of the mutex after a wait can fail.  If a thread enters
    the mutex, signals the condition variable and is switched away before it
    leaves the mutex, the signalled waiter runs and the kernel panics. *)
Theorem cv_signal_holding_panics cv mtx t u l s :
  queue s (cv_waiters cv) = t :: l -> exists_thr s t ->
  mtx_v (getmtx s mtx) = 0 -> lwp_of s u <> lwp_of s t ->
  exists s1, rumpuser_mutex_tryenter mtx (running u s) = Ret (0, s1) /\
    runs (rumpuser_cv_signal cv s1) t = true /\
    cv_wait_nowrap_resumed cv mtx (running t (rumpuser_cv_signal cv s1)) = c_panic "spin mutex error".
Proof.
  intros Hq Hex Hv Hl; set (s1 := put_mtx mtx (Mtx 1 (mtx_flags (getmtx s mtx)) (lwp_of s u)) (running u s)).
  exists s1; split_and!.
  - unfold rumpuser_mutex_tryenter; change (bmk_sched_gettls _ _ _) with (Ret (lwp_of s u)).
    change (getmtx (running u s) mtx) with (getmtx s mtx); cbn [mbind outcome_bind]; rewrite Hv; done.
  - unfold rumpuser_cv_signal; rewrite wakeup_one_eq; change (queue s1) with (queue s); rewrite Hq.
    by rewrite wake_first_runs, decide_True.
  - rewrite cv_resumed_eq; unfold rumpuser_cv_signal.
    destruct (wakeup_one_frame (cv_waiters cv) s1) as (Em & _ & _ & _ & El & _).
    assert (getmtx (wakeup_one (cv_waiters cv) s1) mtx = Mtx 1 (mtx_flags (getmtx s mtx)) (lwp_of s u)) as ->
      by (unfold getmtx at 1; rewrite Em; apply getmtx_put_eq).
    rewrite El; change (lwp_of s1 t) with (lwp_of s t); cbn [mtx_v mtx_o].
    by rewrite (proj2 (Z.eqb_neq _ _) Hl).
Qed.
End FiberThms.

(** ** Concrete states

    The two threads of [demo_sch1], each with an lwp of its own; a mutex, a
    reader/writer lock and a condition variable, nobody waiting. *)

Definition demo_lwp (t : Z) : Z := 2 * t + 1.
Definition demo_tls (t : Z) (s : sched mstate) : sched mstate := upd (with_tls [demo_lwp t; 0]) t s.
Definition demo_m : Z := 0x300000.
Definition demo_r : Z := 0x300100.
Definition demo_c : Z := 0x300200.
Definition demo_fib : fib mstate :=
  Fib (demo_tls demo_t (demo_tls demo_init demo_sch1)) ∅ ∅ {[demo_m := Mtx 0 0 NULL]} {[demo_r := Rw 0 NULL]} {[demo_c := 0]} 0.

Lemma demo_lwp_inj t u : demo_lwp t = demo_lwp u -> t = u.
Proof. unfold demo_lwp; lia. Qed.
Lemma demo_lwp_nonnull t : demo_lwp t <> NULL.
Proof. unfold demo_lwp, NULL; lia. Qed.

Lemma queues_ok_empty (s : fib mstate) : whs s = ∅ -> onlist s = ∅ -> queues_ok s.
Proof.
  intros Ew Eo; assert (forall a, queue s a = []) as Eq by (intros; unfold queue; by rewrite Ew, lookup_empty).
  split; [intros; rewrite Eq; apply NoDup_nil_2|intros ? ? ?; rewrite Eq; by intros ?%elem_of_nil|].
  intros t; rewrite Eo, lookup_empty; setoid_rewrite Eq; split; [done|]; by intros (? & ?%elem_of_nil).
Qed.

Lemma queues_ok_put_cv c n (s : fib mstate) : queues_ok s -> queues_ok (put_cv c n s).
Proof. intros [H1 H2 H3]; split; [exact H1|exact H2|exact H3]. Qed.

(** [demo_t] waits on the condition variable. *)
Definition demo_waiting : fib mstate := put_cv demo_c 1 (wait_block (cv_waiters demo_c) 0 0 (running demo_t demo_fib)).

Lemma demo_waiting_ok : queues_ok demo_waiting.
Proof.
  apply queues_ok_put_cv, wait_block_ok; [by apply queues_ok_empty|vm_compute; reflexivity].
Qed.

Lemma demo_waiting_q : queue demo_waiting demo_c = [demo_t].
Proof. by vm_compute. Qed.
Lemma wait_queues_fifo_witness :
  queue (wakeup_all demo_c demo_waiting) demo_c = [] /\ runs (wakeup_all demo_c demo_waiting) demo_t = true /\
  queue (wakeup_one demo_c demo_waiting) demo_c = [].
Proof.
  destruct (wait_queues_fifo demo_waiting demo_c demo_waiting_ok) as (_ & H1 & (_ & _ & H2 & _ & H3)).
  { intros a t Ht; assert (onlist demo_waiting !! t = Some true) as E by (apply (qo_onlist _ demo_waiting_ok); eauto).
    change (onlist demo_waiting) with (<[demo_t := true]> (∅ : gmap Z bool)) in E.
    apply lookup_insert_Some in E as [[<- _]|[_ E]]; [vm_compute; eauto|by rewrite lookup_empty in E]. }
  rewrite demo_waiting_q in H1, H3; destruct H1 as (_ & _ & H1 & _).
  split_and!; [exact H2|apply (H3 demo_t); constructor|exact H1].
Defined.

Lemma wait_result_witness :
  fst (wait_resume demo_c demo_waiting) = ETIMEDOUT /\ queue (snd (wait_resume demo_c demo_waiting)) demo_c = [].
Proof.
  pose proof (wait_result demo_waiting demo_c demo_waiting_ok) as Hw.
  destruct (wait_resume demo_c demo_waiting) as [rv s'] eqn:E.
  destruct Hw as (_ & Hrv & _ & _ & _ & Hq).
  - vm_compute; eauto.
  - intros _; vm_compute; constructor.
  - split; [apply Hrv; vm_compute; constructor|cbn [snd]; rewrite Hq; vm_compute; reflexivity].
Defined.

(** [init] enters the mutex. *)
Definition demo_c0 : mcfg := MCfg demo_fib (fun _ => Out) (fun _ => O).
Definition demo_entered : fib mstate :=
  put_mtx demo_m (Mtx 1 0 (demo_lwp demo_init)) (running demo_init demo_fib).
Definition demo_c1 : mcfg := MCfg demo_entered (fun _ => Out) (fset (fun _ => O) demo_init 1%nat).
(** [demo_t] finds it taken. *)
Definition demo_c2 : mcfg := MCfg (running demo_t demo_entered) (fset (fun _ => Out) demo_t Trying) (fset (fun _ => O) demo_init 1%nat).

Lemma demo_mutex_run : rtc (mstep demo_m demo_lwp) demo_c0 demo_c2.
Proof.
  eapply rtc_l; [|apply rtc_once].
  - apply (ms_enter demo_m demo_lwp demo_init demo_fib (fun _ => Out) (fun _ => O)); vm_compute; reflexivity.
  - apply (ms_contend demo_m demo_lwp demo_t demo_entered (fun _ => Out)); vm_compute; reflexivity.
Qed.

Lemma mutex_exclusion_witness :
  mtx_v (getmtx (mc_s demo_c2) demo_m) = 1 /\ rumpuser_mutex_owner demo_m (mc_s demo_c2) = demo_lwp demo_init.
Proof.
  destruct (mutex_exclusion demo_m demo_lwp demo_lwp_inj demo_lwp_nonnull demo_c0 demo_c2 demo_init)
    as (_ & Hv & Ho & _).
  - apply mtx_inv_fresh; vm_compute; reflexivity.
  - exact demo_mutex_run.
  - vm_compute; lia.
  - split; [exact Hv|exact Ho].
Defined.

(** [demo_t] tries again and waits; it is then queued. *)
Definition demo_c3 : mcfg :=
  MCfg (wait_block (mtx_waiters demo_m) 0 0 (running demo_t (running demo_t demo_entered)))
    (fset (fset (fun _ => Out) demo_t Trying) demo_t Waiting) (fset (fun _ => O) demo_init 1%nat).

Lemma mutex_no_lost_wakeup_witness :
  mc_ph demo_c3 demo_t = Waiting /\
  (demo_t ∈ queue (mc_s demo_c3) (mtx_waiters demo_m) \/ runs (mc_s demo_c3) demo_t = true).
Proof.
  assert (mc_ph demo_c3 demo_t = Waiting) as Hp by (vm_compute; reflexivity); split; [exact Hp|].
  apply (mutex_no_lost_wakeup demo_m demo_lwp demo_lwp_inj demo_lwp_nonnull demo_c0 demo_c3).
  - apply mtx_inv_fresh; vm_compute; reflexivity.
  - eapply rtc_r; [exact demo_mutex_run|].
    apply (ms_wait demo_m demo_lwp demo_t 0 (running demo_t demo_entered));
      [vm_compute; reflexivity|vm_compute; reflexivity|vm_compute; eauto|vm_compute; reflexivity].
  - exact Hp.
Defined.

(** The same state without lwps. *)
Definition demo_nolwp : fib mstate := set_sc demo_sch1 demo_fib.

Lemma mutex_null_lwp_shared_witness :
  exists s1 s2, rumpuser_mutex_tryenter demo_m (running demo_t demo_nolwp) = Ret (0, s1) /\
    rumpuser_mutex_tryenter demo_m (running demo_init s1) = Ret (0, s2) /\ mtx_v (getmtx s2 demo_m) = 2.
Proof. apply (mutex_null_lwp_shared demo_m demo_t demo_init demo_nolwp); vm_compute; reflexivity. Defined.

Lemma rw_exit_policy_witness : getrw (rumpuser_rw_exit demo_r demo_fib) demo_r = Rw (-1) NULL.
Proof. rewrite (rw_exit_policy demo_r demo_fib (queues_ok_empty demo_fib eq_refl eq_refl)); vm_compute; reflexivity. Defined.

Lemma rw_writer_ignores_readers_witness :
  exists s1 s2, rumpuser_rw_tryenter (Some RUMPUSER_RW_READER) demo_r (running demo_t demo_fib) = Ret (0, s1) /\
    rumpuser_rw_tryenter (Some RUMPUSER_RW_WRITER) demo_r (running demo_init s1) = Ret (0, s2) /\
    rumpuser_rw_held RUMPUSER_RW_READER demo_r s2 = Ret true /\ rumpuser_rw_held RUMPUSER_RW_WRITER demo_r s2 = Ret true.
Proof. apply (rw_writer_ignores_readers demo_r demo_t demo_init demo_fib); by vm_compute. Defined.

Lemma rw_downgrade_broken_witness :
  let s := put_rw demo_r (Rw 0 (demo_lwp demo_t)) demo_fib in
  exists s1, rumpuser_rw_downgrade demo_r (running demo_t s) = Ret s1 /\
    rumpuser_rw_tryenter (Some RUMPUSER_RW_READER) demo_r (running demo_init s1) = Ret (EBUSY, running demo_init s1) /\
    getrw (rumpuser_rw_exit demo_r s1) demo_r = Rw (-1) NULL.
Proof.
  destruct (rw_downgrade_broken demo_r demo_t demo_init (put_rw demo_r (Rw 0 (demo_lwp demo_t)) demo_fib))
    as (s1 & ? & ? & ? & _).
  - vm_compute; reflexivity.
  - by vm_compute.
  - by apply queues_ok_empty.
  - exists s1; split_and!; assumption.
Defined.

Lemma cv_wait_releases_witness :
  exists s', rumpuser_cv_wait_nowrap demo_c demo_m 0 (running demo_init demo_entered) = Ret s' /\
    mtx_v (getmtx s' demo_m) = 0 /\ queue s' demo_c = [demo_init].
Proof.
  destruct (cv_wait_releases demo_c demo_m 0 demo_init demo_entered) as (s' & ? & ? & _ & _ & Hq & _).
  - by apply queues_ok_empty.
  - vm_compute; reflexivity.
  - vm_compute; eauto.
  - vm_compute; reflexivity.
  - by vm_compute.
  - split; by vm_compute.
  - exists s'; split_and!; [assumption|assumption|].
    change (queue s' (cv_waiters demo_c) = [demo_init]); rewrite Hq; vm_compute; reflexivity.
Defined.

Lemma cv_wait_resumes_witness :
  exists s', cv_wait_nowrap_resumed demo_c demo_m (running demo_t demo_waiting) = Ret s' /\
    rumpuser_mutex_owner demo_m s' = demo_lwp demo_t /\ getcv s' demo_c = 0.
Proof.
  destruct (cv_wait_resumes demo_c demo_m demo_t demo_waiting) as [H1 _]; [split; by vm_compute|split; by vm_compute|].
  destruct H1 as (s' & ? & _ & ? & ?); [left; vm_compute; reflexivity|]; exists s'; split_and!; assumption.
Defined.

Lemma cv_signal_holding_panics_witness :
  exists s1, rumpuser_mutex_tryenter demo_m (running demo_init demo_waiting) = Ret (0, s1) /\
    runs (rumpuser_cv_signal demo_c s1) demo_t = true /\
    cv_wait_nowrap_resumed demo_c demo_m (running demo_t (rumpuser_cv_signal demo_c s1)) = c_panic "spin mutex error".
Proof.
  apply (cv_signal_holding_panics demo_c demo_m demo_t demo_init [] demo_waiting);
    [vm_compute; reflexivity|vm_compute; eauto|vm_compute; reflexivity|by vm_compute].
Defined.
