(* ===== verification/FiberMem.v ===== *)
(** * FiberMem: the locks of rumpfiber.c in memory

    Fiber.v keeps locks in maps and wait queues as lists of threads.  Here the
    functions of rumpfiber.c work on the bytes: mutexes, reader/writer locks
    and condition variables at their offsets, wait queues linked with the
    macros of queue.h through [struct waiter]s, which are local variables on
    the stacks of the threads that wait.  The theorem at the end is the
    refinement to Fiber, over every sequence of these functions, thread
    switches, creations and destructions of locks.  The functions that wrap
    them in upcalls to the rump kernel are in Fiber only. *)
From S2P Require Import Prelude Mem Subr Cells Tailq TailqOps Iface Sched SchedThms SchedMem Fiber FiberThms.

(** ** Data *)

(** [struct waiter]: [who] at 0, the TAILQ_ENTRY at 4, [onlist] at 12. *)
Definition w_entries : Z := 4.
Definition SIZEOF_WAITER : Z := 16.

(** The lock objects that exist, by kind and address: their wait queues and
    their other words. *)
Inductive obj := OMtx (a : Z) | ORw (a : Z) | OCv (a : Z).
#[global] Instance obj_eq_dec : EqDecision obj.
Proof. solve_decision. Defined.

Definition oqueues (o : obj) : list Z :=
  match o with
  | OMtx a => [mtx_waiters a]
  | ORw a => [rw_rwait a; rw_wwait a]
  | OCv a => [cv_waiters a]
  end.
Definition ofields (o : obj) : list Z :=
  match o with
  | OMtx a => [a + 8; a + 12; a + 16]
  | ORw a => [a + 16; a + 20]
  | OCv a => [a + 8]
  end.

Definition load_mtx (m : mem) (a : Z) : rumpuser_mtx :=
  Mtx (i32 (rd32 m (a + 8))) (i32 (rd32 m (a + 12))) (rd32 m (a + 16)).
Definition load_rw (m : mem) (a : Z) : rumpuser_rw := Rw (i32 (rd32 m (a + 16))) (rd32 m (a + 20)).
Definition load_cv (m : mem) (a : Z) : Z := i32 (rd32 m (a + 8)).

Section FiberMem.
(** The addresses of [threads], [zombies] and [current_thread]. *)
Variables THREADS ZOMBIES CURRENT : Z.
Local Abbreviation footprint := (footprint THREADS ZOMBIES CURRENT).
Local Abbreviation holds := (holds THREADS ZOMBIES CURRENT).

(** ** The functions of rumpfiber.c on memory *)

(** [wait] up to [bmk_sched], with its local variable at [w]. *)
Definition mem_wait_block (w wh nsec now : Z) (m : mem) : mem :=
  let m := wr32 m w (rd32 m CURRENT) in
  let m := TAILQ_INSERT_TAIL w_entries wh w m in
  let m := wr32 m (w + 12) 1 in
  let m := mem_block (rd32 m w) m in
  if negb (nsec =? 0) then mem_setwakeup (rd32 m w) (i64 (u64 (u64 now + nsec))) m else m.
(** [wait] after it. *)
Definition mem_wait_resume (w wh : Z) (m : mem) : Z * mem :=
  let m := if negb (rd32 m (w + 12) =? 0) then TAILQ_REMOVE w_entries wh w m else m in
  (if negb (rd32 m (w + 12) =? 0) then ETIMEDOUT else 0, m).

(** The body both wake-up functions share. *)
Definition mem_wake_first (wh w : Z) (m : mem) : mem :=
  let m := TAILQ_REMOVE w_entries wh w m in
  let m := wr32 m (w + 12) 0 in
  mem_wake (rd32 m w) m.
Definition mem_wakeup_one (wh : Z) (m : mem) : mem :=
  let w := TAILQ_FIRST wh m in
  if negb (w =? NULL) then mem_wake_first wh w m else m.
Fixpoint mem_wakeup_all (fuel : nat) (wh : Z) (m : mem) : option mem :=
  let w := TAILQ_FIRST wh m in
  if negb (w =? NULL) then
    match fuel with
    | O => None
    | S fuel => mem_wakeup_all fuel wh (mem_wake_first wh w m)
    end
  else Some m.

(** The current lwp: [bt_tls] of the current thread at [BMK_TLS_RUMPLWP], an
    index [bmk_sched_gettls] and [bmk_sched_settls] accept. *)
Definition mem_curlwp (m : mem) : Z := rd32 m (rd32 m CURRENT + 16).
Definition mem_curlwpop (op : rumplwpop) (l : Z) (m : mem) : outcome mem :=
  match op with
  | RUMPUSER_LWP_CREATE | RUMPUSER_LWP_DESTROY => Ret m
  | RUMPUSER_LWP_SET =>
      _ ← c_assert (mem_curlwp m =? NULL) "rumpuser_curlwp() == NULL";
      Ret (wr32 m (rd32 m CURRENT + 16) l)
  | RUMPUSER_LWP_CLEAR =>
      _ ← c_assert (mem_curlwp m =? l) "rumpuser_curlwp() == l";
      Ret (wr32 m (rd32 m CURRENT + 16) NULL)
  end.

Definition mem_mutex_tryenter (mtx : Z) (m : mem) : Z * mem :=
  let l := mem_curlwp m in
  if negb (i32 (rd32 m (mtx + 8)) =? 0) && negb (rd32 m (mtx + 16) =? l) then (EBUSY, m)
  else
    let m := wr32 m (mtx + 8) (i32 (rd32 m (mtx + 8)) + 1) in
    (0, wr32 m (mtx + 16) l).
Definition mem_mutex_enter_nowrap (mtx : Z) (m : mem) : outcome mem :=
  let '(rv, m) := mem_mutex_tryenter mtx m in
  if negb (rv =? 0) then c_panic "spin mutex error" else Ret m.
Definition mem_mutex_exit (mtx : Z) (m : mem) : outcome mem :=
  _ ← c_assert (0 <? i32 (rd32 m (mtx + 8))) "mtx->v > 0";
  let m := wr32 m (mtx + 8) (i32 (rd32 m (mtx + 8)) - 1) in
  if i32 (rd32 m (mtx + 8)) =? 0 then
    let m := wr32 m (mtx + 16) NULL in
    Ret (mem_wakeup_one (mtx_waiters mtx) m)
  else Ret m.
Definition mem_mutex_owner (mtx : Z) (m : mem) : Z := rd32 m (mtx + 16).

Definition mem_rw_tryenter (lk : option rumprwlock) (rw : Z) (m : mem) : Z * mem :=
  match lk with
  | Some RUMPUSER_RW_WRITER =>
      if rd32 m (rw + 20) =? NULL then (0, wr32 m (rw + 20) (mem_curlwp m)) else (EBUSY, m)
  | Some RUMPUSER_RW_READER =>
      if (rd32 m (rw + 20) =? NULL) && TAILQ_EMPTY (rw_wwait rw) m
      then (0, wr32 m (rw + 16) (i32 (rd32 m (rw + 16)) + 1)) else (EBUSY, m)
  | None => (EINVAL, m)
  end.
Definition mem_rw_exit (fuel : nat) (rw : Z) (m : mem) : option mem :=
  let m := if negb (rd32 m (rw + 20) =? NULL) then wr32 m (rw + 20) NULL
           else wr32 m (rw + 16) (i32 (rd32 m (rw + 16)) - 1) in
  if negb (TAILQ_EMPTY (rw_wwait rw) m) then
    Some (if rd32 m (rw + 20) =? NULL then mem_wakeup_one (rw_wwait rw) m else m)
  else if negb (TAILQ_EMPTY (rw_rwait rw) m) && (rd32 m (rw + 20) =? NULL)
  then mem_wakeup_all fuel (rw_rwait rw) m else Some m.
Definition mem_rw_held (lk : rumprwlock) (rw : Z) (m : mem) : bool :=
  match lk with
  | RUMPUSER_RW_WRITER => rd32 m (rw + 20) =? mem_curlwp m
  | RUMPUSER_RW_READER => 0 <? i32 (rd32 m (rw + 16))
  end.
Definition mem_rw_downgrade (rw : Z) (m : mem) : outcome mem :=
  _ ← c_assert (rd32 m (rw + 20) =? mem_curlwp m) "rw->o == rumpuser_curlwp()";
  Ret (wr32 m (rw + 16) (-1)).
Definition mem_rw_tryupgrade (rw : Z) (m : mem) : Z * mem :=
  if i32 (rd32 m (rw + 16)) =? -1 then
    let m := wr32 m (rw + 16) 1 in
    (0, wr32 m (rw + 20) (mem_curlwp m))
  else (EBUSY, m).

Definition mem_cv_wait_nowrap (w cv mtx now : Z) (m : mem) : outcome mem :=
  let m := wr32 m (cv + 8) (i32 (rd32 m (cv + 8)) + 1) in
  m ← mem_mutex_exit mtx m;
  Ret (mem_wait_block w (cv_waiters cv) 0 now m).
Definition mem_cv_wait_resumed (w cv mtx : Z) (m : mem) : outcome mem :=
  let '(_, m) := mem_wait_resume w (cv_waiters cv) m in
  m ← mem_mutex_enter_nowrap mtx m;
  Ret (wr32 m (cv + 8) (i32 (rd32 m (cv + 8)) - 1)).
Definition mem_cv_has_waiters (cv : Z) (m : mem) : bool := negb (i32 (rd32 m (cv + 8)) =? 0).
Definition mem_cv_signal (cv : Z) (m : mem) : mem := mem_wakeup_one (cv_waiters cv) m.
Definition mem_cv_broadcast (fuel : nat) (cv : Z) (m : mem) : option mem := mem_wakeup_all fuel (cv_waiters cv) m.

(** The [init] functions after [bmk_xmalloc] has returned, and the [destroy]
    functions up to [bmk_memfree]. *)
Definition mem_mutex_init (mtx flags : Z) (m : mem) : mem :=
  let m := fst (bmk_memset m mtx 0 SIZEOF_MTX) in
  let m := wr32 m (mtx + 12) flags in
  TAILQ_INIT (mtx_waiters mtx) m.
Definition mem_rw_init (rw : Z) (m : mem) : mem :=
  let m := fst (bmk_memset m rw 0 SIZEOF_RW) in
  let m := TAILQ_INIT (rw_rwait rw) m in
  TAILQ_INIT (rw_wwait rw) m.
Definition mem_cv_init (cv : Z) (m : mem) : mem :=
  let m := fst (bmk_memset m cv 0 SIZEOF_CV) in
  TAILQ_INIT (cv_waiters cv) m.
Definition mem_mutex_destroy (mtx : Z) (m : mem) : outcome mem :=
  _ ← c_assert (TAILQ_EMPTY (mtx_waiters mtx) m && (rd32 m (mtx + 16) =? NULL)) "TAILQ_EMPTY(&mtx->waiters) && mtx->o == NULL";
  Ret m.
Definition mem_cv_destroy (cv : Z) (m : mem) : outcome mem :=
  _ ← c_assert (i32 (rd32 m (cv + 8)) =? 0) "cv->nwaiters == 0";
  Ret m.

(** ** The representation *)

(** The words of the state, by what they are: a word of the scheduler, the two
    words of a queue head, a field of an object, a word of the waiter of a
    thread ([W] says where it is). *)
Inductive role := RS (a : Z) | RH (wh : Z) | RL (wh : Z) | RF (o : obj) (a : Z) | RW (t k : Z).
#[local] Instance role_eq_dec : EqDecision role.
Proof. solve_decision. Defined.

Definition getw (W : gmap Z Z) (t : Z) : Z := default NULL (W !! t).
Definition addr (W : gmap Z Z) (r : role) : Z :=
  match r with
  | RS a => a
  | RH wh => tqh_first wh
  | RL wh => tqh_last wh
  | RF _ a => a
  | RW t k => getw W t + k
  end.
Definition valid (ts : list Z) (W : gmap Z Z) (objs : list obj) (r : role) : Prop :=
  match r with
  | RS a => a ∈ footprint ts
  | RH wh | RL wh => exists o, o ∈ objs /\ wh ∈ oqueues o
  | RF o a => o ∈ objs /\ a ∈ ofields o
  | RW t k => is_Some (W !! t) /\ (k = 0 \/ k = 4 \/ k = 8 \/ k = 12)
  end.

(** Different words do not overlap. *)
Definition separate (ts : list Z) (W : gmap Z Z) (objs : list obj) : Prop :=
  (forall r, valid ts W objs r -> urange 32 (addr W r)) /\
  forall r r', valid ts W objs r -> valid ts W objs r' -> r <> r' -> addr W r + 4 <= addr W r' \/ addr W r' + 4 <= addr W r.

Definition obj_rep {H} (m : mem) (f : fib H) (o : obj) : Prop :=
  match o with
  | OMtx a => mtxs f !! a = Some (load_mtx m a)
  | ORw a => rws f !! a = Some (load_rw m a)
  | OCv a => cvs f !! a = Some (load_cv m a)
  end.

(** The memory [m] holds the state [f]. *)
Record fholds {H} (ts : list Z) (W : gmap Z Z) (objs : list obj) (f : fib H) (m : mem) : Prop := {
  fh_sched : holds m ts (sc f);
  fh_cur : cur f ∈ ts;
  fh_sep : separate ts W objs;
  fh_queue : forall o wh, o ∈ objs -> wh ∈ oqueues o -> tailq w_entries m wh (getw W <$> queue f wh);
  fh_known : forall wh t, t ∈ queue f wh -> exists o, o ∈ objs /\ wh ∈ oqueues o;
  fh_waiter : forall t w, W !! t = Some w -> t ∈ ts /\ rd32 m w = t /\ rd32 m (w + 12) = Z.b2z (is_onlist f t);
  fh_dom : forall t, is_Some (W !! t) <-> is_Some (onlist f !! t);
  fh_ok : queues_ok f;
  fh_obj : forall o, o ∈ objs -> obj_rep m f o;
}.

(** ** Separation *)

Lemma apart_roles ts W objs rs : separate ts W objs -> NoDup rs -> Forall (valid ts W objs) rs -> apart (addr W <$> rs).
Proof.
  intros [Hr Hs] Hn Hv; rewrite Forall_forall in Hv; split_and!.
  - apply NoDup_fmap_2_strong; [|done]; intros r r' Hri Hri' E.
    destruct (decide (r = r')) as [|Hne]; [done|]; pose proof (Hs r r' (Hv _ Hri) (Hv _ Hri') Hne); lia.
  - intros a b (r & -> & Ha)%list_elem_of_fmap (r' & -> & Hb)%list_elem_of_fmap Hne.
    apply Hs; [by apply Hv..|congruence].
  - rewrite Forall_fmap, Forall_forall; intros r Hri; by apply Hr, Hv.
Qed.

(** The words of a queue. *)
Definition qroles (wh : Z) (l : list Z) : list role := RL wh :: RH wh :: flat_map (fun t => [RW t 4; RW t 8]) l.

Lemma in_links l r : r ∈ flat_map (fun t => [RW t 4; RW t 8]) l <-> exists t, t ∈ l /\ (r = RW t 4 \/ r = RW t 8).
Proof.
  rewrite list_elem_of_In, in_flat_map; setoid_rewrite <- list_elem_of_In; setoid_rewrite elem_of_cons.
  setoid_rewrite list_elem_of_singleton; naive_solver.
Qed.
Lemma queue_cells W wh l : cells w_entries wh (getw W <$> l) = addr W <$> qroles wh l.
Proof.
  unfold cells, qroles; cbn [fmap list_fmap addr]; do 2 f_equal; induction l as [|t l IH]; [done|].
  cbn [fmap list_fmap flat_map app addr]; rewrite IH; unfold tqe_next, tqe_prev, w_entries; do 2 f_equal; lia.
Qed.
Lemma qroles_NoDup wh l : NoDup l -> NoDup (qroles wh l).
Proof.
  intros Hn; unfold qroles; rewrite !NoDup_cons, !elem_of_cons, !in_links; split_and!; [naive_solver|naive_solver|].
  induction Hn as [|t l Ht _ IH]; cbn [flat_map app]; [constructor|].
  rewrite !NoDup_cons, elem_of_cons, !in_links; naive_solver.
Qed.
Lemma qroles_valid ts W objs wh l : (exists o, o ∈ objs /\ wh ∈ oqueues o) -> (forall t, t ∈ l -> is_Some (W !! t)) ->
  Forall (valid ts W objs) (qroles wh l).
Proof.
  intros Hwh Hl; unfold qroles; rewrite !Forall_cons, Forall_forall; split_and!; [exact Hwh|exact Hwh|].
  intros r (t & Ht & Hr)%in_links; destruct Hr as [-> | ->]; (split; [by apply Hl|tauto]).
Qed.

(** Stores to some of the words leave the others alone. *)
Lemma same_writes ts W objs C (D : list role) m m' r :
  separate ts W objs -> writes C m m' -> (forall a, a ∈ C -> exists d, d ∈ D /\ a = addr W d) -> (forall d, d ∈ D -> valid ts W objs d) ->
  valid ts W objs r -> r ∉ D -> rd32 m' (addr W r) = rd32 m (addr W r).
Proof.
  intros [_ Hs] Hw HC HD Hr Hn; apply rd32_same; intros x Hx; apply (writes_byte _ _ _ _ Hw); intros a (d & Hd & ->)%HC.
  assert (d <> r) as Hne by (by intros ->); destruct (Hs d r (HD _ Hd) Hr Hne); lia.
Qed.

Section Rep.
Context {H : Type} (ts : list Z) (objs : list obj).
Implicit Types (f : fib H) (W : gmap Z Z).

Lemma queue_waits W f m wh t : fholds ts W objs f m -> t ∈ queue f wh -> onlist f !! t = Some true /\ is_Some (W !! t).
Proof.
  intros Hf Ht; assert (onlist f !! t = Some true) as E by (apply (qo_onlist _ (fh_ok _ _ _ _ _ Hf)); by exists wh).
  split; [done|]; apply (fh_dom _ _ _ _ _ Hf); by rewrite E.
Qed.

(** What depends on which words. *)
Lemma queue_frame W f m m' o wh : fholds ts W objs f m -> o ∈ objs -> wh ∈ oqueues o ->
  (forall r, valid ts W objs r -> r ∈ qroles wh (queue f wh) -> rd32 m' (addr W r) = rd32 m (addr W r)) ->
  tailq w_entries m' wh (getw W <$> queue f wh).
Proof.
  intros Hf Ho Hwh Hsame; eapply tailq_frame; [|by eapply (fh_queue _ _ _ _ _ Hf)].
  intros a; rewrite queue_cells; intros (r & -> & Hr)%list_elem_of_fmap; apply Hsame; [|done].
  assert (Forall (valid ts W objs) (qroles wh (queue f wh))) as HF
    by (apply qroles_valid; [by exists o|intros t Ht; by eapply queue_waits]).
  rewrite Forall_forall in HF; by apply HF.
Qed.
Lemma waiter_frame W m m' t w : W !! t = Some w ->
  (forall k, k = 0 \/ k = 12 -> rd32 m' (addr W (RW t k)) = rd32 m (addr W (RW t k))) ->
  rd32 m' w = rd32 m w /\ rd32 m' (w + 12) = rd32 m (w + 12).
Proof.
  intros Hw Hsame; assert (w = getw W t) as -> by (unfold getw; by rewrite Hw).
  split; [|by apply (Hsame 12); right]; pose proof (Hsame 0 (or_introl eq_refl)) as E; cbn [addr] in E; by rewrite Z.add_0_r in E.
Qed.
Lemma obj_frame f m m' o : obj_rep m f o -> (forall a, a ∈ ofields o -> rd32 m' a = rd32 m a) -> obj_rep m' f o.
Proof.
  intros Ho Hfa; destruct o; cbn [obj_rep ofields] in *; rewrite Ho; unfold load_mtx, load_rw, load_cv;
    rewrite !Hfa by (rewrite !elem_of_cons; tauto); done.
Qed.
Lemma not_qrole wh l r : (forall a, r <> RL a) -> (forall a, r <> RH a) -> (forall t k, r <> RW t k) -> r ∉ qroles wh l.
Proof. unfold qroles; rewrite !elem_of_cons, in_links; naive_solver. Qed.

(** A scheduler function runs. *)
Lemma fholds_sched W f m m' S' :
  fholds ts W objs f m -> holds m' ts S' -> current_thread S' ∈ ts -> writes (footprint ts) m m' -> fholds ts W objs (set_sc S' f) m'.
Proof.
  intros Hf Hh Hc Hw; pose proof Hf as [_ _ Hs Hq Hk Hwt Hd Hok Ho].
  assert (forall r, valid ts W objs r -> (forall a, r <> RS a) -> rd32 m' (addr W r) = rd32 m (addr W r)) as Hsame.
  { intros r Hr Hn; eapply (same_writes ts W objs _ (RS <$> footprint ts)); [done|exact Hw| | |done|].
    - intros a Ha; exists (RS a); split; [by apply list_elem_of_fmap_2|done].
    - intros d (a & -> & Ha)%list_elem_of_fmap; exact Ha.
    - intros (a & -> & _)%list_elem_of_fmap; by apply (Hn a). }
  constructor; [done|done|done| |done| |done|by destruct Hok|].
  - intros o wh Hoi Hwh; change (queue (set_sc S' f) wh) with (queue f wh); eapply queue_frame; [done..|].
    intros r Hr Hq'; apply Hsame; [done|]; intros a ->; revert Hq'; by apply not_qrole.
  - intros t w Hw'; destruct (waiter_frame W m m' t w Hw') as [-> ->]; [|by apply Hwt].
    intros k Hk'; apply Hsame; [split; [by eexists|tauto]|done].
  - intros o Hoi; apply (obj_frame _ m); [by apply Ho|]; intros a Ha; by apply (Hsame (RF o a)).
Qed.

(** The fields of one object change. *)
Lemma fholds_fields W f f' m m' o :
  fholds ts W objs f m -> o ∈ objs ->
  (forall r, valid ts W objs r -> (forall a, r <> RF o a) -> rd32 m' (addr W r) = rd32 m (addr W r)) ->
  sc f' = sc f -> whs f' = whs f -> onlist f' = onlist f ->
  (forall o' x, o' <> o -> obj_rep x f o' -> obj_rep x f' o') -> obj_rep m' f' o -> fholds ts W objs f' m'.
Proof.
  intros Hf Hoi Hsame Es Ew El Hoth Hrep; pose proof Hf as [Hh Hc Hs Hq Hk Hwt Hd Hok Ho].
  assert (forall wh, queue f' wh = queue f wh) as Eq by (intros wh; unfold queue; by rewrite Ew).
  constructor.
  - rewrite Es; apply (holds_frame m); [|done]; intros a Ha; by apply (Hsame (RS a)).
  - unfold cur; by rewrite Es.
  - done.
  - intros o' wh Ho' Hwh; rewrite Eq; eapply queue_frame; [done..|].
    intros r Hr Hq'; apply Hsame; [done|]; intros a ->; revert Hq'; by apply not_qrole.
  - intros wh t; rewrite Eq; apply Hk.
  - intros t w Hw'; unfold is_onlist; rewrite El; destruct (waiter_frame W m m' t w Hw') as [-> ->]; [|by apply Hwt].
    intros k Hk'; apply Hsame; [split; [by eexists|tauto]|done].
  - intros t; by rewrite El.
  - destruct Hok as [Hn H1 H2]; split; [intros wh; rewrite Eq; apply Hn|intros wh wh' t; rewrite !Eq; apply H1|].
    intros t; rewrite El, H2; by setoid_rewrite Eq.
  - intros o' Ho'; destruct (decide (o' = o)) as [->|Hne]; [done|]; apply Hoth; [done|].
    apply (obj_frame _ m); [by apply Ho|]; intros a Ha; apply (Hsame (RF o' a)); [by split|congruence].
Qed.

(** One queue changes, and the waiter of one thread. *)
Definition spared (u wh : Z) (l : list Z) (r : role) : Prop :=
  match r with
  | RS _ | RF _ _ => True
  | RH a | RL a => a <> wh
  | RW t k => t <> u /\ (k = 4 \/ k = 8 -> t ∉ l)
  end.

Lemma fholds_requeue W W' f f' m m' u wh o :
  fholds ts W objs f m -> o ∈ objs -> wh ∈ oqueues o -> separate ts W' objs -> queues_ok f' ->
  (forall r, valid ts W objs r -> spared u wh (queue f wh) r -> rd32 m' (addr W r) = rd32 m (addr W r)) ->
  sc f' = sc f -> mtxs f' = mtxs f -> rws f' = rws f -> cvs f' = cvs f ->
  (forall t, t <> u -> W' !! t = W !! t /\ onlist f' !! t = onlist f !! t) ->
  (forall a, a <> wh -> queue f' a = queue f a /\ u ∉ queue f a) ->
  tailq w_entries m' wh (getw W' <$> queue f' wh) ->
  (is_Some (W' !! u) <-> is_Some (onlist f' !! u)) ->
  (forall w, W' !! u = Some w -> u ∈ ts /\ rd32 m' w = u /\ rd32 m' (w + 12) = Z.b2z (is_onlist f' u)) ->
  fholds ts W' objs f' m'.
Proof.
  intros Hf Hoi Hwh Hs' Hok' Hsame Es E1 E2 E3 Hoth Hq' Htq Hdu Hwu; pose proof Hf as [Hh Hc Hs Hq Hk Hwt Hd Hok Ho].
  constructor; [|by unfold cur; rewrite Es|done| | | | |done|].
  - rewrite Es; apply (holds_frame m); [|done]; intros a Ha; by apply (Hsame (RS a)).
  - intros o' a Ho' Ha; destruct (decide (a = wh)) as [->|Hne]; [done|]; destruct (Hq' a Hne) as [-> Hu].
    assert (getw W' <$> queue f a = getw W <$> queue f a) as ->.
    { apply list_fmap_ext; intros i t Hi; unfold getw; apply list_elem_of_lookup_2 in Hi.
      destruct (Hoth t) as [-> _]; [|done]; by intros ->. }
    eapply queue_frame; [done..|]; intros r Hr Hin; apply Hsame; [done|].
    unfold qroles in Hin; rewrite !elem_of_cons, in_links in Hin.
    destruct Hin as [->|[->|(t & Ht & Hin)]]; [done|done|].
    assert (t ∉ queue f wh) as Hni by (intros Hx; by apply Hne, (qo_one _ Hok a wh t)).
    destruct Hin as [-> | ->]; (split; [by intros ->|done]).
  - intros a t; destruct (decide (a = wh)) as [->|Hne]; [intros _; by exists o|]; destruct (Hq' a Hne) as [-> _]; apply Hk.
  - intros t w Hw; destruct (decide (t = u)) as [->|Hne]; [by apply Hwu|]; destruct (Hoth t Hne) as [EW EO]; rewrite EW in Hw.
    unfold is_onlist; rewrite EO; destruct (waiter_frame W m m' t w Hw) as [-> ->]; [|by apply Hwt].
    intros k Hk'; apply Hsame; [split; [by eexists|tauto]|split; [done|lia]].
  - intros t; destruct (decide (t = u)) as [->|Hne]; [done|]; destruct (Hoth t Hne) as [-> ->]; apply Hd.
  - intros o' Ho'; apply (obj_frame _ m); [|intros a Ha; by apply (Hsame (RF o' a))].
    specialize (Ho o' Ho'); destruct o'; cbn [obj_rep] in *; congruence.
Qed.

(** ** Waking up *)

Lemma rd_wr_role W r r' v m : separate ts W objs -> valid ts W objs r -> valid ts W objs r' -> r <> r' ->
  rd32 (wr32 m (addr W r) v) (addr W r') = rd32 m (addr W r').
Proof. intros [_ Hs] Hr Hr' Hne; apply rd32_wr32_ne; destruct (Hs r r' Hr Hr' Hne); lia. Qed.

Lemma spared_not u wh l r : spared u wh l r -> r ∉ RW u 0 :: RW u 12 :: qroles wh l.
Proof.
  unfold qroles; rewrite !elem_of_cons, in_links; destruct r as [a|a|a|o' a|t k]; cbn [spared]; [naive_solver..|].
  intros [Hne Hl]; naive_solver.
Qed.

Lemma qroles_more wh t l r : r ∈ qroles wh l -> r ∈ qroles wh (t :: l).
Proof.
  unfold qroles; rewrite !elem_of_cons, !in_links; intros [?|[?|(u & Hu & Hr)]]; [tauto..|].
  right; right; exists u; split; [by right|done].
Qed.

Lemma queue_first W f m o wh : fholds ts W objs f m -> o ∈ objs -> wh ∈ oqueues o ->
  match queue f wh with
  | [] => TAILQ_FIRST wh m = NULL
  | t :: _ => TAILQ_FIRST wh m = getw W t /\ getw W t <> NULL
  end.
Proof.
  intros Hf Ho Hwh; destruct (fh_queue _ _ _ _ _ Hf o wh Ho Hwh) as (q & Hs & Hq & _).
  destruct (queue f wh) as [|t l]; cbn [fmap list_fmap] in Hs; [cbn in Hs; by subst q|].
  destruct Hs as (E & Hne & _); by split.
Qed.

Lemma wake_first_mem W f m o wh t l : fholds ts W objs f m -> o ∈ objs -> wh ∈ oqueues o -> queue f wh = t :: l ->
  fholds ts W objs (wake_first wh t f) (mem_wake_first wh (getw W t) m).
Proof.
  intros Hf Ho Hwh Eq; pose proof Hf as [Hh Hc Hs Hq Hk Hwt Hd Hok _].
  assert (t ∈ queue f wh) as Htq by (rewrite Eq; by left).
  destruct (queue_waits _ _ _ _ _ Hf Htq) as [Eon [w Hw]]; destruct (Hwt t w Hw) as (Htt & Ewho & _).
  assert (getw W t = w) as Egw by (unfold getw; by rewrite Hw).
  assert (forall k, k = 0 \/ k = 4 \/ k = 8 \/ k = 12 -> valid ts W objs (RW t k)) as Hv by (intros; split; [by eexists|done]).
  pose proof (fh_queue _ _ _ _ _ Hf o wh Ho Hwh) as Htail; rewrite Eq in Htail; cbn [fmap list_fmap] in Htail.
  set (m1 := TAILQ_REMOVE w_entries wh (getw W t) m); set (m2 := wr32 m1 (addr W (RW t 12)) 0).
  assert (forall r, r ∈ RW t 0 :: RW t 12 :: qroles wh (queue f wh) -> valid ts W objs r) as HD.
  { intros r; rewrite !elem_of_cons; intros [->|[->|Hr]]; [apply Hv; tauto..|].
    assert (Forall (valid ts W objs) (qroles wh (queue f wh))) as HF
      by (apply qroles_valid; [by exists o|intros u Hu; by eapply queue_waits]). rewrite Forall_forall in HF; by apply HF. }
  assert (writes (addr W <$> RW t 12 :: qroles wh (queue f wh)) m m2) as Hw2.
  { apply writes_wr; [by left|]; eapply writes_mono; [|by apply (remove_writes w_entries m wh [] (getw W t) (getw W <$> l))].
    intros a Ha; cbn [fmap list_fmap]; right; rewrite Eq, <- queue_cells; exact Ha. }
  assert (forall r, valid ts W objs r -> r ∉ RW t 12 :: qroles wh (queue f wh) -> rd32 m2 (addr W r) = rd32 m (addr W r)) as Hsame.
  { intros r Hr Hn; eapply same_writes; [done|exact Hw2| |intros d Hd'; apply HD; by right|done|exact Hn].
    intros a (d & -> & Hd')%list_elem_of_fmap; by exists d. }
  destruct (wake_first_ok wh t l f Hok Eq) as [Hok2 Hq2].
  assert (fholds ts W objs (set_onlist (<[t := false]> (onlist f)) (set_queue wh (tq_remove t (queue f wh)) f)) m2) as Hf2.
  { eapply (fholds_requeue W W f _ m m2 t wh o); [done|done|done|done|by destruct Hok2; constructor| |done|done|done|done| | | | |].
    - intros r Hr Hsp; apply Hsame; [done|]; apply spared_not in Hsp; rewrite elem_of_cons in Hsp; tauto.
    - intros u Hu; split; [done|]; cbn; by rewrite lookup_insert_ne.
    - intros a Ha; split; [by apply queue_set_ne|]; intros Hx; by apply Ha, (qo_one _ Hok a wh t).
    - change (queue (set_onlist _ _) wh) with (queue (wake_first wh t f) wh); rewrite Hq2.
      apply (tailq_frame w_entries m1); [|exact (tailq_remove_ok w_entries m wh [] (getw W t) (getw W <$> l) Htail)].
      intros a; rewrite queue_cells; intros (r & -> & Hr)%list_elem_of_fmap; apply rd_wr_role; [done|apply Hv; tauto| |].
      + apply HD; right; right; rewrite Eq; by apply qroles_more.
      + intros <-; unfold qroles in Hr; rewrite !elem_of_cons, in_links in Hr; naive_solver.
    - cbn; rewrite Hw, lookup_insert_eq; split; by eexists.
    - intros w' Hw'; rewrite Hw in Hw'; injection Hw' as <-; split_and!; [done| |].
      + transitivity (rd32 m w); [|done]; pose proof (Hsame (RW t 0)) as E; cbn [addr] in E; rewrite Egw, Z.add_0_r in E; apply E; [apply Hv; tauto|].
        unfold qroles; rewrite !elem_of_cons, in_links; naive_solver.
      + unfold is_onlist; cbn [onlist set_onlist]; rewrite lookup_insert_eq; unfold m2; cbn [addr]; rewrite Egw; by apply rd32_wr32_eq. }
  unfold mem_wake_first; fold m1; change (getw W t + 12) with (addr W (RW t 12)); fold m2.
  destruct (fh_waiter _ _ _ _ _ Hf2 t w Hw) as (_ & E2 & _); rewrite Egw, E2.
  apply (fholds_sched W _ m2); [exact Hf2|apply holds_wake; [exact (fh_sched _ _ _ _ _ Hf2)|done]|exact Hc|by apply wake_writes, writes_refl].
Qed.

Lemma wakeup_one_mem W f m o wh : fholds ts W objs f m -> o ∈ objs -> wh ∈ oqueues o ->
  fholds ts W objs (wakeup_one wh f) (mem_wakeup_one wh m).
Proof.
  intros Hf Ho Hwh; rewrite wakeup_one_eq; unfold mem_wakeup_one; pose proof (queue_first _ _ _ _ _ Hf Ho Hwh) as Hq.
  destruct (queue f wh) as [|t l] eqn:Eq; [by rewrite Hq|]; destruct Hq as [-> Hne].
  rewrite (proj2 (Z.eqb_neq _ _) Hne); cbn [negb]; by eapply wake_first_mem.
Qed.

Lemma wakeup_all_mem W o wh l : forall f m fuel, fholds ts W objs f m -> o ∈ objs -> wh ∈ oqueues o -> queue f wh = l ->
  (length l <= fuel)%nat -> exists m', mem_wakeup_all fuel wh m = Some m' /\ fholds ts W objs (wake_list wh l f) m'.
Proof.
  induction l as [|t l IH]; intros f m fuel Hf Ho Hwh Eq Hfu; pose proof (queue_first _ _ _ _ _ Hf Ho Hwh) as Hq; rewrite Eq in Hq.
  - exists m; split; [|done]; destruct fuel; cbn [mem_wakeup_all]; by rewrite Hq.
  - destruct Hq as [Hq Hne]; destruct fuel as [|fuel]; cbn [length] in Hfu; [lia|].
    cbn [mem_wakeup_all]; rewrite Hq, (proj2 (Z.eqb_neq _ _) Hne); cbn [negb].
    apply IH; [by eapply wake_first_mem|done|done| |lia].
    by destruct (wake_first_ok wh t l f (fh_ok _ _ _ _ _ Hf) Eq).
Qed.

(** ** Waiting *)

(** The local variable of [wait] is an object of its own. *)
Definition fresh_waiter (W : gmap Z Z) (w : Z) : Prop :=
  0 < w /\ w + SIZEOF_WAITER <= 2 ^ 32 /\ forall r, valid ts W objs r -> addr W r + 4 <= w \/ w + SIZEOF_WAITER <= addr W r.

Lemma addr_insert W u w r : (forall k, r <> RW u k) -> addr (<[u := w]> W) r = addr W r.
Proof.
  intros Hn; destruct r as [a|a|a|o a|t k]; cbn [addr]; [done..|]; unfold getw; rewrite lookup_insert_ne; [done|].
  intros ->; by apply (Hn k).
Qed.
Lemma valid_insert W u w r : valid ts (<[u := w]> W) objs r -> valid ts W objs r \/ exists k, r = RW u k /\ (k = 0 \/ k = 4 \/ k = 8 \/ k = 12).
Proof.
  destruct r as [a|a|a|o a|t k]; cbn [valid]; [tauto..|]; rewrite lookup_insert_is_Some'.
  intros [[->|?] ?]; [right; by exists k|left; tauto].
Qed.
Lemma separate_insert W u w : separate ts W objs -> W !! u = None -> fresh_waiter W w -> separate ts (<[u := w]> W) objs.
Proof.
  intros [Hr Hs] Hu (H0 & H1 & Hw); unfold SIZEOF_WAITER in *.
  assert (forall k, valid ts W objs (RW u k) -> False) as Hno by (intros k [[x Hx] _]; congruence).
  assert (forall k, addr (<[u := w]> W) (RW u k) = w + k) as Eu by (intros k; cbn [addr]; unfold getw; by rewrite lookup_insert_eq).
  assert (forall r, valid ts W objs r -> addr (<[u := w]> W) r = addr W r) as Eo.
  { intros r Hv; apply addr_insert; intros k ->; by apply (Hno k). }
  split.
  - intros r [Hv|(k & -> & Hk)]%valid_insert; [rewrite Eo by done; by apply Hr|rewrite Eu; unfold urange; lia].
  - intros r r' [Hv|(k & -> & Hk)]%valid_insert [Hv'|(k' & -> & Hk')]%valid_insert Hne; rewrite ?Eu, ?Eo by done.
    + by apply Hs.
    + destruct (Hw r Hv); lia.
    + destruct (Hw r' Hv'); lia.
    + assert (k <> k') by congruence; lia.
Qed.

Section Enqueue.
Context (W : gmap Z Z) (f : fib H) (m : mem) (w wh : Z) (o : obj).
Hypothesis Hf : fholds ts W objs f m.
Hypothesis Ho : o ∈ objs.
Hypothesis Hwh : wh ∈ oqueues o.
Hypothesis Hu : onlist f !! cur f = None.
Hypothesis Hfr : fresh_waiter W w.
Local Abbreviation u := (cur f).
Local Abbreviation W' := (<[cur f := w]> W).
Local Abbreviation m1 := (wr32 m w (cur f)).
Local Abbreviation m2 := (TAILQ_INSERT_TAIL w_entries wh w m1).
Local Abbreviation m3 := (wr32 m2 (w + 12) 1).
Local Abbreviation D := (RW u 0 :: RW u 12 :: qroles wh (u :: queue f wh)).

Lemma enq_separate : separate ts W' objs.
Proof.
  apply separate_insert; [apply (fh_sep _ _ _ _ _ Hf)| |done].
  destruct (W !! u) eqn:E; [|done]; destruct (proj1 (fh_dom _ _ _ _ _ Hf u) (mk_is_Some _ _ E)); congruence.
Qed.
Lemma enq_notin a : u ∉ queue f a.
Proof. intros Ha; destruct (queue_waits _ _ _ _ _ Hf Ha); congruence. Qed.
Lemma enq_getw : getw W' u = w.
Proof. unfold getw; by rewrite lookup_insert_eq. Qed.
Lemma enq_old : getw W' <$> queue f wh = getw W <$> queue f wh.
Proof.
  apply list_fmap_ext; intros i t Hi; unfold getw; apply list_elem_of_lookup_2 in Hi.
  rewrite lookup_insert_ne; [done|intros <-; by apply enq_notin in Hi].
Qed.
Lemma enq_own k : k = 0 \/ k = 4 \/ k = 8 \/ k = 12 -> valid ts W' objs (RW u k) /\ addr W' (RW u k) = w + k.
Proof. split; [split; [rewrite lookup_insert_eq; by eexists|done]|cbn [addr]; by rewrite enq_getw]. Qed.
Lemma enq_roles r : r ∈ D -> valid ts W' objs r.
Proof.
  rewrite !elem_of_cons; intros [->|[->|Hr]]; [apply enq_own; tauto..|].
  assert (Forall (valid ts W' objs) (qroles wh (u :: queue f wh))) as HF; [|rewrite Forall_forall in HF; by apply HF].
  apply qroles_valid; [by exists o|]; intros t; rewrite elem_of_cons, lookup_insert_is_Some'; intros [->|Ht]; [by left|right].
  by eapply queue_waits.
Qed.
Lemma enq_cells : cells w_entries wh (w :: (getw W' <$> queue f wh)) = addr W' <$> qroles wh (u :: queue f wh).
Proof. rewrite <- enq_getw at 1; exact (queue_cells W' wh (u :: queue f wh)). Qed.
Lemma enq_tail1 : tailq w_entries m1 wh (getw W' <$> queue f wh).
Proof.
  rewrite enq_old; eapply queue_frame; [done..|]; intros r Hr _; apply rd32_wr32_ne.
  destruct Hfr as (_ & _ & Hx); destruct (Hx r Hr); unfold SIZEOF_WAITER in *; lia.
Qed.
Lemma enq_linkable : linkable w_entries wh (getw W' <$> queue f wh) w.
Proof.
  destruct Hfr as (H0 & H1 & _); split_and!; [|unfold urange, SIZEOF_WAITER in *; lia|unfold NULL; lia].
  rewrite enq_cells; apply (apart_roles ts W' objs); [apply enq_separate| |].
  - apply qroles_NoDup, NoDup_cons; split; [apply enq_notin|apply (qo_nodup _ (fh_ok _ _ _ _ _ Hf))].
  - apply Forall_forall; intros r Hr; apply enq_roles; right; by right.
Qed.
Lemma enq_links a : a ∈ cells w_entries wh (w :: (getw W' <$> queue f wh)) -> exists d, d ∈ qroles wh (u :: queue f wh) /\ a = addr W' d.
Proof. rewrite enq_cells; intros (d & -> & Hd)%list_elem_of_fmap; by exists d. Qed.
Lemma enq_same r : valid ts W' objs r -> r ∉ D -> rd32 m3 (addr W' r) = rd32 m (addr W' r).
Proof.
  destruct (enq_own 0) as [_ A0]; [tauto|]; destruct (enq_own 12) as [_ A12]; [tauto|]; rewrite Z.add_0_r in A0.
  assert (writes (addr W' <$> D) m m3) as Hw3.
  { apply writes_wr; [apply list_elem_of_fmap; exists (RW u 12); split; [by rewrite A12|right; by left]|].
    apply (writes_trans _ m m1).
    { apply writes_wr; [|apply writes_refl]; apply list_elem_of_fmap; exists (RW u 0); split; [by rewrite A0|by left]. }
    eapply writes_mono; [|apply (insert_tail_writes w_entries _ wh _ _ enq_tail1 enq_linkable)].
    intros a (d & Hd & ->)%enq_links; apply list_elem_of_fmap_2; right; by right. }
  intros Hr Hn; eapply same_writes; [apply enq_separate|exact Hw3| |exact enq_roles|done|exact Hn].
  intros a (d & -> & Hd')%list_elem_of_fmap; by exists d.
Qed.
Lemma enq_who : rd32 m3 w = u.
Proof.
  destruct (enq_own 0) as [V0 A0]; [tauto|]; rewrite Z.add_0_r in A0; rewrite rd32_wr32_ne by lia.
  pose proof (same_writes ts W' objs _ (qroles wh (u :: queue f wh)) m1 m2 (RW u 0) enq_separate
    (insert_tail_writes _ _ _ _ _ enq_tail1 enq_linkable) enq_links) as E; rewrite A0 in E.
  rewrite E; [|intros d Hd; apply enq_roles; right; by right|done|unfold qroles; rewrite !elem_of_cons, in_links; naive_solver].
  apply rd32_wr32_val; destruct (h_apart _ _ _ _ _ _ (fh_sched _ _ _ _ _ Hf)) as (_ & _ & HF); rewrite Forall_forall in HF.
  apply HF, (fields_foot _ _ _ ts u u); [apply (fh_cur _ _ _ _ _ Hf)|by left].
Qed.
Lemma enq_tail3 : tailq w_entries m3 wh ((getw W' <$> queue f wh) ++ [w]).
Proof.
  destruct (enq_own 12) as [V12 A12]; [tauto|].
  apply (tailq_frame w_entries m2); [|apply tailq_insert_tail_ok; [apply enq_tail1|apply enq_linkable]].
  assert (cells w_entries wh ((getw W' <$> queue f wh) ++ [w]) ≡ₚ addr W' <$> qroles wh (u :: queue f wh)) as Hp.
  { rewrite <- enq_cells; unfold cells; do 2 f_equiv; by rewrite <- Permutation_cons_append. }
  intros a; rewrite Hp; intros (r & -> & Hr)%list_elem_of_fmap; rewrite <- A12; apply rd_wr_role; [apply enq_separate|done| |].
  - apply enq_roles; right; by right.
  - intros <-; unfold qroles in Hr; rewrite !elem_of_cons, in_links in Hr; naive_solver.
Qed.

Lemma wait_enqueue :
  fholds ts W' objs (set_onlist (<[u := true]> (onlist f)) (set_queue wh (tq_insert_tail u (queue f wh)) f)) m3.
Proof.
  pose proof (wait_block_ok wh 0 0 f (fh_ok _ _ _ _ _ Hf) Hu) as Hok3.
  eapply (fholds_requeue W W' f _ m m3 u wh o);
    [done|done|done|apply enq_separate|by destruct Hok3; constructor| |done|done|done|done| | | | |].
  - intros r Hr Hsp; assert (forall k, r <> RW u k) as Hnu by (intros k ->; by destruct Hsp).
    rewrite <- (addr_insert W u w) by done; apply enq_same.
    + destruct r as [a|a|a|o' a|t k]; cbn [valid] in *; [done..|]; rewrite lookup_insert_is_Some'; naive_solver.
    + apply spared_not in Hsp; unfold qroles in *; rewrite !elem_of_cons, !in_links in Hsp |- *; setoid_rewrite elem_of_cons; naive_solver.
  - intros t Ht; split; [by apply lookup_insert_ne|]; cbn; by rewrite lookup_insert_ne.
  - intros a Ha; split; [by apply queue_set_ne|apply enq_notin].
  - change (queue (set_onlist _ _) wh) with (queue (set_queue wh (tq_insert_tail u (queue f wh)) f) wh); rewrite queue_set_eq.
    unfold tq_insert_tail; rewrite fmap_app; cbn [fmap list_fmap]; rewrite enq_getw; exact enq_tail3.
  - cbn; rewrite !lookup_insert_eq; split; by eexists.
  - intros w'; rewrite lookup_insert_eq; intros [= <-]; split_and!; [apply (fh_cur _ _ _ _ _ Hf)|exact enq_who|].
    unfold is_onlist; cbn [onlist set_onlist]; rewrite lookup_insert_eq; by rewrite rd32_wr32_eq.
Qed.

Lemma wait_block_mem nsec now : fholds ts W' objs (wait_block wh nsec now f) (mem_wait_block w wh nsec now m).
Proof.
  pose proof wait_enqueue as H3; unfold wait_block, mem_wait_block; cbv zeta.
  rewrite (h_current _ _ _ _ _ _ (fh_sched _ _ _ _ _ Hf)); change (current_thread (sc f)) with u; rewrite enq_who.
  pose proof (fh_cur _ _ _ _ _ Hf) as Hc.
  assert (fholds ts W' objs (set_sc (bmk_sched_block u (sc f))
    (set_onlist (<[u := true]> (onlist f)) (set_queue wh (tq_insert_tail u (queue f wh)) f))) (mem_block u m3)) as H4.
  { apply (fholds_sched _ _ m3); [done|apply holds_block; [exact (fh_sched _ _ _ _ _ H3)|done]|done|by apply block_writes, writes_refl]. }
  destruct (negb (nsec =? 0)); [|exact H4].
  destruct (fh_waiter _ _ _ _ _ H4 u w) as (_ & -> & _); [apply lookup_insert_eq|].
  apply (fholds_sched W' _ (mem_block u m3)); [exact H4| |done|by apply setwakeup_writes, writes_refl].
  apply holds_wakeup; [by apply sext_range|exact (fh_sched _ _ _ _ _ H4)|done].
Qed.
End Enqueue.

Lemma separate_delete W u : separate ts W objs -> separate ts (delete u W) objs.
Proof.
  intros [Hr Hs]; assert (forall r, valid ts (delete u W) objs r -> valid ts W objs r /\ addr (delete u W) r = addr W r) as Hv.
  { intros r; destruct r as [a|a|a|o a|t k]; cbn [valid addr]; [done..|]; rewrite lookup_delete_is_Some; intros [[Hne ?] ?].
    unfold getw; by rewrite lookup_delete_ne. }
  split.
  - intros r [Hv1 ->]%Hv; by apply Hr.
  - intros r r' [Hv1 ->]%Hv [Hv2 ->]%Hv; by apply Hs.
Qed.

(** The end of [wait]: the waiter is gone. *)
Section Resume.
Context (W : gmap Z Z) (f : fib H) (m : mem) (w wh : Z) (o : obj).
Hypothesis Hf : fholds ts W objs f m.
Hypothesis Ho : o ∈ objs.
Hypothesis Hwh : wh ∈ oqueues o.
Hypothesis Hw : W !! cur f = Some w.
Hypothesis Hq1 : forall a, cur f ∈ queue f a -> a = wh.
Local Abbreviation u := (cur f).
Local Abbreviation m' := (snd (mem_wait_resume w wh m)).

Lemma res_onlist : exists b, onlist f !! u = Some b /\ rd32 m (w + 12) = Z.b2z b /\ (b = true <-> u ∈ queue f wh).
Proof.
  destruct (proj1 (fh_dom _ _ _ _ _ Hf u) (mk_is_Some _ _ Hw)) as [b Hb]; exists b.
  destruct (fh_waiter _ _ _ _ _ Hf _ _ Hw) as (_ & _ & ->); unfold is_onlist; rewrite Hb; split_and!; [done|done|]; split.
  - intros ->; apply (qo_onlist _ (fh_ok _ _ _ _ _ Hf)) in Hb as (a & Ha); by rewrite <- (Hq1 a Ha).
  - intros Hx; destruct (queue_waits _ _ _ _ _ Hf Hx); congruence.
Qed.

Lemma res_words :
  tailq w_entries m' wh (getw W <$> tq_remove u (queue f wh)) /\ rd32 m' (w + 12) = rd32 m (w + 12) /\
  forall r, valid ts W objs r -> r ∉ qroles wh (queue f wh) -> rd32 m' (addr W r) = rd32 m (addr W r).
Proof.
  destruct res_onlist as (b & Hb & Eb & Hin); pose proof (fh_queue _ _ _ _ _ Hf o wh Ho Hwh) as Ht.
  assert (getw W u = w) as Egw by (unfold getw; by rewrite Hw).
  unfold mem_wait_resume; cbn [snd]; rewrite Eb; destruct b; cbn [Z.b2z Z.eqb negb]; cycle 1.
  { split_and!; [|done|done]; rewrite tq_remove_notin; [done|]; by intros Hx%Hin. }
  destruct (list_elem_of_split _ _ (proj1 Hin eq_refl)) as (l1 & l2 & El).
  pose proof (qo_nodup _ (fh_ok _ _ _ _ _ Hf) wh) as Hn; rewrite El in Hn; apply NoDup_app in Hn as (_ & Hd1 & [Hd2 _]%NoDup_cons).
  assert (u ∉ l1 /\ u ∉ l2) as [Hd3 _] by (split; [intros Hx; apply (Hd1 _ Hx); by left|done]).
  assert (getw W <$> queue f wh = (getw W <$> l1) ++ w :: (getw W <$> l2)) as Eq by (by rewrite El, fmap_app, <- Egw).
  rewrite Eq in Ht; pose proof (remove_writes _ _ _ _ _ _ Ht) as Hwr; rewrite <- Eq, queue_cells in Hwr.
  assert (forall r, valid ts W objs r -> r ∉ qroles wh (queue f wh) -> rd32 (TAILQ_REMOVE w_entries wh w m) (addr W r) = rd32 m (addr W r)) as Hsm.
  { intros r Hr Hnr; eapply same_writes; [apply (fh_sep _ _ _ _ _ Hf)|exact Hwr| | |done|exact Hnr].
    - intros a (d & -> & Hdi)%list_elem_of_fmap; by exists d.
    - assert (Forall (valid ts W objs) (qroles wh (queue f wh))) as HF; [|by rewrite Forall_forall in HF].
      apply qroles_valid; [by exists o|intros t Ht'; by eapply queue_waits]. }
  split_and!; [|transitivity (rd32 m (w + 12)); [|exact Eb]; pose proof (Hsm (RW u 12)) as E; cbn [addr] in E; rewrite Egw in E; apply E|exact Hsm].
  - rewrite El, tq_remove_split, fmap_app by (clear - Hd2 Hd3; set_solver); by apply tailq_remove_ok.
  - split; [by eexists|tauto].
  - unfold qroles; rewrite !elem_of_cons, in_links; naive_solver.
Qed.

Lemma wait_resume_mem : fst (mem_wait_resume w wh m) = fst (wait_resume wh f) /\
  fholds ts (delete u W) objs (snd (wait_resume wh f)) m'.
Proof.
  destruct res_onlist as (b & Hb & Eb & Hin), res_words as (Htq & E12 & Hsame).
  pose proof (wait_result f wh (fh_ok _ _ _ _ _ Hf) (mk_is_Some _ _ Hb)) as Hres.
  destruct (wait_resume wh f) as [rv f'] eqn:Er; destruct Hres as (_ & _ & Hok' & Hon' & _ & Hqs); [intros E; apply Hin; congruence|].
  assert (rv = (if b then ETIMEDOUT else 0) /\
    f' = set_onlist (delete u (onlist f)) (if b then set_queue wh (tq_remove u (queue f wh)) f else f)) as [-> Ef].
  { unfold wait_resume, is_onlist in Er; rewrite Hb in Er; destruct b; cbn [default from_option id onlist set_queue set_whs] in Er;
      rewrite Hb in Er; by injection Er as <- <-. }
  assert (forall l : list Z, u ∉ l -> getw (delete u W) <$> l = getw W <$> l) as Egl.
  { intros l Hl; apply list_fmap_ext; intros i t Hi; unfold getw; apply list_elem_of_lookup_2 in Hi.
    rewrite lookup_delete_ne; [done|]; intros E; apply Hl; by rewrite E. }
  split; [unfold mem_wait_resume in *; cbn [fst snd] in *; rewrite E12, Eb; by destruct b|].
  eapply (fholds_requeue W _ f f' m m' u wh o); [done|done|done|apply separate_delete, (fh_sep _ _ _ _ _ Hf)|done| | | | | | | | | |].
  - intros r Hr Hsp; apply Hsame; [done|]; apply spared_not in Hsp; rewrite !elem_of_cons in Hsp; tauto.
  - rewrite Ef; by destruct b.
  - rewrite Ef; by destruct b.
  - rewrite Ef; by destruct b.
  - rewrite Ef; by destruct b.
  - intros t Ht; split; [by apply lookup_delete_ne|]; rewrite Ef; destruct b; cbn; by rewrite lookup_delete_ne.
  - intros a Ha; assert (u ∉ queue f a) as Hni by (intros Hx; by apply Ha, Hq1).
    split; [rewrite Hqs; by apply tq_remove_notin|done].
  - rewrite Hqs, Egl; [done|]; rewrite elem_of_tq_remove; tauto.
  - by rewrite lookup_delete_eq, Hon'.
  - intros w'; by rewrite lookup_delete_eq.
Qed.
End Resume.

(** ** Objects *)

Lemma sext_wrap x : i32 (u32 x) = i32 x.
Proof. unfold sext, wrap; by rewrite Zplus_mod_idemp_l. Qed.

Lemma fields_same W f m m' o : fholds ts W objs f m -> o ∈ objs -> writes (ofields o) m m' ->
  forall r, valid ts W objs r -> (forall a, r <> RF o a) -> rd32 m' (addr W r) = rd32 m (addr W r).
Proof.
  intros Hf Ho Hw r Hr Hn; eapply (same_writes ts W objs _ (RF o <$> ofields o)); [apply (fh_sep _ _ _ _ _ Hf)|exact Hw| | |done|].
  - intros a Ha; exists (RF o a); split; [by apply list_elem_of_fmap_2|done].
  - intros d (a & -> & Ha)%list_elem_of_fmap; by split.
  - intros (a & -> & _)%list_elem_of_fmap; by apply (Hn a).
Qed.
Lemma mtx_update W f m m' a : fholds ts W objs f m -> OMtx a ∈ objs -> writes (ofields (OMtx a)) m m' ->
  fholds ts W objs (put_mtx a (load_mtx m' a) f) m'.
Proof.
  intros Hf Ho Hw; eapply fholds_fields; [exact Hf|exact Ho|by eapply fields_same|done|done|done| |].
  - intros [b|b|b] x Hne; cbn [obj_rep put_mtx set_mtxs mtxs rws cvs]; [|done|done]; rewrite lookup_insert_ne by congruence; done.
  - cbn [obj_rep put_mtx set_mtxs mtxs]; apply lookup_insert_eq.
Qed.
Lemma rw_update W f m m' a : fholds ts W objs f m -> ORw a ∈ objs -> writes (ofields (ORw a)) m m' ->
  fholds ts W objs (put_rw a (load_rw m' a) f) m'.
Proof.
  intros Hf Ho Hw; eapply fholds_fields; [exact Hf|exact Ho|by eapply fields_same|done|done|done| |].
  - intros [b|b|b] x Hne; cbn [obj_rep put_rw set_rws mtxs rws cvs]; [done| |done]; rewrite lookup_insert_ne by congruence; done.
  - cbn [obj_rep put_rw set_rws rws]; apply lookup_insert_eq.
Qed.
Lemma cv_update W f m m' a : fholds ts W objs f m -> OCv a ∈ objs -> writes (ofields (OCv a)) m m' ->
  fholds ts W objs (put_cv a (load_cv m' a) f) m'.
Proof.
  intros Hf Ho Hw; eapply fholds_fields; [exact Hf|exact Ho|by eapply fields_same|done|done|done| |].
  - intros [b|b|b] x Hne; cbn [obj_rep put_cv set_cvs mtxs rws cvs]; [done|done|]; rewrite lookup_insert_ne by congruence; done.
  - cbn [obj_rep put_cv set_cvs cvs]; apply lookup_insert_eq.
Qed.
Lemma getmtx_load W f m a : fholds ts W objs f m -> OMtx a ∈ objs -> getmtx f a = load_mtx m a.
Proof. intros Hf Ho; pose proof (fh_obj _ _ _ _ _ Hf _ Ho) as E; cbn [obj_rep] in E; unfold getmtx; by rewrite E. Qed.
Lemma getrw_load W f m a : fholds ts W objs f m -> ORw a ∈ objs -> getrw f a = load_rw m a.
Proof. intros Hf Ho; pose proof (fh_obj _ _ _ _ _ Hf _ Ho) as E; cbn [obj_rep] in E; unfold getrw; by rewrite E. Qed.
Lemma getcv_load W f m a : fholds ts W objs f m -> OCv a ∈ objs -> getcv f a = load_cv m a.
Proof. intros Hf Ho; pose proof (fh_obj _ _ _ _ _ Hf _ Ho) as E; cbn [obj_rep] in E; unfold getcv; by rewrite E. Qed.
Lemma curlwp_load W f m : fholds ts W objs f m -> rumpuser_curlwp f = Ret (mem_curlwp m).
Proof.
  intros Hf; pose proof (fh_sched _ _ _ _ _ Hf) as Hh; destruct (getthr_load _ _ _ _ _ _ _ Hh (fh_cur _ _ _ _ _ Hf)) as [E _].
  unfold rumpuser_curlwp, bmk_sched_gettls, mem_curlwp; rewrite E, (h_current _ _ _ _ _ _ Hh); reflexivity.
Qed.
Lemma empty_load W f m o wh : fholds ts W objs f m -> o ∈ objs -> wh ∈ oqueues o ->
  TAILQ_EMPTY wh m = match queue f wh with [] => true | _ => false end.
Proof.
  intros Hf Ho Hwh; pose proof (queue_first _ _ _ _ _ Hf Ho Hwh) as Hq; unfold TAILQ_EMPTY; destruct (queue f wh) as [|t l]; [by rewrite Hq|].
  destruct Hq as [-> Hne]; by apply Z.eqb_neq.
Qed.
Ltac fwrites := repeat (apply writes_wr; [cbn [ofields]; rewrite !elem_of_cons; tauto|]); apply writes_refl.

(** ** Mutexes *)

Lemma tryenter_mem W f m a : fholds ts W objs f m -> OMtx a ∈ objs ->
  exists f', rumpuser_mutex_tryenter a f = Ret (fst (mem_mutex_tryenter a m), f') /\ fholds ts W objs f' (snd (mem_mutex_tryenter a m)).
Proof.
  intros Hf Ho; pose proof (curlwp_load W f m Hf) as El; unfold rumpuser_curlwp in El.
  unfold rumpuser_mutex_tryenter, mem_mutex_tryenter; rewrite El, (getmtx_load W f m a Hf Ho); cbn [mbind outcome_bind load_mtx mtx_v mtx_o mtx_flags].
  destruct (negb _ && negb _); cbn [fst snd]; [by exists f|]; eexists; split; [reflexivity|].
  set (m' := wr32 (wr32 m _ _) _ _); assert (writes (ofields (OMtx a)) m m') as Hw by (unfold m'; fwrites).
  pose proof (mtx_update W f m m' a Hf Ho Hw) as Hu.
  assert (load_mtx m' a = Mtx (i32 (i32 (rd32 m (a + 8)) + 1)) (i32 (rd32 m (a + 12))) (mem_curlwp m)) as E; [|by rewrite E in Hu].
  unfold m', load_mtx; rewrite rd32_wr32_val by apply rd32_range; rewrite !(rd32_wr32_ne _ (a + 16)), !rd32_wr32_eq, sext_wrap by lia.
  by rewrite rd32_wr32_ne by lia.
Qed.

Lemma enter_nowrap_mem W f m a : fholds ts W objs f m -> OMtx a ∈ objs ->
  match rumpuser_mutex_enter_nowrap a f with
  | Ret f' => exists m', mem_mutex_enter_nowrap a m = Ret m' /\ fholds ts W objs f' m'
  | Halt e => mem_mutex_enter_nowrap a m = Halt e
  end.
Proof.
  intros Hf Ho; destruct (tryenter_mem W f m a Hf Ho) as (f' & E & Hf'); unfold rumpuser_mutex_enter_nowrap, mem_mutex_enter_nowrap; rewrite E.
  cbn [mbind outcome_bind]; destruct (mem_mutex_tryenter a m) as [rv m']; cbn [fst snd] in *; destruct (negb (rv =? 0)); [done|by exists m'].
Qed.

Lemma mutex_exit_mem W f m a : fholds ts W objs f m -> OMtx a ∈ objs ->
  match rumpuser_mutex_exit a f with
  | Ret f' => exists m', mem_mutex_exit a m = Ret m' /\ fholds ts W objs f' m'
  | Halt e => mem_mutex_exit a m = Halt e
  end.
Proof.
  intros Hf Ho; unfold rumpuser_mutex_exit, mem_mutex_exit; rewrite (getmtx_load W f m a Hf Ho); cbn [load_mtx mtx_v mtx_flags mtx_o].
  pose proof (sext_range 32 (rd32 m (a + 8)) ltac:(lia)) as Hr; unfold srange in Hr; change (2 ^ (32 - 1)) with 2147483648 in Hr.
  destruct (Z.ltb_spec 0 (i32 (rd32 m (a + 8)))) as [Hv|]; [|done]; cbn [c_assert mbind outcome_bind].
  assert (srange 32 (i32 (rd32 m (a + 8)) - 1)) as Hsr by (unfold srange; change (2 ^ (32 - 1)) with 2147483648; lia).
  rewrite rd32_wr32_eq, sext_wrap, (sext_id 32 (i32 (rd32 m (a + 8)) - 1)) by (done || lia).
  set (v := i32 (rd32 m (a + 8)) - 1) in *; set (m1 := wr32 m (a + 8) v).
  assert (i32 (u32 v) = v) as Ev by (rewrite sext_wrap; apply sext_id; [done|lia]).
  destruct (v =? 0).
  - set (m2 := wr32 m1 (a + 16) NULL); eexists; split; [reflexivity|]; apply (wakeup_one_mem W _ m2 (OMtx a)); [|done|by left].
    assert (writes (ofields (OMtx a)) m m2) as Hw by (unfold m2, m1; fwrites); pose proof (mtx_update W f m m2 a Hf Ho Hw) as Hu.
    assert (load_mtx m2 a = Mtx v (i32 (rd32 m (a + 12))) NULL) as E; [|by rewrite E in Hu].
    unfold m2, m1, load_mtx; rewrite rd32_wr32_val by apply null_range; rewrite !(rd32_wr32_ne _ (a + 16)), rd32_wr32_eq, Ev by lia.
    by rewrite rd32_wr32_ne by lia.
  - eexists; split; [reflexivity|].
    assert (writes (ofields (OMtx a)) m m1) as Hw by (unfold m1; fwrites); pose proof (mtx_update W f m m1 a Hf Ho Hw) as Hu.
    assert (load_mtx m1 a = Mtx v (i32 (rd32 m (a + 12))) (rd32 m (a + 16))) as E; [|by rewrite E in Hu].
    unfold m1, load_mtx; by rewrite rd32_wr32_eq, Ev, !rd32_wr32_ne by lia.
Qed.

(** ** Reader/writer locks *)

Lemma load_rw_v m a v : load_rw (wr32 m (a + 16) v) a = Rw (i32 v) (rd32 m (a + 20)).
Proof. unfold load_rw; by rewrite rd32_wr32_eq, sext_wrap, rd32_wr32_ne by lia. Qed.
Lemma load_rw_o m a l : urange 32 l -> load_rw (wr32 m (a + 20) l) a = Rw (i32 (rd32 m (a + 16))) l.
Proof. intros; unfold load_rw; by rewrite rd32_wr32_val, rd32_wr32_ne by (done || lia). Qed.
Lemma rw_set_v W f m a v : fholds ts W objs f m -> ORw a ∈ objs ->
  fholds ts W objs (put_rw a (Rw (i32 v) (rw_o (getrw f a))) f) (wr32 m (a + 16) v).
Proof.
  intros Hf Ho; rewrite (getrw_load W f m a Hf Ho); cbn [load_rw rw_o]; rewrite <- load_rw_v; apply (rw_update W f m); [done|done|fwrites].
Qed.
Lemma rw_set_o W f m a l : fholds ts W objs f m -> ORw a ∈ objs -> urange 32 l ->
  fholds ts W objs (put_rw a (Rw (rw_v (getrw f a)) l) f) (wr32 m (a + 20) l).
Proof.
  intros Hf Ho Hl; rewrite (getrw_load W f m a Hf Ho); cbn [load_rw rw_v]; rewrite <- load_rw_o by done; apply (rw_update W f m); [done|done|fwrites].
Qed.

Lemma rw_tryenter_mem W f m lk a : fholds ts W objs f m -> ORw a ∈ objs ->
  exists f', rumpuser_rw_tryenter lk a f = Ret (fst (mem_rw_tryenter lk a m), f') /\ fholds ts W objs f' (snd (mem_rw_tryenter lk a m)).
Proof.
  intros Hf Ho; unfold rumpuser_rw_tryenter, mem_rw_tryenter; destruct lk as [[]|]; [| |by exists f].
  - rewrite (empty_load W f m _ (rw_wwait a) Hf Ho) by (right; by left).
    assert (rd32 m (a + 20) = rw_o (getrw f a) /\ i32 (rd32 m (a + 16)) = rw_v (getrw f a)) as [-> ->] by (by rewrite (getrw_load W f m a Hf Ho)).
    destruct ((rw_o (getrw f a) =? NULL) && _); cbn [fst snd]; [|by exists f].
    eexists; split; [reflexivity|by apply rw_set_v].
  - assert (rd32 m (a + 20) = rw_o (getrw f a)) as -> by (by rewrite (getrw_load W f m a Hf Ho)).
    rewrite (curlwp_load W f m Hf); destruct (rw_o (getrw f a) =? NULL); cbn [mbind outcome_bind fst snd]; [|by exists f].
    eexists; split; [reflexivity|apply rw_set_o; [done|done|apply rd32_range]].
Qed.

Lemma getrw_put_rw a x f : getrw (put_rw a x f) a = x.
Proof. unfold getrw, put_rw; cbn; by rewrite lookup_insert_eq. Qed.

Lemma rw_exit_mem W f m a fuel : fholds ts W objs f m -> ORw a ∈ objs -> (length (queue f (rw_rwait a)) <= fuel)%nat ->
  exists m', mem_rw_exit fuel a m = Some m' /\ fholds ts W objs (rumpuser_rw_exit a f) m'.
Proof.
  intros Hf Ho Hfu; unfold rumpuser_rw_exit, mem_rw_exit.
  assert (rd32 m (a + 20) = rw_o (getrw f a) /\ i32 (rd32 m (a + 16)) = rw_v (getrw f a)) as [-> ->] by (by rewrite (getrw_load W f m a Hf Ho)).
  set (r1 := if negb (rw_o (getrw f a) =? NULL) then Rw (rw_v (getrw f a)) NULL else Rw (i32 (rw_v (getrw f a) - 1)) (rw_o (getrw f a))).
  set (m1 := if negb (rw_o (getrw f a) =? NULL) then wr32 m (a + 20) NULL else wr32 m (a + 16) (rw_v (getrw f a) - 1)).
  assert (fholds ts W objs (put_rw a r1 f) m1) as H1.
  { unfold r1, m1; destruct (negb _); [apply rw_set_o; [done|done|apply null_range]|by apply rw_set_v]. }
  assert (rd32 m1 (a + 20) = rw_o r1) as ->.
  { pose proof (getrw_load W _ _ a H1 Ho) as E; rewrite getrw_put_rw in E; by rewrite E. }
  rewrite (empty_load W _ m1 _ (rw_wwait a) H1 Ho) by (right; by left); rewrite (empty_load W _ m1 _ (rw_rwait a) H1 Ho) by (by left).
  change (queue (put_rw a r1 f)) with (queue f) in *; cbv zeta.
  destruct (queue f (rw_wwait a)) as [|t l]; cbn [negb].
  - destruct (queue f (rw_rwait a)) as [|t l] eqn:Eq; cbn [negb andb]; [by exists m1|]; destruct (rw_o r1 =? NULL); [|by exists m1].
    destruct (wakeup_all_mem W (ORw a) (rw_rwait a) (t :: l) (put_rw a r1 f) m1 fuel H1 Ho) as (m' & E & Hm'); [by left|done|done|].
    exists m'; split; [done|]; rewrite (wakeup_all_eq _ _ (fh_ok _ _ _ _ _ H1)); change (queue (put_rw a r1 f)) with (queue f); by rewrite Eq.
  - eexists; split; [reflexivity|]; destruct (rw_o r1 =? NULL); [|done]; apply (wakeup_one_mem W _ m1 (ORw a)); [done|done|right; by left].
Qed.

Lemma rw_held_mem W f m lk a : fholds ts W objs f m -> ORw a ∈ objs -> rumpuser_rw_held lk a f = Ret (mem_rw_held lk a m).
Proof.
  intros Hf Ho; unfold rumpuser_rw_held, mem_rw_held; rewrite (getrw_load W f m a Hf Ho); cbn [load_rw rw_v rw_o].
  destruct lk; [done|]; by rewrite (curlwp_load W f m Hf).
Qed.
Lemma rw_downgrade_mem W f m a : fholds ts W objs f m -> ORw a ∈ objs ->
  match rumpuser_rw_downgrade a f with
  | Ret f' => exists m', mem_rw_downgrade a m = Ret m' /\ fholds ts W objs f' m'
  | Halt e => mem_rw_downgrade a m = Halt e
  end.
Proof.
  intros Hf Ho; unfold rumpuser_rw_downgrade, mem_rw_downgrade; rewrite (curlwp_load W f m Hf); cbn [mbind outcome_bind].
  assert (rd32 m (a + 20) = rw_o (getrw f a)) as -> by (by rewrite (getrw_load W f m a Hf Ho)).
  destruct (rw_o (getrw f a) =? mem_curlwp m); cbn [c_assert mbind outcome_bind]; [|done].
  eexists; split; [reflexivity|]; exact (rw_set_v W f m a (-1) Hf Ho).
Qed.
Lemma rw_tryupgrade_mem W f m a : fholds ts W objs f m -> ORw a ∈ objs ->
  exists f', rumpuser_rw_tryupgrade a f = Ret (fst (mem_rw_tryupgrade a m), f') /\ fholds ts W objs f' (snd (mem_rw_tryupgrade a m)).
Proof.
  intros Hf Ho; unfold rumpuser_rw_tryupgrade, mem_rw_tryupgrade; rewrite (curlwp_load W f m Hf); cbn [mbind outcome_bind].
  assert (i32 (rd32 m (a + 16)) = rw_v (getrw f a)) as -> by (by rewrite (getrw_load W f m a Hf Ho)).
  destruct (rw_v (getrw f a) =? -1); [|by exists f].
  pose proof (rw_set_v W f m a 1 Hf Ho) as H1; pose proof (curlwp_load W _ _ H1) as E.
  change (rumpuser_curlwp (put_rw a _ f)) with (rumpuser_curlwp f) in E; rewrite (curlwp_load W f m Hf) in E; injection E as E.
  eexists; split; [reflexivity|]; cbn [snd]; rewrite <- E; pose proof (rw_set_o W _ _ a (mem_curlwp m) H1 Ho ltac:(apply rd32_range)) as H2.
  rewrite getrw_put_rw in H2; cbn [rw_v] in H2; unfold put_rw in *; cbn in H2; by rewrite insert_insert_eq in H2.
Qed.

(** ** Condition variables *)

Lemma cv_set W f m a v : fholds ts W objs f m -> OCv a ∈ objs -> fholds ts W objs (put_cv a (i32 v) f) (wr32 m (a + 8) v).
Proof.
  intros Hf Ho; assert (i32 v = load_cv (wr32 m (a + 8) v) a) as -> by (unfold load_cv; by rewrite rd32_wr32_eq, sext_wrap).
  apply (cv_update W f m); [done|done|fwrites].
Qed.

(** A thread may wait: it is on no queue, and its waiter is an object of its
    own. *)
Definition may_wait (W : gmap Z Z) (f : fib H) (w : Z) : Prop := onlist f !! cur f = None /\ fresh_waiter W w.

Lemma wakeup_one_cur wh f : cur (wakeup_one wh f) = cur f.
Proof. unfold wakeup_one; destruct (queue f wh); done. Qed.
Lemma wakeup_one_none W f m wh t : fholds ts W objs f m -> onlist f !! t = None -> onlist (wakeup_one wh f) !! t = None.
Proof.
  intros Hf Ht; rewrite wakeup_one_eq; destruct (queue f wh) as [|u l] eqn:E; [done|]; cbn; rewrite lookup_insert_ne; [done|].
  intros ->; destruct (queue_waits W f m wh t Hf); [rewrite E; by left|congruence].
Qed.
Lemma exit_may_wait W f m a f' w : fholds ts W objs f m -> rumpuser_mutex_exit a f = Ret f' -> may_wait W f w -> may_wait W f' w.
Proof.
  intros Hf E [Hn Hfr]; split; [|done]; revert E; unfold rumpuser_mutex_exit, c_assert.
  destruct (0 <? _); cbn [mbind outcome_bind]; [|done]; destruct (_ =? 0); intros [= <-]; [|done].
  rewrite wakeup_one_cur; unfold wakeup_one; change (queue (put_mtx _ _ f)) with (queue f).
  pose proof (wakeup_one_none W f m (mtx_waiters a) (cur f) Hf Hn) as Hx; unfold wakeup_one in Hx.
  destruct (queue f (mtx_waiters a)); done.
Qed.
Lemma exit_cur a f f' : rumpuser_mutex_exit a f = Ret f' -> cur f' = cur f.
Proof.
  unfold rumpuser_mutex_exit, c_assert; destruct (0 <? _); cbn [mbind outcome_bind]; [|done].
  destruct (_ =? 0); intros [= <-]; [etransitivity; [apply wakeup_one_cur|done]|done].
Qed.

Lemma cv_wait_mem W f m w cv mtx now : fholds ts W objs f m -> OCv cv ∈ objs -> OMtx mtx ∈ objs -> may_wait W f w ->
  match rumpuser_cv_wait_nowrap cv mtx now f with
  | Ret f' => exists m', mem_cv_wait_nowrap w cv mtx now m = Ret m' /\ fholds ts (<[cur f := w]> W) objs f' m'
  | Halt e => mem_cv_wait_nowrap w cv mtx now m = Halt e
  end.
Proof.
  intros Hf Hc Hm Hw; unfold rumpuser_cv_wait_nowrap, mem_cv_wait_nowrap; rewrite (getcv_load W f m cv Hf Hc); fold (load_cv m cv).
  pose proof (cv_set W f m cv (load_cv m cv + 1) Hf Hc) as H1; pose proof (mutex_exit_mem W _ _ mtx H1 Hm) as H2.
  assert (may_wait W (put_cv cv (i32 (load_cv m cv + 1)) f) w) as Hw1 by exact Hw.
  destruct (rumpuser_mutex_exit mtx (put_cv cv (i32 (load_cv m cv + 1)) f)) as [f2|e] eqn:E; cbn [mbind outcome_bind]; [|by rewrite H2].
  destruct H2 as (m2 & -> & H2); cbn [mbind outcome_bind]; eexists; split; [reflexivity|].
  destruct (exit_may_wait W _ _ mtx f2 w H1 E Hw1) as [Hn Hfr].
  change (cur f) with (cur (put_cv cv (i32 (load_cv m cv + 1)) f)); rewrite <- (exit_cur _ _ _ E).
  by eapply (wait_block_mem W f2 m2 w (cv_waiters cv) (OCv cv)); [| |left| |].
Qed.

Lemma cv_wait_resumed_mem W f m w cv mtx : fholds ts W objs f m -> OCv cv ∈ objs -> OMtx mtx ∈ objs ->
  W !! cur f = Some w -> (forall a, cur f ∈ queue f a -> a = cv_waiters cv) ->
  match cv_wait_nowrap_resumed cv mtx f with
  | Ret f' => exists m', mem_cv_wait_resumed w cv mtx m = Ret m' /\ fholds ts (delete (cur f) W) objs f' m'
  | Halt e => mem_cv_wait_resumed w cv mtx m = Halt e
  end.
Proof.
  intros Hf Hc Hm Hw Hq; unfold cv_wait_nowrap_resumed, mem_cv_wait_resumed.
  destruct (wait_resume_mem W f m w (cv_waiters cv) (OCv cv) Hf Hc) as [_ H1]; [by left|done|done|].
  destruct (wait_resume (cv_waiters cv) f) as [rv f1], (mem_wait_resume w (cv_waiters cv) m) as [rv' m1]; cbn [snd] in H1.
  pose proof (enter_nowrap_mem _ f1 m1 mtx H1 Hm) as H2.
  destruct (rumpuser_mutex_enter_nowrap mtx f1) as [f2|e]; cbn [mbind outcome_bind]; [|by rewrite H2].
  destruct H2 as (m2 & -> & H2); cbn [mbind outcome_bind]; eexists; split; [reflexivity|].
  rewrite (getcv_load _ f2 m2 cv H2 Hc); fold (load_cv m2 cv); by apply cv_set.
Qed.

(** ** The current lwp *)

Lemma settls_mem W f m l : fholds ts W objs f m -> urange 32 l ->
  exists x, bmk_sched_settls (cur f) BMK_TLS_RUMPLWP l (sc f) = Ret x /\ fholds ts W objs (set_sc x f) (wr32 m (rd32 m CURRENT + 16) l).
Proof.
  intros Hf Hl; pose proof (fh_sched _ _ _ _ _ Hf) as Hh; pose proof (fh_cur _ _ _ _ _ Hf) as Hc.
  eexists; split; [reflexivity|]; rewrite (h_current _ _ _ _ _ _ Hh); change (current_thread (sc f)) with (cur f).
  assert (cur f + 16 ∈ fields (cur f)) as Hin by (unfold fields; rewrite !elem_of_cons; tauto).
  pose proof (h_apart _ _ _ _ _ _ Hh) as Hap; apply (fholds_sched W f m); [done| |done|].
  - apply (holds_field _ _ _ m); [done|done| | |destruct (getthr_load _ _ _ _ _ _ _ Hh Hc) as [_ Hu]; exact Hu].
    + intros a Ha Hna; apply (rd32_wr32_apart _ _ _ _ _ Hap); [by apply (fields_foot _ _ _ ts (cur f))|done|by intros <-].
    + unfold load_thread, with_tls, ld64; cbn [bt_flags bt_name bt_tls bt_wakeup_time bt_errno bt_stackbase btcb_sp btcb_ip].
      rewrite rd32_wr32_val, !rd32_wr32_ne by (done || lia); done.
  - apply (field_writes _ _ _ ts (cur f)); [done|done|apply writes_refl].
Qed.

Lemma curlwpop_mem W f m op l : fholds ts W objs f m -> urange 32 l ->
  match rumpuser_curlwpop op l f with
  | Ret f' => exists m', mem_curlwpop op l m = Ret m' /\ fholds ts W objs f' m'
  | Halt e => mem_curlwpop op l m = Halt e
  end.
Proof.
  intros Hf Hl; unfold rumpuser_curlwpop, mem_curlwpop; destruct op; [by exists m|by exists m|..];
    rewrite (curlwp_load W f m Hf); cbn [mbind outcome_bind]; unfold c_assert; (destruct (_ =? _); cbn [mbind outcome_bind]; [|done]).
  - destruct (settls_mem W f m l Hf Hl) as (x & -> & Hx); cbn [mbind outcome_bind]; by eexists.
  - destruct (settls_mem W f m NULL Hf null_range) as (x & -> & Hx); cbn [mbind outcome_bind]; by eexists.
Qed.

(** ** Sequences of operations *)

(** The threads a queue or the scheduler can name are few enough for the
    loops. *)
Lemma queue_length W f m wh : fholds ts W objs f m -> (length (queue f wh) <= length ts)%nat.
Proof.
  intros Hf; apply submseteq_length, NoDup_submseteq; [apply (qo_nodup _ (fh_ok _ _ _ _ _ Hf))|].
  intros t Ht; destruct (queue_waits _ _ _ _ _ Hf Ht) as [_ [w Hw]]; by destruct (fh_waiter _ _ _ _ _ Hf _ _ Hw).
Qed.
Lemma threads_length W f m : fholds ts W objs f m -> (length (threads (sc f)) <= length ts)%nat.
Proof.
  intros Hf; destruct (h_queues _ _ _ _ _ _ (fh_sched _ _ _ _ _ Hf)) as [[Hn _]%NoDup_app Hin].
  apply submseteq_length, NoDup_submseteq; [done|]; intros t Ht; apply Hin, elem_of_app; by left.
Qed.

(** The thread that is switched to is one of the threads. *)
Lemma dispatch_current m (s s' : sched H) ticks rest : holds m ts s -> sched_dispatch ticks s = Some (s', rest) -> current_thread s' ∈ ts.
Proof.
  intros Hh E; destruct (h_queues _ _ _ _ _ _ Hh) as [[Hn _]%NoDup_app Hin].
  apply sched_dispatch_spec in E as (pre & k & t & T' & l' & _ & _ & Hc & ->); [|done|].
  - cbn [current_thread set_current]; apply Hin, elem_of_app; left; destruct Hc as (l1 & l2 & El & _).
    destruct (idle_frame pre s) as (Et & _); rewrite <- Et, El; apply elem_of_app; right; by left.
  - apply Forall_forall; intros t Ht; apply (h_dom _ _ _ _ _ _ Hh), Hin, elem_of_app; by left.
Qed.
Lemma dispatch_mem W f m ticks fuel : fholds ts W objs f m -> (length ts <= fuel)%nat ->
  Forall (fun k => Forall (fun t => t ∈ ts) (tk_woken k)) ticks ->
  match sched_dispatch ticks (sc f) with
  | Some (s', rest) => exists m', mem_dispatch THREADS CURRENT fuel ticks m = Some (m', rest) /\ fholds ts W objs (set_sc s' f) m'
  | None => mem_dispatch THREADS CURRENT fuel ticks m = None
  end.
Proof.
  intros Hf Hfu Hk; pose proof (fh_sched _ _ _ _ _ Hf) as Hh; pose proof (threads_length _ _ _ Hf) as Hl.
  pose proof (dispatch_ok _ _ _ ts ticks m (sc f) fuel Hh ltac:(lia) Hk) as Hd.
  destruct (sched_dispatch ticks (sc f)) as [[s' rest]|] eqn:E; [|done].
  destruct Hd as (m' & Em & Hh' & Hw); exists m'; split; [done|]; apply (fholds_sched W f m); [done|done| |done].
  exact (dispatch_current m (sc f) s' ticks rest Hh E).
Qed.

(** The operations: the parts of rumpfiber.c between two switches, and the
    switch. [w] is the address of the local variable of [wait]. *)
Inductive fop :=
  | FWait (w wh nsec now : Z) | FResume (w wh : Z)
  | FTryenter (mtx : Z) | FEnter (mtx : Z) | FExit (mtx : Z) | FOwner (mtx : Z)
  | FRwTryenter (lk : option rumprwlock) (rw : Z) | FRwExit (rw : Z) | FRwHeld (lk : rumprwlock) (rw : Z)
  | FDowngrade (rw : Z) | FTryupgrade (rw : Z)
  | FCvWait (w cv mtx now : Z) | FCvResume (w cv mtx : Z) | FSignal (cv : Z) | FBroadcast (cv : Z) | FHasWaiters (cv : Z)
  | FCurlwp | FCurlwpop (op : rumplwpop) (l : Z)
  | FSched (ticks : list tick).

(** An operation returns a value and the new state, halts, or finds nothing to
    run within the ticks it is given. *)
Definition result (S : Type) : Type := option (outcome (Z * S)).
Definition proc {S} (x : outcome S) : result S := Some (s ← x; Ret (0, s)).

Definition fib_op (op : fop) (f : fib H) : result (fib H) :=
  match op with
  | FWait _ wh nsec now => Some (Ret (0, wait_block wh nsec now f))
  | FResume _ wh => Some (Ret (wait_resume wh f))
  | FTryenter a => Some (rumpuser_mutex_tryenter a f)
  | FEnter a => proc (rumpuser_mutex_enter_nowrap a f)
  | FExit a => proc (rumpuser_mutex_exit a f)
  | FOwner a => Some (Ret (rumpuser_mutex_owner a f, f))
  | FRwTryenter lk a => Some (rumpuser_rw_tryenter lk a f)
  | FRwExit a => Some (Ret (0, rumpuser_rw_exit a f))
  | FRwHeld lk a => Some (b ← rumpuser_rw_held lk a f; Ret (Z.b2z b, f))
  | FDowngrade a => proc (rumpuser_rw_downgrade a f)
  | FTryupgrade a => Some (rumpuser_rw_tryupgrade a f)
  | FCvWait _ c a now => proc (rumpuser_cv_wait_nowrap c a now f)
  | FCvResume _ c a => proc (cv_wait_nowrap_resumed c a f)
  | FSignal c => Some (Ret (0, rumpuser_cv_signal c f))
  | FBroadcast c => Some (Ret (0, rumpuser_cv_broadcast c f))
  | FHasWaiters c => Some (Ret (Z.b2z (rumpuser_cv_has_waiters c f), f))
  | FCurlwp => Some (l ← rumpuser_curlwp f; Ret (l, f))
  | FCurlwpop op l => proc (rumpuser_curlwpop op l f)
  | FSched ticks => '(s, _) ← sched_dispatch ticks (sc f); Some (Ret (0, set_sc s f))
  end.
Definition mem_op (fuel : nat) (op : fop) (m : mem) : result mem :=
  match op with
  | FWait w wh nsec now => Some (Ret (0, mem_wait_block w wh nsec now m))
  | FResume w wh => Some (Ret (mem_wait_resume w wh m))
  | FTryenter a => Some (Ret (mem_mutex_tryenter a m))
  | FEnter a => proc (mem_mutex_enter_nowrap a m)
  | FExit a => proc (mem_mutex_exit a m)
  | FOwner a => Some (Ret (mem_mutex_owner a m, m))
  | FRwTryenter lk a => Some (Ret (mem_rw_tryenter lk a m))
  | FRwExit a => m ← mem_rw_exit fuel a m; Some (Ret (0, m))
  | FRwHeld lk a => Some (Ret (Z.b2z (mem_rw_held lk a m), m))
  | FDowngrade a => proc (mem_rw_downgrade a m)
  | FTryupgrade a => Some (Ret (mem_rw_tryupgrade a m))
  | FCvWait w c a now => proc (mem_cv_wait_nowrap w c a now m)
  | FCvResume w c a => proc (mem_cv_wait_resumed w c a m)
  | FSignal c => Some (Ret (0, mem_cv_signal c m))
  | FBroadcast c => m ← mem_cv_broadcast fuel c m; Some (Ret (0, m))
  | FHasWaiters c => Some (Ret (Z.b2z (mem_cv_has_waiters c m), m))
  | FCurlwp => Some (Ret (mem_curlwp m, m))
  | FCurlwpop op l => proc (mem_curlwpop op l m)
  | FSched ticks => '(m, _) ← mem_dispatch THREADS CURRENT fuel ticks m; Some (Ret (0, m))
  end.

(** What the C program sees to: locks are used while they exist, a thread
    waits at one place at a time and finds its local variable again when it
    resumes, pointers have 32 bits, interrupts wake threads. *)
Definition known_queue (wh : Z) : Prop := exists o, o ∈ objs /\ wh ∈ oqueues o.
Definition resumes (W : gmap Z Z) (f : fib H) (w wh : Z) : Prop :=
  W !! cur f = Some w /\ forall a, cur f ∈ queue f a -> a = wh.
Definition allowed (W : gmap Z Z) (op : fop) (f : fib H) : Prop :=
  match op with
  | FWait w wh _ _ => known_queue wh /\ may_wait W f w
  | FResume w wh => known_queue wh /\ resumes W f w wh
  | FTryenter a | FEnter a | FExit a | FOwner a => OMtx a ∈ objs
  | FRwTryenter _ a | FRwExit a | FRwHeld _ a | FDowngrade a | FTryupgrade a => ORw a ∈ objs
  | FCvWait w c a _ => OCv c ∈ objs /\ OMtx a ∈ objs /\ may_wait W f w
  | FCvResume w c a => OCv c ∈ objs /\ OMtx a ∈ objs /\ resumes W f w (cv_waiters c)
  | FSignal c | FBroadcast c | FHasWaiters c => OCv c ∈ objs
  | FCurlwp => True
  | FCurlwpop _ l => urange 32 l
  | FSched ticks => Forall (fun k => Forall (fun t => t ∈ ts) (tk_woken k)) ticks
  end.
(** Where the waiters are afterwards. *)
Definition after (W : gmap Z Z) (op : fop) (f : fib H) : gmap Z Z :=
  match op with
  | FWait w _ _ _ | FCvWait w _ _ _ => <[cur f := w]> W
  | FResume _ _ | FCvResume _ _ _ => delete (cur f) W
  | _ => W
  end.
Definition agrees (W : gmap Z Z) (r : result (fib H)) (r' : result mem) : Prop :=
  match r with
  | Some (Ret (v, f')) => exists m', r' = Some (Ret (v, m')) /\ fholds ts W objs f' m'
  | Some (Halt e) => r' = Some (Halt e)
  | None => r' = None
  end.

Lemma agrees_proc W (x : outcome (fib H)) (y : outcome mem) :
  match x with
  | Ret f' => exists m', y = Ret m' /\ fholds ts W objs f' m'
  | Halt e => y = Halt e
  end -> agrees W (proc x) (proc y).
Proof. destruct x as [f'|e]; [intros (m' & -> & Hm'); by exists m'|by intros ->]. Qed.
Lemma agrees_value W (x : outcome (Z * fib H)) (y : Z * mem) :
  (exists f', x = Ret (fst y, f') /\ fholds ts W objs f' (snd y)) -> agrees W (Some x) (Some (Ret y)).
Proof. intros (f' & -> & Hf'); exists (snd y); by destruct y. Qed.

(** Every operation does the same on bytes. *)
Lemma op_mem W f m op fuel : fholds ts W objs f m -> allowed W op f -> (length ts <= fuel)%nat ->
  agrees (after W op f) (fib_op op f) (mem_op fuel op m).
Proof.
  intros Hf Ha Hfu; destruct op as [w wh nsec now|w wh|a|a|a|a|lk a|a|lk a|a|a|w c a now|w c a|c|c|c| |op l|ticks];
    cbn [allowed after fib_op mem_op] in *.
  - destruct Ha as ((o & Ho & Hwh) & Hn & Hfr); eexists; split; [reflexivity|]; by apply (wait_block_mem W f m w wh o).
  - destruct Ha as ((o & Ho & Hwh) & Hw & Hq); destruct (wait_resume_mem W f m w wh o Hf Ho Hwh Hw Hq) as [E Hr].
    destruct (wait_resume wh f), (mem_wait_resume w wh m); cbn [fst snd] in *; subst; by eexists.
  - by apply agrees_value, tryenter_mem.
  - by apply agrees_proc, enter_nowrap_mem.
  - by apply agrees_proc, mutex_exit_mem.
  - exists m; split; [|done]; unfold rumpuser_mutex_owner; by rewrite (getmtx_load W f m a Hf Ha).
  - by apply agrees_value, rw_tryenter_mem.
  - destruct (rw_exit_mem W f m a fuel Hf Ha) as (m' & E & Hm'); [pose proof (queue_length W f m (rw_rwait a) Hf); lia|].
    rewrite E; by exists m'.
  - rewrite (rw_held_mem W f m lk a Hf Ha); by exists m.
  - by apply agrees_proc, rw_downgrade_mem.
  - by apply agrees_value, rw_tryupgrade_mem.
  - destruct Ha as (Hc & Ho & Hw); by apply agrees_proc, cv_wait_mem.
  - destruct Ha as (Hc & Ho & Hw & Hq); by apply agrees_proc, cv_wait_resumed_mem.
  - eexists; split; [reflexivity|]; apply (wakeup_one_mem W f m (OCv c)); [done|done|by left].
  - destruct (wakeup_all_mem W (OCv c) (cv_waiters c) (queue f (cv_waiters c)) f m fuel Hf Ha) as (m' & E & Hm');
      [by left|reflexivity|pose proof (queue_length W f m (cv_waiters c) Hf); lia|].
    unfold mem_cv_broadcast; rewrite E; exists m'; split; [done|].
    unfold rumpuser_cv_broadcast; by rewrite (wakeup_all_eq _ _ (fh_ok _ _ _ _ _ Hf)).
  - exists m; split; [|done]; unfold rumpuser_cv_has_waiters; by rewrite (getcv_load W f m c Hf Ha).
  - rewrite (curlwp_load W f m Hf); by exists m.
  - by apply agrees_proc, curlwpop_mem.
  - pose proof (dispatch_mem W f m ticks fuel Hf Hfu Ha) as Hd; destruct (sched_dispatch ticks (sc f)) as [[s' rest]|]; [|by rewrite Hd].
    destruct Hd as (m' & -> & Hm'); by exists m'.
Qed.

(** ** Creation and destruction of locks *)

Definition obase (o : obj) : Z := match o with OMtx a | ORw a | OCv a => a end.
Definition osize (o : obj) : Z := match o with OMtx _ => SIZEOF_MTX | ORw _ => SIZEOF_RW | OCv _ => SIZEOF_CV end.
(** The memory of a new lock is nobody else's. *)
Definition fresh_obj (W : gmap Z Z) (o : obj) : Prop :=
  0 < obase o /\ obase o + osize o <= 2 ^ 32 /\
  forall r, valid ts W objs r -> addr W r + 4 <= obase o \/ obase o + osize o <= addr W r.

Definition of_obj (o : obj) (r : role) : Prop :=
  match r with
  | RH wh | RL wh => wh ∈ oqueues o
  | RF o' a => o' = o /\ a ∈ ofields o
  | _ => False
  end.
Lemma valid_cons W o r : valid ts W (o :: objs) r -> valid ts W objs r \/ of_obj o r.
Proof.
  destruct r as [a|a|a|o' a|t k]; cbn [valid of_obj]; [tauto| | | |tauto]; setoid_rewrite elem_of_cons; naive_solver.
Qed.
Lemma of_obj_inside W o r : of_obj o r -> obase o <= addr W r /\ addr W r + 4 <= obase o + osize o.
Proof.
  destruct o as [a|a|a], r as [b|b|b|o' b|t k]; cbn [of_obj oqueues ofields addr obase osize]; rewrite ?elem_of_cons, ?elem_of_nil;
    unfold tqh_first, tqh_last, mtx_waiters, rw_rwait, rw_wwait, cv_waiters, SIZEOF_MTX, SIZEOF_RW, SIZEOF_CV; lia.
Qed.
Lemma of_obj_apart W o r r' : of_obj o r -> of_obj o r' -> r <> r' -> addr W r + 4 <= addr W r' \/ addr W r' + 4 <= addr W r.
Proof.
  destruct r as [b|b|b|o1 b|t k]; cbn [of_obj]; [done| | | |done];
    (destruct r' as [b'|b'|b'|o2 b'|t' k']; cbn [of_obj]; [done| | | |done]); intros Hr Hr' Hne; cbn [addr];
    try (destruct Hr as [-> Hr]); try (destruct Hr' as [-> Hr']); (assert (b <> b' \/ b = b') as Hb by lia);
    destruct o as [a|a|a]; cbn [oqueues ofields] in *; rewrite ?elem_of_cons, ?elem_of_nil in *;
    unfold tqh_first, tqh_last, mtx_waiters, rw_rwait, rw_wwait, cv_waiters in *;
    (destruct Hb as [Hb| ->]; [lia|try congruence; lia]).
Qed.
Lemma separate_cons W o : separate ts W objs -> fresh_obj W o -> separate ts W (o :: objs).
Proof.
  intros [Hr Hs] (H0 & H1 & Hfr); split.
  - intros r [Hv|Ho]%valid_cons; [by apply Hr|]; destruct (of_obj_inside W o r Ho); unfold urange; lia.
  - intros r r' [Hv|Ho]%valid_cons [Hv'|Ho']%valid_cons Hne; [by apply Hs| | |by eapply of_obj_apart].
    + destruct (of_obj_inside W o r' Ho'), (Hfr r Hv); lia.
    + destruct (of_obj_inside W o r Ho), (Hfr r' Hv'); lia.
Qed.
Lemma fresh_queue W f m o wh : fholds ts W objs f m -> fresh_obj W o -> wh ∈ oqueues o -> queue f wh = [].
Proof.
  intros Hf (_ & _ & Hfr) Hwh; destruct (queue f wh) as [|t l] eqn:E; [done|]; exfalso.
  destruct (fh_known _ _ _ _ _ Hf wh t) as (o' & Ho' & Hwh'); [rewrite E; by left|].
  assert (valid ts W objs (RH wh)) as Hv by (by exists o'); destruct (of_obj_inside W o (RH wh) Hwh), (Hfr _ Hv); lia.
Qed.
Lemma fresh_not_in W o : fresh_obj W o -> o ∉ objs.
Proof.
  intros (_ & _ & Hfr) Ho; destruct (of_obj_inside W o (RH (obase o))) as [H1 H2]; [destruct o; by left|].
  assert (valid ts W objs (RH (obase o))) as Hv by (exists o; split; [done|destruct o; by left]); destruct (Hfr _ Hv); lia.
Qed.

Lemma fholds_create W f f' m m' o :
  fholds ts W objs f m -> fresh_obj W o -> only_in m m' (obase o) (obase o + osize o) ->
  (holds m' ts (sc f) -> holds m' ts (sc f')) -> cur f' = cur f -> onlist f' = onlist f -> (forall wh, queue f' wh = queue f wh) ->
  (forall wh, wh ∈ oqueues o -> apart (cells w_entries wh []) -> tailq w_entries m' wh []) ->
  (forall o' x, o' <> o -> obj_rep x f o' -> obj_rep x f' o') -> obj_rep m' f' o -> fholds ts W (o :: objs) f' m'.
Proof.
  intros Hf Hfr Hin Hsc Ec El Eq Hnew Hoth Hrep; pose proof Hf as [Hh Hc Hs Hq Hk Hwt Hd Hok Ho].
  pose proof (separate_cons W o Hs Hfr) as Hs'; pose proof (fresh_not_in W o Hfr) as Hno.
  assert (forall r, valid ts W objs r -> rd32 m' (addr W r) = rd32 m (addr W r)) as Hsame.
  { destruct Hfr as (_ & _ & Hfr); intros r Hr; apply rd32_same; intros x Hx; apply Hin; destruct (Hfr r Hr); lia. }
  constructor.
  - apply Hsc, (holds_frame m); [|done]; intros a Ha; by apply (Hsame (RS a)).
  - by rewrite Ec.
  - done.
  - intros o' wh [->|Ho']%elem_of_cons Hwh; rewrite Eq; [|eapply queue_frame; [done..|]; intros r Hr _; by apply Hsame].
    rewrite (fresh_queue W f m o wh Hf Hfr Hwh); apply Hnew; [done|].
    change (cells w_entries wh []) with (cells w_entries wh (getw W <$> ([] : list Z))); rewrite queue_cells; apply (apart_roles ts W (o :: objs)); [done|apply qroles_NoDup, NoDup_nil_2|].
    apply qroles_valid; [exists o; split; [by left|done]|by intros t ?%elem_of_nil].
  - intros wh t; rewrite Eq; intros (o' & Ho' & Hwh)%Hk; exists o'; split; [by right|done].
  - intros t w Hw'; unfold is_onlist; rewrite El; destruct (waiter_frame W m m' t w Hw') as [-> ->]; [|by apply Hwt].
    intros k Hk'; apply Hsame; split; [by eexists|tauto].
  - intros t; by rewrite El.
  - destruct Hok as [Hn H1 H2]; split; [intros wh; rewrite Eq; apply Hn|intros wh wh' t; rewrite !Eq; apply H1|].
    intros t; rewrite El, H2; by setoid_rewrite Eq.
  - intros o' [->|Ho']%elem_of_cons; [done|]; apply Hoth; [by intros ->|]; apply (obj_frame _ m); [by apply Ho|].
    intros a Ha; by apply (Hsame (RF o' a)).
Qed.

Lemma zeroed m a n x : 0 <= n -> a <= x -> x + 4 <= a + n -> rd32 (fst (bmk_memset m a 0 n)) x = 0.
Proof. intros Hn Hx Hx'; unfold bmk_memset; cbn [fst]; unfold rd32; rewrite !memset_loop_rd8, !decide_True by lia; done. Qed.
Lemma zeroed_in m a n : 0 <= n -> only_in m (fst (bmk_memset m a 0 n)) a (a + n).
Proof. intros Hn; pose proof (memset_only_in (Z.to_nat n) m a 0) as Hm; by rewrite Z2Nat.id in Hm by done. Qed.
Lemma only_in_store m m' lo hi a v : only_in m m' lo hi -> lo <= a -> a + 4 <= hi -> only_in m (wr32 m' a v) lo hi.
Proof. intros Hm Hlo Hhi; eapply only_in_chain; [exact Hm|apply only_in_wr32|lia..]. Qed.
Ltac inits := repeat (apply only_in_store; [|unfold tqh_first, tqh_last, mtx_waiters, rw_rwait, rw_wwait, cv_waiters; cbn [obase osize];
  unfold SIZEOF_MTX, SIZEOF_RW, SIZEOF_CV; lia..]); apply zeroed_in; cbn [osize]; unfold SIZEOF_MTX, SIZEOF_RW, SIZEOF_CV; lia.

(** A heap call changes nothing the representation speaks of. *)
Lemma holds_heap m (s : sched H) h : holds m ts s -> holds m ts (set_hp h s).
Proof. by intros []; constructor. Qed.
Lemma set_queue_fresh W f m o wh (f' : fib H) : fholds ts W objs f m -> fresh_obj W o -> wh ∈ oqueues o -> (forall a, queue f' a = queue f a) ->
  forall a, queue (set_queue wh [] f') a = queue f a.
Proof.
  intros Hf Hfr Hwh Hq a; destruct (decide (a = wh)) as [->|Hne]; [|by rewrite queue_set_ne].
  by rewrite queue_set_eq, (fresh_queue W f m o wh Hf Hfr Hwh).
Qed.

Section Lifetime.
Context `{!HeapOps H}.

Lemma mutex_init_mem W f m a flags f' : fholds ts W objs f m -> rumpuser_mutex_init flags f = Ret (a, f') ->
  fresh_obj W (OMtx a) -> srange 32 flags -> fholds ts W (OMtx a :: objs) f' (mem_mutex_init a flags m).
Proof.
  intros Hf E Hfr Hfl; revert E; unfold rumpuser_mutex_init; destruct (h_xmalloc _ _) as [[p h]|]; cbn [mbind outcome_bind]; [|done].
  intros [= -> <-]; apply (fholds_create W f _ m); [done|done| |apply holds_heap|done|done| | | |].
  - unfold mem_mutex_init, TAILQ_INIT; inits.
  - eapply set_queue_fresh; [done|done|by left|done].
  - intros wh [->|?%elem_of_nil]%elem_of_cons Hap; [by apply tailq_init_ok|done].
  - intros [b|b|b] x Hne; cbn [obj_rep mtxs rws cvs set_queue set_whs put_mtx set_mtxs]; [|done|done]; rewrite lookup_insert_ne by congruence; done.
  - cbn [obj_rep mtxs set_queue set_whs put_mtx set_mtxs]; rewrite lookup_insert_eq; f_equal.
    unfold mem_mutex_init, TAILQ_INIT, load_mtx, tqh_first, tqh_last, mtx_waiters; rewrite !(rd32_wr32_ne _ (a + 4)), !(rd32_wr32_ne _ a) by lia.
    rewrite rd32_wr32_eq, !rd32_wr32_ne, !zeroed by (unfold SIZEOF_MTX; lia); rewrite sext_wrap, (sext_id 32 flags); [done|done|lia].
Qed.
Lemma rw_init_mem W f m a f' : fholds ts W objs f m -> rumpuser_rw_init f = Ret (a, f') ->
  fresh_obj W (ORw a) -> fholds ts W (ORw a :: objs) f' (mem_rw_init a m).
Proof.
  intros Hf E Hfr; revert E; unfold rumpuser_rw_init; destruct (h_xmalloc _ _) as [[p h]|]; cbn [mbind outcome_bind]; [|done].
  intros [= -> <-]; apply (fholds_create W f _ m); [done|done| |apply holds_heap|done|done| | | |].
  - unfold mem_rw_init, TAILQ_INIT; inits.
  - eapply set_queue_fresh; [done|done|right; by left|]; eapply set_queue_fresh; [done|done|by left|done].
  - intros wh; cbn [oqueues]; rewrite !elem_of_cons, elem_of_nil; intros [->|[->|[]]] Hap; [|by apply tailq_init_ok].
    apply (tailq_frame w_entries (TAILQ_INIT (rw_rwait a) (fst (bmk_memset m a 0 SIZEOF_RW)))); [|by apply tailq_init_ok].
    unfold mem_rw_init, TAILQ_INIT, cells, tqh_first, tqh_last, rw_wwait, rw_rwait; cbn [flat_map app]; intros x; rewrite !elem_of_cons, elem_of_nil.
    intros [->|[->|[]]]; by rewrite !(rd32_wr32_ne _ (a + 8 + 4)), !(rd32_wr32_ne _ (a + 8)) by lia.
  - intros [b|b|b] x Hne; cbn [obj_rep mtxs rws cvs set_queue set_whs put_rw set_rws]; [done| |done]; rewrite lookup_insert_ne by congruence; done.
  - cbn [obj_rep rws set_queue set_whs put_rw set_rws]; rewrite lookup_insert_eq; f_equal.
    unfold mem_rw_init, TAILQ_INIT, load_rw, tqh_first, tqh_last, rw_wwait, rw_rwait; rewrite !rd32_wr32_ne, !zeroed by (unfold SIZEOF_RW; lia); done.
Qed.
Lemma cv_init_mem W f m a f' : fholds ts W objs f m -> rumpuser_cv_init f = Ret (a, f') ->
  fresh_obj W (OCv a) -> fholds ts W (OCv a :: objs) f' (mem_cv_init a m).
Proof.
  intros Hf E Hfr; revert E; unfold rumpuser_cv_init; destruct (h_xmalloc _ _) as [[p h]|]; cbn [mbind outcome_bind]; [|done].
  intros [= -> <-]; apply (fholds_create W f _ m); [done|done| |apply holds_heap|done|done| | | |].
  - unfold mem_cv_init, TAILQ_INIT; inits.
  - eapply set_queue_fresh; [done|done|by left|done].
  - intros wh [->|?%elem_of_nil]%elem_of_cons Hap; [by apply tailq_init_ok|done].
  - intros [b|b|b] x Hne; cbn [obj_rep mtxs rws cvs set_queue set_whs put_cv set_cvs]; [done|done|]; rewrite lookup_insert_ne by congruence; done.
  - cbn [obj_rep cvs set_queue set_whs put_cv set_cvs]; rewrite lookup_insert_eq; f_equal.
    unfold mem_cv_init, TAILQ_INIT, load_cv, tqh_first, tqh_last, cv_waiters; rewrite !rd32_wr32_ne, !zeroed by (unfold SIZEOF_CV; lia); done.
Qed.

(** A lock nobody waits at goes; its memory is no longer spoken of. *)
Definition without (o : obj) : list obj := filter (fun o' => o' <> o) objs.
Lemma fholds_destroy W f f' m o : fholds ts W objs f m -> (forall wh, wh ∈ oqueues o -> queue f wh = []) ->
  (holds m ts (sc f) -> holds m ts (sc f')) -> cur f' = cur f -> whs f' = whs f -> onlist f' = onlist f ->
  (forall o', o' <> o -> obj_rep m f o' -> obj_rep m f' o') -> fholds ts W (without o) f' m.
Proof.
  intros [Hh Hc [Hr Hs] Hq Hk Hwt Hd Hok Ho] He Hsc Ec Ew El Hoth.
  assert (forall o', o' ∈ without o -> o' <> o /\ o' ∈ objs) as Hin by (intros o'; unfold without; by rewrite list_elem_of_filter).
  assert (forall r, valid ts W (without o) r -> valid ts W objs r) as Hv.
  { intros r; destruct r as [a|a|a|o' a|t k]; cbn [valid]; naive_solver. }
  assert (forall wh, queue f' wh = queue f wh) as Eq by (intros wh; unfold queue; by rewrite Ew).
  constructor.
  - by apply Hsc.
  - by rewrite Ec.
  - split; [intros r Hx; by apply Hr, Hv|intros r r' Hx Hx'; apply Hs; by apply Hv].
  - intros o' wh [_ Ho']%Hin Hwh; rewrite Eq; by apply (Hq o').
  - intros wh t; rewrite Eq; intros Ht; destruct (Hk wh t Ht) as (o' & Ho' & Hwh); exists o'; split; [|done].
    unfold without; apply list_elem_of_filter; split; [|done]; intros ->; rewrite (He wh Hwh) in Ht; by apply elem_of_nil in Ht.
  - intros t w Hw; unfold is_onlist; rewrite El; by apply Hwt.
  - intros t; by rewrite El.
  - destruct Hok as [Hn H1 H2]; split; [intros wh; rewrite Eq; apply Hn|intros wh wh' t; rewrite !Eq; apply H1|].
    intros t; rewrite El, H2; by setoid_rewrite Eq.
  - intros o' [Hne Ho']%Hin; apply Hoth; [done|by apply Ho].
Qed.

Lemma mutex_destroy_mem W f m a h : fholds ts W objs f m -> OMtx a ∈ objs -> h_memfree a (hp (sc f)) = Ret h ->
  match rumpuser_mutex_destroy a f with
  | Ret f' => exists m', mem_mutex_destroy a m = Ret m' /\ fholds ts W (without (OMtx a)) f' m'
  | Halt e => mem_mutex_destroy a m = Halt e
  end.
Proof.
  intros Hf Ho Hh; unfold rumpuser_mutex_destroy, mem_mutex_destroy; rewrite (getmtx_load W f m a Hf Ho); cbn [mtx_o load_mtx].
  rewrite (empty_load W f m _ (mtx_waiters a) Hf Ho) by (by left); destruct (queue f (mtx_waiters a)) as [|t l] eqn:Eq; [|done].
  destruct (rd32 m (a + 16) =? NULL); cbn [andb c_assert mbind outcome_bind]; [|done]; rewrite Hh; cbn [mbind outcome_bind].
  exists m; split; [done|]; apply (fholds_destroy W f); [done| |apply holds_heap|done|done|done|].
  - by intros wh [->|?%elem_of_nil]%elem_of_cons.
  - intros [b|b|b] Hne; cbn [obj_rep mtxs rws cvs set_sc set_mtxs]; [|done|done]; rewrite lookup_delete_ne by congruence; done.
Qed.
Lemma rw_destroy_mem W f m a h : fholds ts W objs f m -> ORw a ∈ objs -> h_memfree a (hp (sc f)) = Ret h ->
  queue f (rw_rwait a) = [] -> queue f (rw_wwait a) = [] ->
  exists f', rumpuser_rw_destroy a f = Ret f' /\ fholds ts W (without (ORw a)) f' m.
Proof.
  intros Hf Ho Hh E1 E2; unfold rumpuser_rw_destroy; rewrite Hh; cbn [mbind outcome_bind]; eexists; split; [reflexivity|].
  apply (fholds_destroy W f); [done| |apply holds_heap|done|done|done|].
  - intros wh; cbn [oqueues]; rewrite !elem_of_cons, elem_of_nil; naive_solver.
  - intros [b|b|b] Hne; cbn [obj_rep mtxs rws cvs set_sc set_rws]; [done| |done]; rewrite lookup_delete_ne by congruence; done.
Qed.
Lemma cv_destroy_mem W f m a h : fholds ts W objs f m -> OCv a ∈ objs -> h_memfree a (hp (sc f)) = Ret h -> queue f (cv_waiters a) = [] ->
  match rumpuser_cv_destroy a f with
  | Ret f' => exists m', mem_cv_destroy a m = Ret m' /\ fholds ts W (without (OCv a)) f' m'
  | Halt e => mem_cv_destroy a m = Halt e
  end.
Proof.
  intros Hf Ho Hh Eq; unfold rumpuser_cv_destroy, mem_cv_destroy; rewrite (getcv_load W f m a Hf Ho); fold (load_cv m a).
  destruct (load_cv m a =? 0); cbn [c_assert mbind outcome_bind]; [|done]; rewrite Hh; cbn [mbind outcome_bind].
  exists m; split; [done|]; apply (fholds_destroy W f); [done| |apply holds_heap|done|done|done|].
  - by intros wh [->|?%elem_of_nil]%elem_of_cons.
  - intros [b|b|b] Hne; cbn [obj_rep mtxs rws cvs set_sc set_cvs]; [done|done|]; rewrite lookup_delete_ne by congruence; done.
Qed.
End Lifetime.

(** The rest of the system stores elsewhere. *)
Lemma fholds_elsewhere W f m a v : fholds ts W objs f m ->
  (forall r, valid ts W objs r -> addr W r + 4 <= a \/ a + 4 <= addr W r) -> fholds ts W objs f (wr32 m a v).
Proof.
  intros Hf Hd; pose proof Hf as [Hh Hc Hs Hq Hk Hwt Hdm Hok Ho].
  assert (forall r, valid ts W objs r -> rd32 (wr32 m a v) (addr W r) = rd32 m (addr W r)) as Hsame
    by (intros r Hr; apply rd32_wr32_ne; destruct (Hd r Hr); lia).
  constructor; [|done|done| |done| |done|done|].
  - apply (holds_frame m); [|done]; intros x Hx; by apply (Hsame (RS x)).
  - intros o wh Hoi Hwh; eapply queue_frame; [done..|]; intros r Hr _; by apply Hsame.
  - intros t w Hw; destruct (waiter_frame W m (wr32 m a v) t w Hw) as [-> ->]; [|by apply Hwt].
    intros k Hk'; apply Hsame; split; [by eexists|tauto].
  - intros o Hoi; apply (obj_frame _ m); [by apply Ho|]; intros x Hx; by apply (Hsame (RF o x)).
Qed.
End Rep.

(** ** Traces *)

Section Traces.
Context {H : Type} `{!HeapOps H} (ts : list Z).

(** The operations on locks that exist, creation and destruction (the heap
    gives the address), and stores of the rest of the system. *)
Inductive lop :=
  | LOp (op : fop)
  | LMtxInit (a flags : Z) | LRwInit (a : Z) | LCvInit (a : Z)
  | LMtxDestroy (a : Z) | LRwDestroy (a : Z) | LCvDestroy (a : Z)
  | LStore (a v : Z).

Definition fib_lop (op : lop) (f : fib H) : result (fib H) :=
  match op with
  | LOp op => fib_op op f
  | LMtxInit _ flags => Some (rumpuser_mutex_init flags f)
  | LRwInit _ => Some (rumpuser_rw_init f)
  | LCvInit _ => Some (rumpuser_cv_init f)
  | LMtxDestroy a => proc (rumpuser_mutex_destroy a f)
  | LRwDestroy a => proc (rumpuser_rw_destroy a f)
  | LCvDestroy a => proc (rumpuser_cv_destroy a f)
  | LStore _ _ => Some (Ret (0, f))
  end.
Definition mem_lop (fuel : nat) (op : lop) (m : mem) : result mem :=
  match op with
  | LOp op => mem_op fuel op m
  | LMtxInit a flags => Some (Ret (a, mem_mutex_init a flags m))
  | LRwInit a => Some (Ret (a, mem_rw_init a m))
  | LCvInit a => Some (Ret (a, mem_cv_init a m))
  | LMtxDestroy a => proc (mem_mutex_destroy a m)
  | LRwDestroy _ => Some (Ret (0, m))
  | LCvDestroy a => proc (mem_cv_destroy a m)
  | LStore a v => Some (Ret (0, wr32 m a v))
  end.

(** The heap serves the calls, with memory that is nobody else's; a
    reader/writer lock or a condition variable is destroyed when nobody waits
    at it (its functions do not look); other stores go elsewhere. *)
Definition lallowed (W : gmap Z Z) (objs : list obj) (op : lop) (f : fib H) : Prop :=
  match op with
  | LOp op => allowed ts objs W op f
  | LMtxInit a flags => (exists f', rumpuser_mutex_init flags f = Ret (a, f')) /\ fresh_obj ts objs W (OMtx a) /\ srange 32 flags
  | LRwInit a => (exists f', rumpuser_rw_init f = Ret (a, f')) /\ fresh_obj ts objs W (ORw a)
  | LCvInit a => (exists f', rumpuser_cv_init f = Ret (a, f')) /\ fresh_obj ts objs W (OCv a)
  | LMtxDestroy a => OMtx a ∈ objs /\ exists h, h_memfree a (hp (sc f)) = Ret h
  | LRwDestroy a => ORw a ∈ objs /\ (exists h, h_memfree a (hp (sc f)) = Ret h) /\ queue f (rw_rwait a) = [] /\ queue f (rw_wwait a) = []
  | LCvDestroy a => OCv a ∈ objs /\ (exists h, h_memfree a (hp (sc f)) = Ret h) /\ queue f (cv_waiters a) = []
  | LStore a _ => forall r, valid ts W objs r -> addr W r + 4 <= a \/ a + 4 <= addr W r
  end.
(** Where the waiters are, and which locks exist, afterwards. *)
Definition lwaiters (W : gmap Z Z) (op : lop) (f : fib H) : gmap Z Z := match op with LOp op => after W op f | _ => W end.
Definition lobjs (objs : list obj) (op : lop) : list obj :=
  match op with
  | LMtxInit a _ => OMtx a :: objs
  | LRwInit a => ORw a :: objs
  | LCvInit a => OCv a :: objs
  | LMtxDestroy a => without objs (OMtx a)
  | LRwDestroy a => without objs (ORw a)
  | LCvDestroy a => without objs (OCv a)
  | _ => objs
  end.

Lemma lop_mem W objs f m op fuel : fholds ts W objs f m -> lallowed W objs op f -> (length ts <= fuel)%nat ->
  agrees ts (lobjs objs op) (lwaiters W op f) (fib_lop op f) (mem_lop fuel op m).
Proof.
  intros Hf Ha Hfu; destruct op as [op|a flags|a|a|a|a|a|a v]; cbn [lallowed lobjs lwaiters fib_lop mem_lop] in *.
  - by apply op_mem.
  - destruct Ha as ((f' & E) & Hfr & Hfl); rewrite E; eexists; split; [reflexivity|]; by eapply mutex_init_mem.
  - destruct Ha as ((f' & E) & Hfr); rewrite E; eexists; split; [reflexivity|]; by eapply rw_init_mem.
  - destruct Ha as ((f' & E) & Hfr); rewrite E; eexists; split; [reflexivity|]; by eapply cv_init_mem.
  - destruct Ha as (Ho & h & Hh); by eapply agrees_proc, mutex_destroy_mem.
  - destruct Ha as (Ho & (h & Hh) & E1 & E2); destruct (rw_destroy_mem ts objs W f m a h Hf Ho Hh E1 E2) as (f' & E & Hf').
    rewrite E; by exists m.
  - destruct Ha as (Ho & (h & Hh) & E); by eapply agrees_proc, cv_destroy_mem.
  - eexists; split; [reflexivity|]; by apply fholds_elsewhere.
Qed.

(** A sequence of operations, with the values they return. *)
Fixpoint run_ops {S} (run : lop -> S -> result S) (ops : list lop) (s : S) : option (outcome (list Z * S)) :=
  match ops with
  | [] => Some (Ret ([], s))
  | op :: ops =>
      match run op s with
      | Some (Ret (v, s)) =>
          match run_ops run ops s with
          | Some (Ret (vs, s)) => Some (Ret (v :: vs, s))
          | r => r
          end
      | Some (Halt e) => Some (Halt e)
      | None => None
      end
  end.
Fixpoint all_allowed (W : gmap Z Z) (objs : list obj) (ops : list lop) (f : fib H) : Prop :=
  match ops with
  | [] => True
  | op :: ops => lallowed W objs op f /\
      forall v f', fib_lop op f = Some (Ret (v, f')) -> all_allowed (lwaiters W op f) (lobjs objs op) ops f'
  end.

(** C3: The locks of rumpfiber.c on bytes do what Fiber says.  When memory
    holds the threads, the locks and the wait queues (linked through the
    [struct waiter]s on the stacks of the waiting threads), any sequence of
    waits, wake-ups, mutex, reader/writer lock, condition variable and lwp
    operations, thread switches, creations and destructions of locks, and
    stores of the rest of the system to other words, returns the same values
    on memory as on the lists of Fiber, stops at the same failed assertion,
    and leaves memory holding the resulting state.  The loops that wake every
    waiter and scan the run queue end within as many turns as there are
    threads. *)
Theorem locks_memory_refinement fuel ops : forall W objs f m,
  fholds ts W objs f m -> (length ts <= fuel)%nat -> all_allowed W objs ops f ->
  match run_ops fib_lop ops f with
  | Some (Ret (vs, f')) => exists m' W' objs', run_ops (mem_lop fuel) ops m = Some (Ret (vs, m')) /\ fholds ts W' objs' f' m'
  | Some (Halt e) => run_ops (mem_lop fuel) ops m = Some (Halt e)
  | None => run_ops (mem_lop fuel) ops m = None
  end.
Proof.
  induction ops as [|op ops IH]; intros W objs f m Hf Hfu Ha; cbn [run_ops]; [by exists m, W, objs|].
  destruct Ha as [Ha Hrest]; pose proof (lop_mem W objs f m op fuel Hf Ha Hfu) as Hag; unfold agrees in Hag.
  destruct (fib_lop op f) as [[[v f1]|e]|]; [|by rewrite Hag..]; destruct Hag as (m1 & -> & H1).
  specialize (IH _ _ f1 m1 H1 Hfu (Hrest v f1 eq_refl)); destruct (run_ops fib_lop ops f1) as [[[vs f2]|e]|]; [|by rewrite IH..].
  destruct IH as (m2 & W2 & objs2 & -> & H2); by exists m2, W2, objs2.
Qed.
End Traces.
End FiberMem.

(** ** A concrete run

    The two threads of SchedMem's example and a heap that hands out memory in
    order.  The second thread creates a condition variable and a mutex, takes
    the mutex and waits; the first one signals; the second one resumes. *)
Definition bump_heap : HeapOps Z := {| h_xmalloc n h := Ret (h, h + 32); h_memfree p h := Ret h; h_poke a v h := h |}.
Definition demo_lf : fib Z :=
  Fib (Sched (thr demo_ss) (threads demo_ss) [] [] (current_thread demo_ss) 0 0x5000) ∅ ∅ ∅ ∅ ∅ 0.
Definition demo_ops : list lop :=
  [LCvInit 0x5000; LMtxInit 0x5020 0; LOp (FCurlwpop RUMPUSER_LWP_SET 0x77); LOp (FTryenter 0x5020);
   LOp (FCvWait 0x6000 0x5000 0x5020 0); LOp (FSched [Tick 0 []]); LOp (FSignal 0x5000); LOp (FSched [Tick 0 []]);
   LOp (FCvResume 0x6000 0x5000 0x5020); LOp (FHasWaiters 0x5000); LOp (FOwner 0x5020)].

Lemma demo_fholds : fholds 0x1000 0x1010 0x1020 [0x2000; 0x3000] ∅ [] demo_lf demo_sm.
Proof.
  pose proof demo_holds as Hh; constructor.
  - by destruct Hh; constructor.
  - apply elem_of_cons; right; apply elem_of_cons; by left.
  - assert (forall r, valid 0x1000 0x1010 0x1020 [0x2000; 0x3000] ∅ [] r -> exists a, r = RS a /\ a ∈ footprint 0x1000 0x1010 0x1020 [0x2000; 0x3000]) as Hv.
    { intros [a|a|a|o a|t k]; cbn [valid]; [by exists a|by intros (? & ?%elem_of_nil & _)..|by intros [?%elem_of_nil _]|].
      rewrite lookup_empty; by intros [[? ?] _]. }
    destruct (h_apart _ _ _ _ _ _ Hh) as (_ & H1 & H2); rewrite Forall_forall in H2; split.
    + intros r (a & -> & Ha)%Hv; by apply H2.
    + intros r r' (a & -> & Ha)%Hv (b & -> & Hb)%Hv Hne; exact (H1 a b Ha Hb ltac:(congruence)).
  - by intros o wh ?%elem_of_nil.
  - intros wh t; unfold queue; cbn [whs demo_lf]; rewrite lookup_empty; by intros ?%elem_of_nil.
  - by intros t w; rewrite lookup_empty.
  - intros t; cbn [onlist demo_lf]; by rewrite !lookup_empty.
  - split; [intros; unfold queue; cbn [whs demo_lf]; rewrite lookup_empty; apply NoDup_nil_2| |].
    + intros wh wh' t; unfold queue; cbn [whs demo_lf]; rewrite lookup_empty; by intros ?%elem_of_nil.
    + intros t; unfold queue; cbn [whs onlist demo_lf]; setoid_rewrite lookup_empty; split; [done|by intros (? & ?%elem_of_nil)].
  - by intros o ?%elem_of_nil.
Qed.

Lemma valid_below B ts W objs r :
  Forall (fun a => a + 4 <= B) (footprint 0x1000 0x1010 0x1020 ts) -> Forall (fun o => obase o + osize o <= B) objs ->
  map_Forall (fun _ w => w + SIZEOF_WAITER <= B) W -> valid 0x1000 0x1010 0x1020 ts W objs r -> addr W r + 4 <= B.
Proof.
  rewrite !Forall_forall; intros Hs Ho Hw; destruct r as [a|a|a|o a|t k]; cbn [valid].
  - apply Hs.
  - intros (o & Hi & Hq); specialize (Ho o Hi); pose proof (of_obj_inside W o (RH a) Hq); lia.
  - intros (o & Hi & Hq); specialize (Ho o Hi); pose proof (of_obj_inside W o (RL a) Hq); lia.
  - intros (Hi & Hq); specialize (Ho o Hi); pose proof (of_obj_inside W o (RF o a) (conj eq_refl Hq)); lia.
  - intros [[w E] Hk]; specialize (Hw t w E); cbn [addr]; unfold getw, SIZEOF_WAITER in *; rewrite E; cbn; lia.
Qed.

Section Demo.
#[local] Existing Instance bump_heap.
Definition lstep (op : lop) (f : fib Z) : fib Z := match fib_lop op f with Some (Ret (_, f')) => f' | _ => f end.
Lemma allowed_step W objs op ops (f : fib Z) : lallowed 0x1000 0x1010 0x1020 [0x2000; 0x3000] W objs op f ->
  all_allowed 0x1000 0x1010 0x1020 [0x2000; 0x3000] (lwaiters W op f) (lobjs objs op) ops (lstep op f) ->
  all_allowed 0x1000 0x1010 0x1020 [0x2000; 0x3000] W objs (op :: ops) f.
Proof. intros H1 H2; split; [done|]; intros v f' E; unfold lstep in H2; by rewrite E in H2. Qed.
Lemma queued_only (f : fib Z) wh : bool_decide (map_Forall (fun a l => cur f ∈ l -> a = wh) (whs f)) = true ->
  forall a, cur f ∈ queue f a -> a = wh.
Proof.
  intros Hb%bool_decide_eq_true a; unfold queue; destruct (whs f !! a) as [l|] eqn:E; cbn; [exact (Hb a l E)|by intros ?%elem_of_nil].
Qed.
Lemma demo_footprint : Forall (fun a => a + 4 <= 0x4000) (footprint 0x1000 0x1010 0x1020 [0x2000; 0x3000]).
Proof. apply (bool_decide_unpack _); by vm_compute. Qed.
(** Addresses from [B] on are free when everything lies below [B]. *)
Lemma demo_free B n W objs : 0x4000 <= B -> Forall (fun o => obase o + osize o <= B) objs -> map_Forall (fun _ w => w + SIZEOF_WAITER <= B) W ->
  forall r, valid 0x1000 0x1010 0x1020 [0x2000; 0x3000] W objs r -> addr W r + 4 <= B \/ B + n <= addr W r.
Proof.
  intros HB Ho Hw r Hr; left; refine (valid_below B _ W objs r _ Ho Hw Hr); eapply Forall_impl; [exact demo_footprint|]; cbn; lia.
Qed.
Ltac free := (apply demo_free; [cbn [obase]; lia|repeat constructor; cbn [obase osize]; unfold SIZEOF_MTX, SIZEOF_CV; lia|apply map_Forall_empty]).

Lemma demo_allowed : all_allowed 0x1000 0x1010 0x1020 [0x2000; 0x3000] ∅ [] demo_ops demo_lf.
Proof.
  unfold demo_ops; apply allowed_step; [split; [eexists; vm_compute; reflexivity|split; [done|split; [done|free]]]|].
  apply allowed_step; [split; [eexists; vm_compute; reflexivity|split; [split; [done|split; [done|free]]|unfold srange; lia]]|].
  apply allowed_step; [cbn [lallowed allowed]; unfold urange; lia|]; cbn [lobjs lwaiters after].
  apply allowed_step; [by left|]; cbn [lobjs lwaiters after].
  apply allowed_step; [split; [right; by left|split; [by left|split; [vm_compute; reflexivity|split; [done|split; [done|free]]]]]|].
  cbn [lobjs lwaiters after].
  apply allowed_step; [repeat constructor|]; cbn [lobjs lwaiters after].
  apply allowed_step; [right; by left|]; cbn [lobjs lwaiters after].
  apply allowed_step; [repeat constructor|]; cbn [lobjs lwaiters after].
  apply allowed_step; [split; [right; by left|split; [by left|split; [vm_compute; reflexivity|apply queued_only; vm_compute; reflexivity]]]|].
  cbn [lobjs lwaiters after]; apply allowed_step; [right; by left|]; cbn [lobjs lwaiters after].
  apply allowed_step; [by left|exact I].
Qed.

(** The second thread holds the mutex again, and nobody waits. *)
Lemma demo_result : match run_ops fib_lop demo_ops demo_lf with
  | Some (Ret (vs, _)) => bool_decide (vs = [0x5000; 0x5020; 0; 0; 0; 0; 0; 0; 0; 0; 0x77])
  | _ => false
  end = true.
Proof. vm_compute; reflexivity. Qed.
Lemma locks_memory_refinement_witness : exists m' (f' : fib Z) W' objs',
  run_ops (mem_lop 0x1000 0x1020 2) demo_ops demo_sm = Some (Ret ([0x5000; 0x5020; 0; 0; 0; 0; 0; 0; 0; 0; 0x77], m')) /\
  fholds 0x1000 0x1010 0x1020 [0x2000; 0x3000] W' objs' f' m'.
Proof.
  pose proof (locks_memory_refinement 0x1000 0x1010 0x1020 [0x2000; 0x3000] 2 demo_ops ∅ [] demo_lf demo_sm demo_fholds (le_n 2) demo_allowed) as Hr.
  pose proof demo_result as Hv; revert Hr Hv; destruct (run_ops fib_lop demo_ops demo_lf) as [[[vs f']|e]|]; intros Hr Hv; [|discriminate Hv..].
  apply bool_decide_eq_true in Hv; subst vs; destruct Hr as (m' & W' & objs' & E & Hf'); exists m', f', W', objs'; exact (conj E Hf').
Defined.
End Demo.
