(* ===== verification/Console.v ===== *)
(** * Console: the text console of kernel.c

    The screen is an array of 25 rows of 80 sixteen-bit cells at 0xb8000.
    [cons_buf] maps an index of the array to its cell, so that a write
    outside of the screen would be visible as such. *)
From S2P Require Import Prelude.

Definition CONS_WIDTH : Z := 80.
Definition CONS_HEIGHT : Z := 25.
Definition CONS_MAGENTA : Z := 0x500.

(** The screen and the static variables of [bmk_cons_putc]. *)
Record cons := Cons { cons_buf : gmap Z Z; cons_x : Z; cons_y : Z }.

Definition cell (b : gmap Z Z) (i : Z) : Z := default 0 (b !! i).
Definition cons_putat (c x y : Z) (b : gmap Z Z) : gmap Z Z :=
  <[x + y * CONS_WIDTH := u16 (Z.lor CONS_MAGENTA c)]> b.

(** [for (x = 0; x < n; x++) body] *)
Fixpoint for_upto {A} (n : nat) (body : Z -> A -> A) (a : A) : A :=
  match n with O => a | S n => body (Z.of_nat n) (for_upto n body a) end.

Definition scroll (b : gmap Z Z) : gmap Z Z :=
  for_upto (Z.to_nat ((CONS_HEIGHT - 1) * CONS_WIDTH)) (fun x b => <[x := cell b (x + CONS_WIDTH)]> b) b.
Definition clear_line (y : Z) (b : gmap Z Z) : gmap Z Z :=
  for_upto (Z.to_nat CONS_WIDTH) (fun x b => cons_putat 32 x y b) b.

Definition bmk_cons_putc (c : Z) (s : cons) : cons :=
  let '(b, x, y, doclear) :=
    if c =? 10 then (cons_buf s, 0, cons_y s + 1, true)
    else if c =? 13 then (cons_buf s, 0, cons_y s, false)
    else (cons_putat c (cons_x s) (cons_y s) (cons_buf s), cons_x s + 1, cons_y s, false) in
  let '(x, y, doclear) := if x =? CONS_WIDTH then (0, y + 1, true) else (x, y, doclear) in
  let '(b, y) := if y =? CONS_HEIGHT then (scroll b, y - 1) else (b, y) in
  let b := if doclear then clear_line y b else b in
  Cons b x y.

(** The argument is the bytes before the terminating NUL. *)
Definition bmk_cons_puts (str : list Z) (s : cons) : cons := foldl (fun s c => bmk_cons_putc c s) s str.

Definition bmk_init (s : cons) : cons :=
  Cons (for_upto (Z.to_nat (CONS_HEIGHT * CONS_WIDTH))
          (fun x b => cons_putat 32 (x mod CONS_WIDTH) (x / CONS_WIDTH) b) (cons_buf s)) (cons_x s) (cons_y s).

(** ** The screen as rows *)

(** A terminal: the cell at a column and row, and the position. *)
Record term := Term { t_cell : Z -> Z -> Z; t_x : Z; t_y : Z }.

Definition blank : Z := Z.lor CONS_MAGENTA 32.
Definition on_screen (x y : Z) : Prop := 0 <= x < CONS_WIDTH /\ 0 <= y < CONS_HEIGHT.

(** What a terminal does: a new line blanks the next row, on the last row
    after all rows moved up by one. *)
Definition term_newline (f : Z -> Z -> Z) (y : Z) : term :=
  if y + 1 =? CONS_HEIGHT
  then Term (fun i j => if j =? CONS_HEIGHT - 1 then blank else f i (j + 1)) 0 y
  else Term (fun i j => if j =? y + 1 then blank else f i j) 0 (y + 1).
Definition term_putc (c : Z) (t : term) : term :=
  if c =? 10 then term_newline (t_cell t) (t_y t)
  else if c =? 13 then Term (t_cell t) 0 (t_y t)
  else
    let f := fun i j => if (i =? t_x t) && (j =? t_y t) then u16 (Z.lor CONS_MAGENTA c) else t_cell t i j in
    if t_x t + 1 =? CONS_WIDTH then term_newline f (t_y t) else Term f (t_x t + 1) (t_y t).

(** The console shows the terminal [t], and keeps to the screen: nothing
    beyond its 2000 cells has been written. *)
Definition shows (s : cons) (t : term) (b0 : gmap Z Z) : Prop :=
  cons_x s = t_x t /\ cons_y s = t_y t /\ on_screen (t_x t) (t_y t) /\
  (forall i j, on_screen i j -> cell (cons_buf s) (i + j * CONS_WIDTH) = t_cell t i j) /\
  (forall k, ~ 0 <= k < CONS_HEIGHT * CONS_WIDTH -> cons_buf s !! k = b0 !! k).

Lemma for_upto_ind {A} (P : Z -> A -> Prop) n body a :
  P 0 a -> (forall i a, 0 <= i < Z.of_nat n -> P i a -> P (i + 1) (body i a)) -> P (Z.of_nat n) (for_upto n body a).
Proof.
  intros H0; induction n as [|n IH]; intros Hs; [done|]; cbn [for_upto].
  replace (Z.of_nat (S n)) with (Z.of_nat n + 1) by lia. apply Hs; [lia|]; apply IH; intros; apply Hs; [lia|done].
Qed.

Lemma cell_insert_eq b i v : cell (<[i := v]> b) i = v.
Proof. unfold cell; by rewrite lookup_insert_eq. Qed.
Lemma cell_insert_ne b i j v : i <> j -> cell (<[i := v]> b) j = cell b j.
Proof. intros; unfold cell; by rewrite lookup_insert_ne. Qed.

Lemma clear_line_spec y b k :
  clear_line y b !! k = if decide (0 <= k - y * CONS_WIDTH < CONS_WIDTH) then Some blank else b !! k.
Proof.
  unfold clear_line.
  pose proof (for_upto_ind (fun n b' => forall k, b' !! k = if decide (0 <= k - y * CONS_WIDTH < n) then Some blank else b !! k)
    (Z.to_nat CONS_WIDTH) (fun x b => cons_putat 32 x y b) b) as Hi.
  rewrite Z2Nat.id in Hi by (unfold CONS_WIDTH; lia); apply Hi.
  - intros k'; by rewrite decide_False by lia.
  - intros i a Hr Ha k'; unfold cons_putat.
    destruct (decide (i + y * CONS_WIDTH = k')) as [<-|Hne].
    + rewrite lookup_insert_eq, decide_True by lia; done.
    + rewrite lookup_insert_ne, Ha by done; repeat case_decide; lia || done.
Qed.

Lemma scroll_spec b k :
  cell (scroll b) k = (if decide (0 <= k < (CONS_HEIGHT - 1) * CONS_WIDTH) then cell b (k + CONS_WIDTH) else cell b k) /\
  (~ 0 <= k < (CONS_HEIGHT - 1) * CONS_WIDTH -> scroll b !! k = b !! k).
Proof.
  unfold scroll.
  pose proof (for_upto_ind (fun n b' => forall k,
      cell b' k = (if decide (0 <= k < n) then cell b (k + CONS_WIDTH) else cell b k) /\ (~ 0 <= k < n -> b' !! k = b !! k))
    (Z.to_nat ((CONS_HEIGHT - 1) * CONS_WIDTH)) (fun x b => <[x := cell b (x + CONS_WIDTH)]> b) b) as Hi.
  rewrite Z2Nat.id in Hi by (unfold CONS_WIDTH, CONS_HEIGHT; lia); apply Hi.
  - intros k'; by rewrite decide_False by lia.
  - intros i a Hr Ha k'; destruct (decide (i = k')) as [<-|Hne].
    + rewrite cell_insert_eq, decide_True by lia; split; [|lia].
      destruct (Ha (i + CONS_WIDTH)) as [-> _]; rewrite decide_False; [done|unfold CONS_WIDTH; lia].
    + rewrite cell_insert_ne by done; destruct (Ha k') as [-> Hk]; split.
      * repeat case_decide; lia || done.
      * intros ?; rewrite lookup_insert_ne by done; apply Hk; lia.
Qed.

Ltac screen := unfold on_screen, CONS_WIDTH, CONS_HEIGHT in *.

(** The common end of [bmk_cons_putc] after a new line. *)
Lemma newline_shows b0 b f y :
  0 <= y < CONS_HEIGHT ->
  (forall i j, on_screen i j -> cell b (i + j * CONS_WIDTH) = f i j) ->
  (forall k, ~ 0 <= k < CONS_HEIGHT * CONS_WIDTH -> b !! k = b0 !! k) ->
  let '(b', y') := if y + 1 =? CONS_HEIGHT then (scroll b, y + 1 - 1) else (b, y + 1) in
  shows (Cons (clear_line y' b') 0 y') (term_newline f y) b0.
Proof.
  intros Hy Hf Hout.
  assert (forall y b i j, on_screen i j -> cell (clear_line y b) (i + j * CONS_WIDTH) =
    if j =? y then blank else cell b (i + j * CONS_WIDTH)) as Hcl.
  { intros y1 b1 i j Hs; unfold cell at 1; rewrite clear_line_spec; destruct (Z.eqb_spec j y1) as [->|Hne].
    - rewrite decide_True by (screen; lia); done.
    - rewrite decide_False by (screen; lia); done. }
  unfold term_newline; destruct (Z.eqb_spec (y + 1) CONS_HEIGHT) as [E|E]; unfold shows; cbn [cons_x cons_y cons_buf t_x t_y t_cell].
  - split_and!; [done|lia|screen; lia| |].
    + intros i j Hs; rewrite Hcl by done; replace (y + 1 - 1) with (CONS_HEIGHT - 1) by lia.
      destruct (Z.eqb_spec j (CONS_HEIGHT - 1)) as [Ej|Ej]; [done|].
      destruct (scroll_spec b (i + j * CONS_WIDTH)) as [-> _]; rewrite decide_True by (screen; lia).
      rewrite <- Hf by (screen; lia); f_equal; lia.
    + intros k Hk; rewrite clear_line_spec, decide_False by (screen; lia).
      destruct (scroll_spec b k) as [_ ->]; [auto|screen; lia].
  - split_and!; [done|done|screen; lia| |].
    + intros i j Hs; rewrite Hcl by done; destruct (j =? y + 1); auto.
    + intros k Hk; rewrite clear_line_spec, decide_False by (screen; lia); auto.
Qed.

Lemma putc_shows c s t b0 : shows s t b0 -> shows (bmk_cons_putc c s) (term_putc c t) b0.
Proof.
  intros (Hx & Hy & Hon & Hf & Hout); unfold bmk_cons_putc, term_putc; rewrite Hx, Hy.
  destruct (c =? 10).
  - change (0 =? CONS_WIDTH) with false; cbv iota.
    pose proof (newline_shows b0 (cons_buf s) (t_cell t) (t_y t) ltac:(apply Hon) Hf Hout) as Hn.
    by destruct (t_y t + 1 =? CONS_HEIGHT).
  - destruct (c =? 13).
    + change (0 =? CONS_WIDTH) with false; cbv iota.
      rewrite (proj2 (Z.eqb_neq (t_y t) CONS_HEIGHT)) by (destruct Hon; lia).
      split_and!; try done; destruct Hon; cbn; screen; lia.
    + set (f := fun i j => if (i =? t_x t) && (j =? t_y t) then _ else _).
      assert (forall i j, on_screen i j -> cell (cons_putat c (t_x t) (t_y t) (cons_buf s)) (i + j * CONS_WIDTH) = f i j) as Hf'.
      { intros i j Hs; unfold cons_putat, f.
        destruct (Z.eqb_spec i (t_x t)) as [->|Hi], (Z.eqb_spec j (t_y t)) as [->|Hj]; cbn [andb];
          [apply cell_insert_eq|..]; rewrite cell_insert_ne; auto; screen; lia. }
      assert (forall k, ~ 0 <= k < CONS_HEIGHT * CONS_WIDTH -> cons_putat c (t_x t) (t_y t) (cons_buf s) !! k = b0 !! k) as Hout'.
      { intros k Hk; unfold cons_putat; rewrite lookup_insert_ne; [auto|screen; lia]. }
      destruct (Z.eqb_spec (t_x t + 1) CONS_WIDTH) as [E|E].
      * pose proof (newline_shows b0 _ f (t_y t) ltac:(apply Hon) Hf' Hout') as Hn.
        by destruct (t_y t + 1 =? CONS_HEIGHT).
      * rewrite (proj2 (Z.eqb_neq (t_y t) CONS_HEIGHT)) by (destruct Hon; lia).
        split_and!; try done; destruct Hon; cbn; screen; lia.
Qed.

Lemma init_shows s : cons_x s = 0 -> cons_y s = 0 -> shows (bmk_init s) (Term (fun _ _ => blank) 0 0) (cons_buf s).
Proof.
  intros Hx Hy; unfold bmk_init, shows; cbn [cons_x cons_y cons_buf t_x t_y t_cell].
  assert (forall k, for_upto (Z.to_nat (CONS_HEIGHT * CONS_WIDTH))
    (fun x b => cons_putat 32 (x mod CONS_WIDTH) (x / CONS_WIDTH) b) (cons_buf s) !! k =
    if decide (0 <= k < CONS_HEIGHT * CONS_WIDTH) then Some blank else cons_buf s !! k) as Hb.
  { pose proof (for_upto_ind (fun n b' => forall k, b' !! k = if decide (0 <= k < n) then Some blank else cons_buf s !! k)
      (Z.to_nat (CONS_HEIGHT * CONS_WIDTH)) (fun x b => cons_putat 32 (x mod CONS_WIDTH) (x / CONS_WIDTH) b) (cons_buf s)) as Hi.
    rewrite Z2Nat.id in Hi by (screen; lia); apply Hi.
    - intros k'; by rewrite decide_False by lia.
    - intros i a Hr Ha k'; unfold cons_putat.
      replace (i mod CONS_WIDTH + i / CONS_WIDTH * CONS_WIDTH) with i
        by (rewrite (Z.div_mod i CONS_WIDTH) at 1; [lia|screen; lia]).
      destruct (decide (i = k')) as [<-|Hne]; [by rewrite lookup_insert_eq, decide_True by lia|].
      rewrite lookup_insert_ne, Ha by done; repeat case_decide; lia || done. }
  split_and!; [done|done|screen; lia| |].
  - intros i j Hs; unfold cell; rewrite Hb, decide_True by (screen; lia); done.
  - intros k Hk; by rewrite Hb, decide_False.
Qed.

(** C25: the console is a terminal.  Once [bmk_init] has cleared the screen,
    whatever is printed shows exactly as on a terminal of 25 rows of 80
    columns with line wrap, carriage return and scrolling, the position stays
    on the screen, and no memory beyond the screen is ever written. *)
Theorem console_is_terminal s strs :
  cons_x s = 0 -> cons_y s = 0 ->
  shows (foldl (fun s str => bmk_cons_puts str s) (bmk_init s) strs)
        (foldl (fun t str => foldl (fun t c => term_putc c t) t str) (Term (fun _ _ => blank) 0 0) strs) (cons_buf s).
Proof.
  intros Hx Hy; pose proof (init_shows s Hx Hy) as Hs; revert Hs.
  generalize (bmk_init s), (Term (fun _ _ => blank) 0 0), (cons_buf s); clear.
  induction strs as [|str strs IH]; intros s t b Hs; [done|]; apply IH; clear IH; unfold bmk_cons_puts.
  revert s t Hs; induction str as [|c str IH]; intros s t Hs; [done|]; by apply IH, putc_shows.
Qed.

Lemma console_is_terminal_witness :
  shows (bmk_cons_puts [104; 105; 10] (bmk_init (Cons ∅ 0 0)))
        (foldl (fun t c => term_putc c t) (Term (fun _ _ => blank) 0 0) [104; 105; 10]) ∅.
Proof. apply (console_is_terminal (Cons ∅ 0 0) [[104; 105; 10]]); reflexivity. Defined.
