(* ===== verification/Machdep.v ===== *)
(** * Machdep: processor and interrupt controller set-up (arch/i386)

    machdep.c and the inline functions of include/arch/i386/md.h.  What the
    code does to the hardware is recorded as a trace of events in program
    order; the descriptor tables are maps from index to descriptor with the
    bit fields of the source. *)
From S2P Require Import Prelude.

(** ** Hardware events and the interrupt depth *)

Inductive event :=
| Outb (port value : Z)
| Outl (port value : Z)
| Hlt
| Sti
| Cli
| Lgdt (limit base : Z)
| Lidt (limit base : Z).

Record gate_descriptor := Gate {
  gd_looffset : Z; gd_selector : Z; gd_stkcpy : Z; gd_xx : Z;
  gd_type : Z; gd_dpl : Z; gd_p : Z; gd_hioffset : Z }.

Record segment_descriptor := Segment {
  sd_lolimit : Z; sd_lobase : Z; sd_type : Z; sd_dpl : Z; sd_p : Z;
  sd_hilimit : Z; sd_xx : Z; sd_def32 : Z; sd_gran : Z; sd_hibase : Z }.

Record cpu := Cpu {
  idt : gmap Z gate_descriptor;
  gdt : gmap Z segment_descriptor;
  bmk_spldepth : Z;
  trace : list event;
}.

Definition emit (e : event) (s : cpu) : cpu := Cpu (idt s) (gdt s) (bmk_spldepth s) (trace s ++ [e]).
Definition set_depth (d : Z) (s : cpu) : cpu := Cpu (idt s) (gdt s) d (trace s).

Definition outb (port value : Z) (s : cpu) : cpu := emit (Outb (u16 port) (u8 value)) s.
Definition outl (port value : Z) (s : cpu) : cpu := emit (Outl (u16 port) (u32 value)) s.
Definition hlt (s : cpu) : cpu := emit Hlt s.

Definition splhigh (s : cpu) : cpu := set_depth (i32 (bmk_spldepth s + 1)) (emit Cli s).
Definition spl0 (s : cpu) : outcome cpu :=
  if bmk_spldepth s =? 0 then c_panic "out of interrupt depth!"
  else
    let s := set_depth (i32 (bmk_spldepth s - 1)) s in
    Ret (if bmk_spldepth s =? 0 then emit Sti s else s).

(** Whether the processor accepts interrupts: the last of [cli] and [sti]
    decides. *)
Definition irq_on (s : cpu) : bool :=
  foldl (fun on e => match e with Sti => true | Cli => false | _ => on end) false (trace s).

(** ** Descriptors *)

Definition fillgate (fn : Z) : gate_descriptor :=
  Gate (wrap 16 fn) 0x8 0 0 14 0 1 (wrap 16 (Z.shiftr fn 16)).
Definition set_gate (i fn : Z) (s : cpu) : cpu := Cpu (<[i := fillgate fn]> (idt s)) (gdt s) (bmk_spldepth s) (trace s).

Definition SDT_MEMRWA : Z := 19.
Definition SDT_MEMERA : Z := 27.
Definition fillsegment (type : Z) : segment_descriptor :=
  Segment 0xffff 0 (wrap 5 type) 0 1 0xf 0 1 1 0.
Definition set_segment (i type : Z) (s : cpu) : cpu :=
  Cpu (idt s) (<[i := fillsegment type]> (gdt s)) (bmk_spldepth s) (trace s).

(** ** The interrupt controllers and the timer *)

Definition PIC1_CMD : Z := 0x20.
Definition PIC1_DATA : Z := 0x21.
Definition PIC2_CMD : Z := 0xa0.
Definition PIC2_DATA : Z := 0xa1.
Definition ICW1_IC4 : Z := 0x01.
Definition ICW1_INIT : Z := 0x10.
Definition ICW4_8086 : Z := 0x01.

Definition mask_but (bits : Z) : Z := Z.land 0xff (Z.lnot bits).

Definition initpic (s : cpu) : cpu :=
  let s := outb PIC1_CMD (Z.lor ICW1_INIT ICW1_IC4) s in
  let s := outb PIC1_DATA 32 s in
  let s := outb PIC1_DATA (Z.shiftl 1 2) s in
  let s := outb PIC1_DATA ICW4_8086 s in
  let s := outb PIC1_DATA (mask_but (Z.shiftl 1 2)) s in
  let s := outb PIC2_CMD (Z.lor ICW1_INIT ICW1_IC4) s in
  let s := outb PIC2_DATA (32 + 8) s in
  let s := outb PIC2_DATA 2 s in
  let s := outb PIC2_DATA ICW4_8086 s in
  outb PIC2_DATA 0xff s.

Definition TIMER_CNTR : Z := 0x40.
Definition TIMER_MODE : Z := 0x43.
Definition TIMER_RATEGEN : Z := 0x04.
Definition TIMER_16BIT : Z := 0x30.
Definition TIMER_HZ : Z := 1193182.
Definition HZ : Z := 100.

(** The addresses the linker gives to the tables and the assembly stubs. *)
Record addrs := Addrs {
  a_gdt : Z; a_idt : Z; bmk_cpu_insr : Z; bmk_cpu_isr_clock : Z; bmk_cpu_isr_10 : Z; bmk_cpu_isr_11 : Z }.

(** [for (i = 0; i < n; i++) fillgate(&idt[i], fn)] *)
Fixpoint fill_gates (n : nat) (fn : Z) (s : cpu) : cpu :=
  match n with O => s | S n => set_gate (Z.of_nat n) fn (fill_gates n fn s) end.

Definition bmk_cpu_init (a : addrs) (s : cpu) : outcome cpu :=
  let s := set_segment 1 SDT_MEMERA s in
  let s := set_segment 2 SDT_MEMRWA s in
  let s := emit (Lgdt (3 * 8 - 1) (a_gdt a)) s in
  let s := emit (Lidt (256 * 8 - 1) (a_idt a)) s in
  let s := fill_gates 32 (bmk_cpu_insr a) s in
  let s := initpic s in
  let s := set_gate 32 (bmk_cpu_isr_clock a) s in
  let s := outb TIMER_MODE (Z.lor TIMER_RATEGEN TIMER_16BIT) s in
  let s := outb TIMER_CNTR (Z.land (Z.quot TIMER_HZ HZ) 0xff) s in
  let s := outb TIMER_CNTR (Z.shiftr (Z.quot TIMER_HZ HZ) 8) s in
  spl0 s.

Definition bmk_cpu_intr_init (a : addrs) (intr : Z) (s : cpu) : Z * cpu :=
  if intr <? 8 then (EGENERIC, s)
  else
    match (if intr =? 10 then Some (bmk_cpu_isr_10 a) else if intr =? 11 then Some (bmk_cpu_isr_11 a) else None) with
    | None => (EGENERIC, s)
    | Some fn =>
        let s := set_gate (32 + intr) fn s in
        (0, outb PIC2_DATA (mask_but (Z.shiftl 1 (intr - 8))) s)
    end.

Definition bmk_cpu_nanohlt (s : cpu) : cpu :=
  let s := outb PIC1_DATA (mask_but (Z.lor (Z.shiftl 1 2) (Z.shiftl 1 0))) s in
  let s := hlt s in
  outb PIC1_DATA (mask_but (Z.shiftl 1 2)) s.

(** ** Theorems *)

(** What the hardware makes of a gate: the address of the handler. *)
Definition gate_target (g : gate_descriptor) : Z := Z.lor (gd_looffset g) (Z.shiftl (gd_hioffset g) 16).
Definition gate_present (g : gate_descriptor) : bool :=
  (gd_p g =? 1) && (gd_type g =? 14) && (gd_selector g =? 0x8) && (gd_dpl g =? 0).

Lemma fillgate_target fn : urange 32 fn -> gate_target (fillgate fn) = fn /\ gate_present (fillgate fn) = true.
Proof.
  intros Hf; split; [|done]; unfold gate_target, fillgate; cbn [gd_looffset gd_hioffset].
  assert (wrap 16 (Z.shiftr fn 16) = Z.shiftr fn 16) as ->.
  { apply wrap_id; unfold urange in *; rewrite Z.shiftr_div_pow2 by lia.
    split; [apply Z.div_pos; lia|apply Z.div_lt_upper_bound; lia]. }
  apply Z.bits_inj'; intros i Hi; unfold wrap; rewrite Z.lor_spec.
  destruct (Z.lt_ge_cases i 16).
  - rewrite Z.mod_pow2_bits_low, Z.shiftl_spec_low by lia; apply orb_false_r.
  - rewrite Z.mod_pow2_bits_high, Z.shiftl_spec, Z.shiftr_spec by lia; cbn [orb]; f_equal; lia.
Qed.

Lemma fill_gates_spec n fn s i : idt (fill_gates n fn s) !! i =
  (if decide (0 <= i < Z.of_nat n) then Some (fillgate fn) else idt s !! i) /\
  gdt (fill_gates n fn s) = gdt s /\ bmk_spldepth (fill_gates n fn s) = bmk_spldepth s /\ trace (fill_gates n fn s) = trace s.
Proof.
  induction n as [|n (IH & IH2 & IH3 & IH4)]; cbn [fill_gates]; [by rewrite decide_False by lia|].
  split_and!; [|done..]; cbn [idt set_gate].
  destruct (decide (Z.of_nat n = i)) as [<-|]; [by rewrite lookup_insert_eq, decide_True by lia|].
  rewrite lookup_insert_ne, IH by done; repeat case_decide; lia || done.
Qed.

(** The last value written to a port. *)
Definition last_out (port : Z) (l : list event) : option Z :=
  foldl (fun r e => match e with Outb p v => if p =? port then Some v else r | _ => r end) None l.

(** [bmk_cpu_init] leaves the processor ready.  The first 32 vectors lead
    to the ignoring handler and vector 32 to the clock handler (each present
    gate decodes to the handler's address); code and data segments are
    present; the master interrupt controller lets only the cascade through and
    the slave nothing; interrupts are then enabled, once. *)
Theorem cpu_init_correct a s :
  bmk_spldepth s = 1 -> urange 32 (bmk_cpu_insr a) -> urange 32 (bmk_cpu_isr_clock a) ->
  exists s', bmk_cpu_init a s = Ret s' /\
    (forall i, 0 <= i <= 32 -> exists g, idt s' !! i = Some g /\ gate_present g = true /\
       gate_target g = if decide (i < 32) then bmk_cpu_insr a else bmk_cpu_isr_clock a) /\
    (forall i, ~ 0 <= i <= 32 -> idt s' !! i = idt s !! i) /\
    (exists c d, gdt s' !! 1 = Some c /\ gdt s' !! 2 = Some d /\ sd_type c = SDT_MEMERA /\ sd_type d = SDT_MEMRWA /\
       sd_p c = 1 /\ sd_p d = 1) /\
    last_out PIC1_DATA (trace s') = Some 0xfb /\ last_out PIC2_DATA (trace s') = Some 0xff /\
    bmk_spldepth s' = 0 /\ last (trace s') = Some Sti.
Proof.
  intros Hd Hi Hc.
  set (s1 := emit (Lidt (256 * 8 - 1) (a_idt a)) (emit (Lgdt (3 * 8 - 1) (a_gdt a))
               (set_segment 2 SDT_MEMRWA (set_segment 1 SDT_MEMERA s)))).
  destruct (fill_gates_spec 32 (bmk_cpu_insr a) s1 0) as (_ & Hg & Hdep & Htr).
  unfold bmk_cpu_init; fold s1.
  set (s2 := fill_gates 32 (bmk_cpu_insr a) s1) in *.
  unfold spl0; cbn [bmk_spldepth set_depth emit outb initpic set_gate]; rewrite Hdep.
  change (bmk_spldepth s1) with (bmk_spldepth s); rewrite Hd.
  change (1 =? 0) with false; change (i32 (1 - 1) =? 0) with true; cbv iota.
  eexists; split; [reflexivity|]; cbn [idt gdt trace bmk_spldepth set_depth emit outb initpic set_gate]; split_and!.
  - intros i Hr; destruct (decide (i < 32)).
    + rewrite lookup_insert_ne by lia; destruct (fill_gates_spec 32 (bmk_cpu_insr a) s1 i) as (E & _); unfold s2; rewrite E.
      rewrite decide_True by lia; eexists; split; [done|]; by destruct (fillgate_target _ Hi) as [-> ->].
    + assert (i = 32) as -> by lia; rewrite lookup_insert_eq; eexists; split; [done|].
      by destruct (fillgate_target _ Hc) as [-> ->].
  - intros i Hr; rewrite lookup_insert_ne by lia; destruct (fill_gates_spec 32 (bmk_cpu_insr a) s1 i) as (E & _).
    unfold s2; rewrite E, decide_False by lia; done.
  - rewrite Hg; eexists _, _; split_and!; [cbn; rewrite lookup_insert_ne by lia; by rewrite lookup_insert_eq|cbn; by rewrite lookup_insert_eq|done..].
  - unfold last_out; rewrite !foldl_app; reflexivity.
  - unfold last_out; rewrite !foldl_app; reflexivity.
  - done.
  - apply last_snoc.
Qed.

(** Concrete addresses of the tables and the stubs. *)
Definition demo_addrs : addrs := Addrs 0x1000 0x2000 0x100500 0x100600 0x100700 0x100800.

Lemma cpu_init_correct_witness :
  exists s', bmk_cpu_init demo_addrs (Cpu ∅ ∅ 1 []) = Ret s' /\ bmk_spldepth s' = 0 /\ last (trace s') = Some Sti.
Proof.
  destruct (cpu_init_correct demo_addrs (Cpu ∅ ∅ 1 [])) as (s' & ? & _ & _ & _ & _ & _ & ? & ?);
    [reflexivity|by vm_compute|by vm_compute|exists s'; split_and!; assumption].
Defined.

(** Is a line of the slave controller enabled after the writes [l]? *)
Definition irq_enabled (irq : Z) (l : list event) : bool :=
  match last_out PIC2_DATA l with Some v => negb (Z.testbit v (irq - 8)) | None => false end.

(** [bmk_cpu_intr_init] supports exactly the lines 10 and 11: it installs
    the handler, enables the line and returns 0; for any other line it returns
    EGENERIC and changes nothing. *)
Theorem cpu_intr_init_correct a intr s :
  urange 32 (bmk_cpu_isr_10 a) -> urange 32 (bmk_cpu_isr_11 a) ->
  let '(rv, s') := bmk_cpu_intr_init a intr s in
  (rv = 0 <-> intr = 10 \/ intr = 11) /\
  (rv = 0 -> irq_enabled intr (trace s') = true /\
     exists g, idt s' !! (32 + intr) = Some g /\ gate_present g = true /\
       gate_target g = if decide (intr = 10) then bmk_cpu_isr_10 a else bmk_cpu_isr_11 a) /\
  (rv <> 0 -> rv = EGENERIC /\ s' = s).
Proof.
  intros H10 H11; unfold bmk_cpu_intr_init; destruct (Z.ltb_spec intr 8).
  { split_and!; [unfold EGENERIC, EINVAL; lia|done|done]. }
  destruct (Z.eqb_spec intr 10) as [->|Hn10].
  { split_and!; [tauto| |done]; intros _; split.
    - unfold irq_enabled, last_out; cbn; by rewrite foldl_app.
    - cbn; rewrite lookup_insert_eq; eexists; split; [done|]; by destruct (fillgate_target _ H10) as [-> ->]. }
  destruct (Z.eqb_spec intr 11) as [->|Hn11].
  { split_and!; [tauto| |done]; intros _; split.
    - unfold irq_enabled, last_out; cbn; by rewrite foldl_app.
    - cbn; rewrite lookup_insert_eq; eexists; split; [done|]; by destruct (fillgate_target _ H11) as [-> ->]. }
  split_and!; [unfold EGENERIC, EINVAL; lia|done|done].
Qed.

Lemma cpu_intr_init_correct_witness :
  irq_enabled 11 (trace (snd (bmk_cpu_intr_init demo_addrs 11 (Cpu ∅ ∅ 0 [])))) = true.
Proof.
  pose proof (cpu_intr_init_correct demo_addrs 11 (Cpu ∅ ∅ 0 []) ltac:(by vm_compute) ltac:(by vm_compute)) as Hc.
  destruct (bmk_cpu_intr_init demo_addrs 11 (Cpu ∅ ∅ 0 [])) as [rv s']; destruct Hc as (H1 & H2 & _).
  apply H2, H1; by right.
Defined.

(** Initialising one line disables the other.  After setting up line 10
    and then line 11, line 10 is masked again (and the other way round): the
    mask is written anew instead of being kept. *)
Theorem cpu_intr_init_masks_other a i j s :
  (i = 10 /\ j = 11) \/ (i = 11 /\ j = 10) ->
  let s1 := snd (bmk_cpu_intr_init a i s) in
  let s2 := snd (bmk_cpu_intr_init a j s1) in
  irq_enabled i (trace s1) = true /\ irq_enabled i (trace s2) = false /\ irq_enabled j (trace s2) = true.
Proof.
  intros [[-> ->]|[-> ->]]; unfold irq_enabled, last_out; cbn; by rewrite !foldl_app.
Qed.

Lemma cpu_intr_init_masks_other_witness :
  irq_enabled 10 (trace (snd (bmk_cpu_intr_init demo_addrs 11 (snd (bmk_cpu_intr_init demo_addrs 10 (Cpu ∅ ∅ 0 [])))))) = false.
Proof.
  apply (cpu_intr_init_masks_other demo_addrs 10 11 (Cpu ∅ ∅ 0 [])); left; split; reflexivity.
Defined.
