(* ===== verification/Intr.v ===== *)
(** * Intr: interrupt delivery (intr.c)

    A hardware interrupt only marks its line in [isr_todo] and wakes the
    thread [isr]; the handlers run in that thread.  The handlers and the
    scheduling upcalls belong to the rump kernel: they are parameters acting
    on a state [E] of their own.  The SLIST of a line is the list of its
    [struct intrhand] in list order (see Queues.v).  The loop of the thread is
    a sequence of statements, and an interrupt can come between any two of
    them while the processor accepts interrupts. *)
From S2P Require Import Prelude Mem Pages Memalloc Heap Iface Alloc Sched SchedThms Console Machdep.

(** ** Data *)

Definition SIZEOF_INTRHAND : Z := 12.

Record intrhand := IntrHand { ih_fun : Z; ih_arg : Z }.

Record isrst (H : Type) := Isr {
  isr_ih : gmap Z (list intrhand);
  isr_todo : Z;
  isr_thread : Z;
  icpu : cpu;
  isc : sched H;
  icons : cons;
}.
Arguments Isr {_} _ _ _ _ _ _.
Arguments isr_ih {_} _.
Arguments isr_todo {_} _.
Arguments isr_thread {_} _.
Arguments icpu {_} _.
Arguments isc {_} _.
Arguments icons {_} _.

Section Intr.
Context {H : Type} `{HeapOps H}.
Implicit Types s : isrst H.

Definition set_ih (x : gmap Z (list intrhand)) s : isrst H := Isr x (isr_todo s) (isr_thread s) (icpu s) (isc s) (icons s).
Definition set_todo (x : Z) s : isrst H := Isr (isr_ih s) x (isr_thread s) (icpu s) (isc s) (icons s).
Definition set_isr_thread (x : Z) s : isrst H := Isr (isr_ih s) (isr_todo s) x (icpu s) (isc s) (icons s).
Definition set_cpu (x : cpu) s : isrst H := Isr (isr_ih s) (isr_todo s) (isr_thread s) x (isc s) (icons s).
Definition set_isc (x : sched H) s : isrst H := Isr (isr_ih s) (isr_todo s) (isr_thread s) (icpu s) x (icons s).
Definition set_icons (x : cons) s : isrst H := Isr (isr_ih s) (isr_todo s) (isr_thread s) (icpu s) (isc s) x.

Definition handlers s (line : Z) : list intrhand := default [] (isr_ih s !! line).

(** ** Raising an interrupt *)

Definition bmk_isr_clock s : isrst H := s.
Definition bmk_isr (which : Z) s : isrst H :=
  let s := set_todo (u32 (Z.lor (isr_todo s) (Z.shiftl 1 which))) s in
  set_isc (bmk_sched_wake (isr_thread s) (isc s)) s.

(** ** The thread [isr] *)

Section Deliver.
Context {E : Type}.
Variables hyp_schedule hyp_unschedule : E -> E.
Variable hyp_lwproc_newlwp : Z -> E -> E.
Variable call : Z -> Z -> E -> Z * E.

(** What [isr] does before its loop: it becomes a thread of the rump kernel. *)
Definition isr_prologue (e : E) : E := hyp_unschedule (hyp_lwproc_newlwp 0 (hyp_schedule e)).

(** A call of a handler: its line, the handler and what it returned. *)
Record icall := ICall { ic_line : Z; ic_hand : intrhand; ic_rv : Z }.

(** SLIST_FOREACH over the handlers of a line; the calls made and [rv]. *)
Fixpoint run_handlers (line : Z) (l : list intrhand) (rv : Z) (e : E) : Z * E * list icall :=
  match l with
  | [] => (rv, e, [])
  | ih :: l =>
      let '(rv, e) := call (ih_fun ih) (ih_arg ih) e in
      if negb (rv =? 0) then (rv, e, [ICall line ih rv])
      else let '(rv', e, log) := run_handlers line l rv e in (rv', e, ICall line ih rv :: log)
  end.

(** The loop over the lines [ls]. *)
Fixpoint deliver_lines (ls : list Z) (isrcopy : Z) s (rv : Z) (e : E) : Z * E * list icall :=
  match ls with
  | [] => (rv, e, [])
  | i :: ls =>
      if Z.land isrcopy (Z.shiftl 1 i) =? 0 then deliver_lines ls isrcopy s rv e
      else
        let '(rv, e, log) := run_handlers i (handlers s i) rv (hyp_schedule e) in
        let '(rv, e, log') := deliver_lines ls isrcopy s rv (hyp_unschedule e) in
        (rv, e, log ++ log')
  end.
Definition all_lines : list Z := seqZ 0 32.

(** "stray interrupt\n" *)
Definition stray : list Z :=
  [115; 116; 114; 97; 121; 32; 105; 110; 116; 101; 114; 114; 117; 112; 116; 10].
Definition isr_deliver (isrcopy : Z) s (e : E) : isrst H * E * list icall :=
  let '(rv, e, log) := deliver_lines all_lines isrcopy s 0 e in
  let s := set_cpu (outb PIC1_CMD 0x20 (outb PIC2_CMD 0x20 (icpu s))) s in
  let s := if rv =? 0 then set_icons (bmk_cons_puts stray (icons s)) s else s in
  (s, e, log).

(** The statements of the endless loop of [isr], in their order: an interrupt
    can come between any two of them. *)
Inductive istmt :=
  | ISplhigh  (** [splhigh();] *)
  | ITest     (** [if (isr_todo)] *)
  | ICopy     (** [isrcopy = isr_todo;] *)
  | IClear    (** [isr_todo = 0;] *)
  | ISpl0     (** [spl0();] *)
  | IDeliver  (** the loop over the lines, the acknowledgement, the message *)
  | IBlock    (** [bmk_sched_block(isr_thread);] *)
  | ISched.   (** [bmk_sched();] *)
Definition isr_head : list istmt := [ISplhigh; ITest].
Definition isr_then : list istmt := [ICopy; IClear; ISpl0; IDeliver].
Definition isr_else : list istmt := [IBlock; ISpl0; ISched].

(** The thread: what it has still to do of the current turn of the loop, and
    its local variable [isrcopy]; with it the state of the rump kernel. *)
Record icfg := ICfg { ig_s : isrst H; ig_copy : Z; ig_code : list istmt; ig_e : E }.

(** At the end of a turn the next one begins. *)
Definition isr_next (k : list istmt) : list istmt := match k with [] => isr_head | _ => k end.
(** The statement [i], before [k].  [ISched] is done when [bmk_sched] returns. *)
Definition isr_exec (i : istmt) (k : list istmt) (c : icfg) : outcome icfg :=
  let s := ig_s c in
  match i with
  | ISplhigh => Ret (ICfg (set_cpu (splhigh (icpu s)) s) (ig_copy c) (isr_next k) (ig_e c))
  | ITest => Ret (ICfg s (ig_copy c) (if negb (isr_todo s =? 0) then isr_then else isr_else) (ig_e c))
  | ICopy => Ret (ICfg s (isr_todo s) (isr_next k) (ig_e c))
  | IClear => Ret (ICfg (set_todo 0 s) (ig_copy c) (isr_next k) (ig_e c))
  | ISpl0 => p ← spl0 (icpu s); Ret (ICfg (set_cpu p s) (ig_copy c) (isr_next k) (ig_e c))
  | IDeliver =>
      let '(s, e, _) := isr_deliver (ig_copy c) s (ig_e c) in Ret (ICfg s (ig_copy c) (isr_next k) e)
  | IBlock => Ret (ICfg (set_isc (bmk_sched_block (isr_thread s) (isc s)) s) (ig_copy c) (isr_next k) (ig_e c))
  | ISched => Ret (ICfg s (ig_copy c) (isr_next k) (ig_e c))
  end.
End Deliver.

(** ** Registering handlers *)

(** The comparison of [intr] with a [size_t] is unsigned, so it also refuses
    a negative line. *)
Definition bmk_isr_netinit (a : addrs) (func arg intr : Z) s : outcome (Z * isrst H) :=
  if (32 <? u32 intr) || (BMK_MAXINTR <? intr) then Ret (EGENERIC, s)
  else
    '(ih, h) ← h_xmalloc SIZEOF_INTRHAND (hp (isc s));
    let s := set_isc (set_hp h (isc s)) s in
    if ih =? NULL then Ret (ENOMEM, s)
    else
      let '(error, c) := bmk_cpu_intr_init a intr (icpu s) in
      let s := set_cpu c s in
      if negb (error =? 0) then
        h ← h_memfree ih (hp (isc s));
        Ret (error, set_isc (set_hp h (isc s)) s)
      else Ret (0, set_ih (<[intr := IntrHand func arg :: handlers s intr]> (isr_ih s)) s).

(** [for (i = 0; i < BMK_MAXINTR; i++) SLIST_INIT(&isr_ih[i])] *)
Definition init_lists (m : gmap Z (list intrhand)) : gmap Z (list intrhand) :=
  foldl (fun m i => <[i := []]> m) m (seqZ 0 BMK_MAXINTR).
Definition netisr_name : list Z := [110; 101; 116; 105; 115; 114].
Definition bmk_isr_init (bouncer isr : Z) s : outcome (Z * isrst H) :=
  let s := set_ih (init_lists (isr_ih s)) s in
  '(t, x) ← bmk_sched_create bouncer netisr_name NULL 0 isr NULL NULL 0 (isc s);
  let s := set_isr_thread t (set_isc x s) in
  if t =? NULL then Ret (EGENERIC, s) else Ret (0, s).
End Intr.
Arguments icfg _ _ : clear implicits.
Arguments ICfg {_ _} _ _ _ _.
Arguments ig_s {_ _} _.
Arguments ig_copy {_ _} _.
Arguments ig_code {_ _} _.
Arguments ig_e {_ _} _.

(** ** Theorems on delivery *)

Section IntrThms.
Context {H : Type} `{HeapOps H}.
Implicit Types s : isrst H.

Section Calls.
Context {E : Type}.
Variables hyp_schedule hyp_unschedule : E -> E.
Variable call : Z -> Z -> E -> Z * E.

(** The calls of one line: its handlers in order, until one that returns
    non-zero, or all of them. *)
Definition line_log (line : Z) (l : list intrhand) (log : list icall) : Prop :=
  (ic_hand <$> log) `prefix_of` l /\ Forall (fun c => ic_line c = line) log /\
  ((Forall (fun c => ic_rv c = 0) log /\ length log = length l) \/
   (exists log0 c, log = log0 ++ [c] /\ Forall (fun c => ic_rv c = 0) log0 /\ ic_rv c <> 0)).
Definition last_rv (rv : Z) (log : list icall) : Z := default rv (ic_rv <$> last log).

Lemma last_rv_app rv l1 l2 : last_rv rv (l1 ++ l2) = last_rv (last_rv rv l1) l2.
Proof. unfold last_rv; rewrite last_app; by destruct (last l2). Qed.

Lemma run_handlers_spec line l rv e :
  let '(rv', _, log) := run_handlers call line l rv e in line_log line l log /\ rv' = last_rv rv log.
Proof.
  revert rv e; induction l as [|ih l IH]; intros rv e; cbn [run_handlers].
  - split; [|done]; split_and!; [done|constructor|by left].
  - destruct (call (ih_fun ih) (ih_arg ih) e) as [r e'].
    destruct (Z.eqb_spec r 0) as [->|Hr]; cbn [negb].
    + specialize (IH 0 e'); destruct (run_handlers call line l 0 e') as [[rv' e''] log].
      destruct IH as [(Hp & Hl & Hc) ->]; split; [|exact (eq_sym (last_rv_app rv [ICall line ih 0] log))].
      split_and!; [by apply prefix_cons|by constructor|].
      destruct Hc as [[? ?]|(log0 & c & -> & ? & ?)]; [left; split; [by constructor|cbn; lia]|right].
      exists (ICall line ih 0 :: log0), c; split_and!; [done|by constructor|done].
    + split; [|done]; split_and!; [cbn; apply prefix_cons, prefix_nil|by repeat constructor|right].
      exists [], (ICall line ih r); split_and!; [done|constructor|done].
Qed.

Definition line_served (isrcopy : Z) s (i : Z) (log : list icall) : Prop :=
  if Z.testbit isrcopy i then line_log i (handlers s i) log else log = [].

Lemma deliver_lines_spec ls isrcopy s rv e : Forall (fun i => 0 <= i) ls ->
  let '(rv', _, log) := deliver_lines hyp_schedule hyp_unschedule call ls isrcopy s rv e in
  exists logs, Forall2 (line_served isrcopy s) ls logs /\ log = concat logs /\ rv' = last_rv rv log.
Proof.
  intros Hls; revert rv e; induction Hls as [|i ls Hi Hls IH]; intros rv e; cbn [deliver_lines].
  - by exists [].
  - rewrite Z.shiftl_1_l, flag_test by done; destruct (Z.testbit isrcopy i) eqn:Eb; cbn [negb].
    + pose proof (run_handlers_spec i (handlers s i) rv (hyp_schedule e)) as Hr.
      destruct (run_handlers call i (handlers s i) rv (hyp_schedule e)) as [[rv1 e1] log]; destruct Hr as [Hl ->].
      specialize (IH (last_rv rv log) (hyp_unschedule e1)).
      destruct (deliver_lines _ _ _ ls isrcopy s _ _) as [[rv2 e2] log']; destruct IH as (logs & HF & -> & ->).
      exists (log :: logs); split_and!; [|done|by rewrite last_rv_app].
      constructor; [|done]; unfold line_served; by rewrite Eb.
    + specialize (IH rv e); destruct (deliver_lines _ _ _ ls isrcopy s rv e) as [[rv2 e2] log'].
      destruct IH as (logs & HF & -> & ->); exists ([] :: logs); split_and!; [|done|done].
      constructor; [|done]; unfold line_served; by rewrite Eb.
Qed.

(** C30: delivery serves exactly the marked lines.  In ascending order, on each
    marked line the registered handlers are called from the newest on until
    one claims the interrupt (or all of them), and no handler of another line
    is called; then both interrupt controllers are acknowledged, and the
    console gets a message exactly if the very last call (of whatever line)
    returned 0 or nothing was called. *)
Theorem isr_deliver_correct isrcopy s e :
  let '(s', _, log) := isr_deliver hyp_schedule hyp_unschedule call isrcopy s e in
  exists logs, Forall2 (line_served isrcopy s) all_lines logs /\ log = concat logs /\
    trace (icpu s') = trace (icpu s) ++ [Outb PIC2_CMD 0x20; Outb PIC1_CMD 0x20] /\
    isr_todo s' = isr_todo s /\ isc s' = isc s /\
    icons s' = (if last_rv 0 log =? 0 then bmk_cons_puts stray (icons s) else icons s).
Proof.
  unfold isr_deliver; pose proof (deliver_lines_spec all_lines isrcopy s 0 e) as Hd.
  destruct (deliver_lines _ _ _ all_lines isrcopy s 0 e) as [[rv e'] log].
  destruct Hd as (logs & HF & -> & ->); [apply (bool_decide_unpack _); vm_compute; exact I|].
  exists logs; destruct (Z.eqb_spec (last_rv 0 (concat logs)) 0) as [E0|E0]; cbn [icpu icons isr_todo isc set_cpu set_icons];
    (split_and!; [done|done|unfold outb, emit; cbn [trace]; by rewrite <- app_assoc|done|done|done]).
Qed.
End Calls.

(** ** No interrupt is lost *)

(** The rump kernel is entered and left in pairs.  [depth] is how often the
    delivery thread is inside: [hyp_schedule] enters, [hyp_unschedule] leaves,
    and a handler that is called inside returns inside.  Then every handler is
    called inside, and the thread is outside before the loop of [isr] and
    after every delivery, whichever handlers ran. *)
Section Inside.
Context {E : Type} (up down : E -> E) (newlwp : Z -> E -> E) (call : Z -> Z -> E -> Z * E) (depth : E -> Z).
Hypothesis Hup : forall e, depth (up e) = depth e + 1.
Hypothesis Hdown : forall e, depth (down e) = depth e - 1.
Hypothesis Hnew : forall l e, depth e = 1 -> depth (newlwp l e) = 1.
Hypothesis Hcall : forall f a e, depth e = 1 -> depth (snd (call f a e)) = 1.

Lemma run_handlers_inside line l : forall rv e, depth e = 1 -> depth (run_handlers call line l rv e).1.2 = 1.
Proof.
  induction l as [|ih l IH]; intros rv e He; cbn [run_handlers]; [done|].
  pose proof (Hcall (ih_fun ih) (ih_arg ih) e He) as Hc; destruct (call _ _ e) as [rv1 e1]; cbn [snd] in Hc.
  destruct (negb (rv1 =? 0)); [done|]; specialize (IH rv1 e1 Hc); by destruct (run_handlers _ _ _ _ _) as [[? ?] ?].
Qed.
Lemma deliver_lines_outside ls isrcopy s : forall rv e, depth e = 0 -> depth (deliver_lines up down call ls isrcopy s rv e).1.2 = 0.
Proof.
  induction ls as [|i ls IH]; intros rv e He; cbn [deliver_lines]; [done|]; destruct (Z.land _ _ =? 0); [by apply IH|].
  pose proof (run_handlers_inside i (handlers s i) rv (up e) ltac:(rewrite Hup; lia)) as Hr.
  destruct (run_handlers _ _ _ _ _) as [[rv1 e1] log]; cbn in Hr; specialize (IH rv1 (down e1) ltac:(rewrite Hdown; lia)).
  by destruct (deliver_lines _ _ _ _ _ _ _ _) as [[? ?] ?].
Qed.
Theorem isr_outside e : depth e = 0 ->
  depth (isr_prologue up down newlwp e) = 0 /\
  forall isrcopy s, depth (isr_deliver up down call isrcopy s e).1.2 = 0.
Proof.
  intros He; split.
  - unfold isr_prologue; rewrite Hdown, Hnew; [lia|rewrite Hup; lia].
  - intros isrcopy s; unfold isr_deliver; pose proof (deliver_lines_outside all_lines isrcopy s 0 e He) as Hd.
    by destruct (deliver_lines _ _ _ _ _ _ _ _) as [[? ?] ?].
Qed.
End Inside.

Definition isr_runs s : bool := is_runnable (getthr (thr (isc s)) (isr_thread s)).

(** The statements of the thread [isr], the interrupts, and the rest of the
    system.  An interrupt comes whenever the processor accepts one.  Other
    threads run while [isr] is in [bmk_sched], or in a handler that blocks;
    they do not touch [isr_todo], leave the interrupt depth as they found it
    and do not stop the parked thread.  Delivery neither reads nor writes what
    an interrupt changes, so that an interrupt during it is one after it. *)
Section Lost.
Context {E : Type}.
Variables hyp_schedule hyp_unschedule : E -> E.
Variable call : Z -> Z -> E -> Z * E.
Local Abbreviation exec := (isr_exec hyp_schedule hyp_unschedule call).
Implicit Types c : icfg H E.

Inductive ilabel := Raise (which : Z) | Served (isrcopy : Z) | Step | Other.
Definition ilab (i : istmt) c : ilabel := match i with IDeliver => Served (ig_copy c) | _ => Step end.

Inductive istep : icfg H E -> ilabel -> icfg H E -> Prop :=
| is_raise c w : 0 <= w < 32 -> irq_on (icpu (ig_s c)) = true ->
    istep c (Raise w) (ICfg (bmk_isr w (ig_s c)) (ig_copy c) (ig_code c) (ig_e c))
| is_own c i k c' : ig_code c = i :: k -> (i = ISched -> isr_runs (ig_s c) = true) -> exec i k c = Ret c' -> istep c (ilab i c) c'
| is_other c i k s' e' :
    ig_code c = i :: k -> i = IDeliver \/ i = ISched ->
    isr_todo s' = isr_todo (ig_s c) -> bmk_spldepth (icpu s') = bmk_spldepth (icpu (ig_s c)) -> isr_thread s' = isr_thread (ig_s c) ->
    (is_Some (thr (isc (ig_s c)) !! isr_thread (ig_s c)) -> is_Some (thr (isc s') !! isr_thread (ig_s c))) ->
    (i = ISched -> isr_runs (ig_s c) = true -> isr_runs s' = true) ->
    istep c Other (ICfg s' (ig_copy c) (ig_code c) e').

Inductive iruns : icfg H E -> list ilabel -> icfg H E -> Prop :=
| ir_nil c : iruns c [] c
| ir_snoc c ls c1 lab c2 : iruns c ls c1 -> istep c1 lab c2 -> iruns c (ls ++ [lab]) c2.

(** The invariant: what holds before each statement. *)
Definition masked s : Prop := bmk_spldepth (icpu s) = 1 /\ irq_on (icpu s) = false.
Inductive isr_point s (copy : Z) : list istmt -> Prop :=
| at_splhigh : bmk_spldepth (icpu s) = 0 -> isr_point s copy [ISplhigh; ITest]
| at_test : masked s -> isr_point s copy [ITest]
| at_copy : masked s -> isr_point s copy [ICopy; IClear; ISpl0; IDeliver]
| at_clear : masked s -> copy = isr_todo s -> isr_point s copy [IClear; ISpl0; IDeliver]
| at_taken : masked s -> isr_todo s = 0 -> isr_point s copy [ISpl0; IDeliver]
| at_deliver : bmk_spldepth (icpu s) = 0 -> isr_point s copy [IDeliver]
| at_block : masked s -> isr_todo s = 0 -> isr_point s copy [IBlock; ISpl0; ISched]
| at_blocked : masked s -> isr_todo s = 0 -> isr_point s copy [ISpl0; ISched]
| at_sched : bmk_spldepth (icpu s) = 0 -> (isr_todo s <> 0 -> isr_runs s = true) -> isr_point s copy [ISched].
Record isr_inv c : Prop := {
  ii_thread : is_Some (thr (isc (ig_s c)) !! isr_thread (ig_s c));
  ii_todo : urange 32 (isr_todo (ig_s c));
  ii_point : isr_point (ig_s c) (ig_copy c) (ig_code c);
}.

(** A line is pending: marked, or among those taken and not yet delivered. *)
Definition pending c (w : Z) : Prop :=
  Z.testbit (isr_todo (ig_s c)) w = true \/
  (Z.testbit (ig_copy c) w = true /\ (ig_code c = [ISpl0; IDeliver] \/ ig_code c = [IDeliver])).
(** How many statements of the thread until the handlers of a pending line
    have run. *)
Definition isr_left c (w : Z) : nat :=
  match ig_code c with
  | ISplhigh :: _ => 6
  | ITest :: _ => 5
  | ICopy :: _ => 4
  | IClear :: _ => 3
  | ISpl0 :: _ => 2
  | IDeliver :: _ => if Z.testbit (ig_copy c) w then 1 else 7
  | _ => 7
  end.
Definition is_own_label (lab : ilabel) : bool := match lab with Step | Served _ => true | _ => false end.
Definition owns (ls : list ilabel) : nat := length (filter is_own_label ls).

Lemma bmk_isr_todo w s : urange 32 (isr_todo s) -> 0 <= w < 32 ->
  isr_todo (bmk_isr w s) = Z.lor (isr_todo s) (2 ^ w) /\ urange 32 (isr_todo (bmk_isr w s)).
Proof.
  intros Ht Hw; cbn [bmk_isr isr_todo set_isc set_todo]; rewrite Z.shiftl_1_l.
  assert (urange 32 (Z.lor (isr_todo s) (2 ^ w))) as Hr.
  { unfold urange in *; split; [apply Z.lor_nonneg; split; [lia|apply Z.pow_nonneg; lia]|].
    assert (0 < 2 ^ w) by (apply Z.pow_pos_nonneg; lia).
    destruct (Z.eq_dec (isr_todo s) 0) as [->|]; [rewrite Z.lor_0_l; apply Z.pow_lt_mono_r; lia|].
    apply Z.log2_lt_pow2; [|rewrite Z.log2_lor by lia; rewrite Z.log2_pow2 by lia].
    - apply Z.le_neq; split; [apply Z.lor_nonneg; lia|]; intros Eq; symmetry in Eq; apply Z.lor_eq_0_iff in Eq; lia.
    - assert (Z.log2 (isr_todo s) < 32) by (apply Z.log2_lt_pow2; lia); lia. }
  rewrite wrap_id by done; done.
Qed.
Lemma bmk_isr_runs w s : is_Some (thr (isc s) !! isr_thread s) -> isr_runs (bmk_isr w s) = true.
Proof. intros Ht; unfold isr_runs; cbn; rewrite getthr_alter_eq by done; apply set_runnable_runnable. Qed.

Lemma isr_deliver_frame k s e s' e' log : isr_deliver hyp_schedule hyp_unschedule call k s e = (s', e', log) ->
  isr_todo s' = isr_todo s /\ isr_thread s' = isr_thread s /\ isc s' = isc s /\
  bmk_spldepth (icpu s') = bmk_spldepth (icpu s).
Proof.
  unfold isr_deliver; destruct (deliver_lines _ _ _ _ _ _ _ _) as [[rv e1] l1]; intros Heq.
  apply (f_equal (fun x => fst (fst x))) in Heq; cbn [fst] in Heq; rewrite <- Heq; destruct (rv =? 0);
    cbn [icpu icons isr_todo isr_thread isc set_cpu set_icons]; split_and!; reflexivity.
Qed.

(** Interrupts are off from [splhigh] to [spl0], and on after it. *)
Lemma splhigh_masked s : bmk_spldepth (icpu s) = 0 -> masked (set_cpu (splhigh (icpu s)) s).
Proof.
  intros Hd; unfold masked, splhigh, irq_on; cbn [icpu set_cpu bmk_spldepth set_depth emit trace]; rewrite Hd, foldl_app; by split.
Qed.
Lemma spl0_masked s : masked s -> exists p, spl0 (icpu s) = Ret p /\ bmk_spldepth p = 0 /\ irq_on p = true.
Proof.
  intros [Hd _]; unfold spl0; rewrite Hd; cbn [Z.eqb bmk_spldepth set_depth]; change (i32 (1 - 1)) with 0; cbn [Z.eqb].
  eexists; split; [reflexivity|]; split; [done|]; unfold irq_on; cbn [trace emit set_depth]; by rewrite foldl_app.
Qed.

Lemma exec_deliver s copy code e k s' e' log : isr_deliver hyp_schedule hyp_unschedule call copy s e = (s', e', log) ->
  exec IDeliver k (ICfg s copy code e) = Ret (ICfg s' copy (isr_next k) e').
Proof. intros Ed; unfold isr_exec; cbn [ig_s ig_copy ig_e]; by rewrite Ed. Qed.

(** Every statement can be executed, and leads to the next point. *)
Lemma exec_point c : isr_inv c -> exists i k c', ig_code c = i :: k /\ exec i k c = Ret c' /\ isr_inv c'.
Proof.
  intros [Ht Hu Hp]; destruct c as [s copy code e]; cbn [ig_s ig_copy ig_code] in *; destruct Hp as [Hd|Hm|Hm|Hm Hc|Hm Hz|Hd|Hm Hz|Hm Hz|Hd Hr];
    eexists _, _; cbn [isr_exec ig_s ig_copy ig_e isr_next].
  - eexists; split_and!; [reflexivity..|]; constructor; [done|done|]; apply at_test, splhigh_masked, Hd.
  - eexists; split_and!; [reflexivity..|]; constructor; [done|done|]; cbn [ig_s ig_code].
    destruct (Z.eqb_spec (isr_todo s) 0); [by apply at_block|by apply at_copy].
  - eexists; split_and!; [reflexivity..|]; constructor; [done|done|by apply at_clear].
  - eexists; split_and!; [reflexivity..|]; constructor; [done|by vm_compute|by apply at_taken].
  - destruct (spl0_masked s Hm) as (p & Ep & Hd & _).
    eexists; split_and!; [reflexivity|cbn [isr_exec ig_s]; rewrite Ep; reflexivity|]; constructor; [done|done|by apply at_deliver].
  - destruct (isr_deliver hyp_schedule hyp_unschedule call copy s e) as [[s' e'] log] eqn:Ed; destruct (isr_deliver_frame _ _ _ _ _ _ Ed) as (F1 & F2 & F3 & F4).
    eexists; split_and!; [reflexivity|exact (exec_deliver _ _ _ _ _ _ _ _ Ed)|]; constructor; cbn [ig_s ig_code]; rewrite ?F1, ?F2, ?F3; [done|done|].
    apply at_splhigh; by rewrite F4.
  - eexists; split_and!; [reflexivity..|]; constructor; [by apply lookup_alter_is_Some|done|by apply at_blocked].
  - destruct (spl0_masked s Hm) as (p & Ep & Hd & _).
    eexists; split_and!; [reflexivity|cbn [isr_exec ig_s]; rewrite Ep; reflexivity|]; constructor; [done|done|]; apply at_sched; [done|]; intros Hne; by destruct Hne.
  - eexists; split_and!; [reflexivity..|]; constructor; [done|done|by apply at_splhigh].
Qed.

Lemma isr_inv_step c lab c' : isr_inv c -> istep c lab c' -> isr_inv c'.
Proof.
  intros Hi Hst; destruct Hst as [c w Hw Hon|c i k c' Hc _ Hx|c i k s' e' Hc Hk E1 E2 E3 E4 E5].
  - destruct Hi as [Ht Hu Hp]; destruct (bmk_isr_todo w (ig_s c) Hu Hw) as [_ Hu']; constructor; cbn [ig_s ig_code ig_copy]; [by apply lookup_alter_is_Some|done|].
    pose proof (bmk_isr_runs w (ig_s c) Ht) as Hr.
    destruct Hp as [Hd|[_ Hm]|[_ Hm]|[_ Hm] _|[_ Hm] _|Hd|[_ Hm] _|[_ Hm] _|Hd _]; try congruence.
    + by apply at_splhigh.
    + by apply at_deliver.
    + by apply at_sched.
  - destruct (exec_point c Hi) as (i' & k' & c2 & Hc2 & Hx2 & Hi2); rewrite Hc in Hc2; injection Hc2 as <- <-.
    rewrite Hx in Hx2; by injection Hx2 as ->.
  - destruct Hi as [Ht Hu Hp]; rewrite Hc in Hp; constructor; cbn [ig_s ig_code ig_copy]; rewrite ?E1, ?E3; [by apply E4|done|].
    rewrite Hc; destruct Hk as [-> | ->]; inversion Hp; subst; [apply at_deliver; congruence|apply at_sched; [congruence|]].
    rewrite E1; intros Hne; by apply E5; [|auto].
Qed.

Lemma ret_inj {A} (x y : A) : Ret x = Ret y -> x = y.
Proof. by intros [= ->]. Qed.
Lemma pending_own c w c' i k : isr_inv c -> ig_code c = i :: k -> exec i k c = Ret c' -> pending c w ->
  (pending c' w /\ (isr_left c' w < isr_left c w)%nat) \/ (ilab i c = Served (ig_copy c) /\ Z.testbit (ig_copy c) w = true).
Proof.
  intros [Ht Hu Hp] Hc Hx Hw; destruct c as [s copy code e]; unfold pending, isr_left in *; cbn [ig_s ig_copy ig_code] in *.
  destruct Hp as [Hd|Hm|Hm|Hm E1|Hm Hz|Hd|Hm Hz|Hm Hz|Hd Hr]; injection Hc as <- <-;
    (destruct Hw as [Hw|[Hw Hc]]; [try (rewrite Hz, Z.bits_0 in Hw; discriminate Hw)|try (by destruct Hc)]).
  - apply ret_inj in Hx; subst c'; left; split; [by left|cbn; lia].
  - apply ret_inj in Hx; subst c'; left; cbn [ig_s ig_copy ig_code].
    destruct (Z.eqb_spec (isr_todo s) 0) as [E0|]; [rewrite E0, Z.bits_0 in Hw; discriminate Hw|]; split; [by left|cbn; lia].
  - apply ret_inj in Hx; subst c'; left; split; [by left|cbn; lia].
  - apply ret_inj in Hx; subst c'; left; split; [right; split; [by rewrite E1|by left]|cbn; lia].
  - destruct (spl0_masked s Hm) as (p & Ep & _); cbn [isr_exec ig_s] in Hx; rewrite Ep in Hx; apply ret_inj in Hx; subst c'; left; cbn [ig_s ig_copy ig_code isr_next]; rewrite Hw.
    split; [right; split; [done|by right]|lia].
  - destruct (isr_deliver hyp_schedule hyp_unschedule call copy s e) as [[s' e'] log] eqn:Ed; destruct (isr_deliver_frame _ _ _ _ _ _ Ed) as (F1 & _).
    rewrite (exec_deliver _ _ _ _ _ _ _ _ Ed) in Hx; clear Ed.
    apply ret_inj in Hx; subst c'; destruct (Z.testbit copy w) eqn:Eb; [by right|left]; cbn [ig_s ig_copy ig_code]; rewrite F1; split; [by left|cbn; lia].
  - by right.
  - apply ret_inj in Hx; subst c'; left; split; [by left|cbn; lia].
Qed.

Lemma pending_step c lab c' w : isr_inv c -> 0 <= w < 32 -> istep c lab c' -> pending c w ->
  (pending c' w /\ (owns [lab] + isr_left c' w <= isr_left c w)%nat) \/ exists k, lab = Served k /\ Z.testbit k w = true.
Proof.
  intros Hi Hw Hst Hp; destruct Hst as [c v Hv Hon|c i k c' Hc _ Hx|c i k s' e' Hc Hk E1 E2 E3 E4 E5].
  - left; split; [|exact (le_n _)]; destruct Hp as [Hp|Hp]; [left|by right]; cbn [ig_s].
    destruct (bmk_isr_todo v (ig_s c) (ii_todo _ Hi) Hv) as [-> _]; by rewrite Z.lor_spec, Hp.
  - destruct (pending_own c w c' i k Hi Hc Hx Hp) as [[Hp' Hl]|[El Hb]]; [left; split; [done|]|right; by eexists].
    assert (owns [ilab i c] = 1%nat) by (by destruct i); lia.
  - left; split; [|exact (le_n _)]; unfold pending in *; cbn [ig_s ig_copy ig_code]; by rewrite E1.
Qed.

Lemma isr_inv_runs c ls c' : iruns c ls c' -> isr_inv c -> isr_inv c'.
Proof. induction 1; eauto using isr_inv_step. Qed.
Lemma isr_left_bound c w : (isr_left c w <= 7)%nat.
Proof. unfold isr_left; destruct (ig_code c) as [|[] ?]; try destruct (Z.testbit _ _); lia. Qed.

End Lost.
End IntrThms.

(** ** Registering a handler *)

Section Netinit.
Context {H : Type} `{HeapLaws H}.
Implicit Types s : isrst H.

Lemma netinit_bounds intr : (intr = 10 \/ intr = 11) -> (32 <? u32 intr) || (BMK_MAXINTR <? intr) = false.
Proof. by intros [-> | ->]. Qed.

(** C40: [bmk_isr_netinit] accepts exactly the lines the machine can deliver,
    10 and 11 (although its own bound lets line 32 pass): then the handler is
    the newest of its line and holds one allocation.  For any other line it
    returns EGENERIC, registers nothing and holds no memory.  The only way it
    does not return is to run out of memory. *)
Theorem isr_netinit_correct a func arg intr s L :
  h_inv (hp (isc s)) L -> h_serves SIZEOF_INTRHAND (hp (isc s)) ->
  match bmk_isr_netinit a func arg intr s with
  | Ret (rv, s') =>
      (rv = 0 <-> intr = 10 \/ intr = 11) /\
      (rv = 0 -> handlers s' intr = IntrHand func arg :: handlers s intr /\
         (forall j, j <> intr -> handlers s' j = handlers s j) /\
         exists p, L !! p = None /\ h_inv (hp (isc s')) (<[p := SIZEOF_INTRHAND]> L)) /\
      (rv <> 0 -> rv = EGENERIC /\ isr_ih s' = isr_ih s /\ h_inv (hp (isc s')) L)
  | Halt _ => exists msg, h_xmalloc SIZEOF_INTRHAND (hp (isc s)) = Halt msg
  end.
Proof.
  intros Hi Hs; unfold bmk_isr_netinit.
  destruct ((32 <? u32 intr) || (BMK_MAXINTR <? intr)) eqn:Eb.
  { split_and!; [|done|done]; split; [done|]; intros Hx; by rewrite netinit_bounds in Eb. }
  destruct (h_xmalloc SIZEOF_INTRHAND (hp (isc s))) as [[p h]|msg] eqn:E1; cbn [mbind outcome_bind]; [|eauto].
  pose proof (h_xmalloc_spec SIZEOF_INTRHAND _ _ _ _ Hi ltac:(unfold SIZEOF_INTRHAND; lia) Hs E1) as (Hp & _ & _ & HL & Hi1 & _ & _).
  rewrite (proj2 (Z.eqb_neq _ _) Hp); cbn [icpu set_isc].
  unfold bmk_cpu_intr_init.
  assert (forall x : isrst H, exists h', h_memfree p h = Ret h' /\ h_inv h' L) as Hfree.
  { intros _; destruct (h_memfree_spec _ _ p Hi1) as (h' & Hf & Hi' & _); [rewrite lookup_insert_eq; by eexists|].
    exists h'; split; [done|]; by rewrite delete_insert_id in Hi'. }
  destruct (Hfree s) as (h' & Hf & Hi').
  assert (forall j x, handlers (set_ih (<[intr := x]> (isr_ih s)) s) j = if decide (intr = j) then x else handlers s j) as Hh.
  { intros j x; unfold handlers; cbn; case_decide; subst; [by rewrite lookup_insert_eq|by rewrite lookup_insert_ne]. }
  destruct (intr <? 8) eqn:E8; [|destruct (Z.eqb_spec intr 10) as [E10|E10]; [|destruct (Z.eqb_spec intr 11) as [E11|E11]]];
    cbn [negb Z.eqb EGENERIC EINVAL hp isc set_cpu set_isc set_hp]; rewrite ?Hf; cbn [mbind outcome_bind].
  - apply Z.ltb_lt in E8; split_and!; [unfold EGENERIC, EINVAL; split; lia|done|done].
  - split_and!; [tauto| |done]; intros _; split_and!; [|intros j Hj|by exists p].
    + etransitivity; [apply Hh|by rewrite decide_True].
    + etransitivity; [apply Hh|by rewrite decide_False].
  - split_and!; [tauto| |done]; intros _; split_and!; [|intros j Hj|by exists p].
    + etransitivity; [apply Hh|by rewrite decide_True].
    + etransitivity; [apply Hh|by rewrite decide_False].
  - split_and!; [unfold EGENERIC, EINVAL; split; lia|done|done].
Qed.
End Netinit.

(** ** A concrete state: [netisr] is the thread of [demo_sch1]. *)

Definition demo_isr : isrst mstate := Isr ∅ 0 demo_t (Cpu ∅ ∅ 0 [Sti]) demo_sch1 (Cons ∅ 0 0).
Definition demo_up (e : Z) : Z := e + 1.
Definition demo_down (e : Z) : Z := e - 1.
Definition demo_call (f a e : Z) : Z * Z := (1, e).
Definition demo_ic (s : isrst mstate) (k : list istmt) : icfg mstate Z := ICfg s 0 k 0.

Lemma demo_isr_inv : isr_inv (demo_ic demo_isr isr_head).
Proof. split; [vm_compute; eauto|by vm_compute|by apply at_splhigh]. Qed.

(** The thread finds nothing to do and blocks; before it has called
    [bmk_sched], interrupt 10 arrives: it runs again. *)
Definition demo_step (c : icfg mstate Z) : icfg mstate Z :=
  match ig_code c with
  | i :: k => match isr_exec demo_up demo_down demo_call i k c with Ret c' => c' | Halt _ => c end
  | [] => c
  end.
Definition demo_parked : icfg mstate Z := demo_step (demo_step (demo_step (demo_step (demo_ic demo_isr isr_head)))).
Definition demo_raised : icfg mstate Z := ICfg (bmk_isr 10 (ig_s demo_parked)) (ig_copy demo_parked) (ig_code demo_parked) (ig_e demo_parked).
Lemma demo_own c i k : ig_code c = i :: k -> i <> ISched ->
  match isr_exec demo_up demo_down demo_call i k c with Ret _ => true | Halt _ => false end = true ->
  istep demo_up demo_down demo_call c (ilab i c) (demo_step c).
Proof.
  intros Ec Hi Hx; apply (is_own _ _ _ c i k); [done|done|]; unfold demo_step; rewrite Ec.
  by destruct (isr_exec demo_up demo_down demo_call i k c).
Qed.
Lemma demo_parked_run : iruns demo_up demo_down demo_call (demo_ic demo_isr isr_head) ([Step; Step; Step; Step] ++ [Raise 10]) demo_raised.
Proof.
  eapply ir_snoc; [|apply is_raise; [lia|vm_compute; reflexivity]]; change [Step; Step; Step; Step] with (((([] ++ [Step]) ++ [Step]) ++ [Step]) ++ [Step]).
  unfold demo_parked; eapply ir_snoc; [eapply ir_snoc; [eapply ir_snoc; [eapply ir_snoc; [apply ir_nil|]|]|]|].
  - apply (demo_own _ ISplhigh [ITest]); [vm_compute; reflexivity|discriminate|vm_compute; reflexivity].
  - apply (demo_own _ ITest []); [vm_compute; reflexivity|discriminate|vm_compute; reflexivity].
  - apply (demo_own _ IBlock [ISpl0; ISched]); [vm_compute; reflexivity|discriminate|vm_compute; reflexivity].
  - apply (demo_own _ ISpl0 [ISched]); [vm_compute; reflexivity|discriminate|vm_compute; reflexivity].
Qed.

Lemma isr_netinit_correct_witness :
  exists s', bmk_isr_netinit demo_addrs 0x5000 0 10 demo_isr = Ret (0, s') /\ handlers s' 10 = [IntrHand 0x5000 0].
Proof.
  assert (h_inv (hp (isc demo_isr)) demo_L) as Hi.
  { apply (si_heap demo_init (demo_sch1, demo_L)).
    apply (sched_inv_runs demo_init (bmk_sched_init demo_init demo_s, ∅) [LCreate demo_t]).
    - eapply sr_cons; [|constructor].
      eapply (st_create _ demo_sch0 ∅ 0x100500 [97] 0 0 0x100600 7 0 0);
        [constructor|exact demo_served|by intros []|vm_compute; reflexivity].
    - apply sched_inv_boot; [exact demo_inv0|by vm_compute]. }
  assert (h_serves SIZEOF_INTRHAND (hp (isc demo_isr))) as Hs
    by (change (request_fits SIZEOF_INTRHAND 0 (hp demo_sch1)); fits_tac).
  pose proof (isr_netinit_correct demo_addrs 0x5000 0 10 demo_isr demo_L Hi Hs) as Hn.
  assert (match bmk_isr_netinit demo_addrs 0x5000 0 10 demo_isr with Ret _ => true | Halt _ => false end = true) as Er
    by (vm_compute; reflexivity).
  destruct (bmk_isr_netinit demo_addrs 0x5000 0 10 demo_isr) as [[rv s']|msg].
  - destruct Hn as (H1 & H2 & _); assert (rv = 0) as -> by (apply H1; by left).
    exists s'; split; [reflexivity|]; apply H2; reflexivity.
  - discriminate Er.
Defined.
