(* ===== verification/Pci.v ===== *)
(** * Pci: the PCI hypercalls of rumppci.c

    Configuration space access through the ports 0xcf8 and 0xcfc, the table of
    interrupt lines, and DMA memory.  The table [intrs] is an array in memory,
    so that an access beyond it is visible; what the devices answer on the
    data port is a parameter. *)
From S2P Require Import Prelude Mem Pages Memalloc Heap Iface Alloc Sched SchedThms Console Machdep Intr.

Definition PCI_CONF_ADDR : Z := 0xcf8.
Definition PCI_CONF_DATA : Z := 0xcfc.

Definition makeaddr (bus dev fn reg : Z) : Z :=
  Z.lor (Z.lor (Z.lor (Z.lor (u32 (Z.shiftl 1 31)) (u32 (Z.shiftl bus 16))) (u32 (Z.shiftl dev 11)))
    (u32 (Z.shiftl fn 8))) (Z.land reg 0xfc).

(** [inl]: the answer of the device selected by the trace so far. *)
Definition rumpcomp_pci_confread (inl : list event -> Z -> Z) (bus dev fn reg : Z) (s : cpu) : Z * Z * cpu :=
  let s := outl PCI_CONF_ADDR (makeaddr bus dev fn reg) s in
  (0, u32 (inl (trace s) PCI_CONF_DATA), s).
Definition rumpcomp_pci_confwrite (bus dev fn reg value : Z) (s : cpu) : Z * cpu :=
  let s := outl PCI_CONF_ADDR (makeaddr bus dev fn reg) s in
  (0, outl PCI_CONF_DATA value s).

(** The array [intrs] of BMK_MAXINTR ints lies at address [intrs]. *)
Definition rumpcomp_pci_irq_map (intrs bus device fn intrline cookie : Z) (m : mem) : Z * mem :=
  if BMK_MAXINTR <? cookie then (EGENERIC, m) else (0, wr32 m (intrs + 4 * cookie) intrline).
Definition rumpcomp_pci_irq_establish {H} `{HeapOps H} (intrs : Z) (a : addrs) (cookie handler data : Z) (m : mem)
    (s : isrst H) : outcome (Z * isrst H) :=
  '(rv, s) ← bmk_isr_netinit a handler data (i32 (rd32 m (intrs + 4 * cookie))) s;
  Ret (if rv =? 0 then intrs + 4 * cookie else NULL, s).

Definition rumpcomp_pci_map (addr len : Z) : Z := addr.
Definition rumpcomp_pci_dmalloc (size align : Z) (s : pgstate) : Z * option (Z * Z) * pgstate :=
  let '(rv, s) := bmk_allocpg (round_page size / PAGE_SIZE) s in
  if rv =? NULL then (1, None, s) else (0, Some (rv, rv), s).
Record rumpcomp_pci_dmaseg := DmaSeg { ds_pa : Z; ds_len : Z; ds_vacookie : Z }.
Definition rumpcomp_pci_dmamem_map (dss : list rumpcomp_pci_dmaseg) (nseg totlen : Z) : Z * option Z :=
  if 1 <? nseg then (1, None) else (0, ds_vacookie <$> head dss).
Definition rumpcomp_pci_virt_to_mach (virt : Z) : Z := virt.

(** ** Theorems *)

Definition conf_ok (bus dev fn reg : Z) : Prop := 0 <= bus < 256 /\ 0 <= dev < 32 /\ 0 <= fn < 8 /\ 0 <= reg < 256.

Lemma land_fc reg : 0 <= reg < 256 -> Z.land reg 0xfc = 4 * (reg / 4).
Proof.
  intros Hr; assert (Z.land reg 0xfc = Z.land reg (Z.lnot 3)) as ->.
  { apply Z.bits_inj'; intros i Hi; rewrite !Z.land_spec; destruct (Z.lt_ge_cases i 8).
    - f_equal; rewrite Z.lnot_spec by done.
      assert (i = 0 \/ i = 1 \/ i = 2 \/ i = 3 \/ i = 4 \/ i = 5 \/ i = 6 \/ i = 7) by lia. by destruct_or!; subst.
    - rewrite (testbit_above reg 8 i) by lia; done. }
  rewrite <- Z.ldiff_land; change 3 with (Z.ones 2); rewrite Z.ldiff_ones_r, Z.shiftr_div_pow2, Z.shiftl_mul_pow2 by lia.
  change (2 ^ 2) with 4; lia.
Qed.

Lemma makeaddr_value bus dev fn reg : conf_ok bus dev fn reg ->
  makeaddr bus dev fn reg = 2 ^ 31 + bus * 2 ^ 16 + dev * 2 ^ 11 + fn * 2 ^ 8 + 4 * (reg / 4).
Proof.
  intros (Hb & Hd & Hf & Hr); unfold makeaddr; rewrite land_fc by done.
  rewrite !Z.shiftl_mul_pow2, !wrap_id by (unfold urange; lia).
  assert (0 <= 4 * (reg / 4) < 2 ^ 8) as Hr4 by zlia.
  replace (1 * 2 ^ 31) with ((2 ^ 15) * 2 ^ 16) by lia.
  rewrite <- !Z.lor_assoc.
  rewrite (lor_disjoint fn _ 8) by lia.
  rewrite (lor_disjoint dev _ 11) by lia.
  rewrite (lor_disjoint bus _ 16) by lia.
  replace (2 ^ 15 * 2 ^ 16) with (1 * 2 ^ 31) by lia.
  rewrite (lor_disjoint 1 _ 31) by lia; lia.
Qed.

(** A configuration access selects what it was asked for.  For every bus,
    device, function and register of the PCI address space the address written
    to the port has the enable bit and the four fields, the register rounded
    down to its word, and different words have different addresses. *)
Theorem pci_conf_address bus dev fn reg bus' dev' fn' reg' :
  conf_ok bus dev fn reg -> conf_ok bus' dev' fn' reg' ->
  makeaddr bus dev fn reg = 2 ^ 31 + bus * 2 ^ 16 + dev * 2 ^ 11 + fn * 2 ^ 8 + 4 * (reg / 4) /\
  urange 32 (makeaddr bus dev fn reg) /\
  (makeaddr bus dev fn reg = makeaddr bus' dev' fn' reg' ->
     bus = bus' /\ dev = dev' /\ fn = fn' /\ reg / 4 = reg' / 4) /\
  forall value s, trace (snd (rumpcomp_pci_confwrite bus dev fn reg value s)) =
    trace s ++ [Outl PCI_CONF_ADDR (makeaddr bus dev fn reg); Outl PCI_CONF_DATA (u32 value)].
Proof.
  intros Hc Hc'; rewrite (makeaddr_value _ _ _ _ Hc), (makeaddr_value _ _ _ _ Hc').
  destruct Hc as (? & ? & ? & ?), Hc' as (? & ? & ? & ?).
  assert (0 <= reg / 4 < 64 /\ 0 <= reg' / 4 < 64) as [? ?] by zlia.
  split_and!; [done|unfold urange; lia|intros; lia|].
  intros value s; unfold rumpcomp_pci_confwrite, outl, emit; cbn [snd trace].
  rewrite makeaddr_value, (wrap_id 32 (_ + _)) by (first [done|unfold urange; lia]).
  by rewrite <- app_assoc.
Qed.

Lemma pci_conf_address_witness : makeaddr 0 3 0 0x3d = 0x8000183c.
Proof.
  destruct (pci_conf_address 0 3 0 0x3d 0 3 0 0x3d) as [E _]; [unfold conf_ok; lia|unfold conf_ok; lia|].
  rewrite E; reflexivity.
Defined.

(** The table of interrupt lines can be overrun.  Every cookie below
    BMK_MAXINTR is stored in its entry of the table and nothing else changes;
    the cookie BMK_MAXINTR itself is accepted too, and its line is written to
    the word right behind the table. *)
Theorem pci_irq_map_overrun intrs bus dev fn line cookie m :
  0 <= cookie -> urange 32 line ->
  let '(rv, m') := rumpcomp_pci_irq_map intrs bus dev fn line cookie m in
  (cookie < BMK_MAXINTR -> rv = 0 /\ rd32 m' (intrs + 4 * cookie) = line /\ only_in m m' intrs (intrs + 4 * BMK_MAXINTR)) /\
  (cookie = BMK_MAXINTR -> rv = 0 /\ rd32 m' (intrs + 4 * BMK_MAXINTR) = line) /\
  (BMK_MAXINTR < cookie -> rv = EGENERIC /\ m' = m).
Proof.
  intros Hc Hl; unfold rumpcomp_pci_irq_map; destruct (Z.ltb_spec BMK_MAXINTR cookie) as [Hx|Hx].
  - split_and!; [lia|lia|done].
  - assert (rd32 (wr32 m (intrs + 4 * cookie) line) (intrs + 4 * cookie) = line) as Er
      by (by rewrite rd32_wr32_eq, wrap_id).
    split_and!; [|by intros <-|lia]; intros Hlt; split_and!; [done|done|].
    eapply only_in_weaken; [apply only_in_wr32|lia|unfold BMK_MAXINTR in *; lia].
Qed.

Lemma pci_irq_map_overrun_witness :
  fst (rumpcomp_pci_irq_map 0x1000 0 0 0 11 32 ∅) = 0 /\
  rd32 (snd (rumpcomp_pci_irq_map 0x1000 0 0 0 11 32 ∅)) (0x1000 + 4 * 32) = 11.
Proof.
  pose proof (pci_irq_map_overrun 0x1000 0 0 0 11 32 ∅ ltac:(lia) ltac:(by vm_compute)) as Hp.
  destruct (rumpcomp_pci_irq_map 0x1000 0 0 0 11 32 ∅) as [rv m']; destruct Hp as (_ & Hp & _); exact (Hp eq_refl).
Defined.

(** C38: DMA memory.  A request of at most 2^32 - 4096 bytes, as long as the
    page counter, with the pages of the request, stays below 4 GB (otherwise
    pages are handed out again, see [allocpg_wraps]), is answered with a
    page-aligned range of at least [size] bytes of fresh memory inside the
    machine's memory, with equal physical and virtual address, or with an
    error exactly when memory is exhausted.  A larger request is rounded to no
    page at all: as long as the counter has not gone past the end of memory it
    "succeeds" without any memory. *)
Theorem pci_dmalloc_correct size align s :
  pg_wf s -> urange 32 size ->
  (size + PAGE_SIZE <= 2 ^ 32 -> (pg_current s + round_page size / PAGE_SIZE) * PAGE_SIZE < 2 ^ 32 ->
   let '(rv, res, s') := rumpcomp_pci_dmalloc size align s in
   (rv = 0 -> res = Some (pg_break s, pg_break s) /\ pg_break s mod PAGE_SIZE = 0 /\
      pg_break s + size <= pg_break s' /\ pg_break s' <= bmk_membase s + bmk_memsize s) /\
   (rv <> 0 -> rv = 1 /\ res = None /\ bmk_membase s + bmk_memsize s < pg_break s')) /\
  (2 ^ 32 < size + PAGE_SIZE -> pg_current s * PAGE_SIZE <= bmk_memsize s ->
   rumpcomp_pci_dmalloc size align s = (0, Some (pg_break s, pg_break s), s)).
Proof.
  intros Hw Hs; unfold rumpcomp_pci_dmalloc; split.
  - intros Hfit Hcur; destruct (round_page_spec size) as [Hr Hm]; [apply Hs|done|].
    pose proof (Z.div_mod (round_page size) PAGE_SIZE ltac:(unfold PAGE_SIZE; lia)) as Hdm; rewrite Hm in Hdm.
    assert (pg_fits s (round_page size / PAGE_SIZE)) as Hpf.
    { split; [apply Z.div_pos; unfold urange, PAGE_SIZE in *; lia|done]. }
    rewrite allocpg_cases by done; destruct Hw as (Hb & Hz & Hbz & Hc & Ha).
    unfold pg_break; cbn [bmk_membase pg_current].
    case_decide as Hd.
    + rewrite (proj2 (Z.eqb_neq _ _)) by (unfold NULL, PAGE_SIZE in *; lia).
      cbn [bmk_membase pg_current]; split; [|done]; intros _; split_and!;
        [done| |unfold PAGE_SIZE in *; lia|unfold PAGE_SIZE in *; lia].
      rewrite Z.mul_comm, Z.mod_add by (unfold PAGE_SIZE; lia); done.
    + cbn [Z.eqb NULL bmk_membase pg_current]; split; [lia|]; intros _; split_and!; [done|done|unfold PAGE_SIZE in *; lia].
  - intros Hbig Hcur.
    assert (round_page size = 0) as ->.
    { unfold round_page, urange, PAGE_SIZE in *.
      replace (size + (0x1000 - 1)) with ((size + (0x1000 - 1) - 2 ^ 32) + 1 * 2 ^ 32) by lia.
      unfold wrap at 1; rewrite Z.mod_add by lia; rewrite Z.mod_small by lia.
      change (0x1000 - 1) with (2 ^ 12 - 1).
      rewrite (align_down 32 _ 12) by zlia. change (2 ^ 12) with 4096; zlia. }
    assert (pg_fits s 0) as Hpf by (unfold pg_fits, pg_wf in *; split; [lia|]; unfold PAGE_SIZE in *; lia).
    change (0 / PAGE_SIZE) with 0; rewrite allocpg_cases by done; rewrite Z.add_0_r, decide_True by done.
    rewrite (proj2 (Z.eqb_neq _ _)); [by destruct s|].
    destruct Hw as (? & ? & ? & ? & ?); unfold pg_break, NULL, PAGE_SIZE; lia.
Qed.

Lemma pci_dmalloc_correct_witness :
  rumpcomp_pci_dmalloc (2 ^ 32 - 1) 0 demo_pg = (0, Some (0x200000, 0x200000), demo_pg).
Proof.
  destruct (pci_dmalloc_correct (2 ^ 32 - 1) 0 demo_pg) as [_ Hd]; [by vm_compute|by vm_compute|].
  apply Hd; by vm_compute.
Defined.
