(* ===== verification/Rumpuser.v ===== *)
(** * Rumpuser: the remaining hypercalls of rumpuser.c

    Parameters, memory, pseudo-random numbers, time and console output.  The
    string literals the code compares with and copies from live in memory at
    the addresses of [params] (the two names that come from rumpuser.h are not
    defined in the repository). *)
From S2P Require Import Prelude Mem Subr Pages Memalloc Heap Iface Alloc Sched SchedThms Fiber FiberThms Console.

Definition rumpuser_putchar (c : Z) (s : cons) : cons := bmk_cons_putc c s.
Definition rumpuser_dprintf (fmt : list Z) (s : cons) : cons := bmk_cons_puts fmt s.

(** ** Parameters *)

Definition BMK_MEMRESERVE : Z := 1024 * 1024.

Record params := Params {
  RUMPUSER_PARAM_NCPU : Z; lit_RUMP_VERBOSE : Z; RUMPUSER_PARAM_HOSTNAME : Z; lit_RUMP_MEMLIMIT : Z;
  lit_1 : Z; lit_rump_baremetal : Z }.

(** The digits of [memsize], least significant first; the local array [tmp]
    has 64 bytes, and with [i] entries filled [fuel = 63 - i] are left. *)
Fixpoint memlimit_digits (fuel : nat) (memsize : Z) (tmp : list Z) : outcome (list Z) :=
  if 0 <? memsize then
    match fuel with
    | O => Halt "i < sizeof(tmp)-1"
    | S fuel => memlimit_digits fuel (memsize / 10) (tmp ++ [u8 (memsize mod 10 + 48)])
    end
  else Ret tmp.

(** [for (j = i; i > 0; i--) res[j-i] = tmp[i-1];] *)
Fixpoint memlimit_copy (i : nat) (j res : Z) (tmp : list Z) (m : mem) : mem :=
  match i with
  | O => m
  | S k => memlimit_copy k j res tmp (wr8 m (res + (j - Z.of_nat i)) (tmp !!! k))
  end.

Definition getparam_memlimit (bmk_memsize buf buflen : Z) (m : mem) : outcome (Z * mem) :=
  _ ← c_assert (BMK_MEMRESERVE <? bmk_memsize) "bmk_memsize > BMK_MEMRESERVE";
  tmp ← memlimit_digits 63 (bmk_memsize - BMK_MEMRESERVE) [];
  let i := Z.of_nat (length tmp) in
  if buflen <=? i then Ret (1, m)
  else Ret (0, memlimit_copy (length tmp) i buf tmp (wr8 m (buf + i) 0)).

(** [None] when a string function does not end within [fuel]. *)
Definition rumpuser_getparam (fuel : nat) (P : params) (name buf buflen bmk_memsize : Z) (m : mem)
    : option (outcome (Z * mem)) :=
  if buflen <=? 1 then Some (Ret (1, m))
  else
    ncpu ← bmk_strcmp fuel m name (RUMPUSER_PARAM_NCPU P);
    one ← (if ncpu =? 0 then Some true
           else verbose ← bmk_strcmp fuel m name (lit_RUMP_VERBOSE P); Some (verbose =? 0));
    if (one : bool) then '(m, _) ← bmk_strncpy fuel m buf (lit_1 P) (buflen - 1); Some (Ret (0, m))
    else
      host ← bmk_strcmp fuel m name (RUMPUSER_PARAM_HOSTNAME P);
      if host =? 0 then '(m, _) ← bmk_strncpy fuel m buf (lit_rump_baremetal P) (buflen - 1); Some (Ret (0, m))
      else
        lim ← bmk_strcmp fuel m name (lit_RUMP_MEMLIMIT P);
        if lim =? 0 then Some (getparam_memlimit bmk_memsize buf buflen m) else Some (Ret (1, m)).

(** ** Memory *)

Definition rumpuser_malloc (howmuch alignment : Z) (s : mstate) : Z * option Z * mstate :=
  let '(rv, s) := if howmuch =? PAGE_SIZE
                  then let '(rv, p) := bmk_allocpg 1 (pages s) in (rv, set_pages p s)
                  else bmk_memalloc howmuch alignment s in
  if negb (rv =? NULL) then (0, Some rv, s) else (ENOMEM, None, s).
Definition rumpuser_free (p len : Z) (s : mstate) : outcome mstate :=
  if len =? PAGE_SIZE then Ret s else bmk_memfree p s.

(** ** Pseudo-random numbers *)

Definition lcg (seed : Z) : Z := u32 (seed * 1103515245 + 12345) mod 0x80000000.

(** The loop runs [buflen / 4] times; [v] is the word pointer. *)
Fixpoint random_fill (n : nat) (v seed : Z) (m : mem) : Z * mem :=
  match n with O => (seed, m) | S n => random_fill n (v + 4) (lcg seed) (wr32 m v seed) end.
Definition rumpuser_getrandom (buf buflen flags seed : Z) (m : mem) : Z * Z * Z * mem :=
  let '(seed, m) := random_fill (Z.to_nat (buflen / 4)) buf seed m in (0, buflen, seed, m).

(** ** Time *)

Definition NSEC : Z := 1000 * 1000 * 1000.
Definition rumpuser_clock_gettime (now : Z) : Z * Z * Z := (0, i64 (u64 now / NSEC), i32 (u64 now mod NSEC)).

Section Sleep.
Context {H : Type} `{HeapOps H}.
Variable hyp_backend_unschedule : Z -> fib H -> outcome (Z * fib H).
Variable hyp_backend_schedule : Z -> Z -> fib H -> outcome (fib H).

(** [rumpuser_clock_sleep] up to the [bmk_sched] inside [bmk_sched_nanosleep],
    and what follows it; [now] is the clock when the upcall has returned. *)
Definition rumpuser_clock_sleep (now sec nsec : Z) (s : fib H) : outcome (Z * fib H) :=
  '(nlocks, s) ← rumpkern_unsched hyp_backend_unschedule NULL s;
  Ret (nlocks, set_sc (bmk_sched_nanosleep now (i64 (u64 (u64 (sec * NSEC) + u64 nsec))) (sc s)) s).
Definition clock_sleep_resumed (nlocks : Z) (s : fib H) : outcome (Z * fib H) :=
  s ← rumpkern_sched hyp_backend_schedule nlocks NULL s; Ret (0, s).
End Sleep.

(** ** Theorems *)

(** The value of a string of decimal digits. *)
Definition dec_value (s : list Z) : Z := foldl (fun a c => 10 * a + (c - 48)) 0 s.
Definition is_dec (s : list Z) : Prop := Forall (fun c => 48 <= c <= 57) s.

Lemma dec_value_snoc s c : dec_value (s ++ [c]) = 10 * dec_value s + (c - 48).
Proof. unfold dec_value; by rewrite foldl_app. Qed.

Lemma memlimit_digits_spec fuel n tmp : 0 <= n < 10 ^ Z.of_nat fuel ->
  exists ds, memlimit_digits fuel n tmp = Ret (tmp ++ ds) /\ (length ds <= fuel)%nat /\
    is_dec ds /\ dec_value (reverse ds) = n /\ (0 < n -> exists c, last ds = Some c /\ c <> 48).
Proof.
  revert n tmp; induction fuel as [|fuel IH]; intros n tmp Hn.
  - change (10 ^ Z.of_nat 0) with 1 in Hn; assert (n = 0) as -> by lia; exists []; cbn; rewrite app_nil_r.
    split_and!; [done|lia|constructor|done|lia].
  - cbn [memlimit_digits]; destruct (Z.ltb_spec 0 n) as [Hp|Hp].
    + rewrite Nat2Z.inj_succ, Z.pow_succ_r in Hn by lia.
      destruct (IH (n / 10) (tmp ++ [u8 (n mod 10 + 48)])) as (ds & E & Hl & Hd & Hv & Hlast).
      { split; [apply Z.div_pos; lia|apply Z.div_lt_upper_bound; lia]. }
      pose proof (Z.mod_pos_bound n 10 ltac:(lia)); rewrite wrap_id in E by (unfold urange; lia).
      exists ((n mod 10 + 48) :: ds); split_and!.
      * rewrite wrap_id by (unfold urange; lia); rewrite E; by rewrite <- app_assoc.
      * cbn; lia.
      * constructor; [lia|done].
      * rewrite reverse_cons, dec_value_snoc, Hv; pose proof (Z.div_mod n 10 ltac:(lia)); lia.
      * intros _; destruct (Z.ltb_spec 0 (n / 10)) as [Hq|Hq].
        -- destruct (Hlast Hq) as (c & Hc & Hne); exists c; split; [|done]; by rewrite last_cons, Hc.
        -- assert (n / 10 = 0) as Hz by (apply Z.le_antisymm; [lia|apply Z.div_pos; lia]).
           destruct ds as [|d ds]; [exists (n mod 10 + 48); split; [done|]; pose proof (Z.div_mod n 10 ltac:(lia)); lia|].
           exfalso; rewrite Hz in E; destruct fuel; cbn in E; injection E as E;
             rewrite <- (app_nil_r (tmp ++ _)) in E at 1; by apply app_inv_head in E.
    + assert (n = 0) as -> by lia; exists []; rewrite app_nil_r; split_and!; [done|cbn; lia|constructor|done|lia].
Qed.

Lemma memlimit_copy_spec i j res tmp m x : (i <= length tmp)%nat -> Z.of_nat i <= j ->
  Forall (fun c => 0 <= c < 256) tmp ->
  rd8 (memlimit_copy i j res tmp m) x =
    (if decide (res + j - Z.of_nat i <= x < res + j) then tmp !!! Z.to_nat (res + j - 1 - x) else rd8 m x).
Proof.
  intros Hi Hj Ht; revert m Hi Hj; induction i as [|k IH]; intros m Hi Hj; cbn [memlimit_copy].
  - by rewrite decide_False by lia.
  - rewrite IH by lia; destruct (decide (x = res + (j - Z.of_nat (S k)))) as [->|Hne].
    + rewrite decide_False, decide_True, rd8_wr8_eq by lia.
      replace (Z.to_nat (res + j - 1 - (res + (j - Z.of_nat (S k))))) with k by lia.
      rewrite wrap_id; [done|]; destruct (lookup_lt_is_Some_2 tmp k ltac:(lia)) as [c Hc].
      rewrite (list_lookup_total_correct _ _ _ Hc); unfold urange; by apply (proj1 (Forall_lookup _ _) Ht _ _ Hc).
    + rewrite rd8_wr8_ne by congruence; repeat case_decide; lia || done.
Qed.

(** The memory limit is reported in decimal.  With more than the reserved
    megabyte of memory, RUMP_MEMLIMIT yields the decimal representation of
    what is left, without leading zero and NUL-terminated, provided the
    buffer can hold it; otherwise it returns 1 and leaves the buffer alone.
    Nothing beyond the string is written, and no assertion fails. *)
Theorem getparam_memlimit_correct bmk_memsize buf buflen m :
  BMK_MEMRESERVE < bmk_memsize < 2 ^ 32 ->
  exists ds, is_dec ds /\ dec_value ds = bmk_memsize - BMK_MEMRESERVE /\ head ds <> Some 48 /\
    if decide (Z.of_nat (length ds) < buflen)
    then exists m', getparam_memlimit bmk_memsize buf buflen m = Ret (0, m') /\ cstr m' buf ds /\
           only_in m m' buf (buf + Z.of_nat (length ds) + 1)
    else getparam_memlimit bmk_memsize buf buflen m = Ret (1, m).
Proof.
  intros Hm; set (n := bmk_memsize - BMK_MEMRESERVE).
  destruct (memlimit_digits_spec 63 n []) as (ds & E & _ & Hd & Hv & Hlast).
  { unfold n, BMK_MEMRESERVE in *; split; [lia|]; assert (2 ^ 32 < 10 ^ Z.of_nat 63) by (by vm_compute); lia. }
  assert (Forall (fun c => 0 <= c < 256) ds) as Hb by (eapply Forall_impl; [exact Hd|]; cbn; lia).
  exists (reverse ds); split_and!; [by apply Forall_reverse|done| |].
  { destruct (Hlast ltac:(unfold n; lia)) as (c & Hc & Hne); rewrite head_reverse, Hc; congruence. }
  unfold getparam_memlimit; rewrite (proj2 (Z.ltb_lt _ _)) by lia; cbn [c_assert mbind outcome_bind].
  fold n; rewrite E; cbn [app mbind outcome_bind]; rewrite length_reverse.
  case_decide as Hlen; [rewrite (proj2 (Z.leb_gt _ _)) by lia|by rewrite (proj2 (Z.leb_le _ _)) by lia].
  set (k := length ds) in *; set (m' := memlimit_copy k (Z.of_nat k) buf ds (wr8 m (buf + Z.of_nat k) 0)).
  assert (forall x, rd8 m' x = if decide (buf <= x < buf + Z.of_nat k) then ds !!! Z.to_nat (buf + Z.of_nat k - 1 - x)
    else if decide (x = buf + Z.of_nat k) then 0 else rd8 m x) as Hr.
  { intros x; unfold m'; rewrite memlimit_copy_spec by (done || lia).
    rewrite (rd8_wr8 m); repeat case_decide; try lia; try done. }
  exists m'; split_and!; [done| |].
  - split_and!.
    + apply list_eq; intros i; rewrite length_reverse; fold k; destruct (decide (i < k)%nat) as [Hi|Hi].
      * rewrite ld_lookup, Hr, decide_True by lia.
        replace (Z.to_nat (buf + Z.of_nat k - 1 - (buf + Z.of_nat i))) with (k - 1 - i)%nat by lia.
        rewrite reverse_lookup by lia; fold k; replace (k - S i)%nat with (k - 1 - i)%nat by lia.
        symmetry; apply list_lookup_lookup_total_lt; lia.
      * rewrite !lookup_ge_None_2 by (rewrite ?ld_length, ?length_reverse; lia); done.
    + rewrite length_reverse; fold k; rewrite Hr, decide_False, decide_True by lia; done.
    + apply Forall_reverse; eapply Forall_impl; [exact Hd|]; cbn; lia.
  - intros x Hx; rewrite Hr, !decide_False by lia; done.
Qed.

Lemma getparam_memlimit_correct_witness :
  exists ds, is_dec ds /\ dec_value ds = 0x1000000 - BMK_MEMRESERVE.
Proof.
  destruct (getparam_memlimit_correct 0x1000000 0x5000 64 ∅) as (ds & ? & ? & _).
  - by vm_compute.
  - exists ds; split; assumption.
Defined.

(** ** Pseudo-random numbers *)

Definition word_at (m : mem) (buf : Z) (i : nat) : Z := rd32 m (buf + 4 * Z.of_nat i).

Lemma lcg_range seed : 0 <= lcg seed < 2 ^ 31.
Proof. unfold lcg; apply Z.mod_pos_bound; lia. Qed.

Lemma random_fill_spec n v seed m : 0 <= seed < 2 ^ 31 ->
  let '(seed', m') := random_fill n v seed m in
  seed' = Nat.iter n lcg seed /\ 0 <= seed' < 2 ^ 31 /\
  (forall i, (i < n)%nat -> word_at m' v i = Nat.iter i lcg seed) /\ only_in m m' v (v + 4 * Z.of_nat n).
Proof.
  revert v seed m; induction n as [|n IH]; intros v seed m Hs; cbn [random_fill].
  - split_and!; [done|lia|lia|lia|apply only_in_refl].
  - specialize (IH (v + 4) (lcg seed) (wr32 m v seed) (lcg_range seed)).
    destruct (random_fill n (v + 4) (lcg seed) (wr32 m v seed)) as [seed' m'].
    destruct IH as (-> & Hr & Hw & Ho); split_and!; [by rewrite <- Nat.iter_succ_r|lia|lia| |].
    + intros [|i] Hi; unfold word_at.
      * rewrite (rd32_only_in _ _ _ _ _ Ho) by lia; replace (v + 4 * Z.of_nat 0) with v by lia.
        rewrite rd32_wr32_eq, wrap_id; [done|unfold urange; lia].
      * replace (v + 4 * Z.of_nat (S i)) with (v + 4 + 4 * Z.of_nat i) by lia.
        rewrite Nat.iter_succ_r; apply Hw; lia.
    + eapply only_in_chain; [apply only_in_wr32|exact Ho|lia..].
Qed.

(** [rumpuser_getrandom] fills the buffer with successive values of its
    generator, which stay below 2^31, and continues the sequence on the next
    call; it writes whole words only.  It reports [buflen] bytes, but when
    [buflen] is not a multiple of 4 the last bytes of the buffer are left as
    they were. *)
Theorem getrandom_correct buf buflen flags seed m :
  0 <= seed < 2 ^ 31 -> 0 <= buflen ->
  let '(rv, ret, seed', m') := rumpuser_getrandom buf buflen flags seed m in
  rv = 0 /\ ret = buflen /\ 0 <= seed' < 2 ^ 31 /\ seed' = Nat.iter (Z.to_nat (buflen / 4)) lcg seed /\
  (forall i, (i < Z.to_nat (buflen / 4))%nat -> word_at m' buf i = Nat.iter i lcg seed) /\
  (forall x, ~ buf <= x < buf + 4 * (buflen / 4) -> rd8 m' x = rd8 m x).
Proof.
  intros Hs Hb; unfold rumpuser_getrandom.
  pose proof (random_fill_spec (Z.to_nat (buflen / 4)) buf seed m Hs) as Hf.
  destruct (random_fill _ _ _ _) as [seed' m']; destruct Hf as (? & ? & ? & Ho).
  rewrite Z2Nat.id in Ho by (apply Z.div_pos; lia); split_and!; try done; lia.
Qed.

Lemma getrandom_correct_witness :
  let '(rv, ret, seed', m') := rumpuser_getrandom 0x1000 6 0 12345 ∅ in
  ret = 6 /\ word_at m' 0x1000 0 = 12345 /\ rd8 m' 0x1004 = rd8 ∅ 0x1004.
Proof.
  pose proof (getrandom_correct 0x1000 6 0 12345 ∅ ltac:(lia) ltac:(lia)) as Hg.
  destruct (rumpuser_getrandom 0x1000 6 0 12345 ∅) as [[[rv ret] seed'] m'].
  destruct Hg as (_ & Hr & _ & _ & Hw & Ho); split_and!; [exact Hr|apply (Hw 0%nat); vm_compute; lia|].
  apply Ho; change (6 / 4) with 1; lia.
Defined.

(** ** Time *)

(** Time is split exactly: for a clock that has not overflowed, seconds
    and nanoseconds recombine to the clock value, with nanoseconds below one
    second. *)
Theorem clock_gettime_correct now :
  0 <= now < 2 ^ 63 ->
  let '(rv, sec, nsec) := rumpuser_clock_gettime now in
  rv = 0 /\ sec * NSEC + nsec = now /\ 0 <= nsec < NSEC /\ 0 <= sec.
Proof.
  intros Hn; unfold rumpuser_clock_gettime; rewrite (wrap_id 64 now) by (unfold urange; lia).
  pose proof (Z.mod_pos_bound now NSEC ltac:(unfold NSEC; lia)) as Hm.
  pose proof (Z.div_mod now NSEC ltac:(unfold NSEC; lia)) as Hd.
  assert (0 <= now / NSEC) by (apply Z.div_pos; unfold NSEC; lia).
  assert (now / NSEC <= now) by (apply Z.div_le_upper_bound; unfold NSEC; lia).
  rewrite !sext_id by (unfold srange, NSEC in *; lia); split_and!; lia.
Qed.

Lemma clock_gettime_correct_witness :
  let '(rv, sec, nsec) := rumpuser_clock_gettime 12345678901 in rv = 0 /\ sec * NSEC + nsec = 12345678901.
Proof.
  pose proof (clock_gettime_correct 12345678901 ltac:(lia)) as Hc.
  destruct (rumpuser_clock_gettime 12345678901) as [[rv sec] nsec]; destruct Hc as (? & ? & _); split; assumption.
Defined.

Section SleepThm.
Context {H : Type} `{HeapOps H}.

Lemma nanosleep_eligible now nsec tm (s : sched H) :
  is_Some (thr s !! current_thread s) -> 0 <= now -> 0 <= nsec -> now + nsec < 2 ^ 63 ->
  eligible tm (getthr (thr (bmk_sched_nanosleep now nsec s)) (current_thread s)) = (now + nsec <=? tm).
Proof.
  intros Ht Hn Hns Hb; unfold bmk_sched_nanosleep, bmk_sched_current, eligible.
  rewrite getthr_upd_eq by (by apply upd_is_Some); rewrite clear_runnable_blocked; cbn [orb].
  cbn [clear_runnable with_flags bt_wakeup_time]; rewrite getthr_upd_eq by done; cbn [with_wakeup bt_wakeup_time].
  rewrite (wrap_id 64 now), (wrap_id 64 nsec), (wrap_id 64 (now + nsec)), sext_id by (unfold urange, srange; lia).
  rewrite (proj2 (Z.leb_le 0 _)) by lia; done.
Qed.

(** A sleep ends on time.  If the upcall that gives up the rump kernel
    returns, [rumpuser_clock_sleep] at time [now] stops the thread so that it
    may not be dispatched before the requested time has passed, and may be
    from then on, provided the end of the sleep is representable. *)
Theorem clock_sleep_deadline unsch now sec nsec (s s1 : fib H) nlocks tm :
  unsch NULL s = Ret (nlocks, s1) -> is_Some (thr (sc s1) !! cur s1) ->
  0 <= now -> 0 <= sec * NSEC -> 0 <= nsec -> now + sec * NSEC + nsec < 2 ^ 63 ->
  exists s2, rumpuser_clock_sleep unsch now sec nsec s = Ret (nlocks, s2) /\ cur s2 = cur s1 /\
    eligible tm (getthr (thr (sc s2)) (cur s1)) = (now + sec * NSEC + nsec <=? tm).
Proof.
  intros Hu Ht Hn Hs Hns Hb; unfold rumpuser_clock_sleep, rumpkern_unsched; rewrite Hu; cbn [mbind outcome_bind].
  eexists; split_and!; [reflexivity|done|]; cbn [sc set_sc].
  rewrite (wrap_id 64 (sec * NSEC)), (wrap_id 64 nsec), (wrap_id 64 (sec * NSEC + nsec)) by (unfold urange; lia).
  rewrite (sext_id 64 (sec * NSEC + nsec)) by (unfold srange; lia).
  unfold cur, bmk_sched_current in *; rewrite (nanosleep_eligible now _ tm (sc s1)) by (done || lia).
  by rewrite Z.add_assoc.
Qed.
End SleepThm.

(** An upcall that gives up one lock and changes nothing else. *)
Definition demo_unsch (interlock : Z) (s : fib mstate) : outcome (Z * fib mstate) := Ret (1, s).

Lemma clock_sleep_deadline_witness :
  exists s2, rumpuser_clock_sleep demo_unsch 1 2 4 demo_fib = Ret (1, s2) /\ cur s2 = cur demo_fib /\
    eligible 2000000004 (getthr (thr (sc s2)) (cur demo_fib)) = (2000000005 <=? 2000000004).
Proof.
  apply (clock_sleep_deadline demo_unsch 1 2 4 demo_fib demo_fib 1 2000000004);
    [reflexivity|vm_compute; eauto|unfold NSEC; lia..].
Defined.
