(* ===== verification/Libc.v ===== *)
(** * Libc: the C library glue (libc_malloc.c, libc_emul.c, libc_errno.c, undefs.c)

    The allocation functions of the C library on top of memalloc.c, and the
    emulation of [mmap].  [pread] and the constants of <sys/mman.h> and
    <errno.h> come from the C library of the rump kernel and are parameters. *)
From S2P Require Import Prelude Mem Subr Pages Memalloc Heap Iface Alloc Sched Console.

Definition posix_memalign (nbytes align : Z) (s : mstate) : Z * option Z * mstate :=
  let '(v, s) := bmk_memalloc nbytes align s in
  if negb (v =? NULL) then (0, Some v, s) else (10, None, s).
Definition malloc (size : Z) (s : mstate) : Z * mstate := bmk_memalloc size 8 s.
Definition calloc (n size : Z) (s : mstate) : Z * mstate :=
  let tot := u32 (n * size) in
  let '(v, s) := malloc tot s in
  if negb (v =? NULL) then (v, set_mm (fst (bmk_memset (mm s) v 0 tot)) s) else (v, s).
Definition realloc (cp nbytes : Z) (s : mstate) : outcome (Z * mstate) := bmk_memrealloc cp nbytes s.
Definition free (cp : Z) (s : mstate) : outcome mstate := bmk_memfree cp s.

(** [__errno]: where the error number of the current thread is. *)
Definition errno_location {H} (s : sched H) : Z := bmk_sched_geterrno s.

Section Mmap.
(** [pread fd v len off m]: the result, the memory and [errno]. *)
Variable pread : Z -> Z -> Z -> Z -> mem -> Z * mem * Z.
Variables PROT_READ MAP_ANON MAP_FAILED ENOTSUP : Z.

(** The result, [errno] if it was set, and the state. *)
Definition mmap (addr len prot flags fd off : Z) (s : mstate) : outcome (Z * option Z * mstate) :=
  if negb (fd =? -1) && negb (prot =? PROT_READ) then Ret (MAP_FAILED, Some ENOTSUP, s)
  else
    let '(error, v, s) := posix_memalign len PAGE_SIZE s in
    match v with
    | None => Ret (MAP_FAILED, Some error, s)
    | Some v =>
        if negb (Z.land flags MAP_ANON =? 0) then Ret (v, None, s)
        else
          let '(nn, m, errno) := pread fd v len off (mm s) in
          let s := set_mm m s in
          if nn =? -1 then s ← free v s; Ret (MAP_FAILED, Some errno, s) else Ret (v, None, s)
    end.
End Mmap.
Definition madvise (addr len adv : Z) : Z := 0.
Definition mprotect (addr len prot : Z) : Z := 0.
Definition munmap (addr len : Z) (s : mstate) : outcome (Z * mstate) := s ← free addr s; Ret (0, s).
Definition _exit (eval : Z) : outcome unit := Halt "oh no, more exits".

(** undefs.c: a hypercall without implementation spins after a message, or
    returns 1. *)
Definition NOTHING (name : string) : outcome Z := Halt ("unimplemented: " ++ name)%string.
Definition REALNOTHING (name : string) : outcome Z := Ret 1.
Definition execve (s : cons) : Z * cons :=
  (-1, bmk_cons_puts [101; 120; 101; 99; 118; 101; 32; 110; 111; 116; 32; 105; 109; 112; 108; 101; 109; 101;
                      110; 116; 101; 100; 10] s).

(** The functions undefs.c defines, each by one of the two macros. *)
Definition undefs : list (string * (string -> outcome Z)) :=
  [("rumpuser_anonmmap", NOTHING); ("rumpuser_dl_bootstrap", REALNOTHING); ("rumpuser_daemonize_begin", NOTHING);
   ("rumpuser_daemonize_done", NOTHING); ("rumpuser_exit", NOTHING); ("rumpuser_kill", NOTHING);
   ("rumpuser_open", NOTHING); ("rumpuser_close", NOTHING); ("rumpuser_getfileinfo", REALNOTHING);
   ("rumpuser_bio", NOTHING); ("rumpuser_iovread", NOTHING); ("rumpuser_iovwrite", NOTHING);
   ("rumpuser_sp_anonmmap", NOTHING); ("rumpuser_sp_copyin", NOTHING); ("rumpuser_sp_copyinstr", NOTHING);
   ("rumpuser_sp_copyout", NOTHING); ("rumpuser_sp_copyoutstr", NOTHING); ("rumpuser_sp_fini", NOTHING);
   ("rumpuser_sp_init", NOTHING); ("rumpuser_sp_raise", NOTHING); ("rumpuser_unmap", NOTHING);
   ("__sigaction14", REALNOTHING); ("__getrusage50", NOTHING); ("__sigprocmask14", REALNOTHING);
   ("_lwp_kill", NOTHING); ("_lwp_self", NOTHING); ("__wait450", NOTHING); ("__fork", NOTHING);
   ("__vfork14", NOTHING); ("kill", NOTHING); ("getpriority", NOTHING); ("setpriority", NOTHING)].

(** A call of one of them; [None]: not a function of undefs.c. *)
Definition call_undef (name : string) : option (outcome Z) :=
  match list_find (fun d => fst d = name) undefs with Some (_, (n, f)) => Some (f n) | None => None end.

(** ** Theorems *)

(** Every function of undefs.c is defined once; all but four never return,
    with the name on the console, and those four return 1. *)
Lemma undefs_ok :
  NoDup (map fst undefs) /\
  Forall (fun n => call_undef n = Some (if decide (n ∈ ["rumpuser_dl_bootstrap"; "rumpuser_getfileinfo"; "__sigaction14"; "__sigprocmask14"])
                                        then Ret 1 else Halt ("unimplemented: " ++ n)%string)) (map fst undefs).
Proof. split; [apply (bool_decide_unpack _); vm_compute; exact I|repeat constructor]. Qed.

(** [calloc] returns zeroed memory.  For a request whose total size does
    not overflow, it acts on the allocator as a client that allocates [n *
    size] bytes and stores into nothing but them; when it succeeds, all of
    those bytes are zero. *)
Theorem calloc_correct n size s L :
  0 <= n -> 0 <= size -> n * size + header_room 8 < 2 ^ 32 -> request_fits (n * size) 8 s ->
  let '(v, s') := calloc n size s in
  rtc client_step (s, L) (s', if v =? NULL then L else (v, n * size) :: L) /\
  (v <> NULL -> forall i, 0 <= i < n * size -> rd8 (mm s') (v + i) = 0).
Proof.
  intros Hn Hs Hb Hf; assert (0 <= n * size) as Hns by (by apply Z.mul_nonneg_nonneg).
  assert (0 <= header_room 8) by (by vm_compute).
  unfold calloc, malloc; rewrite wrap_id by (unfold urange; lia).
  destruct (bmk_memalloc (n * size) 8 s) as [v s1] eqn:E.
  assert (client_step (s, L) (s1, if v =? NULL then L else (v, n * size) :: L)) as Hst.
  { apply (cl_alloc s L (n * size) 8); [unfold urange; lia|by vm_compute|by split|done]. }
  destruct (Z.eqb_spec v NULL) as [->|Hv]; cbn [negb].
  - split; [by apply rtc_once|done].
  - rewrite (proj2 (Z.eqb_neq _ _) Hv); split.
    + eapply rtc_l; [exact Hst|apply rtc_once, (cl_store s1 _ v (n * size)); [constructor|]].
      pose proof (memset_only_in (Z.to_nat (n * size)) (mm s1) v 0) as Hm; by rewrite Z2Nat.id in Hm.
    + intros _ i Hi; cbn [bmk_memset fst mm set_mm]; rewrite memset_loop_rd8, decide_True by lia; done.
Qed.

Lemma calloc_correct_witness :
  let '(v, s') := calloc 4 16 demo_s in
  rtc client_step (demo_s, []) (s', if v =? NULL then [] else (v, 4 * 16) :: []) /\
  (v <> NULL -> forall i, 0 <= i < 4 * 16 -> rd8 (mm s') (v + i) = 0).
Proof. apply (calloc_correct 4 16 demo_s []); [lia|lia|by vm_compute|fits_tac]. Defined.

(** [posix_memalign] takes the size before the alignment, the reverse of its
    standard prototype [posix_memalign(memptr, alignment, size)]: the standard
    call for 16 bytes aligned to 4096 yields a pointer that is not. *)
Theorem posix_memalign_swapped :
  exists v s', posix_memalign 4096 16 demo_s = (0, Some v, s') /\ v mod 4096 <> 0.
Proof. eexists _, _; split; [vm_compute; reflexivity|by vm_compute]. Qed.

(** [calloc] does not check the multiplication: when [n * size] exceeds
    32 bits it returns (zeroed) memory for the remainder only. *)
Theorem calloc_overflow n size s :
  0 <= n * size - 2 ^ 32 < 2 ^ 32 -> calloc n size s = calloc 1 (n * size - 2 ^ 32) s.
Proof.
  intros Hn; unfold calloc.
  assert (u32 (n * size) = u32 (1 * (n * size - 2 ^ 32))) as ->; [|done].
  unfold wrap; rewrite Z.mul_1_l; symmetry; replace (n * size - 2 ^ 32) with (n * size + (-1) * 2 ^ 32) by lia.
  apply Z.mod_add; lia.
Qed.

Lemma calloc_overflow_witness : calloc 65537 65536 demo_s = calloc 1 65536 demo_s.
Proof. apply (calloc_overflow 65537 65536 demo_s); lia. Defined.

(** [mmap] can serve a request: it is no writable file mapping, there is
    memory, and the mapping is anonymous or [pread] fills it. *)
Definition mmap_served (pread : Z -> Z -> Z -> Z -> mem -> Z * mem * Z) (PROT_READ MAP_ANON len prot flags fd off : Z)
    (s : mstate) : Prop :=
  let '(v, s1) := bmk_memalloc len PAGE_SIZE s in
  (fd = -1 \/ prot = PROT_READ) /\ v <> NULL /\
  (Z.land flags MAP_ANON <> 0 \/ fst (fst (pread fd v len off (mm s1))) <> -1).

(** [mmap] does not leak.  It succeeds exactly if the request can be
    served, and then returns an allocation of [len] bytes that the client
    holds; when memory is exhausted or [pread] (which stores only into the
    fresh bytes) fails, it returns MAP_FAILED and the client holds what it held
    before; a writable file mapping is refused without any effect. *)
Theorem mmap_correct pread PROT_READ MAP_ANON MAP_FAILED ENOTSUP addr len prot flags fd off s L :
  (forall fd v n off m, let '(_, m', _) := pread fd v n off m in only_in m m' v (v + n)) ->
  urange 32 len -> len + header_room (alloc_align PAGE_SIZE) < 2 ^ 32 -> request_fits len PAGE_SIZE s -> client_ok s L ->
  exists r e s', mmap pread PROT_READ MAP_ANON MAP_FAILED ENOTSUP addr len prot flags fd off s = Ret (r, e, s') /\
    (e = None <-> mmap_served pread PROT_READ MAP_ANON len prot flags fd off s) /\
    (e = None -> r <> NULL /\ rtc client_step (s, L) (s', (r, len) :: L)) /\
    (is_Some e -> r = MAP_FAILED /\ rtc client_step (s, L) (s', L)) /\
    (fd <> -1 -> prot <> PROT_READ -> e = Some ENOTSUP /\ s' = s).
Proof.
  intros Hp Hl Hb Hf Hok; unfold mmap, mmap_served.
  destruct (negb (fd =? -1) && negb (prot =? PROT_READ)) eqn:Eg.
  { eexists _, _, _; split; [reflexivity|]; split_and!; [|done|intros _; split; [done|apply rtc_refl]|done].
    destruct (bmk_memalloc len PAGE_SIZE s); split; [done|]; intros [? _]; lia. }
  assert (fd = -1 \/ prot = PROT_READ) as Hg by lia.
  unfold posix_memalign; destruct (bmk_memalloc len PAGE_SIZE s) as [v s1] eqn:E.
  assert (client_step (s, L) (s1, if v =? NULL then L else (v, len) :: L)) as Hst
    by (apply (cl_alloc s L len PAGE_SIZE); [done|by vm_compute|by split|done]).
  destruct (Z.eqb_spec v NULL) as [->|Hv]; cbn [negb].
  { eexists _, _, _; split; [reflexivity|]; split_and!; [|done|intros _; split; [done|by apply rtc_once]|lia].
    split; [done|]; by intros (_ & ? & _). }
  destruct (Z.eqb_spec (Z.land flags MAP_ANON) 0) as [Ha|Ha]; cbn [negb].
  2: { eexists _, _, _; split; [reflexivity|]; split_and!; [|intros _; split; [done|by apply rtc_once]|by intros [? [=]]|lia].
       split; [|done]; intros _; split_and!; [done|done|by left]. }
  specialize (Hp fd v len off (mm s1)); destruct (pread fd v len off (mm s1)) as [[nn m'] errno]; cbn [fst].
  assert (client_step (s1, (v, len) :: L) (set_mm m' s1, (v, len) :: L)) as Hw
    by (apply (cl_store s1 _ v len); [constructor|done]).
  destruct (Z.eqb_spec nn (-1)) as [->|Hn].
  - assert (client_ok (set_mm m' s1) ((v, len) :: L)) as [h Hh Hhe Hnd]
      by (eapply client_step_ok; [exact Hw|]; eapply client_step_ok; [exact Hst|done]).
    inversion Hhe as [|? ? (_ & b & k & Hbk & _) _]; subst; cbn [fst] in Hbk.
    unfold free; pose proof (memfree_used _ _ _ _ _ Hh Hbk) as Hfree; rewrite Hfree; cbn [mbind outcome_bind].
    eexists _, _, _; split; [reflexivity|]; split_and!; [|done| |lia].
    + split; [done|]; intros (_ & _ & [?|?]); lia.
    + intros _; split; [done|].
      eapply rtc_l; [exact Hst|]; eapply rtc_l; [exact Hw|]; apply rtc_once, (cl_free _ [] L v len); exact Hfree.
  - eexists _, _, _; split; [reflexivity|]; split_and!; [| |by intros [? [=]]|lia].
    + split; [|done]; intros _; split_and!; [done|done|by right].
    + intros _; split; [done|]; eapply rtc_l; [exact Hst|by apply rtc_once].
Qed.

(** A file of zeros that always reads in full, and one that fails. *)
Definition demo_pread (fd v len off : Z) (m : mem) : Z * mem * Z :=
  if fd =? 3 then (len, m, 0) else (-1, m, 5).

Lemma mmap_correct_witness :
  exists r e s', mmap demo_pread 1 0x1000 (-1) 45 0 8192 1 0 7 0 demo_s = Ret (r, e, s') /\
    (is_Some e -> r = -1 /\ rtc client_step (demo_s, []) (s', [])).
Proof.
  destruct (mmap_correct demo_pread 1 0x1000 (-1) 45 0 8192 1 0 7 0 demo_s []) as (r & e & s' & ? & _ & _ & ? & _).
  - intros fd v n off m; unfold demo_pread; destruct (fd =? 3); apply only_in_refl.
  - by vm_compute.
  - by vm_compute.
  - fits_tac.
  - exists ∅; [exact demo_ok|constructor|constructor].
  - exists r, e, s'; split; assumption.
Defined.
