(* ===== verification/Hypmacros.v ===== *)
(** * Hypmacros: the macros of include/rumpuser_int.h

    The macros a hypercall is wrapped in: reporting an error number through a
    pointer, giving up the rump kernel around a call that may block, and
    stopping on calls that must not fail.  [abort] does not return. *)
From S2P Require Import Prelude Mem Iface Sched Fiber Libc.

(** [seterror]: what is stored at [*error], if the pointer is not NULL. *)
Definition seterror (error value : Z) : option Z := if negb (error =? NULL) then Some value else None.

(** [NOFAIL] and [NOFAIL_ERRNO] on the value of their argument. *)
Definition NOFAIL (a : Z) : outcome unit := if a =? 0 then Halt "abort" else Ret tt.
Definition NOFAIL_ERRNO (fail_rv : Z) : outcome unit :=
  if negb (fail_rv =? 0) then Halt "panic: rumpuser fatal failure" else Ret tt.

(** [ET] as built on NetBSD and elsewhere, where [rumpuser__errtrans]
    translates the host's error numbers. *)
Definition ET_netbsd (v : Z) : Z := v.
Definition ET_host (rumpuser__errtrans : Z -> Z) (v : Z) : Z := if negb (v =? 0) then rumpuser__errtrans v else 0.

Section Wrap.
Context {H : Type} `{HeapOps H}.
Variable hyp_backend_unschedule : Z -> fib H -> outcome (Z * fib H).
Variable hyp_backend_schedule : Z -> Z -> fib H -> outcome (fib H).
Local Abbreviation rumpkern_unsched := (rumpkern_unsched hyp_backend_unschedule).
Local Abbreviation rumpkern_sched := (rumpkern_sched hyp_backend_schedule).

Definition KLOCK_WRAP (a : fib H -> outcome (fib H)) (s : fib H) : outcome (fib H) :=
  '(nlocks, s) ← rumpkern_unsched NULL s;
  s ← a s;
  rumpkern_sched nlocks NULL s.

(** The result, what is stored at [*error], and the state; [errno] is that of
    the current thread when the call has returned. *)
Definition DOCALL (error : Z) (call : fib H -> outcome (Z * fib H)) (s : fib H) : outcome (Z * option Z * fib H) :=
  '(rv, s) ← call s;
  Ret (rv, if rv =? -1 then seterror error (errno (sc s)) else seterror error 0, s).

Definition DOCALL_KLOCK (error : Z) (call : fib H -> outcome (Z * fib H)) (s : fib H) : outcome (Z * option Z * fib H) :=
  '(nlocks, s) ← rumpkern_unsched NULL s;
  '(rv, s) ← call s;
  s ← rumpkern_sched nlocks NULL s;
  Ret (rv, if rv =? -1 then seterror error (errno (sc s)) else seterror error 0, s).

(** What the rump kernel promises of its two upcalls: the first gives up all
    the locks it counts and says how many, the second takes that many again
    and does not touch the error number of the thread. *)
Class KernelLock := {
  klocks : fib H -> Z;
  unschedule_gives : forall i s, exists s', hyp_backend_unschedule i s = Ret (klocks s, s') /\ klocks s' = 0;
  schedule_takes : forall n i s, klocks s = 0 -> exists s', hyp_backend_schedule n i s = Ret s' /\ klocks s' = n /\
    errno (sc s') = errno (sc s);
}.
Context `{KernelLock}.

(** A call that runs, and ends, without the rump kernel. *)
Definition unlocked {A} (call : fib H -> outcome (A * fib H)) : Prop :=
  forall s, klocks s = 0 -> exists rv s', call s = Ret (rv, s') /\ klocks s' = 0.

(** The locks given up around a call are the locks held after it: a wrapped
    call returns what the call returned, with the lock count of before, and
    reports [errno] for -1 and 0 otherwise, if there is a place to report. *)
Theorem docall_klock_restores error call s :
  unlocked call ->
  exists s1 rv s2 s', hyp_backend_unschedule NULL s = Ret (klocks s, s1) /\ call s1 = Ret (rv, s2) /\
    DOCALL_KLOCK error call s =
      Ret (rv, (if decide (error = NULL) then None
                else Some (if decide (rv = -1) then errno (sc s2) else 0)), s') /\
    klocks s' = klocks s /\
    KLOCK_WRAP (fun s => '(_, s) ← call s; Ret s) s = Ret s'.
Proof.
  intros Hc; destruct (unschedule_gives NULL s) as (s1 & Hu & Hk1); destruct (Hc s1 Hk1) as (rv & s2 & Hr & Hk2).
  destruct (schedule_takes (klocks s) NULL s2 Hk2) as (s' & Hs & Hk & He).
  exists s1, rv, s2, s'; split_and!; [done|done| |done|].
  - unfold DOCALL_KLOCK, Fiber.rumpkern_unsched, Fiber.rumpkern_sched, seterror; rewrite Hu; cbn [mbind outcome_bind].
    rewrite Hr; cbn [mbind outcome_bind]; rewrite Hs; cbn [mbind outcome_bind]; rewrite He.
    destruct (Z.eqb_spec rv (-1)), (Z.eqb_spec error NULL); repeat case_decide; done.
  - unfold KLOCK_WRAP, Fiber.rumpkern_unsched, Fiber.rumpkern_sched; rewrite Hu; cbn [mbind outcome_bind].
    by rewrite Hr.
Qed.

(** Without the locks: the same report. *)
Lemma docall_reports error call s rv s' : call s = Ret (rv, s') ->
  DOCALL error call s = Ret (rv, (if decide (error = NULL) then None
    else Some (if decide (rv = -1) then errno (sc s') else 0)), s').
Proof.
  intros Hc; unfold DOCALL, seterror; rewrite Hc; cbn [mbind outcome_bind].
  destruct (Z.eqb_spec rv (-1)), (Z.eqb_spec error NULL); repeat case_decide; done.
Qed.
End Wrap.

(** The error translation does not turn success into failure; where the host
    is NetBSD the numbers are the rump kernel's own. *)
Lemma ET_ok trans v : (ET_host trans v = if decide (v = 0) then 0 else trans v) /\ ET_netbsd v = v.
Proof. unfold ET_host; destruct (Z.eqb_spec v 0); case_decide; done. Qed.
Lemma nofail_ok a : (NOFAIL a = Ret tt <-> a <> 0) /\ (NOFAIL_ERRNO a = Ret tt <-> a = 0).
Proof. unfold NOFAIL, NOFAIL_ERRNO; destruct (Z.eqb_spec a 0); cbn; naive_solver. Qed.
