(* ===== verification/Boot.v ===== *)
(** * Boot: from the boot loader to a running kernel (kernel.c)

    [parsemem] finds the machine's memory in the memory map the boot loader
    left, and [bmk_main] brings up the parts of the kernel in order.  The
    theorem at the end says that what it brings up satisfies the invariants of
    the allocator, the scheduler and the interrupt thread. *)
From S2P Require Import Prelude Mem Subr Pages Memalloc Heap Iface Alloc Sched SchedThms Console Machdep Intr.

(** ** The memory map *)

(** A flag of the multiboot header (the kernel asks for memory information),
    and two flags of the information structure the boot loader passes. *)
Definition MULTIBOOT_MEMORY_INFO : Z := 0x00000002.
Definition MULTIBOOT_INFO_BOOTDEV : Z := 0x00000002.
Definition MULTIBOOT_INFO_MEM_MAP : Z := 0x00000040.
Definition MULTIBOOT_MEMORY_AVAILABLE : Z := 1.

(** [struct multiboot_mmap_entry] is packed: size, addr, len, type. *)
Definition rd64 (m : mem) (a : Z) : Z := rd32 m a + 2 ^ 32 * rd32 m (a + 4).
Definition mbm_size (m : mem) (mbm : Z) : Z := rd32 m mbm.
Definition mbm_addr (m : mem) (mbm : Z) : Z := rd64 m (mbm + 4).
Definition mbm_len (m : mem) (mbm : Z) : Z := rd64 m (mbm + 12).
Definition mbm_type (m : mem) (mbm : Z) : Z := rd32 m (mbm + 20).

(** The fields of [struct multiboot_info] that the kernel reads. *)
Definition mbi_flags (m : mem) (mbi : Z) : Z := rd32 m mbi.
Definition mbi_mmap_length (m : mem) (mbi : Z) : Z := rd32 m (mbi + 44).
Definition mbi_mmap_addr (m : mem) (mbi : Z) : Z := rd32 m (mbi + 48).

(** The search loop: the value of [off] when it ends. *)
Fixpoint parsemem_loop (fuel : nat) (m : mem) (addr len off : Z) : option Z :=
  if off <? len then
    let mbm := u32 (addr + off) in
    if (mbm_addr m mbm =? MEMSTART) && (mbm_type m mbm =? MULTIBOOT_MEMORY_AVAILABLE) then Some off
    else match fuel with
         | O => None
         | S fuel => parsemem_loop fuel m addr len (u32 (off + u32 (mbm_size m mbm + 4)))
         end
  else Some off.

(** [_begin] and [_end] are the addresses the linker script defines. *)
Definition parsemem (fuel : nat) (_begin _end : Z) (m : mem) (addr len : Z) : option (outcome pgstate) :=
  off ← parsemem_loop fuel m addr len 0;
  Some (_ ← c_assert (off <? len) "off < len";
        let mbm := u32 (addr + off) in
        let memsize := u32 (mbm_len m mbm) in
        let ossize := u32 (round_page _end - _begin) in
        Ret (PgState (u32 (u64 (mbm_addr m mbm + ossize))) (u32 (memsize - ossize)) 0)).

(** ** Bringing up the kernel *)

(** What the image provides: its bounds, the stubs, and the address of
    [init_thread], of the bouncer and of the function [isr]. *)
Record image := Image {
  i_begin : Z; i_end : Z; i_addrs : addrs; i_init_thread : Z; i_bouncer : Z; i_isr : Z }.

Definition banner : list Z :=
  [114; 117; 109; 112; 32; 107; 101; 114; 110; 101; 108; 32; 98; 97; 114; 101; 32; 109; 101; 116; 97; 108; 32;
   98; 111; 111; 116; 115; 116; 114; 97; 112; 10; 10].
Definition nomeminfo : list Z :=
  [109; 117; 108; 116; 105; 98; 111; 111; 116; 32; 109; 101; 109; 111; 114; 121; 32; 105; 110; 102; 111; 32;
   110; 111; 116; 32; 97; 118; 97; 105; 108; 97; 98; 108; 101; 10].

(** The part of [bmk_main] after the check of the flags. *)
Definition kernel_up (fuel : nat) (I : image) (mmap_addr mmap_length : Z) (m : mem) (k : cons) (c : cpu)
    : option (outcome (isrst mstate)) :=
  p ← parsemem fuel (i_begin I) (i_end I) m mmap_addr mmap_length;
  Some (p ← (p : outcome pgstate);
        c ← bmk_cpu_init (i_addrs I) c;
        let sch := bmk_sched_init (i_init_thread I) (memalloc_boot m p) in
        '(_, s) ← bmk_isr_init (i_bouncer I) (i_isr I) (Isr ∅ 0 NULL c sch k);
        Ret s).

(** [bmk_main] with BMK_APP undefined: the kernel, or, if it returned early,
    what is on the console. *)
Definition bmk_main (fuel : nat) (I : image) (mbi : Z) (m : mem) (k : cons) (c : cpu)
    : option (outcome (isrst mstate)) + cons :=
  let k := bmk_cons_puts banner k in
  if Z.land (mbi_flags m mbi) MULTIBOOT_MEMORY_INFO =? 0 then inr (bmk_cons_puts nomeminfo k)
  else inl (kernel_up fuel I (mbi_mmap_addr m mbi) (mbi_mmap_length m mbi) m k c).

(** ** Reading the memory map *)

(** An entry of the map as the boot loader means it. *)
Record region := Region { r_size : Z; r_addr : Z; r_len : Z; r_type : Z }.

(** The entries [es] lie at [a], one after the other. *)
Fixpoint mmap_at (m : mem) (a : Z) (es : list region) : Prop :=
  match es with
  | [] => True
  | e :: es => mbm_size m a = r_size e /\ mbm_addr m a = r_addr e /\ mbm_len m a = r_len e /\
      mbm_type m a = r_type e /\ mmap_at m (a + r_size e + 4) es
  end.
Definition mmap_length (es : list region) : Z := foldr (fun e n => r_size e + 4 + n) 0 es.
Definition is_ours (e : region) : bool := (r_addr e =? MEMSTART) && (r_type e =? MULTIBOOT_MEMORY_AVAILABLE).

Lemma mmap_length_nonneg es : Forall (fun e => 0 <= r_size e) es -> 0 <= mmap_length es.
Proof.
  induction 1 as [|e es ? ? IH]; [done|].
  change (mmap_length (e :: es)) with (r_size e + 4 + mmap_length es); lia.
Qed.

Lemma parsemem_loop_spec es m addr off fuel :
  Forall (fun e => 0 <= r_size e) es -> mmap_at m (addr + off) es -> 0 <= addr -> 0 <= off ->
  addr + off + mmap_length es < 2 ^ 32 -> (length es <= fuel)%nat ->
  let len := off + mmap_length es in
  match list_find (fun e => is_ours e = true) es with
  | Some (_, e) => exists o, parsemem_loop fuel m addr len off = Some o /\ o < len /\
      mbm_addr m (u32 (addr + o)) = r_addr e /\ mbm_len m (u32 (addr + o)) = r_len e
  | None => parsemem_loop fuel m addr len off = Some len
  end.
Proof.
  intros HF; revert off fuel; induction HF as [|e es He HF IH]; intros off fuel Hm Ha Ho Hb Hf len; cbn [list_find].
  - unfold len, mmap_length; cbn [foldr]; rewrite Z.add_0_r; destruct fuel; cbn [parsemem_loop]; by rewrite Z.ltb_irrefl.
  - destruct Hm as (H1 & H2 & H3 & H4 & Hm); pose proof (mmap_length_nonneg _ HF).
    assert (len = off + (r_size e + 4 + mmap_length es)) as Elen by done; cbn [mmap_length foldr] in Hb.
    fold (mmap_length es) in Hb; destruct fuel as [|fuel]; [cbn in Hf; lia|].
    cbn [parsemem_loop]; rewrite (proj2 (Z.ltb_lt off len)) by lia; rewrite (wrap_id 32 (addr + off)) by (unfold urange; lia).
    rewrite H2, H4; fold (is_ours e); destruct (is_ours e) eqn:Eo.
    + rewrite decide_True by done; exists off; split_and!; [done|lia| |]; by rewrite wrap_id by (unfold urange; lia).
    + rewrite decide_False by done; rewrite H1, (wrap_id 32 (r_size e + 4)), wrap_id by (unfold urange; lia).
      specialize (IH (off + (r_size e + 4)) fuel).
      replace (addr + (off + (r_size e + 4))) with (addr + off + r_size e + 4) in IH by lia.
      replace (off + (r_size e + 4) + mmap_length es) with len in IH by lia.
      cbn in Hf; specialize (IH Hm Ha ltac:(lia) ltac:(lia) ltac:(lia)).
      destruct (list_find (fun e => is_ours e = true) es) as [[i e']|]; exact IH.
Qed.

(** The image starts where memory starts, below [_end], and memory is large
    enough for it and does not reach the end of the address space. *)
Definition image_fits (I : image) (r : region) : Prop :=
  i_begin I = MEMSTART /\ MEMSTART < i_end I /\ i_end I + PAGE_SIZE <= 2 ^ 32 /\
  round_page (i_end I) <= MEMSTART + r_len r < 2 ^ 32.

Lemma parsemem_found fuel I m addr es i r :
  Forall (fun e => 0 <= r_size e) es -> mmap_at m addr es -> 0 <= addr -> addr + mmap_length es < 2 ^ 32 ->
  (length es <= fuel)%nat -> list_find (fun e => is_ours e = true) es = Some (i, r) -> image_fits I r ->
  parsemem fuel (i_begin I) (i_end I) m addr (mmap_length es) =
    Some (Ret (PgState (round_page (i_end I)) (MEMSTART + r_len r - round_page (i_end I)) 0)).
Proof.
  intros HF Hm Ha Hb Hf Hl (Hbeg & Hend & Hend' & Hlen & Htop); unfold parsemem.
  pose proof (parsemem_loop_spec es m addr 0 fuel HF ltac:(by rewrite Z.add_0_r) Ha ltac:(lia) ltac:(lia) Hf) as Hp.
  cbn zeta in Hp; rewrite Z.add_0_l, Hl in Hp; destruct Hp as (o & -> & Ho & Hra & Hrl).
  cbn [mbind option_bind]; rewrite (proj2 (Z.ltb_lt _ _) Ho); cbn [c_assert mbind outcome_bind].
  rewrite Hra, Hrl, Hbeg.
  destruct (round_page_spec (i_end I)) as [Hr _]; [unfold MEMSTART in *; lia|done|].
  assert (is_ours r = true) as Hr1 by (by apply list_find_Some in Hl as (_ & ? & _)).
  apply andb_true_iff in Hr1 as [->%Z.eqb_eq _].
  rewrite (wrap_id 32 (r_len r)), (wrap_id 32 (_ - MEMSTART)) by (unfold urange, MEMSTART in *; lia).
  replace (MEMSTART + (round_page (i_end I) - MEMSTART)) with (round_page (i_end I)) by lia.
  rewrite (wrap_id 64), !(wrap_id 32) by (unfold urange, MEMSTART in *; lia).
  do 2 apply f_equal; f_equal; lia.
Qed.

(** [parsemem] finds the machine's memory.  For a well-formed memory map
    it ends; if the map has an available region at 1 MB, the first such region
    without the kernel image becomes the memory of the page allocator, page
    aligned and well-formed; otherwise its assertion fails. *)
Theorem parsemem_correct fuel I m addr es :
  Forall (fun e => 0 <= r_size e) es -> mmap_at m addr es -> 0 <= addr -> addr + mmap_length es < 2 ^ 32 ->
  (length es <= fuel)%nat ->
  match list_find (fun e => is_ours e = true) es with
  | Some (_, r) => image_fits I r -> exists p,
      parsemem fuel (i_begin I) (i_end I) m addr (mmap_length es) = Some (Ret p) /\ pg_wf p /\
      i_end I <= bmk_membase p /\ bmk_membase p + bmk_memsize p = MEMSTART + r_len r /\ pg_current p = 0
  | None => parsemem fuel (i_begin I) (i_end I) m addr (mmap_length es) = Some (c_panic "off < len")
  end.
Proof.
  intros HF Hm Ha Hb Hf; destruct (list_find (fun e => is_ours e = true) es) as [[i r]|] eqn:El.
  - intros Hfit; rewrite (parsemem_found fuel I m addr es i r) by done; eexists; split; [reflexivity|].
    destruct Hfit as (_ & Hend & Hend' & Hlen & Htop).
    destruct (round_page_spec (i_end I)) as [Hr Hr0]; [unfold MEMSTART in *; lia|done|].
    unfold pg_wf; cbn; split_and!; unfold MEMSTART in *; lia || done.
  - pose proof (parsemem_loop_spec es m addr 0 fuel HF ltac:(by rewrite Z.add_0_r) Ha ltac:(lia) ltac:(lia) Hf) as Hp.
    cbn zeta in Hp; rewrite Z.add_0_l, El in Hp; unfold parsemem; rewrite Hp; cbn [mbind option_bind].
    by rewrite Z.ltb_irrefl.
Qed.

(** ** The allocator can serve the first thread *)

Lemma bucket_of_thread s : inited s -> alloc_bucket s (alloc_bytes SIZEOF_THREAD (alloc_align 0)) = Some 2.
Proof. intros [Hp Hb]; unfold alloc_bucket; rewrite Hp, Hb; reflexivity. Qed.
Lemma bucket_of_stack s : inited s -> alloc_bucket s (alloc_bytes THREAD_STACKSIZE (alloc_align 0)) = Some 12.
Proof. intros [Hp Hb]; unfold alloc_bucket; rewrite Hp, Hb; reflexivity. Qed.

Lemma first_alloc_state m p : pg_current p = 0 ->
  let x := snd (bmk_memalloc SIZEOF_THREAD 0 (memalloc_boot m p)) in inited x /\ 0 <= pg_current (pages x) <= 1.
Proof.
  intros Hp; unfold bmk_memalloc.
  set (s0 := memalloc_init (memalloc_boot m p)); assert (inited s0) as Hi by done.
  change (negb (Z.land 0 (u32 (0 - 1)) =? 0)) with false; cbv iota; rewrite (bucket_of_thread s0 Hi).
  change (get_nextf s0 2 =? NULL) with true; cbv iota.
  destruct (morecore_shape 2 s0 Hi ltac:(lia)) as (n & _ & ->).
  assert (pg_current (snd (bmk_allocpg (core_pages 2) (pages s0))) = 1) as Hc.
  { unfold bmk_allocpg; change (pages s0) with p; rewrite Hp.
    destruct (_ <? _); reflexivity. }
  destruct (bmk_allocpg (core_pages 2) (pages s0)) as [op q]; cbn [snd] in Hc.
  destruct (op =? NULL); cbn [snd]; (destruct (get_nextf _ 2 =? NULL); cbn [snd]; [|]);
    (split; [exact Hi|cbn; lia]).
Qed.

Lemma boot_served m p : pg_wf p -> pg_current p = 0 -> create_served (memalloc_boot m p).
Proof.
  intros Hw Hc; split.
  - change (request_fits SIZEOF_THREAD 0 (memalloc_boot m p)); intros k.
    rewrite bucket_of_thread by done; intros [= <-]; change (pages (memalloc_boot m p)) with p.
    split; [by vm_compute|rewrite Hc; by vm_compute].
  - intros q x E; change (bmk_xmalloc SIZEOF_THREAD (memalloc_boot m p) = Ret (q, x)) in E; unfold bmk_xmalloc in E.
    destruct (first_alloc_state m p Hc) as [Hi Hpc].
    destruct (bmk_memalloc SIZEOF_THREAD 0 (memalloc_boot m p)) as [rv y]; cbn [snd] in Hi, Hpc.
    destruct (rv =? NULL); [done|]; injection E as _ ->; change (request_fits THREAD_STACKSIZE 0 x); intros k.
    assert (memalloc_init x = x) as -> by (unfold memalloc_init; destruct Hi as [-> _]; done).
    rewrite bucket_of_stack by done; intros [= <-]; change (core_pages 12) with 32.
    split; [lia|unfold PAGE_SIZE; lia].
Qed.

Lemma netisr_create_fails bouncer isr (sch : sched mstate) msg :
  bmk_sched_create bouncer netisr_name NULL 0 isr NULL NULL 0 sch = Halt msg -> msg = "xmalloc failed".
Proof.
  unfold bmk_sched_create, stackalloc; cbn [h_xmalloc memalloc_ops]; unfold bmk_xmalloc.
  destruct (bmk_memalloc SIZEOF_THREAD 0 (hp sch)) as [v1 s1].
  destruct (v1 =? NULL); [intros E; injection E as <-; reflexivity|].
  change (NULL =? NULL) with true; cbn [mbind outcome_bind c_assert Z.eqb].
  destruct (bmk_memalloc THREAD_STACKSIZE 0 s1) as [v2 s2].
  destruct (v2 =? NULL); [intros E; injection E as <-; reflexivity|].
  cbn [mbind outcome_bind]; destruct (bmk_cpu_sched_create _ _ _ _) as [sp h2]; discriminate.
Qed.

(** [bmk_isr_init] on a freshly initialised scheduler. *)
Lemma isr_init_spec init bouncer isr m p k c :
  pg_wf p -> pg_current p = 0 -> init < bmk_membase p -> bmk_spldepth c = 0 -> irq_on c = true ->
  match bmk_isr_init bouncer isr (Isr ∅ 0 NULL c (bmk_sched_init init (memalloc_boot m p)) k) with
  | Ret (_, s) => exists L, sched_inv init (isc s, L) /\ isr_inv (ICfg s 0 isr_head tt) /\
      threads (isc s) = [isr_thread s; init] /\ current_thread (isc s) = init /\
      isr_runs s = true /\ isr_todo s = 0 /\ irq_on (icpu s) = true /\ icons s = k
  | Halt msg => msg = "xmalloc failed"
  end.
Proof.
  intros Hw Hc Hit Hd Hon; set (h := memalloc_boot m p); set (sch := bmk_sched_init init h).
  assert (sched_inv init (sch, ∅)) as Hinv.
  { apply sched_inv_boot; [|exact Hit]. exists ∅; split; [by apply boot_ok|]; intros q n; by rewrite lookup_empty. }
  assert (create_served (hp sch)) as Hsrv by (by apply boot_served).
  assert (NULL <> NULL -> stack_given ∅ NULL 0) as Hst by (by intros []).
  unfold bmk_isr_init; cbn [isc set_ih].
  destruct (bmk_sched_create bouncer netisr_name NULL 0 isr NULL NULL 0 sch) as [[t x]|msg] eqn:Ec;
    cbn [mbind outcome_bind].
  - pose proof (sched_inv_create _ _ _ _ _ _ _ _ _ _ _ _ _ Hinv Hsrv Hst Ec) as Hinv'.
    destruct (sched_create_spec _ _ _ _ _ _ _ _ _ _ _ ∅ (si_heap _ _ Hinv) Hsrv Hst Ec)
      as (th & h' & Ex & _ & Hrun & _ & Hns & _).
    assert (t <> NULL) as Ht.
    { intros ->; apply Hns; change (NULL < bmk_membase p); destruct Hw as (? & _); unfold NULL; lia. }
    rewrite (proj2 (Z.eqb_neq _ _) Ht); exists (thread_allocs t (getthr (thr x) t) ∅).
    cbn [isc isr_thread isr_todo icons set_isr_thread set_isc set_ih].
    assert (threads x = [t; init] /\ current_thread x = init /\ thr x !! t = Some th) as (E1 & E2 & E3).
    { rewrite Ex; split_and!; [reflexivity|reflexivity|apply lookup_insert_eq]. }
    split_and!; [exact Hinv'| |exact E1|exact E2| |reflexivity|exact Hon|reflexivity].
    + split; cbn [ig_s ig_copy ig_code set_isr_thread set_isc icpu isc isr_thread isr_todo set_ih];
        [rewrite E3; by eexists|by vm_compute|by apply at_splhigh].
    + unfold isr_runs; cbn [set_isr_thread set_isc isc isr_thread]; rewrite (getthr_Some _ _ _ E3); exact Hrun.
  - by apply netisr_create_fails in Ec.
Qed.

Lemma cpu_init_depth a c : bmk_spldepth c = 1 -> exists c', bmk_cpu_init a c = Ret c' /\ bmk_spldepth c' = 0 /\ irq_on c' = true.
Proof.
  intros Hd; set (s1 := emit (Lidt (256 * 8 - 1) (a_idt a)) (emit (Lgdt (3 * 8 - 1) (a_gdt a))
                          (set_segment 2 SDT_MEMRWA (set_segment 1 SDT_MEMERA c)))).
  destruct (fill_gates_spec 32 (bmk_cpu_insr a) s1 0) as (_ & _ & Hdep & _).
  unfold bmk_cpu_init; fold s1; set (s2 := fill_gates 32 (bmk_cpu_insr a) s1) in *.
  change (bmk_spldepth s1) with (bmk_spldepth c) in Hdep; rewrite Hd in Hdep; clearbody s2.
  unfold spl0; cbn [bmk_spldepth set_depth emit outb initpic set_gate]; rewrite Hdep.
  change (1 =? 0) with false; change (i32 (1 - 1) =? 0) with true; cbv iota; eexists; split_and!; [reflexivity|reflexivity|].
  unfold irq_on; cbn [trace emit]; by rewrite foldl_app.
Qed.

Lemma kernel_up_spec fuel I addr es i r m k c :
  Forall (fun e => 0 <= r_size e) es -> mmap_at m addr es -> 0 <= addr -> addr + mmap_length es < 2 ^ 32 ->
  (length es <= fuel)%nat -> list_find (fun e => is_ours e = true) es = Some (i, r) -> image_fits I r ->
  i_init_thread I < round_page (i_end I) -> bmk_spldepth c = 1 ->
  match kernel_up fuel I addr (mmap_length es) m k c with
  | Some (Ret s) => exists L,
      sched_inv (i_init_thread I) (isc s, L) /\ isr_inv (ICfg s 0 isr_head tt) /\
      threads (isc s) = [isr_thread s; i_init_thread I] /\ current_thread (isc s) = i_init_thread I /\
      isr_runs s = true /\ isr_todo s = 0 /\ irq_on (icpu s) = true /\ icons s = k
  | Some (Halt msg) => msg = "xmalloc failed"
  | None => False
  end.
Proof.
  intros HF Hm Ha Hb Hf Hl Hfit Hit Hd; unfold kernel_up.
  rewrite (parsemem_found fuel I m addr es i r) by done; cbn [mbind option_bind].
  destruct (cpu_init_depth (i_addrs I) c Hd) as (c' & Hc' & Hd' & Hon).
  destruct Hfit as (_ & Hend & Hend' & Hlen & Htop).
  destruct (round_page_spec (i_end I)) as [Hr Hr0]; [unfold MEMSTART in *; lia|done|].
  set (p := PgState _ _ 0).
  assert (pg_wf p) as Hw by (unfold pg_wf; cbn; split_and!; unfold MEMSTART in *; lia || done).
  pose proof (isr_init_spec (i_init_thread I) (i_bouncer I) (i_isr I) m p k c' Hw eq_refl Hit Hd' Hon) as Hx.
  cbn [mbind outcome_bind]; rewrite Hc'; cbn [mbind outcome_bind].
  destruct (bmk_isr_init _ _ _) as [[rv s]|msg]; exact Hx.
Qed.

(** C4: the kernel boots into a state in which every component's invariant
    holds.  With a multiboot memory map that has the kernel's memory,
    [bmk_main] ends with two threads, the running [init] and the runnable
    [netisr] in front of it, owning the memory the allocator gave them, with
    no interrupt pending and interrupts enabled; the only way it can fail is
    to run out of memory while creating [netisr].  It returns early, with a
    message, if and only if the flag it tests is clear.  The map is assumed to
    lie below 4 GB, to have the kernel's memory with the kernel's image in it,
    and the initial thread to lie inside the image. *)
Theorem boot_correct fuel I mbi es i r m k c :
  Forall (fun e => 0 <= r_size e) es -> mmap_at m (mbi_mmap_addr m mbi) es -> mbi_mmap_length m mbi = mmap_length es ->
  mbi_mmap_addr m mbi + mmap_length es < 2 ^ 32 ->
  (length es <= fuel)%nat -> list_find (fun e => is_ours e = true) es = Some (i, r) -> image_fits I r ->
  i_init_thread I < round_page (i_end I) -> bmk_spldepth c = 1 ->
  ((exists k', bmk_main fuel I mbi m k c = inr k') <-> Z.land (mbi_flags m mbi) MULTIBOOT_MEMORY_INFO = 0) /\
  match bmk_main fuel I mbi m k c with
  | inl (Some (Ret s)) => exists L,
      sched_inv (i_init_thread I) (isc s, L) /\ isr_inv (ICfg s 0 isr_head tt) /\
      threads (isc s) = [isr_thread s; i_init_thread I] /\ current_thread (isc s) = i_init_thread I /\
      isr_runs s = true /\ isr_todo s = 0 /\ irq_on (icpu s) = true /\ icons s = bmk_cons_puts banner k
  | inl (Some (Halt msg)) => msg = "xmalloc failed"
  | inl None => False
  | inr k' => k' = bmk_cons_puts nomeminfo (bmk_cons_puts banner k)
  end.
Proof.
  intros HF Hm Hln Hb Hf Hl Hfit Hit Hd; unfold bmk_main; rewrite Hln.
  destruct (Z.eqb_spec (Z.land (mbi_flags m mbi) MULTIBOOT_MEMORY_INFO) 0) as [E|E].
  { split; [split; [intros _; exact E|intros _; by eexists]|reflexivity]. }
  split; [split; [by intros [k' Hk']|done]|]; pose proof (rd32_range m (mbi + 48)) as [Ha _].
  exact (kernel_up_spec fuel I _ es i r m (bmk_cons_puts banner k) c HF Hm Ha Hb Hf Hl Hfit Hit Hd).
Qed.

(** The flag it tests is one of the multiboot header; among the flags of the
    information structure the same bit announces the boot device.  A boot
    loader that announces a memory map and no boot device is refused, and one
    that announces a boot device and no memory map is believed: the fields of
    a map that need not be there are read. *)
Lemma main_memmap_flag fuel I mbi m k c :
  (mbi_flags m mbi = MULTIBOOT_INFO_MEM_MAP ->
     bmk_main fuel I mbi m k c = inr (bmk_cons_puts nomeminfo (bmk_cons_puts banner k))) /\
  (mbi_flags m mbi = MULTIBOOT_INFO_BOOTDEV ->
     bmk_main fuel I mbi m k c = inl (kernel_up fuel I (mbi_mmap_addr m mbi) (mbi_mmap_length m mbi) m (bmk_cons_puts banner k) c)).
Proof. unfold bmk_main; split; intros ->; reflexivity. Qed.

(** ** A concrete machine: 640 KB low memory and 64 MB from 1 MB on. *)

Definition put_region (a : Z) (e : region) (m : mem) : mem :=
  let m := wr32 m a (r_size e) in
  let m := wr32 (wr32 m (a + 4) (r_addr e)) (a + 8) 0 in
  let m := wr32 (wr32 m (a + 12) (r_len e)) (a + 16) 0 in
  wr32 m (a + 20) (r_type e).
Definition demo_regions : list region :=
  [Region 20 0 0xa0000 1; Region 20 0xf0000 0x10000 2; Region 20 0x100000 0x4000000 1].
Definition demo_map : mem :=
  put_region 0x9000 (Region 20 0 0xa0000 1) (put_region 0x9018 (Region 20 0xf0000 0x10000 2)
    (put_region 0x9030 (Region 20 0x100000 0x4000000 1) ∅)).
Definition demo_image : image := Image 0x100000 0x1f1234 demo_addrs 0x101000 0x100900 0x100a00.

Lemma demo_map_ok : mmap_at demo_map 0x9000 demo_regions.
Proof. cbn [mmap_at demo_regions]; split_and!; vm_compute; reflexivity || exact I. Qed.
Lemma demo_found : list_find (fun e => is_ours e = true) demo_regions = Some (2%nat, Region 20 0x100000 0x4000000 1).
Proof. vm_compute; reflexivity. Qed.
Lemma demo_image_fits : image_fits demo_image (Region 20 0x100000 0x4000000 1).
Proof. unfold image_fits; split_and!; by vm_compute. Qed.

Lemma parsemem_correct_witness :
  exists p, parsemem 3 0x100000 0x1f1234 demo_map 0x9000 (mmap_length demo_regions) = Some (Ret p) /\ pg_wf p /\
    bmk_membase p + bmk_memsize p = 0x4100000.
Proof.
  pose proof (parsemem_correct 3 demo_image demo_map 0x9000 demo_regions) as Hp; rewrite demo_found in Hp.
  destruct Hp as (p & ? & ? & _ & ? & _).
  - repeat constructor; cbn; lia.
  - exact demo_map_ok.
  - lia.
  - by vm_compute.
  - cbn; lia.
  - exact demo_image_fits.
  - exists p; split_and!; assumption.
Defined.

(** The information structure at 0x8000: flags, and where the map is. *)
Definition demo_boot : mem := wr32 (wr32 (wr32 demo_map 0x8000 0x42) (0x8000 + 44) 72) (0x8000 + 48) 0x9000.
Lemma demo_boot_ok : mmap_at demo_boot 0x9000 demo_regions.
Proof. cbn [mmap_at demo_regions]; split_and!; vm_compute; reflexivity || exact I. Qed.

Lemma boot_correct_witness :
  exists s L, bmk_main 3 demo_image 0x8000 demo_boot (Cons ∅ 0 0) (Cpu ∅ ∅ 1 []) = inl (Some (Ret s)) /\
    sched_inv 0x101000 (isc s, L) /\ isr_inv (ICfg s 0 isr_head tt).
Proof.
  pose proof (boot_correct 3 demo_image 0x8000 demo_regions 2%nat (Region 20 0x100000 0x4000000 1) demo_boot
    (Cons ∅ 0 0) (Cpu ∅ ∅ 1 []) ltac:(repeat constructor; cbn; lia) demo_boot_ok eq_refl ltac:(by vm_compute)
    ltac:(cbn; lia) demo_found demo_image_fits ltac:(by vm_compute) eq_refl) as Hb.
  assert (match bmk_main 3 demo_image 0x8000 demo_boot (Cons ∅ 0 0) (Cpu ∅ ∅ 1 []) with
          | inl (Some (Ret _)) => true | _ => false end = true) as Er by (vm_compute; reflexivity).
  destruct (bmk_main 3 demo_image 0x8000 demo_boot (Cons ∅ 0 0) (Cpu ∅ ∅ 1 [])) as [[[s|msg]|]|k']; try discriminate Er.
  destruct Hb as (_ & L & ? & ? & _); exists s, L; split_and!; [reflexivity|assumption|assumption].
Defined.
