(* ===== verification/ThreadCreate.v ===== *)
(** * ThreadCreate: thread creation, with allocator and scheduler in one memory

    [bmk_sched_create] takes a thread structure and a stack from memalloc.c,
    fills them in byte by byte, and links the structure into the run queue.
    Here the block headers of the allocator, the thread structures with their
    queues, the stacks and the name all lie in the memory of one [mstate]; the
    theorem says that creation keeps them apart and refines [bmk_sched_create]
    of Sched. *)
From S2P Require Import Prelude Mem Subr Pages Memalloc Heap Iface Alloc Sched SchedThms Cells Tailq TailqOps SchedMem Boot.

(** ** Memory that clients of the allocator own *)

(** A byte in static storage, or in an allocation that is held. *)
Definition client_byte (s : mstate) (L : gmap Z Z) (x : Z) : Prop :=
  0 <= x < bmk_membase (pages s) \/ exists p n, L !! p = Some n /\ p <= x < p + n.
Definition client_word (s : mstate) (L : gmap Z Z) (a : Z) : Prop :=
  0 <= a /\ a + 4 <= bmk_membase (pages s) \/ exists p n, L !! p = Some n /\ p <= a /\ a + 4 <= p + n.

Lemma client_word_bytes s L a x : client_word s L a -> a <= x < a + 4 -> client_byte s L x.
Proof. intros [?|(p & n & ? & ? & ?)] ?; [left; lia|right; exists p, n; split; [done|lia]]. Qed.

(** The allocator keeps nothing in what its clients own: whatever they store
    there, the heap is as it was. *)
Lemma client_write_inv s L m' :
  memalloc_inv s L -> (forall x, ~ client_byte s L x -> rd8 m' x = rd8 (mm s) x) -> memalloc_inv (set_mm m' s) L.
Proof.
  intros (h & Hok & HL) Hx; exists h; split; [|done].
  pose proof Hok as [Hi Hp Hn Hm Hd Hf Hu]; constructor; cbn [pagesz pagebucket pages nextf mm set_mm]; try done.
  - intros k Hk; destruct (Hf k Hk) as (l & Hc & Hnd & Hl); exists l; split_and!; [|done|done].
    rewrite get_nextf_mm; eapply chain_frame; [|exact Hc]; intros b Hb; apply rd32_same; intros x Hbx; apply Hx.
    apply Hl in Hb; destruct (Hm _ _ Hb) as (_ & ? & _); pose proof (bsize_pos k ltac:(lia)); unfold ov_next in *.
    intros [?|(p & n & Hpn & ?)]; [lia|]; destruct (HL _ _ Hpn) as (_ & b' & k' & Hb' & Hr); cbn [fst snd] in *.
    assert (b <> b') as Hne by (intros <-; congruence); destruct (Hu _ _ _ Hb') as (_ & _ & _ & ? & _).
    unfold SIZEOF_OV in *; destruct (Hd _ _ _ _ Hb Hb' Hne); cbn [bk] in *; lia.
  - intros b k cp Hb; eapply header_frame; [|by apply Hu]; intros x Hbx; apply Hx.
    destruct (Hm _ _ Hb) as (? & ? & _); destruct (Hu _ _ _ Hb) as (_ & _ & _ & ? & _); unfold SIZEOF_OV in *; cbn [bk] in *.
    intros [?|(p & n & Hpn & ?)]; [lia|]; destruct (HL _ _ Hpn) as (_ & b' & k' & Hb' & Hr); cbn [fst snd] in *.
    destruct (decide (b = b')) as [<-|Hne]; [rewrite Hb in Hb'; injection Hb' as <- <-; lia|].
    destruct (Hu _ _ _ Hb') as (_ & _ & _ & ? & _); unfold SIZEOF_OV in *; destruct (Hd _ _ _ _ Hb Hb' Hne); cbn [bk] in *; lia.
Qed.
Lemma word_write_inv s L a v : memalloc_inv s L -> client_word s L a -> memalloc_inv (set_mm (wr32 (mm s) a v) s) L.
Proof.
  intros Hm Ha; apply client_write_inv; [done|]; intros x Hx; apply rd8_wr32_ne.
  destruct (decide (a <= x < a + 4)); [by destruct Hx; eapply client_word_bytes|lia].
Qed.
Lemma writes_inv s L C m m' :
  writes C m m' -> (forall a, a ∈ C -> client_word s L a) -> memalloc_inv (set_mm m s) L -> memalloc_inv (set_mm m' s) L.
Proof.
  intros Hw HC; induction Hw as [|m1 m2 m3 (a & v & Ha & ->) _ IH]; [done|]; intros Hm; apply IH.
  apply (word_write_inv (set_mm m1 s) L a v Hm), HC, Ha.
Qed.
Lemma range_write_inv s L p n m' : memalloc_inv s L -> L !! p = Some n -> only_in (mm s) m' p (p + n) ->
  memalloc_inv (set_mm m' s) L.
Proof.
  intros Hm Hp Ho; apply client_write_inv; [done|]; intros x Hx; apply Ho.
  destruct (decide (p <= x < p + n)); [destruct Hx; right; by exists p, n|lia].
Qed.

(** Allocation leaves what is owned alone, and what it hands out was not
    owned. *)
Lemma memalloc_static n align s h :
  heap_ok s h -> urange 32 n -> align_ok align -> n + header_room (alloc_align align) < 2 ^ 32 -> request_fits n align s ->
  forall x, 0 <= x < bmk_membase (pages s) -> rd8 (mm (snd (bmk_memalloc n align s))) x = rd8 (mm s) x.
Proof.
  intros Hok Hn Hal Hroom Hreq x Hx; pose proof (memalloc_refines n align s h Hok Hn Hal Hroom Hreq) as Hm.
  pose proof (memalloc_membase n align s) as Hbase; destruct (init_ok s h Hok) as (Hok1 & Hi & Hmm & Hpp & _).
  destruct (bmk_memalloc n align s) as [rv s'] eqn:E; cbn [snd] in *; destruct Hm as (h' & Hok' & Hsp & _).
  assert (rv <> NULL -> x < rv - 8) as Hrv.
  { intros Hne; inversion Hsp as [|h1 b k rv' Hext Hb Hr1 Hr2]; subst; [done|].
    destruct (ok_mem _ _ Hok' b (Block k (Used rv))) as (_ & ? & _); [apply lookup_insert_eq|unfold SIZEOF_OV in *; lia]. }
  unfold bmk_memalloc in E; destruct (negb _); [injection E as <- <-; by rewrite Hmm|].
  destruct (alloc_bucket _ _) as [k|] eqn:Ek; [|injection E as <- <-; by rewrite Hmm].
  assert (rd8 (mm (if get_nextf (memalloc_init s) k =? NULL then morecore k (memalloc_init s) else memalloc_init s)) x = rd8 (mm s) x) as Hx1.
  { rewrite <- Hmm; destruct (Z.eqb_spec (get_nextf (memalloc_init s) k) NULL) as [En|En]; [|done].
    pose proof (alloc_bucket_spec _ (alloc_bytes n (alloc_align align)) Hi) as Hb; rewrite Ek in Hb.
    destruct Hb as (Hk & _); [apply wrap_range; lia|].
    destruct (morecore_ok (memalloc_init s) h k Hok1 Hi Hk En) as (_ & _ & _ & _ & Hb & _).
    - rewrite Hpp; by apply Hreq.
    - apply Hb; rewrite Hpp; pose proof (ok_pages _ _ Hok) as (_ & _ & _ & ? & _); unfold pg_break, PAGE_SIZE; lia. }
  revert E Hx1; generalize (if get_nextf (memalloc_init s) k =? NULL then morecore k (memalloc_init s) else memalloc_init s); intros s1 E Hx1.
  destruct (Z.eqb_spec (get_nextf s1 k) NULL); injection E as E1 E2; subst s'; [done|]; rewrite E1 in *; cbn [mm set_mm set_nextf].
  rewrite <- Hx1; apply (write_header_only_in (mm s1) rv k (u32 (rv - get_nextf s1 k))).
  destruct (Z.eq_dec rv NULL) as [->|Hne]; [unfold NULL; lia|pose proof (Hrv Hne); lia].
Qed.

Lemma xmalloc_frame n s L p s' :
  memalloc_inv s L -> 0 <= n < 2 ^ 31 -> request_fits n 0 s -> bmk_xmalloc n s = Ret (p, s') ->
  bmk_membase (pages s') = bmk_membase (pages s) /\
  forall x, client_byte s L x -> rd8 (mm s') x = rd8 (mm s) x /\ (x < p \/ p + n <= x).
Proof.
  intros (h & Hok & HL) Hn Hf E; unfold bmk_xmalloc in E.
  assert (urange 32 n) as Hu by (unfold urange; lia).
  assert (n + header_room (alloc_align 0) < 2 ^ 32) as Hroom by (unfold header_room; simpl; lia).
  pose proof (memalloc_refines n 0 s h Hok Hu ltac:(by vm_compute) Hroom Hf) as Hm.
  pose proof (memalloc_static n 0 s h Hok Hu ltac:(by vm_compute) Hroom Hf) as Hst.
  pose proof (memalloc_membase n 0 s) as Hbase; destruct (bmk_memalloc n 0 s) as [rv s1]; cbn [snd] in *.
  destruct (Z.eqb_spec rv NULL); [done|injection E as -> ->]; split; [done|].
  destruct Hm as (h' & Hok' & Hsp & Hfr & _); inversion Hsp as [|h1 b k rv' Hext Hb Hr1 Hr2 ? ? ?]; subst; [done|].
  assert ((<[b := Block k (Used p)]> h1) !! b = Some (Block k (Used p))) as Hbp by apply lookup_insert_eq.
  destruct (ok_mem _ _ Hok' _ _ Hbp) as (? & ? & _); unfold SIZEOF_OV in *; cbn [bk] in *.
  intros x [Hx|(q & m & Hq & Hx)]; [split; [by apply Hst|lia]|].
  destruct (HL _ _ Hq) as (_ & b' & k' & Hb' & Hr'); cbn [fst snd] in Hb', Hr'.
  pose proof (ok_used _ _ Hok _ _ _ Hb') as (_ & _ & _ & Hq8 & _); unfold SIZEOF_OV in *.
  split; [apply (Hfr b' k' q Hb'); lia|].
  assert ((<[b := Block k (Used p)]> h1) !! b' = Some (Block k' (Used q))) as Hb1.
  { rewrite lookup_insert_ne; [by eapply lookup_weaken; [|apply Hext]|].
    intros <-; eapply lookup_weaken in Hb'; [|apply Hext]; congruence. }
  assert (b' <> b) as Hne by (intros ->; eapply lookup_weaken in Hb'; [|apply Hext]; congruence).
  destruct (ok_disj _ _ Hok' _ _ _ _ Hb1 Hbp Hne); cbn [bk] in *; lia.
Qed.

(** ** The words of a thread structure *)

Lemma apart_app L1 L2 : apart L1 -> apart L2 -> (forall a b, a ∈ L1 -> b ∈ L2 -> a + 4 <= b \/ b + 4 <= a) -> apart (L1 ++ L2).
Proof.
  intros (N1 & S1 & R1) (N2 & S2 & R2) Hx; split_and!.
  - apply NoDup_app; split_and!; [done| |done]; intros a Ha Hb; pose proof (Hx a a Ha Hb); lia.
  - intros a b; rewrite !elem_of_app; intros [Ha|Ha] [Hb|Hb] Hne; [by apply S1|by apply Hx| |by apply S2].
    pose proof (Hx b a Hb Ha); lia.
  - by apply Forall_app.
Qed.

Lemma apart_words t n : 0 <= t -> t + 4 * n <= 2 ^ 32 -> apart ((fun k => t + 4 * k) <$> seqZ 0 n).
Proof.
  intros Ht Hn; split_and!.
  - apply NoDup_fmap; [intros ? ? ?; lia|apply NoDup_seqZ].
  - intros a b (i & -> & ?)%list_elem_of_fmap (j & -> & ?)%list_elem_of_fmap ?; lia.
  - apply Forall_forall; intros a (i & -> & Hi%elem_of_seqZ)%list_elem_of_fmap; unfold urange; lia.
Qed.

Lemma thread_words t :
  tqe_next bt_entries t :: tqe_prev bt_entries t :: fields t ≡ₚ (fun k => t + 4 * k) <$> seqZ 0 15.
Proof.
  assert (((fun k => t + 4 * k) <$> seqZ 0 15) = fields t ++ [tqe_next bt_entries t; tqe_prev bt_entries t]) as ->.
  { unfold fields, tqe_next, tqe_prev, bt_entries; change (seqZ 0 15) with [0; 1; 2; 3; 4; 5; 6; 7; 8; 9; 10; 11; 12; 13; 14].
    cbn [fmap list_fmap app]; repeat (apply f_equal2; [lia|]); done. }
  apply (Permutation_app_comm [_; _]).
Qed.

Lemma name_bytes_ld m a : name_bytes (rd32 m a) = ld m a 4.
Proof.
  unfold name_bytes, rd32, ld; cbn [seq fmap list_fmap]; change (Z.of_nat 0) with 0; change (Z.of_nat 1) with 1;
    change (Z.of_nat 2) with 2; change (Z.of_nat 3) with 3; rewrite Z.add_0_r.
  pose proof (rd8_range m a); pose proof (rd8_range m (a + 1)); pose proof (rd8_range m (a + 2)); pose proof (rd8_range m (a + 3)).
  revert H H0 H1 H2; generalize (rd8 m a), (rd8 m (a + 1)), (rd8 m (a + 2)), (rd8 m (a + 3)); intros b0 b1 b2 b3 ? ? ? ?.
  change (2 ^ 8) with 256; change (2 ^ 16) with 65536; change (2 ^ 24) with 16777216.
  repeat f_equal; Z.div_mod_to_equations; lia.
Qed.

Lemma ld_app m a n k : ld m a (n + k) = ld m a n ++ ld m (a + Z.of_nat n) k.
Proof.
  revert a; induction n as [|n IH]; intros a; [change (Z.of_nat 0) with 0; by rewrite Z.add_0_r|].
  cbn [Nat.add]; rewrite !ld_S, IH; cbn [app]; by replace (a + 1 + Z.of_nat n) with (a + Z.of_nat (S n)) by lia.
Qed.

Lemma ld_zero m a n : (forall i, 0 <= i < Z.of_nat n -> rd8 m (a + i) = 0) -> ld m a n = replicate n 0.
Proof.
  intros Hz; apply list_eq_same_length with n; [by rewrite length_replicate|by rewrite ld_length|].
  intros i x y Hi; rewrite ld_lookup, lookup_replicate_2 by done; intros [= <-] [= <-]; apply Hz; lia.
Qed.

Lemma ld64_flags t f m : ld64 (mem_set_flags t f m) (t + 24) = ld64 m (t + 24).
Proof. unfold ld64, mem_set_flags; by rewrite !rd32_wr32_ne by lia. Qed.

(** A structure whose words have been filled in. *)
Lemma load_filled m t nm flags sb sp ip :
  cstr m t nm -> (length nm <= 15)%nat -> (forall i, Z.of_nat (length nm) <= i <= 15 -> rd8 m (t + i) = 0) ->
  rd32 m (t + 16) = 0 -> rd32 m (t + 20) = 0 -> ld64 m (t + 24) = -1 -> i32 (rd32 m (t + 32)) = flags -> rd32 m (t + 36) = 0 ->
  rd32 m (t + 40) = sb -> rd32 m (t + 44) = sp -> rd32 m (t + 48) = ip ->
  load_thread m t = BmkThread (nm ++ replicate (16 - length nm) 0) [0; 0] (-1) flags 0 sb sp ip.
Proof.
  intros (Hn & _) Hl Hz E1 E2 E3 E4 E5 E6 E7 E8; unfold load_thread; rewrite E1, E2, E3, E4, E5, E6, E7, E8; f_equal.
  rewrite !name_bytes_ld; replace (t + 12) with (t + 4 + 4 + Z.of_nat 4) by lia; replace (t + 8) with (t + 4 + Z.of_nat 4) by lia.
  change (t + 4) with (t + Z.of_nat 4); rewrite <- !ld_app; change (4 + (4 + (4 + 4)))%nat with 16%nat; replace 16%nat with (length nm + (16 - length nm))%nat at 1 by lia.
  rewrite ld_app, Hn, ld_zero; [done|]; intros i Hi; rewrite <- Z.add_assoc; apply Hz; lia.
Qed.

(** ** Creation *)

Section Create.
(** The addresses of [threads], [zombies] and [current_thread]. *)
Variables THREADS ZOMBIES CURRENT : Z.
Local Abbreviation footprint := (footprint THREADS ZOMBIES CURRENT).
Local Abbreviation links := (links THREADS ZOMBIES).
Local Abbreviation holds := (holds THREADS ZOMBIES CURRENT).

(** What follows the allocations in [bmk_sched_create]: [None] if the loop of
    [bmk_strncpy] runs out of fuel. *)
Definition mem_create_fill (fuel : nat) (bouncer name f data thread stack_base stack_size : Z) (s : mstate)
    : option (Z * mstate) :=
  let s := set_mm (wr32 (mm s) (thread + 40) stack_base) s in
  let '(sp, s) := bmk_cpu_sched_create f data (stack_base + stack_size) s in
  let m := wr32 (wr32 (mm s) (thread + 44) sp) (thread + 48) bouncer in
  '(m, _) ← bmk_strncpy fuel m thread name (NAME_MAXLEN - 1);
  let m := mem_set_runnable thread (mem_setwakeup thread (-1) m) in
  Some (thread, set_mm (TAILQ_INSERT_HEAD bt_entries THREADS thread m) s).

(** [bmk_sched_create]; the argument [thrflags] is not used by the source. *)
Definition mem_create (fuel : nat) (bouncer name cookie thrflags f data stack_base stack_size : Z) (s : mstate)
    : outcome (option (Z * mstate)) :=
  '(thread, s) ← bmk_xmalloc SIZEOF_THREAD s;
  let s := set_mm (fst (bmk_memset (mm s) thread 0 SIZEOF_THREAD)) s in
  '(stack_base, stack_size, s) ←
    (if stack_base =? NULL then
       _ ← c_assert (stack_size =? 0) "stack_size == 0";
       '(sb, s) ← stackalloc s;
       Ret (sb, THREAD_STACKSIZE, s)
     else Ret (stack_base, stack_size, set_mm (mem_set_flags thread THREAD_EXTSTACK (mm s)) s));
  Ret (mem_create_fill fuel bouncer name f data thread stack_base stack_size s).

(** Allocator and scheduler in one memory: the words of the scheduler state
    are static or held from the allocator. *)
Record sched_in {H} (s : mstate) (L : gmap Z Z) (ts : list Z) (S : sched H) : Prop := {
  in_heap : memalloc_inv s L;
  in_holds : holds (mm s) ts S;
  in_client : forall a, a ∈ footprint ts -> client_word s L a;
}.

Lemma sched_in_write {H} s L ts (S : sched H) m' :
  sched_in s L ts S -> memalloc_inv (set_mm m' s) L -> (forall a, a ∈ footprint ts -> rd32 m' a = rd32 (mm s) a) ->
  sched_in (set_mm m' s) L ts S.
Proof. intros [Hh Ho Hw] Hi Hf; constructor; [done|by apply (holds_frame (mm s))|done]. Qed.

Lemma sched_in_alloc {H} s L ts (S : sched H) n p s' :
  sched_in s L ts S -> 0 <= n < 2 ^ 31 -> request_fits n 0 s -> bmk_xmalloc n s = Ret (p, s') ->
  sched_in s' (<[p := n]> L) ts S /\ p <> NULL /\ 0 <= p /\ p + n < 2 ^ 32 /\ L !! p = None /\
  (forall x, client_byte s L x -> rd8 (mm s') x = rd8 (mm s) x /\ (x < p \/ p + n <= x) /\ client_byte s' (<[p := n]> L) x) /\
  (forall a, client_word s L a -> client_word s' (<[p := n]> L) a).
Proof.
  intros [Hh Ho Hw] Hn Hf E; destruct (xmalloc_spec n s L p s' Hh Hn Hf E) as (? & ? & ? & Hnone & Hinv & _).
  destruct (xmalloc_frame n s L p s' Hh Hn Hf E) as [Hb Hfr].
  assert (forall q m, L !! q = Some m -> <[p := n]> L !! q = Some m) as HL by (intros; rewrite lookup_insert_ne; congruence).
  assert (forall a, client_word s L a -> client_word s' (<[p := n]> L) a) as Hww.
  { intros a [?|(q & m & Hq & ?)]; [left; by rewrite Hb|right; exists q, m; by rewrite (HL _ _ Hq)]. }
  split_and!; try done.
  - constructor; [done| |auto]; apply (holds_frame (mm s)); [|done]; intros a Ha; apply rd32_same; intros x Hx.
    apply Hfr; by apply (client_word_bytes _ _ a); [apply Hw|].
  - intros x Hx; destruct (Hfr x Hx); split_and!; [done|done|].
    destruct Hx as [?|(q & m & Hq & ?)]; [left; by rewrite Hb|right; exists q, m; by rewrite (HL _ _ Hq)].
Qed.

(** Owned words lie outside a block that was not owned. *)
Lemma word_outside a lo hi : (forall x, a <= x < a + 4 -> x < lo \/ hi <= x) -> lo < hi -> a + 4 <= lo \/ hi <= a.
Proof.
  intros Hx Hlt; destruct (Z.le_gt_cases (a + 4) lo); [by left|right].
  pose proof (Hx a ltac:(lia)) as [?|?]; [|done]; pose proof (Hx lo ltac:(lia)); lia.
Qed.

(** A filled structure joins the threads that exist. *)
Lemma sched_in_add {H} s L ts (S : sched H) t :
  sched_in s L ts S -> L !! t = Some SIZEOF_THREAD -> 0 <= t -> t + SIZEOF_THREAD < 2 ^ 32 ->
  (forall a, a ∈ footprint ts -> a + 4 <= t \/ t + SIZEOF_THREAD <= a) -> urange 5 (bt_flags (load_thread (mm s) t)) ->
  sched_in s L (t :: ts) (set_thr (<[t := load_thread (mm s) t]> (thr S)) S) /\ t ∉ ts.
Proof.
  intros [Hh Ho Hw] HL Ht0 Ht1 Hout Hfl; unfold SIZEOF_THREAD in *; pose proof Ho as [Hap Hth Hz Hc Hd Htr [Hn Hq]].
  assert (t ∉ ts) as Hts.
  { intros Hin; pose proof (Hout t ltac:(eapply fields_foot; [done|by left])); lia. }
  assert (forall a, a ∈ tqe_next bt_entries t :: tqe_prev bt_entries t :: fields t -> t <= a /\ a + 4 <= t + 60) as Hwords.
  { intros a; rewrite thread_words; intros (k & -> & Hk%elem_of_seqZ)%list_elem_of_fmap; lia. }
  split; [|done]; constructor; [done| |].
  - constructor; cbn [threads zombies current_thread thr set_thr]; try done.
    + rewrite footprint_cons; apply apart_app; [rewrite thread_words; apply apart_words; lia|done|].
      intros a b Ha Hb; pose proof (Hwords a Ha); pose proof (Hout b Hb); lia.
    + intros u; rewrite lookup_insert_is_Some', elem_of_cons, Hd; naive_solver.
    + intros u th; rewrite lookup_insert_Some; intros [[<- <-]|[_ Hu]]; [done|by apply Htr].
    + split; [done|]; intros u Hu; apply elem_of_cons; right; by apply Hq.
  - intros a; rewrite footprint_cons, elem_of_app; intros [Ha|Ha]; [|by apply Hw].
    right; exists t, 60; split; [done|]; by apply Hwords.
Qed.

(** ... and the run queue. *)
Lemma sched_in_link {H} s L ts (S : sched H) t :
  sched_in s L ts S -> t ∈ ts -> t ∉ threads S ++ zombies S -> urange 32 t -> t <> NULL ->
  sched_in (set_mm (TAILQ_INSERT_HEAD bt_entries THREADS t (mm s)) s) L ts (set_threads (t :: threads S) S) /\
  forall x, (forall a, a ∈ links ts -> x < a \/ a + 4 <= x) ->
    rd8 (TAILQ_INSERT_HEAD bt_entries THREADS t (mm s)) x = rd8 (mm s) x.
Proof.
  intros [Hh Ho Hw] Ht Hni Hu Hne; destruct (thread_linkable _ _ _ _ _ _ _ Ho Ht Hni Hu Hne) as [Hlk Hsub].
  split; [constructor; [|by apply holds_link_head|done]|].
  - eapply writes_inv; [by apply insert_head_writes; [apply (h_threads _ _ _ _ _ _ Ho)|]| |by destruct s].
    intros a Ha; apply Hw, links_foot, Hsub, Ha.
  - intros x Hx; eapply writes_byte; [by apply insert_head_writes; [apply (h_threads _ _ _ _ _ _ Ho)|]|].
    intros a Ha; by apply Hx, Hsub.
Qed.

(** *** Filling in structure and stack *)

Section Fill.
Context {H : Type} (s : mstate) (L : gmap Z Z) (ts : list Z) (S : sched H).
Variables (fuel : nat) (bouncer name f data t sb size flags : Z) (nm : list Z).
Let top := sb + size.
Hypothesis Hin : sched_in s L ts S.
Hypothesis HL : L !! t = Some SIZEOF_THREAD.
Hypothesis Ht : 0 < t /\ t + SIZEOF_THREAD < 2 ^ 32.
Hypothesis Hout : forall a, a ∈ footprint ts -> a + 4 <= t \/ t + SIZEOF_THREAD <= a.
(** The structure is clear but for the flags. *)
Hypothesis Hzero : forall x, t <= x < t + SIZEOF_THREAD -> ~ (t + 32 <= x < t + 36) -> rd8 (mm s) x = 0.
Hypothesis Hflags : rd32 (mm s) (t + 32) = flags /\ (flags = 0 \/ flags = THREAD_EXTSTACK).
(** The two words at the top of the stack may be written. *)
Hypothesis Htop : 0 <= sb /\ 8 <= top < 2 ^ 32 /\ sb < 2 ^ 32.
Hypothesis Hstack : client_word s L (top - 8) /\ client_word s L (top - 4).
Hypothesis Hst : top <= t \/ t + SIZEOF_THREAD <= top - 8.
Hypothesis Hsf : forall a, a ∈ footprint ts -> a + 4 <= top - 8 \/ top <= a.
(** The name is a string elsewhere. *)
Hypothesis Hname : cstr (mm s) name nm /\ Z.of_nat (length nm) <= NAME_MAXLEN - 1 /\ (length nm < fuel)%nat.
Hypothesis Hnt : name + Z.of_nat (length nm) < t \/ t + SIZEOF_THREAD <= name.
Hypothesis Hns : name + Z.of_nat (length nm) < top - 8 \/ top <= name.
Hypothesis Hargs : urange 32 f /\ urange 32 data /\ urange 32 bouncer.

Definition new_thread : bmk_thread :=
  set_runnable (BmkThread (nm ++ replicate (16 - length nm) 0) [0; 0] (-1) flags 0 sb (top - 4 - 4) bouncer).

(** The stores up to the call of [bmk_strncpy]. *)
Let m3 := wr32 (wr32 (wr32 (mm s) (t + 40) sb) (top - 4) f) (top - 4 - 4) data.
Let m5 := wr32 (wr32 m3 (t + 44) (top - 4 - 4)) (t + 48) bouncer.

Lemma fill_word m6 k : only_in m5 m6 t (t + 15 + 1) -> 16 <= k -> k + 4 <= 60 ->
  rd32 m6 (t + k) = rd32 m5 (t + k) /\
  (k + 4 <= 40 \/ 52 <= k -> rd32 m5 (t + k) = rd32 (mm s) (t + k)).
Proof.
  unfold SIZEOF_THREAD in *; intros Ho Hk Hk2; split; [apply (rd32_only_in _ _ _ _ _ Ho); lia|].
  intros Hk3; unfold m5, m3; by rewrite !rd32_wr32_ne by lia.
Qed.
Lemma zero_word k : 0 <= k -> k + 4 <= 60 -> k + 4 <= 32 \/ 36 <= k -> rd32 (mm s) (t + k) = 0.
Proof. unfold SIZEOF_THREAD in *; intros; unfold rd32; by rewrite !Hzero by lia. Qed.

(** What [bmk_strncpy] leaves, and the structure after the last stores. *)
Lemma fill_strncpy : exists m6, bmk_strncpy fuel m5 t name (NAME_MAXLEN - 1) = Some (m6, t) /\ only_in m5 m6 t (t + 15 + 1) /\
  let m8 := mem_set_runnable t (mem_setwakeup t (-1) m6) in
  load_thread m8 t = new_thread /\ only_in m5 m8 t (t + SIZEOF_THREAD).
Proof.
  unfold NAME_MAXLEN, SIZEOF_THREAD in *; destruct Hname as (Hc & Hl & Hfu), Hflags as [Ef Hfl].
  assert (cstr m5 name nm) as Hc5.
  { assert (forall m a v, (a + 4 <= name \/ name + Z.of_nat (length nm) < a) -> cstr m name nm -> cstr (wr32 m a v) name nm) as Hw
      by (intros m a v Ha Hm; eapply cstr_only_in; [apply only_in_wr32| |exact Hm]; lia).
    unfold m5, m3; do 5 (apply Hw; [lia|]); exact Hc. }
  destruct (bmk_strncpy_fits m5 t name nm (16 - 1) fuel Hc5 ltac:(lia) Hfu ltac:(lia)) as (m6 & E6 & Hc6 & Hz6 & Ho6).
  exists m6; split; [exact E6|split; [exact Ho6|]]; cbv zeta; set (m8 := mem_set_runnable t (mem_setwakeup t (-1) m6)).
  assert (only_in m6 m8 (t + 24) (t + 36)) as Ho8.
  { intros x Hx; unfold m8, mem_set_runnable, mem_set_flags, mem_setwakeup, st64; by rewrite !rd8_wr32_ne by lia. }
  assert (mem_flags t (mem_setwakeup t (-1) m6) = flags) as Efl.
  { unfold mem_flags, mem_setwakeup, st64; rewrite !rd32_wr32_ne by lia.
    destruct (fill_word m6 32 Ho6 ltac:(lia) ltac:(lia)) as [-> ->]; [|lia]; rewrite Ef; by destruct Hfl as [->| ->]. }
  split.
  2:{ eapply only_in_chain; [exact Ho6|exact Ho8|lia..]. }
  assert (forall k, 16 <= k -> k + 4 <= 60 -> k + 4 <= 24 \/ 36 <= k -> rd32 m8 (t + k) = rd32 m5 (t + k)) as Hr.
  { intros k ? ? ?; rewrite (rd32_only_in _ _ _ _ _ Ho8) by lia; by apply fill_word. }
  assert (forall k, 16 <= k -> k + 4 <= 24 \/ 36 <= k /\ k + 4 <= 40 -> rd32 m8 (t + k) = 0) as Hr0.
  { intros k ? ?; rewrite Hr by lia; destruct (fill_word m6 k Ho6 ltac:(lia) ltac:(lia)) as [_ ->]; [|lia]; apply zero_word; lia. }
  unfold new_thread; rewrite (load_filled m8 t nm (Z.lor flags THREAD_RUNNABLE) sb (top - 4 - 4) bouncer).
  - reflexivity.
  - eapply cstr_only_in; [exact Ho8| |exact Hc6]; lia.
  - lia.
  - intros i Hi; rewrite (Ho8 (t + i)) by lia; apply Hz6; lia.
  - apply Hr0; lia.
  - apply Hr0; lia.
  - unfold m8, mem_set_runnable; rewrite ld64_flags; by apply ld64_st64.
  - unfold m8, mem_set_runnable; rewrite Efl; unfold mem_set_flags; rewrite rd32_wr32_eq; apply i32_small.
    destruct Hfl as [->| ->]; by vm_compute.
  - apply Hr0; lia.
  - rewrite Hr by lia; unfold m5, m3; rewrite !rd32_wr32_ne by lia; apply rd32_wr32_val; unfold urange; lia.
  - rewrite Hr by lia; unfold m5, m3; rewrite rd32_wr32_ne by lia; apply rd32_wr32_val; unfold urange; lia.
  - rewrite Hr by lia; unfold m5; apply rd32_wr32_val; naive_solver.
Qed.

Lemma link_words x : ~ (t <= x < t + SIZEOF_THREAD) -> (forall a, a ∈ links ts -> x < a \/ a + 4 <= x) ->
  forall a, a ∈ links (t :: ts) -> x < a \/ a + 4 <= x.
Proof.
  assert (links (t :: ts) ≡ₚ tqe_next bt_entries t :: tqe_prev bt_entries t :: links ts) as Hp
    by (unfold SchedMem.links; cbn [flat_map]; solve_Permutation).
  unfold SIZEOF_THREAD; intros Hx Hl a; rewrite Hp, !elem_of_cons; unfold tqe_next, tqe_prev, bt_entries.
  intros [->|[->|Ha]]; [lia|lia|by apply Hl].
Qed.

Lemma fill_ok : exists s', mem_create_fill fuel bouncer name f data t sb size s = Some (t, s') /\
  sched_in s' L (t :: ts) (set_threads (t :: threads S) (set_thr (<[t := new_thread]> (thr S)) S)) /\
  rd32 (mm s') (top - 8) = data /\ rd32 (mm s') (top - 4) = f /\ pages s' = pages s /\
  forall x, ~ (t <= x < t + SIZEOF_THREAD) -> ~ (top - 8 <= x < top) -> (forall a, a ∈ links ts -> x < a \/ a + 4 <= x) ->
    rd8 (mm s') x = rd8 (mm s) x.
Proof.
  destruct fill_strncpy as (m6 & E6 & Ho6 & Hload & Ho8); set (m8 := mem_set_runnable t (mem_setwakeup t (-1) m6)) in *.
  pose proof Hst as Hst'; pose proof Htop as Htop'; pose proof Ht as Ht'; destruct Hstack as [Hw8 Hw4].
  assert (forall x, ~ (t <= x < t + SIZEOF_THREAD) -> ~ (top - 8 <= x < top) -> rd8 m8 x = rd8 (mm s) x) as Hfr.
  { intros x H1 H2; unfold SIZEOF_THREAD in *; rewrite (Ho8 x H1); unfold m5, m3; by rewrite !rd8_wr32_ne by lia. }
  assert (sched_in (set_mm m8 s) L ts S) as Hin8.
  { apply sched_in_write; [exact Hin| |].
    - unfold SIZEOF_THREAD in *; assert (memalloc_inv (set_mm m3 s) L) as Hi3.
      { unfold m3; apply (word_write_inv (set_mm (wr32 (wr32 (mm s) (t + 40) sb) (top - 4) f) s)); [|by replace (top - 4 - 4) with (top - 8) by lia].
        apply (word_write_inv (set_mm (wr32 (mm s) (t + 40) sb) s)); [|exact Hw4].
        apply word_write_inv; [apply (in_heap _ _ _ _ Hin)|]; right; exists t, 60; split; [exact HL|lia]. }
      apply (range_write_inv (set_mm m3 s) L t 60 m8 Hi3 HL); cbn [mm set_mm]; intros x Hx; rewrite (Ho8 x Hx).
      unfold m5; by rewrite !rd8_wr32_ne by lia.
    - intros a Ha; apply rd32_same; intros x Hx; pose proof (Hout a Ha); pose proof (Hsf a Ha); apply Hfr; lia. }
  assert (load_thread (mm (set_mm m8 s)) t = new_thread) as Hld by exact Hload.
  destruct (sched_in_add (set_mm m8 s) L ts S t Hin8 HL ltac:(lia) ltac:(lia) Hout) as [Hadd Hts].
  { rewrite Hld; unfold new_thread; cbn [bt_flags set_runnable]; destruct Hflags as [_ [->| ->]]; by vm_compute. }
  rewrite Hld in Hadd; destruct (h_queues _ _ _ _ _ _ (in_holds _ _ _ _ Hin)) as [_ Hq].
  destruct (sched_in_link _ _ _ _ t Hadd) as [Hlink Hbytes].
  - by left.
  - cbn; intros Hx; by apply Hts, Hq.
  - unfold urange, SIZEOF_THREAD in *; lia.
  - unfold NULL; lia.
  - cbn [mm set_mm threads set_thr] in Hlink, Hbytes.
    assert (forall x, ~ (t <= x < t + SIZEOF_THREAD) -> (forall a, a ∈ links ts -> x < a \/ a + 4 <= x) ->
      rd8 (TAILQ_INSERT_HEAD bt_entries THREADS t m8) x = rd8 m8 x) as Hb8 by (intros x H1 H2; by apply Hbytes, link_words).
    eexists; split; [|split; [exact Hlink|]].
    { unfold mem_create_fill, bmk_cpu_sched_create, stack_push; cbn [h_poke memalloc_ops mm set_mm pages].
      fold top m3 m5; rewrite E6; reflexivity. }
    assert (forall a, top - 8 <= a /\ a + 4 <= top -> rd32 (TAILQ_INSERT_HEAD bt_entries THREADS t m8) a = rd32 m3 a) as Hstk.
    { unfold SIZEOF_THREAD in *; intros a Ha; transitivity (rd32 m8 a).
      - apply rd32_same; intros x Hx; apply Hb8; [lia|]; intros b Hb; pose proof (Hsf b (links_foot _ _ _ _ _ Hb)); lia.
      - rewrite (rd32_only_in _ _ _ _ _ Ho8) by lia; unfold m5; by rewrite !rd32_wr32_ne by lia. }
    destruct Hargs as (Hf & Hd & _); cbn [mm set_mm pages]; split_and!.
    + rewrite Hstk by lia; unfold m3; replace (top - 4 - 4) with (top - 8) by lia; by apply rd32_wr32_val.
    + rewrite Hstk by lia; unfold m3; rewrite rd32_wr32_ne by lia; by apply rd32_wr32_val.
    + done.
    + intros x H1 H2 H3; rewrite Hb8 by done; by apply Hfr.
Qed.
End Fill.

(** *** The whole function *)

(** The address the allocator returns depends on its variables only. *)
Lemma init_mm m s : memalloc_init (set_mm m s) = set_mm m (memalloc_init s).
Proof. unfold memalloc_init; cbn [pagesz set_mm]; by destruct (pagesz s =? 0). Qed.
Lemma morecore_mm k m s : exists m', morecore k (set_mm m s) = set_mm m' (morecore k s).
Proof.
  unfold morecore, corealloc; cbn [pagesz set_mm pages mm pagebucket].
  destruct (if k <? pagebucket s then _ else _) as [[amt nb] sz]; destruct (bmk_allocpg _ (pages s)) as [op p].
  destruct (op =? NULL); by eexists.
Qed.
Lemma xmalloc_ptr n m s p s' : bmk_xmalloc n (set_mm m s) = Ret (p, s') -> exists s'', bmk_xmalloc n s = Ret (p, s'').
Proof.
  assert (fst (bmk_memalloc n 0 (set_mm m s)) = fst (bmk_memalloc n 0 s)) as Ep.
  { unfold bmk_memalloc; rewrite init_mm; change (alloc_bucket (set_mm m ?x)) with (alloc_bucket x).
    destruct (negb _); [done|]; destruct (alloc_bucket _ _) as [k|]; [|done]; rewrite get_nextf_mm.
    destruct (get_nextf (memalloc_init s) k =? NULL).
    - destruct (morecore_mm k m (memalloc_init s)) as [m' ->]; rewrite get_nextf_mm; by destruct (_ =? NULL).
    - rewrite get_nextf_mm; by destruct (_ =? NULL). }
  unfold bmk_xmalloc; destruct (bmk_memalloc n 0 (set_mm m s)) as [rv x], (bmk_memalloc n 0 s) as [rv' x']; cbn [fst] in Ep; subst rv'.
  destruct (rv =? NULL); [done|]; intros [= -> ->]; by eexists.
Qed.

(** A stack that the caller provides: it may write the two words at its top,
    and they are neither part of the scheduler state nor of the name. *)
Record stack_provided (s : mstate) (L : gmap Z Z) (ts : list Z) (name : Z) (nm : list Z) (base size : Z) : Prop := {
  sp_range : 0 <= base < 2 ^ 32 /\ 8 <= base + size < 2 ^ 32;
  sp_words : client_word s L (base + size - 8) /\ client_word s L (base + size - 4);
  sp_apart : forall a, a ∈ footprint ts -> a + 4 <= base + size - 8 \/ base + size <= a;
  sp_name : name + Z.of_nat (length nm) < base + size - 8 \/ base + size <= name;
}.

Lemma request_fits_mm n a m s : request_fits n a s -> request_fits n a (set_mm m s).
Proof. unfold request_fits, memalloc_init; cbn [pagesz set_mm pages mm nextf pagebucket]; by destruct (pagesz s =? 0). Qed.

Lemma range_outside lo n t k : (forall x, lo <= x <= lo + n -> x < t \/ t + k <= x) -> 0 <= n -> 0 < k -> lo + n < t \/ t + k <= lo.
Proof.
  intros Hx Hn Hk; destruct (Z.lt_ge_cases (lo + n) t); [by left|right].
  pose proof (Hx lo ltac:(lia)) as [?|?]; [|done]; pose proof (Hx t ltac:(lia)); lia.
Qed.

(** The first allocation and the clearing of the structure. *)
Lemma create_structure {H} s L ts (S : sched H) t s1 :
  sched_in s L ts S -> request_fits SIZEOF_THREAD 0 s -> bmk_xmalloc SIZEOF_THREAD s = Ret (t, s1) ->
  let s2 := set_mm (fst (bmk_memset (mm s1) t 0 SIZEOF_THREAD)) s1 in
  sched_in s2 (<[t := SIZEOF_THREAD]> L) ts S /\ t <> NULL /\ 0 <= t /\ t + SIZEOF_THREAD < 2 ^ 32 /\ L !! t = None /\
  (forall x, t <= x < t + SIZEOF_THREAD -> rd8 (mm s2) x = 0) /\
  (forall x, client_byte s L x -> rd8 (mm s2) x = rd8 (mm s) x /\ (x < t \/ t + SIZEOF_THREAD <= x) /\
     client_byte s2 (<[t := SIZEOF_THREAD]> L) x) /\
  (forall a, client_word s L a -> client_word s2 (<[t := SIZEOF_THREAD]> L) a) /\
  (forall a, a ∈ footprint ts -> a + 4 <= t \/ t + SIZEOF_THREAD <= a).
Proof.
  intros Hin Hf E; destruct (sched_in_alloc s L ts S SIZEOF_THREAD t s1 Hin ltac:(by vm_compute) Hf E) as (Hin1 & Hn & H0 & Hb & Hnone & Hfr & Hw).
  assert (forall a, a ∈ footprint ts -> a + 4 <= t \/ t + SIZEOF_THREAD <= a) as Hout.
  { intros a Ha; apply word_outside; [|unfold SIZEOF_THREAD; lia]; intros x Hx; apply Hfr.
    apply (client_word_bytes _ _ a); [by apply (in_client _ _ _ _ Hin)|done]. }
  destruct (bmk_memset (mm s1) t 0 SIZEOF_THREAD) as [m2 r2] eqn:Em; cbn [fst].
  pose proof (bmk_memset_correct (mm s1) t 0 SIZEOF_THREAD ltac:(unfold SIZEOF_THREAD; lia)) as Hm; rewrite Em in Hm.
  destruct Hm as (_ & Hz & Ho); cbv zeta; cbn [mm set_mm]; split_and!; try done.
  - apply sched_in_write; [done| |].
    + apply (range_write_inv s1 _ t SIZEOF_THREAD); [apply (in_heap _ _ _ _ Hin1)|apply lookup_insert_eq|done].
    + intros a Ha; apply (rd32_only_in _ _ _ _ _ Ho), Hout, Ha.
  - intros x Hx; destruct (Hfr x Hx) as (E1 & E2 & E3); split_and!; [|done|exact E3]; rewrite <- E1; apply Ho; lia.
Qed.

Lemma sched_in_hp {H} s L ts (S : sched H) h : sched_in s L ts S -> sched_in s L ts (set_hp h S).
Proof. intros [Hh [? ? ? ? ? ? ?] Hw]; by constructor. Qed.

Lemma xmalloc_halts n s msg : bmk_xmalloc n s = Halt msg -> msg = "xmalloc failed".
Proof. unfold bmk_xmalloc; destruct (bmk_memalloc n 0 s) as [rv s']; destruct (rv =? NULL); [by intros [= <-]|done]. Qed.

Lemma cstr_same m m' a l : (forall x, a <= x <= a + Z.of_nat (length l) -> rd8 m' x = rd8 m x) -> cstr m a l -> cstr m' a l.
Proof.
  intros Hx (E & Ez & Hn); split_and!; [|rewrite Hx by lia; done|done].
  rewrite <- E at 2; apply ld_ext; intros i Hi; apply Hx; lia.
Qed.

Lemma xmalloc_membase n s p s' : bmk_xmalloc n s = Ret (p, s') -> bmk_membase (pages s') = bmk_membase (pages s).
Proof.
  unfold bmk_xmalloc; pose proof (memalloc_membase n 0 s) as Hb; destruct (bmk_memalloc n 0 s) as [rv x]; cbn [snd] in Hb.
  destruct (rv =? NULL); [done|]; by intros [= _ <-].
Qed.

(** The scheduler on lists, with the same allocator. *)
Definition with_thread (t : Z) (th : bmk_thread) (h : mstate) (S : sched mstate) : sched mstate :=
  set_threads (t :: threads S) (set_thr (<[t := th]> (thr S)) (set_hp h S)).
Lemma create_listed bouncer nm cookie thrflags f data base size t sb s s1 S :
  Z.of_nat (length nm) <= NAME_MAXLEN - 1 -> bmk_xmalloc SIZEOF_THREAD s = Ret (t, s1) ->
  (base = NULL -> size = 0 /\ exists s3, bmk_xmalloc THREAD_STACKSIZE s1 = Ret (sb, s3)) ->
  exists h, bmk_membase (pages h) = bmk_membase (pages s) /\
    bmk_sched_create bouncer nm cookie thrflags f data base size (set_hp s S) =
    Ret (t, if base =? NULL then with_thread t (new_thread bouncer sb THREAD_STACKSIZE 0 nm) h S
            else with_thread t (new_thread bouncer base size THREAD_EXTSTACK nm) h S).
Proof.
  intros Hl E1 Hb; unfold bmk_sched_create, copy_name; rewrite decide_True by done; cbn [hp set_hp h_xmalloc memalloc_ops].
  rewrite E1; cbn [mbind outcome_bind]; destruct (Z.eqb_spec base NULL) as [->|Hne].
  - destruct Hb as [-> [s3 E3]]; [done|]; unfold c_assert, stackalloc; cbn [Z.eqb mbind outcome_bind h_xmalloc memalloc_ops].
    rewrite E3; eexists; split; [|reflexivity]; cbn; by rewrite (xmalloc_membase _ _ _ _ E3), (xmalloc_membase _ _ _ _ E1).
  - eexists; split; [|reflexivity]; cbn; by rewrite (xmalloc_membase _ _ _ _ E1).
Qed.

Section Whole.
Variables (fuel : nat) (bouncer name : Z) (nm : list Z) (cookie thrflags f data stack_base stack_size : Z).
Context (s : mstate) (L : gmap Z Z) (ts : list Z) (S : sched mstate).

(** The new thread [t] and the state [s'] after its creation: the scheduler
    on lists, started with the same allocator, returns the same thread; the
    memory holds the heap and its scheduler state, the new stack is prepared,
    and the rest of what clients held is as it was. *)
Definition created (t : Z) (s' : mstate) : Prop := exists S' th,
  bmk_sched_create bouncer nm cookie thrflags f data stack_base stack_size (set_hp s S) = Ret (t, S') /\
  thr S' !! t = Some th /\ sched_in s' (thread_allocs t th L) (t :: ts) S' /\
  rd32 (mm s') (btcb_sp th) = data /\ rd32 (mm s') (btcb_sp th + 4) = f /\ btcb_ip th = bouncer /\
  bmk_membase (pages s') = bmk_membase (pages s) /\ bmk_membase (pages (hp S')) = bmk_membase (pages s) /\
  forall x, client_byte s L x -> (forall a, a ∈ links ts -> x < a \/ a + 4 <= x) ->
    (stack_base <> NULL -> ~ (stack_base + stack_size - 8 <= x < stack_base + stack_size)) ->
    rd8 (mm s') x = rd8 (mm s) x.

Hypothesis Hl : Z.of_nat (length nm) <= NAME_MAXLEN - 1.
Hypothesis Hfu : (length nm < fuel)%nat.
Hypothesis Hnm : forall x, name <= x <= name + Z.of_nat (length nm) -> client_byte s L x.
Hypothesis Hargs : urange 32 f /\ urange 32 data /\ urange 32 bouncer.

(** The structure [t] is allocated and cleared. *)
Section Structure.
Variables (t : Z) (s1 s2 : mstate).
Hypothesis Hx1 : bmk_xmalloc SIZEOF_THREAD s = Ret (t, s1) /\ exists m, s2 = set_mm m s1.
Hypothesis Hin2 : sched_in s2 (<[t := SIZEOF_THREAD]> L) ts S.
Hypothesis Ht : 0 < t /\ t + SIZEOF_THREAD < 2 ^ 32.
Hypothesis Hz : forall x, t <= x < t + SIZEOF_THREAD -> rd8 (mm s2) x = 0.
Hypothesis Hfr : forall x, client_byte s L x -> rd8 (mm s2) x = rd8 (mm s) x /\ (x < t \/ t + SIZEOF_THREAD <= x) /\
  client_byte s2 (<[t := SIZEOF_THREAD]> L) x.
Hypothesis Hw : forall a, client_word s L a -> client_word s2 (<[t := SIZEOF_THREAD]> L) a.
Hypothesis Hout : forall a, a ∈ footprint ts -> a + 4 <= t \/ t + SIZEOF_THREAD <= a.
Hypothesis Hc2 : cstr (mm s2) name nm.

Lemma name_outside : name + Z.of_nat (length nm) < t \/ t + SIZEOF_THREAD <= name.
Proof. apply range_outside; [intros x Hx; by apply Hfr, Hnm|lia|unfold SIZEOF_THREAD; lia]. Qed.

(** A stack from the allocator. *)
Lemma create_own_stack sb s3 :
  stack_base = NULL -> stack_size = 0 -> request_fits THREAD_STACKSIZE 0 s2 -> bmk_xmalloc THREAD_STACKSIZE s2 = Ret (sb, s3) ->
  exists s', mem_create_fill fuel bouncer name f data t sb THREAD_STACKSIZE s3 = Some (t, s') /\ created t s'.
Proof.
  intros Hb0 Hs0 Hs2 E3; pose proof name_outside as Hnt.
  destruct (sched_in_alloc s2 _ ts S THREAD_STACKSIZE sb s3 Hin2 ltac:(by vm_compute) Hs2 E3) as (Hin3 & Hne3 & H03 & H323 & Hnone3 & Hfr3 & Hw3).
  apply lookup_insert_None in Hnone3 as [Hnone3 Hsbt].
  assert (forall x, t <= x < t + SIZEOF_THREAD -> rd8 (mm s3) x = 0 /\ (x < sb \/ sb + THREAD_STACKSIZE <= x)) as Hz3.
  { intros x Hx; rewrite <- (Hz x Hx); destruct (Hfr3 x) as (? & ? & _); [|done].
    right; exists t, SIZEOF_THREAD; split; [apply lookup_insert_eq|lia]. }
  destruct (fill_ok s3 (<[sb := THREAD_STACKSIZE]> (<[t := SIZEOF_THREAD]> L)) ts S fuel bouncer name f data t sb THREAD_STACKSIZE 0 nm)
    as (s' & Efill & Hin' & Ed & Ef & Hp & Hfr').
  + done.
  + by rewrite lookup_insert_ne, lookup_insert_eq.
  + done.
  + done.
  + intros x Hx _; by apply Hz3.
  + split; [|by left]; unfold rd32; by rewrite !(fun x Hx => proj1 (Hz3 x Hx)) by (unfold SIZEOF_THREAD; lia).
  + unfold THREAD_STACKSIZE in *; lia.
  + split; right; exists sb, THREAD_STACKSIZE; (split; [apply lookup_insert_eq|unfold THREAD_STACKSIZE; lia]).
  + destruct (range_outside t 59 sb THREAD_STACKSIZE) as [?|?]; [|by vm_compute|by vm_compute| |];
      [intros x Hx; apply Hz3; unfold SIZEOF_THREAD; lia| |]; unfold SIZEOF_THREAD, THREAD_STACKSIZE in *; lia.
  + intros a Ha; destruct (word_outside a sb (sb + THREAD_STACKSIZE)) as [?|?]; [|by unfold THREAD_STACKSIZE; lia| |];
      [intros x Hx; apply Hfr3; apply (client_word_bytes _ _ a); [by apply (in_client _ _ _ _ Hin2)|done]| |]; unfold THREAD_STACKSIZE in *; lia.
  + split_and!; [|done|done]. apply (cstr_same (mm s2)); [|done]; intros x Hx; by apply Hfr3, Hfr, Hnm.
  + done.
  + destruct (range_outside name (Z.of_nat (length nm)) sb THREAD_STACKSIZE) as [?|?]; [|lia|by vm_compute| |];
      [intros x Hx; by apply Hfr3, Hfr, Hnm| |]; unfold THREAD_STACKSIZE in *; lia.
  + done.
  + destruct Hx1 as [E1 [m2 Em2]]; rewrite Em2 in E3; destruct (xmalloc_ptr _ _ _ _ _ E3) as [s4 E4].
      destruct (create_listed bouncer nm cookie thrflags f data stack_base stack_size t sb s s1 S Hl E1) as (h & Ebh & Ecr).
      { intros _; split; [done|by exists s4]. }
      exists s'; split; [exact Efill|]; exists (with_thread t (new_thread bouncer sb THREAD_STACKSIZE 0 nm) h S), (new_thread bouncer sb THREAD_STACKSIZE 0 nm).
    split_and!; [rewrite Ecr, Hb0; reflexivity|apply lookup_insert_eq|exact (sched_in_hp _ _ _ _ h Hin')| | |done| |exact Ebh|].
    * rewrite <- Ed; f_equal; cbn; lia.
    * rewrite <- Ef; f_equal; cbn; lia.
    * rewrite Hp, (xmalloc_membase _ _ _ _ E3); cbn [pages set_mm]; by rewrite (xmalloc_membase _ _ _ _ E1).
    * intros x Hx Hlk _; destruct (Hfr x Hx) as (<- & Ho & Hx2), (Hfr3 x Hx2) as (<- & Ho3 & _).
      apply Hfr'; [lia|unfold THREAD_STACKSIZE in *; lia|done].
Qed.

(** A stack from the caller. *)
Lemma create_given_stack : stack_base <> NULL -> stack_provided s L ts name nm stack_base stack_size ->
  exists s', mem_create_fill fuel bouncer name f data t stack_base stack_size
    (set_mm (mem_set_flags t THREAD_EXTSTACK (mm s2)) s2) = Some (t, s') /\ created t s'.
Proof.
  intros Hsb [Hr [Hw8 Hw4] Hap Hnp]; pose proof name_outside as Hnt.
  assert (stack_base + stack_size <= t \/ t + SIZEOF_THREAD <= stack_base + stack_size - 8) as Hst.
  { assert (forall a, client_word s L a -> a + 4 <= t \/ t + SIZEOF_THREAD <= a) as Ha.
    { intros a Ha; apply word_outside; [|unfold SIZEOF_THREAD; lia]; intros x Hx; by apply Hfr, (client_word_bytes _ _ a). }
    pose proof (Ha _ Hw8); pose proof (Ha _ Hw4); unfold SIZEOF_THREAD in *; lia. }
  set (s3 := set_mm (mem_set_flags t THREAD_EXTSTACK (mm s2)) s2).
  assert (only_in (mm s2) (mm s3) (t + 32) (t + 36)) as Ho3.
  { intros x Hx; cbn [s3 mm set_mm]; unfold mem_set_flags; apply rd8_wr32_ne; lia. }
  assert (sched_in s3 (<[t := SIZEOF_THREAD]> L) ts S) as Hin3.
  { apply sched_in_write; [done| |].
    - apply word_write_inv; [apply (in_heap _ _ _ _ Hin2)|]; right; exists t, SIZEOF_THREAD; split; [apply lookup_insert_eq|unfold SIZEOF_THREAD; lia].
    - intros a Ha; apply (rd32_only_in _ _ _ _ _ Ho3); pose proof (Hout a Ha); unfold SIZEOF_THREAD in *; lia. }
  destruct (fill_ok s3 (<[t := SIZEOF_THREAD]> L) ts S fuel bouncer name f data t stack_base stack_size THREAD_EXTSTACK nm)
    as (s' & Efill & Hin' & Ed & Ef & Hp & Hfr').
  + done.
  + apply lookup_insert_eq.
  + done.
  + done.
  + intros x Hx Hx'; rewrite (Ho3 x) by lia; by apply Hz.
  + split; [|by right]; cbn [s3 mm set_mm]; unfold mem_set_flags; by apply rd32_wr32_val.
  + lia.
  + split; by apply Hw.
  + done.
  + done.
  + split_and!; [|done|done]. apply (cstr_same (mm s2)); [|done]; intros x Hx; apply Ho3; unfold SIZEOF_THREAD in *; lia.
  + done.
  + done.
  + done.
  + pose proof Hx1 as [E1 _]; destruct (create_listed bouncer nm cookie thrflags f data stack_base stack_size t t s s1 S Hl E1) as (h & Ebh & Ecr).
      { by intros ?. }
      exists s'; split; [exact Efill|]; exists (with_thread t (new_thread bouncer stack_base stack_size THREAD_EXTSTACK nm) h S), (new_thread bouncer stack_base stack_size THREAD_EXTSTACK nm).
      split_and!; [|apply lookup_insert_eq|exact (sched_in_hp _ _ _ _ h Hin')| | |done| |exact Ebh|].
      * rewrite Ecr; by rewrite (proj2 (Z.eqb_neq _ _) Hsb).
    * rewrite <- Ed; f_equal; cbn; lia.
    * rewrite <- Ef; f_equal; cbn; lia.
    * rewrite Hp; cbn [s3 pages set_mm]; destruct Hx1 as [_ [m2 ->]]; cbn [pages set_mm]; by rewrite (xmalloc_membase _ _ _ _ E1).
    * intros x Hx Hlk Hnx; destruct (Hfr x Hx) as (<- & Ho & _); specialize (Hnx Hsb).
      rewrite Hfr'; [apply Ho3; unfold SIZEOF_THREAD in *; lia|lia|done|done].
Qed.
End Structure.

Lemma create_ok :
  sched_in s L ts S -> create_served s -> cstr (mm s) name nm ->
  (stack_base <> NULL -> stack_provided s L ts name nm stack_base stack_size) ->
  match mem_create fuel bouncer name cookie thrflags f data stack_base stack_size s with
  | Ret (Some (t, s')) => created t s'
  | Ret None => False
  | Halt msg => msg = "xmalloc failed" \/ (stack_base = NULL /\ stack_size <> 0 /\ msg = "stack_size == 0")
  end.
Proof.
  intros Hin [Hs1 Hs2] Hc Hext; unfold mem_create.
  destruct (bmk_xmalloc SIZEOF_THREAD s) as [[t s1]|msg] eqn:E1; cbn [mbind outcome_bind]; [|left; by eapply xmalloc_halts].
  destruct (create_structure s L ts S t s1 Hin Hs1 E1) as (Hin2 & Hne & H0 & H32 & Hnone & Hz & Hfr & Hw & Hout).
  specialize (Hs2 _ _ E1); apply (request_fits_mm _ _ (fst (bmk_memset (mm s1) t 0 SIZEOF_THREAD))) in Hs2.
  assert (bmk_xmalloc SIZEOF_THREAD s = Ret (t, s1) /\ exists m, set_mm (fst (bmk_memset (mm s1) t 0 SIZEOF_THREAD)) s1 = set_mm m s1) as Hx1
    by (split; [done|by eexists]).
  revert Hin2 Hz Hfr Hw Hs2 Hx1; generalize (set_mm (fst (bmk_memset (mm s1) t 0 SIZEOF_THREAD)) s1); intros s2 Hin2 Hz Hfr Hw Hs2 Hx1.
  assert (cstr (mm s2) name nm) as Hc2 by (apply (cstr_same (mm s)); [|done]; intros x Hx; by apply Hfr, Hnm).
  assert (0 < t /\ t + SIZEOF_THREAD < 2 ^ 32) as Ht by (unfold NULL in *; lia).
  destruct (Z.eqb_spec stack_base NULL) as [Hb|Hb].
  - unfold c_assert; destruct (Z.eqb_spec stack_size 0) as [Hz0|Hz0]; cbn [mbind outcome_bind]; [|by right].
    unfold stackalloc; cbn [h_xmalloc memalloc_ops].
    destruct (bmk_xmalloc THREAD_STACKSIZE s2) as [[sb s3]|msg] eqn:E3; cbn [mbind outcome_bind]; [|left; by eapply xmalloc_halts].
    destruct (create_own_stack t s1 s2 Hx1 Hin2 Ht Hz Hfr Hout Hc2 sb s3 Hb Hz0 Hs2 E3) as (s' & -> & ?); done.
  - cbn [mbind outcome_bind].
    destruct (create_given_stack t s1 s2 Hx1 Hin2 Ht Hz Hfr Hw Hout Hc2 Hb (Hext Hb)) as (s' & -> & ?); done.
Qed.

(** C13: thread creation, with the allocator and the scheduler in one memory.
    The name is assumed to be a string of at most 15 bytes in static storage or
    in an allocation that is held (a longer one makes [bmk_strncpy] run over
    memory, see [bmk_strncpy_runaway]), a stack given from outside to be memory
    the caller may write, apart from threads and name, and the page counter not
    to overflow in the two requests.  Then, on a memory that holds a well-formed heap and a
    scheduler state, [bmk_sched_create] returns the thread that the scheduler
    on lists returns with the same allocator, or halts because memory is
    exhausted or because a size came without a stack.  When it returns, the
    memory holds the new heap and the new scheduler state, the top of the
    thread's stack holds its argument and function where its task block says,
    and, apart from that top and the links of the other threads, the bytes of
    static storage and of the allocations that were held before are unchanged.
    (Free memory is not covered: the allocator links its lists there.) *)
Theorem creation_memory_refinement :
  sched_in s L ts S -> create_served s -> cstr (mm s) name nm ->
  (stack_base <> NULL -> stack_provided s L ts name nm stack_base stack_size) ->
  match mem_create fuel bouncer name cookie thrflags f data stack_base stack_size s with
  | Ret (Some (t, s')) => created t s'
  | Ret None => False
  | Halt msg => msg = "xmalloc failed" \/ (stack_base = NULL /\ stack_size <> 0 /\ msg = "stack_size == 0")
  end.
Proof. exact create_ok. Qed.
End Whole.
End Create.

(** The two threads of SchedMem in static storage, a heap as at boot, and the
    name "n" at 0x4000. *)
Definition demo_cm : mstate := memalloc_boot (wr8 demo_sm 0x4000 110) demo_pg.
Definition demo_cs : sched mstate := Sched (thr demo_ss) [0x2000; 0x3000] [] [] 0x3000 0 demo_cm.

Lemma demo_sched_in : sched_in 0x1000 0x1010 0x1020 demo_cm ∅ [0x2000; 0x3000] demo_cs.
Proof.
  assert (Forall (fun a => 0 <= a /\ a + 4 <= 0x4000) (footprint 0x1000 0x1010 0x1020 [0x2000; 0x3000])) as HF
    by (apply (bool_decide_unpack _); by vm_compute).
  rewrite Forall_forall in HF; constructor.
  - exists ∅; split; [apply boot_ok; by vm_compute|]; intros p n; by rewrite lookup_empty.
  - apply (holds_frame demo_sm); [|by destruct demo_holds; constructor]; intros a Ha; destruct (HF a Ha).
    cbn [mm demo_cm memalloc_boot]; apply rd32_wr8_ne; lia.
  - intros a Ha; left; destruct (HF a Ha); split; [done|]; change (bmk_membase (pages demo_cm)) with 0x200000; lia.
Qed.

Lemma creation_memory_refinement_witness : exists t s',
  mem_create 0x1000 2 0x100100 0x4000 0 0 0x100600 77 NULL 0 demo_cm = Ret (Some (t, s')) /\
  created 0x1000 0x1010 0x1020 0x100100 [110] 0 0 0x100600 77 NULL 0 demo_cm ∅ [0x2000; 0x3000] demo_cs t s'.
Proof.
  pose proof (creation_memory_refinement 0x1000 0x1010 0x1020 2 0x100100 0x4000 [110] 0 0 0x100600 77 NULL 0 demo_cm ∅
    [0x2000; 0x3000] demo_cs) as Hc.
  assert (match mem_create 0x1000 2 0x100100 0x4000 0 0 0x100600 77 NULL 0 demo_cm with
          | Ret (Some _) => true | _ => false end = true) as E by (vm_compute; reflexivity).
  destruct (mem_create 0x1000 2 0x100100 0x4000 0 0 0x100600 77 NULL 0 demo_cm) as [[[t s']|]|]; try discriminate E.
  exists t, s'; split; [reflexivity|]; apply Hc.
  - by vm_compute.
  - cbn; lia.
  - intros x Hx; left; change (bmk_membase (pages demo_cm)) with 0x200000; cbn in Hx; lia.
  - split_and!; by vm_compute.
  - exact demo_sched_in.
  - apply boot_served; by vm_compute.
  - split_and!; [by vm_compute|by vm_compute|repeat constructor; discriminate].
  - intros []; reflexivity.
Defined.
