(* ===== verification/OneMemory.v ===== *)
(** * OneMemory: scheduler, allocator and their clients in one memory

    The whole state is the [mstate] of memalloc.c: static storage with the
    queues, [current_thread] and [init_thread], and the heap with block
    headers, thread structures, stacks and what other parts of the kernel
    hold.  The operations of sched.c run on this memory, together with
    clients that allocate, store and release.  The theorem is a forward
    simulation: whatever the code does to the memory is a run of the step
    relation of SchedThms, so that its theorems hold of the memory. *)
From S2P Require Import Prelude Mem Subr Pages Memalloc Heap Iface Alloc Sched SchedThms Cells Tailq TailqOps SchedMem Boot ThreadCreate.

(** ** Release leaves what others hold alone *)

Lemma memfree_frame s L p n s' :
  memalloc_inv s L -> L !! p = Some n -> bmk_memfree p s = Ret s' ->
  pages s' = pages s /\ memalloc_inv s' (delete p L) /\ forall x, client_byte s (delete p L) x -> rd8 (mm s') x = rd8 (mm s) x.
Proof.
  intros (h & Hok & HL) Hp E; destruct (HL _ _ Hp) as (_ & b & k & Hb & Hr); cbn [fst snd] in Hb, Hr.
  destruct (memfree_spec s L p) as (s2 & E2 & Hinv & _); [by exists h|by eexists|]; rewrite E in E2; injection E2 as <-.
  rewrite (memfree_used s h b k p Hok Hb) in E; injection E as <-; split_and!; [done|done|].
  destruct (ok_mem _ _ Hok _ _ Hb) as (Hk & Hlo & _); cbn [bk] in *; pose proof (bsize_pos k ltac:(lia)) as [Hsz _].
  cbn [mm set_nextf set_mm]; intros x Hx; apply rd8_wr32_ne; unfold ov_next.
  destruct Hx as [Hx|(q & m & [Hne Hq]%lookup_delete_Some & Hx)]; [lia|].
  destruct (HL _ _ Hq) as (_ & b' & k' & Hb' & Hr'); cbn [fst snd] in Hb', Hr'.
  assert (b <> b') as Hbb by (intros <-; congruence).
  pose proof (ok_used _ _ Hok _ _ _ Hb') as (_ & _ & _ & Hq8 & _); unfold SIZEOF_OV in *.
  destruct (ok_disj _ _ Hok _ _ _ _ Hb Hb' Hbb); cbn [bk] in *; lia.
Qed.

(** What is held is disjoint, and above static storage. *)
Lemma alloc_disjoint s L p n q m : memalloc_inv s L -> L !! p = Some n -> L !! q = Some m -> p <> q ->
  p + n <= q \/ q + m <= p.
Proof.
  intros (h & Hok & HL) Hp Hq Hne; destruct (HL _ _ Hp) as (_ & b & k & Hb & Hr), (HL _ _ Hq) as (_ & b' & k' & Hb' & Hr').
  cbn [fst snd] in *; assert (b <> b') as Hbb by (intros <-; congruence).
  pose proof (ok_used _ _ Hok _ _ _ Hb) as (_ & _ & _ & Hp8 & _); pose proof (ok_used _ _ Hok _ _ _ Hb') as (_ & _ & _ & Hq8 & _).
  unfold SIZEOF_OV in *; destruct (ok_disj _ _ Hok _ _ _ _ Hb Hb' Hbb); cbn [bk] in *; lia.
Qed.
Lemma alloc_above s L p n : memalloc_inv s L -> L !! p = Some n -> bmk_membase (pages s) < p /\ p + n < 2 ^ 32.
Proof.
  intros (h & Hok & HL) Hp; destruct (HL _ _ Hp) as (_ & b & k & Hb & Hr); cbn [fst snd] in Hb, Hr.
  destruct (ok_mem _ _ Hok _ _ Hb) as (_ & Hlo & _ & _ & Hhi); pose proof (ok_used _ _ Hok _ _ _ Hb) as (_ & _ & _ & Hp8 & _).
  destruct (ok_pages _ _ Hok) as (_ & _ & ? & _); cbn [bk] in *; unfold SIZEOF_OV in *; lia.
Qed.

Lemma memalloc_inv_mono s L L' : memalloc_inv s L' -> L ⊆ L' -> memalloc_inv s L.
Proof. intros (h & Hok & HL) Hs; exists h; split; [done|]; intros p n Hp; apply HL; by eapply lookup_weaken. Qed.

(** The scheduler's invariant does not depend on the contents of the heap. *)
Lemma sched_inv_hp init (S : sched mstate) L h :
  sched_inv init (S, L) -> memalloc_inv h L -> bmk_membase (pages h) = bmk_membase (pages (hp S)) ->
  sched_inv init (set_hp h S, L).
Proof.
  intros [Hn Hd Hc Hj [Hst Hi] _ Ho Hs Hinj] Hh Hb; constructor; cbn [fst snd threads zombies thr current_thread hp set_hp] in *; try done.
  split; [|done]; change (init < bmk_membase (pages h)); rewrite Hb; exact Hst.
Qed.

(** What the operations leave alone of a thread: where its stack is, and its
    task block. *)
Definition frozen (th : bmk_thread) : Z * Z * Z * bool :=
  (bt_stackbase th, btcb_sp th, btcb_ip th, Z.testbit (bt_flags th) 3).
Definition tcbs_kept (T T' : gmap Z bmk_thread) : Prop := forall t, frozen <$> T' !! t = frozen <$> T !! t.

#[global] Instance tcbs_kept_preorder : PreOrder tcbs_kept.
Proof. split; [by intros T t|]; intros T1 T2 T3 H1 H2 t; by rewrite H2, H1. Qed.
Lemma kept_alter f t T : (forall th, frozen (f th) = frozen th) -> tcbs_kept T (alter f t T).
Proof.
  intros Hf u; destruct (decide (u = t)) as [->|]; [|by rewrite lookup_alter_ne].
  rewrite lookup_alter_eq; destruct (T !! t); cbn; [by rewrite Hf|done].
Qed.
Lemma benign_frozen f : benign f -> (forall th, btcb_sp (f th) = btcb_sp th /\ btcb_ip (f th) = btcb_ip th) ->
  forall th, frozen (f th) = frozen th.
Proof. intros Hb Ht th; destruct (Hb th) as (Hs & _ & H3), (Ht th) as [Hp Hi]; unfold frozen; by rewrite Hs, H3, Hp, Hi. Qed.

Section OneMemory.
(** The addresses of the variables of sched.c. *)
Variables THREADS ZOMBIES CURRENT INIT : Z.
Local Abbreviation footprint := (footprint THREADS ZOMBIES CURRENT).
Local Abbreviation links := (links THREADS ZOMBIES).
Local Abbreviation holds := (holds THREADS ZOMBIES CURRENT).
Local Abbreviation sched_in := (sched_in THREADS ZOMBIES CURRENT).

(** The memory [s] holds the state [S] of the scheduler; its threads hold the
    allocations [L], other parts of the kernel hold [K]. *)
Record joint (s : mstate) (K L : gmap Z Z) (ts : list Z) (S : sched mstate) : Prop := {
  jt_inv : sched_inv INIT (S, L);
  jt_hp : hp S = s;
  jt_holds : holds (mm s) ts S;
  jt_static : forall a, a ∈ footprint [INIT] -> 0 <= a /\ a + 4 <= bmk_membase (pages s);
  jt_heap : memalloc_inv s (K ∪ L);
  jt_disj : K ##ₘ L;
}.

Lemma foot_cases ts a : a ∈ footprint ts -> a ∈ footprint [] \/
  exists t, t ∈ ts /\ a ∈ tqe_next bt_entries t :: tqe_prev bt_entries t :: fields t.
Proof.
  induction ts as [|t ts IH]; [by left|]; rewrite footprint_cons, elem_of_app; intros [Ha|Ha].
  - right; exists t; split; [by left|done].
  - destruct (IH Ha) as [?|(u & Hu & ?)]; [by left|right; exists u; split; [by right|done]].
Qed.
Lemma thread_word t a : a ∈ tqe_next bt_entries t :: tqe_prev bt_entries t :: fields t -> t <= a /\ a + 4 <= t + SIZEOF_THREAD.
Proof. rewrite thread_words; intros (k & -> & Hk%elem_of_seqZ)%list_elem_of_fmap; unfold SIZEOF_THREAD; lia. Qed.

(** Every word of the scheduler state is static or in the structure of a
    thread. *)
Lemma joint_cases s K L ts S a : joint s K L ts S -> a ∈ footprint ts ->
  a ∈ footprint [INIT] \/
  exists t, t ∈ ts /\ t <> INIT /\ L !! t = Some SIZEOF_THREAD /\ t <= a /\ a + 4 <= t + SIZEOF_THREAD.
Proof.
  intros [Hi _ Hh Hst _ _] [Ha|(t & Ht & Ha)]%foot_cases.
  - left; rewrite footprint_cons; apply elem_of_app; by right.
  - destruct (decide (t = INIT)) as [->|Hne]; [left; rewrite footprint_cons; apply elem_of_app; by left|].
    right; exists t; destruct (proj2 (h_dom _ _ _ _ _ _ Hh t) Ht) as [th Hth].
    split_and!; [done|done|by apply (si_own _ _ Hi t th)|apply thread_word, Ha|apply thread_word, Ha].
Qed.
Lemma joint_word s K L ts S a : joint s K L ts S -> a ∈ footprint ts ->
  (0 <= a /\ a + 4 <= bmk_membase (pages s)) \/
  exists t, t ∈ ts /\ t <> INIT /\ L !! t = Some SIZEOF_THREAD /\ t <= a /\ a + 4 <= t + SIZEOF_THREAD.
Proof.
  intros Hj Ha; destruct (joint_cases _ _ _ _ _ _ Hj Ha) as [Hx|Hx]; [left; by apply (jt_static _ _ _ _ _ Hj)|by right].
Qed.
Lemma joint_sched_in s K L ts S : joint s K L ts S -> sched_in s (K ∪ L) ts S.
Proof.
  intros Hj; pose proof Hj as [Hi Ehp Hh _ Hm Hd]; constructor; [done|done|].
  intros a Ha; destruct (joint_word _ _ _ _ _ _ Hj Ha) as [?|(t & _ & _ & HL & ?)]; [by left|right; exists t, SIZEOF_THREAD].
  by rewrite lookup_union_Some by done; auto.
Qed.

(** Stores to the scheduler's own words. *)
Lemma joint_writes s K L ts S m' S' :
  joint s K L ts S -> writes (footprint ts) (mm s) m' -> holds m' ts S' -> sched_inv INIT (S', L) -> hp S' = s ->
  joint (set_mm m' s) K L ts (set_hp (set_mm m' s) S').
Proof.
  intros Hj Hw Hh Hi Ehp; pose proof (joint_sched_in _ _ _ _ _ Hj) as [Hm _ Hc]; destruct Hj as [_ _ _ Hst _ Hd].
  assert (memalloc_inv (set_mm m' s) (K ∪ L)) as Hm' by (eapply writes_inv; [exact Hw|done|by destruct s]).
  constructor; [|done| |done|done|done].
  - apply sched_inv_hp; [done|by eapply memalloc_inv_mono, map_union_subseteq_r|by rewrite Ehp].
  - destruct Hh; by constructor.
Qed.

(** Bytes that are no words of the scheduler state, in static storage or in
    what the threads hold. *)
Definition foreign (s : mstate) (L : gmap Z Z) (ts : list Z) (x : Z) : Prop :=
  client_byte s L x /\ forall a, a ∈ footprint ts -> x < a \/ a + 4 <= x.

(** ** The release loop *)

(** The body of the loop over [zombies] in [bmk_sched]: the structure is
    unlinked, and stack and structure are given back to the allocator in the
    same memory.  The second component is [Halt] once the allocator has
    failed. *)
Definition one_reap_body (prev t : Z) (x : mem * outcome mstate) : bool * (mem * outcome mstate) :=
  let '(m, h) := x in
  if negb (t =? prev) then
    let m := TAILQ_REMOVE bt_entries ZOMBIES t m in
    match (h ← h; reap_free t m (set_mm m h)) with
    | Ret h => (true, (mm h, Ret h))
    | Halt e => (false, (m, Halt e))
    end
  else (true, x).
Definition one_reap (fuel : nat) (prev : Z) (s : mstate) : option (outcome mstate) :=
  '(_, h) ← TAILQ_FOREACH_SAFE bt_entries fuel (one_reap_body prev) ZOMBIES (mm s, Ret s);
  Some h.

(** The threads [l] are gone. *)
Fixpoint reaped (l : list Z) (S : sched mstate) : sched mstate :=
  match l with
  | [] => S
  | t :: l => reaped l (set_thr (delete t (thr S)) (set_zombies (tq_remove t (zombies S)) S))
  end.

Lemma reaped_hp l : forall S h, reaped l (set_hp h S) = set_hp h (reaped l S).
Proof. induction l as [|t l IH]; intros S h; [done|]; cbn [reaped]; by rewrite <- IH. Qed.
Lemma sched_reap_reaped prev l : forall S S', (prev ∉ l) -> sched_reap prev l S = Ret S' -> S' = set_hp (hp S') (reaped l S).
Proof.
  induction l as [|t l IH]; intros S S' Hni E; [injection E as <-; by destruct S|].
  apply not_elem_of_cons in Hni as [Hne Hni]; cbn [sched_reap] in E; rewrite decide_True in E by congruence.
  cbn [hp set_zombies] in E; destruct (if Z.land _ _ =? 0 then _ else _) as [h1|]; [|done]; cbn [mbind outcome_bind] in E.
  destruct (h_memfree t h1) as [h2|]; [|done]; cbn [mbind outcome_bind] in E.
  apply IH in E; [|done]; rewrite E; cbn [reaped hp set_hp].
  change (set_thr _ (set_hp h2 (set_zombies _ S))) with
    (set_hp h2 (set_thr (delete t (thr (set_zombies (tq_remove t (zombies S)) S))) (set_zombies (tq_remove t (zombies S)) S))).
  rewrite reaped_hp; reflexivity.
Qed.

Lemma reap_free_frame m s1 Lf t th h :
  memalloc_inv s1 Lf -> load_thread m t = th -> Lf !! t = Some SIZEOF_THREAD ->
  (Z.testbit (bt_flags th) 3 = false -> Lf !! bt_stackbase th = Some THREAD_STACKSIZE) ->
  reap_free t m s1 = Ret h ->
  memalloc_inv h (thread_release t th Lf) /\ pages h = pages s1 /\
  forall x, client_byte s1 (thread_release t th Lf) x -> rd8 (mm h) x = rd8 (mm s1) x.
Proof.
  intros Hm Eth Ht Hs; unfold reap_free, thread_release.
  rewrite <- load_flags, <- load_stackbase, Eth; change THREAD_EXTSTACK with (2 ^ 3); rewrite flag_test by lia.
  destruct (Z.testbit (bt_flags th) 3) eqn:E3; cbn [negb mbind outcome_bind].
  - intros E; destruct (memfree_frame s1 Lf t _ h Hm Ht E) as (? & ? & ?); done.
  - specialize (Hs eq_refl); destruct (h_memfree (bt_stackbase th) s1) as [s2|] eqn:E1; [|done]; cbn [mbind outcome_bind]; intros E2.
    destruct (memfree_frame s1 Lf _ _ s2 Hm Hs E1) as (Hp1 & Hm2 & Hf1).
    assert (bt_stackbase th <> t) as Hne by (intros Heq; rewrite Heq, Ht in Hs; discriminate Hs).
    destruct (memfree_frame s2 (delete (bt_stackbase th) Lf) t SIZEOF_THREAD h Hm2) as (Hp2 & Hm3 & Hf2); [by rewrite lookup_delete_ne|done|].
    split_and!; [done|congruence|]; intros x Hx; rewrite Hf2, Hf1; [done| |].
    + destruct Hx as [?|(p & n & [_ Hp]%lookup_delete_Some & ?)]; [by left|right; by exists p, n].
    + destruct Hx as [?|(p & n & Hp & ?)]; [left; by rewrite Hp1|right; by exists p, n].
Qed.

Lemma thread_release_union t th (K L : gmap Z Z) : K ##ₘ L -> is_Some (L !! t) -> (Z.testbit (bt_flags th) 3 = false -> is_Some (L !! bt_stackbase th)) ->
  thread_release t th (K ∪ L) = K ∪ thread_release t th L /\ K ##ₘ thread_release t th L.
Proof.
  intros Hd Ht Hs; assert (forall a M, K ##ₘ M -> is_Some (L !! a) -> delete a (K ∪ M) = K ∪ delete a M) as Hdel.
  { intros a M HM [x Ha]; rewrite delete_union; f_equal; apply delete_id; by apply (map_disjoint_Some_r K L a x). }
  unfold thread_release; destruct (Z.testbit (bt_flags th) 3).
  - split; [by apply Hdel|by apply map_disjoint_delete_r].
  - specialize (Hs eq_refl); rewrite (Hdel _ L) by done; split; [|by do 2 apply map_disjoint_delete_r].
    apply Hdel; [by apply map_disjoint_delete_r|done].
Qed.

(** One zombie. *)
Lemma one_reap_step s K L ts S t z :
  joint s K L ts S -> zombies S = t :: z -> current_thread S ∈ threads S ->
  let m1 := TAILQ_REMOVE bt_entries ZOMBIES t (mm s) in
  exists s' ts', reap_free t m1 (set_mm m1 s) = Ret s' /\ pages s' = pages s /\
    joint s' K (thread_release t (getthr (thr S) t) L) ts'
      (set_hp s' (set_thr (delete t (thr S)) (set_zombies (tq_remove t (zombies S)) S))) /\
    ts ≡ₚ t :: ts' /\
    forall x, foreign s (thread_release t (getthr (thr S) t) L) ts x -> rd8 (mm s') x = rd8 (mm s) x.
Proof.
  intros Hj E Hc m1; pose proof (joint_sched_in _ _ _ _ _ Hj) as [Hm _ Hcl]; pose proof Hj as [Hi Ehp Hh Hst _ Hd].
  destruct (h_queues _ _ _ _ _ _ Hh) as [Hn Hin]; 
  assert (holds m1 ts (set_zombies z S)) as H1 by (by apply holds_unlink_zombie with (z1 := [])).
  assert (memalloc_inv (set_mm m1 s) (K ∪ L)) as Hm1
    by (eapply writes_inv; [by eapply unlink_zombie_writes with (z1 := [])|done|by destruct s]).
  assert (t ∈ zombies S) as Htz by (rewrite E; by left).
  assert (t ∈ ts) as Hts by (apply Hin, elem_of_app; by right).
  assert (t <> INIT) as Hti.
  { intros ->; destruct (si_init _ _ Hi) as [_ Hx]; cbn in Hx; apply NoDup_app in Hn as (_ & Hx' & _); by apply (Hx' INIT). }
  destruct (proj2 (h_dom _ _ _ _ _ _ Hh t) Hts) as [th Hth]; rewrite (getthr_Some _ _ _ Hth).
  pose proof (si_own _ _ Hi t th Hth Hti) as HLt; cbn [snd] in HLt.
  assert (Z.testbit (bt_flags th) 3 = false -> L !! bt_stackbase th = Some THREAD_STACKSIZE) as HLs by (intros; by apply (si_stack _ _ Hi t th)).
  destruct (h_thr _ _ _ _ _ _ H1 t th Hth) as [Eld _].
  destruct (thread_release_union t th K L Hd) as [Eru Hdu]; [by eexists|intros H3; rewrite HLs by done; by eexists|].
  assert (sched_inv INIT (set_hp (set_mm m1 s) S, L)) as Hi1
    by (apply sched_inv_hp; [done|by eapply memalloc_inv_mono, map_union_subseteq_r|by rewrite Ehp]).
  destruct (sched_inv_reap_one INIT t _ _ Hi1 Htz Hc) as (h & Efree & Hi2).
  assert (reap_free t m1 (set_mm m1 s) = Ret h) as Erf.
  { unfold reap_free; rewrite <- load_flags, <- load_stackbase, Eld; cbn [thr set_hp hp] in Efree.
    rewrite (getthr_Some _ _ _ Hth) in Efree; exact Efree. }
  destruct (reap_free_frame m1 (set_mm m1 s) (K ∪ L) t th h Hm1 Eld) as (Hmh & Hph & Hfr); [..|exact Erf|].
  { rewrite lookup_union_Some by done; by right. }
  { intros H3; rewrite lookup_union_Some by done; right; by apply HLs. }
  rewrite Eru in Hmh, Hfr; cbn [pages set_mm mm] in Hph, Hfr.
  pose proof Hts as [ts2 Hp]%elem_of_Permutation; rewrite Hp in H1; exists h, ts2; split; [exact Erf|]; split; [exact Hph|].
  split; [|split; [done|]]; cycle 1.
  { intros x [Hx Hxo]; rewrite Hfr; [by eapply writes_byte; [by eapply unlink_zombie_writes with (z1 := [])|]|].
    destruct Hx as [?|(q & n & Hq & ?)]; [by left|right; exists q, n; by rewrite lookup_union_Some by done; auto]. }
  cbn [thr set_hp] in Hi2; rewrite (getthr_Some _ _ _ Hth) in Hi2; constructor; [exact Hi2|done| |by rewrite Hph|done|done].
  rewrite E in Hn; rewrite <- Permutation_middle in Hn; apply NoDup_cons in Hn as [Hni _].
  rewrite E, tq_remove_cons_eq, tq_remove_notin by (intros Hx; apply Hni, elem_of_app; by right).
  apply (holds_drop _ _ _ m1 (mm h) ts2 (set_zombies z S) t h H1); [exact Hni|].
  intros a Ha; apply rd32_same; intros x Hx; apply Hfr.
  pose proof (outside_thread _ _ _ t ts2 a (h_apart _ _ _ _ _ _ H1) Ha) as Hout.
  assert (a ∈ footprint ts) as Ha' by (rewrite Hp, footprint_cons; apply elem_of_app; by right).
  destruct (joint_word _ _ _ _ _ _ Hj Ha') as [?|(u & Hu & Hui & HLu & ?)]; [left; cbn; lia|].
  right; exists u, SIZEOF_THREAD; split; [|lia]; rewrite lookup_union_Some by done; right.
  rewrite thread_release_lookup; [done|intros ->; unfold SIZEOF_THREAD in *; lia|].
  intros H3 ->; rewrite HLs in HLu by done; discriminate HLu.
Qed.

Lemma release_all_Some T l : forall L p n, release_all T l L !! p = Some n -> L !! p = Some n.
Proof.
  induction l as [|t l IH]; intros L p n; [done|]; intros Hp%IH; unfold thread_release in Hp.
  apply lookup_delete_Some in Hp as [_ Hp]; destruct (Z.testbit _ 3); [done|]; by apply lookup_delete_Some in Hp as [_ Hp].
Qed.

Lemma one_reap_loop z : forall s K L ts S fuel,
  joint s K L ts S -> zombies S = z -> current_thread S ∈ threads S -> (length z <= fuel)%nat ->
  exists s' ts', tailq_foreach_safe bt_entries fuel (one_reap_body (current_thread S)) (default NULL (head z)) (mm s, Ret s) =
      Some (mm s', Ret s') /\ pages s' = pages s /\
    joint s' K (release_all (thr S) z L) ts' (set_hp s' (reaped z S)) /\ ts ≡ₚ z ++ ts' /\
    forall x, foreign s (release_all (thr S) z L) ts x -> rd8 (mm s') x = rd8 (mm s) x.
Proof.
  induction z as [|t z IH]; intros s K L ts S fuel Hj E Hc Hf.
  { exists s, ts; cbn; split; [by destruct fuel|]; split; [done|]; split; [|done]; rewrite <- (jt_hp _ _ _ _ _ Hj) at 2; by destruct S. }
  pose proof (jt_holds _ _ _ _ _ Hj) as Hh; destruct (h_queues _ _ _ _ _ _ Hh) as [Hn _].
  pose proof (h_zombies _ _ _ _ _ _ Hh) as Hq; rewrite E in Hq, Hn.
  destruct (tailq_split _ _ _ [] _ _ Hq) as (r & q & _ & _ & Hne & _ & Hs2 & Hq2 & _).
  destruct fuel as [|fuel]; cbn [length] in Hf; [lia|]; cbn [head default from_option id].
  rewrite foreach_safe_step by done; unfold TAILQ_NEXT; cbn [fst]; rewrite (seg_head _ _ _ _ _ Hs2 Hq2).
  apply NoDup_app in Hn as (_ & Hdis & [Htz _]%NoDup_cons).
  assert (t <> current_thread S) as Htc by (intros ->; apply (Hdis (current_thread S)); [done|by left]).
  destruct (one_reap_step s K L ts S t z Hj E Hc) as (s1 & ts1 & Efree & Ep1 & Hj1 & Hp1 & Hfr1).
  unfold one_reap_body at 1; rewrite (proj2 (Z.eqb_neq _ _) Htc); cbn [negb mbind outcome_bind]; rewrite Efree.
  destruct (IH _ _ _ _ _ fuel Hj1) as (s' & ts' & E' & Ep' & Hj' & Hp' & Hfr').
  - cbn; rewrite E, tq_remove_cons_eq; by apply tq_remove_notin.
  - done.
  - lia.
  - exists s', ts'; split; [exact E'|]; split; [congruence|]; cbn [reaped]; rewrite E in Hj'.
    change (release_all (thr S) (t :: z) L) with (release_all (thr S) z (thread_release t (getthr (thr S) t) L)).
    rewrite <- (release_all_delete (thr S) t) by done; rewrite reaped_hp in Hj'; rewrite E; split; [exact Hj'|]; split.
    { by rewrite Hp1, Hp'. }
    cbn [thr set_hp set_thr] in Hfr'; intros x [Hx Hxo].
    rewrite Hfr', Hfr1; [done|split; [|done]|split; [|intros a Ha; apply Hxo; rewrite Hp1, footprint_cons; apply elem_of_app; by right]].
    + destruct Hx as [?|(b & n & Hb & ?)]; [by left|right; exists b, n; split; [|done]].
      by apply release_all_Some in Hb.
    + destruct Hx as [?|?]; [left; by rewrite Ep1|by right].
Qed.

Local Abbreviation runs := (sruns INIT).

Lemma runs_app c1 l1 c2 l2 c3 : runs c1 l1 c2 -> runs c2 l2 c3 -> runs c1 (l1 ++ l2) c3.
Proof. induction 1 as [|c lab c' ls c'' Hs Hr IH]; intros H2; [done|]; cbn; econstructor; [exact Hs|by apply IH]. Qed.

(** A change of the heap that keeps the allocations of the threads is a step
    of the other parts of the kernel. *)
Lemma runs_heap (S : sched mstate) L h : memalloc_inv h L -> bmk_membase (pages h) = bmk_membase (pages (hp S)) ->
  runs (S, L) [LOther] (set_hp h S, L).
Proof.
  intros Hh Hb; econstructor; [|constructor]; apply st_client; [exact Hh| |done].
  intros a Ha; change (a < bmk_membase (pages h)); rewrite Hb; exact Ha.
Qed.

Lemma memfree_pages p s s' : bmk_memfree p s = Ret s' -> pages s' = pages s.
Proof.
  unfold bmk_memfree, c_assert; destruct (p =? NULL); [by intros [= <-]|]; destruct (negb _); [by intros [= <-]|].
  destruct (_ <? NBUCKETS); [|done]; by intros [= <-].
Qed.
Lemma sched_reap_pages prev l : forall (S S' : sched mstate), sched_reap prev l S = Ret S' -> pages (hp S') = pages (hp S).
Proof.
  induction l as [|t l IH]; intros S S' E; [by injection E as <-|]; cbn [sched_reap] in E; case_decide; [|by apply IH].
  cbn [hp set_zombies h_memfree memalloc_ops] in E; revert E; destruct (Z.land _ _ =? 0); cbn [mbind outcome_bind].
  - destruct (bmk_memfree (bt_stackbase _) (hp S)) as [h1|] eqn:E1; [|done]; cbn [mbind outcome_bind].
    destruct (bmk_memfree t h1) as [h2|] eqn:E2; [|done]; intros E%IH; rewrite E; cbn.
    by rewrite (memfree_pages _ _ _ E2), (memfree_pages _ _ _ E1).
  - destruct (bmk_memfree t (hp S)) as [h2|] eqn:E2; [|done]; intros E%IH; rewrite E; cbn; by apply (memfree_pages t).
Qed.

Lemma one_reap_ok s K L ts S fuel :
  joint s K L ts S -> current_thread S ∈ threads S -> (length (zombies S) <= fuel)%nat ->
  exists s' ts' ls, let L' := release_all (thr S) (zombies S) L in let S' := set_hp s' (reaped (zombies S) S) in
    one_reap fuel (current_thread S) s = Some (Ret s') /\ joint s' K L' ts' S' /\ runs (S, L) ls (S', L') /\
    pages s' = pages s /\ ts ≡ₚ zombies S ++ ts' /\ forall x, foreign s L' ts x -> rd8 (mm s') x = rd8 (mm s) x.
Proof.
  intros Hj Hc Hf; destruct (one_reap_loop (zombies S) s K L ts S fuel Hj eq_refl Hc Hf) as (s' & ts' & E & Ep & Hj' & Hp & Hfr).
  pose proof (jt_holds _ _ _ _ _ Hj) as Hh; destruct (h_queues _ _ _ _ _ _ Hh) as [Hn _].
  assert (current_thread S ∉ zombies S) as Hcz by (apply NoDup_app in Hn as (_ & Hd & _); by apply Hd).
  destruct (sched_reap_spec INIT S L (zombies S) (jt_inv _ _ _ _ _ Hj) eq_refl Hc) as (S1 & E1 & Hi1 & _).
  exists s', ts'; eexists; cbv zeta; split_and!; [|exact Hj'| |exact Ep|exact Hp|exact Hfr].
  - unfold one_reap, TAILQ_FOREACH_SAFE, TAILQ_FIRST; cbn [fst]; destruct (h_zombies _ _ _ _ _ _ Hh) as (q & Hs & Hq & _).
    rewrite (seg_head _ _ _ _ _ Hs Hq), E; reflexivity.
  - apply (runs_app _ [LOther] (S1, release_all (thr S) (zombies S) L)).
    + econstructor; [|constructor]; pose proof (st_reap INIT S L S1 Hc E1) as Hst; by rewrite tq_remove_notin in Hst.
    + pose proof (sched_reap_reaped _ _ _ _ Hcz E1) as ES.
      assert (set_hp s' (reaped (zombies S) S) = set_hp s' S1) as -> by (rewrite ES; reflexivity).
      apply runs_heap; [eapply memalloc_inv_mono; [apply (jt_heap _ _ _ _ _ Hj')|by apply map_union_subseteq_r, (jt_disj _ _ _ _ _ Hj')]|].
      rewrite (sched_reap_pages _ _ _ _ E1), (jt_hp _ _ _ _ _ Hj); by rewrite Ep.
Qed.

(** ** The code that runs on the memory *)

(** The thread [t] is on the queue at [h]. *)
Definition on_queue (h : Z) (m : mem) (t : Z) : Prop := exists l, tailq bt_entries m h l /\ t ∈ l.
Definition thread_at (m : mem) (t : Z) : Prop := on_queue THREADS m t \/ on_queue ZOMBIES m t.

(** The operations of sched.c, called with threads that exist, and the other
    parts of the kernel, which allocate, store into and release what they
    hold ([K]): first those that neither add nor remove threads nor choose one
    to run.  As in [sstep] the initial thread does not exit; requests are below
    2 GB and do not overflow the page counter, which the allocator does not
    check. *)
Inductive pstep : mstate * gmap Z Z -> mstate * gmap Z Z -> Prop :=
| p_wake s K t : thread_at (mm s) t -> pstep (s, K) (set_mm (mem_wake t (mm s)) s, K)
| p_block s K t : thread_at (mm s) t -> pstep (s, K) (set_mm (mem_block t (mm s)) s, K)
| p_setwakeup s K t tm : thread_at (mm s) t -> srange 64 tm -> pstep (s, K) (set_mm (mem_setwakeup t tm (mm s)) s, K)
| p_nanosleep s K now nsec : pstep (s, K) (set_mm (mem_nanosleep CURRENT now nsec (mm s)) s, K)
| p_exit s K :
    on_queue THREADS (mm s) (rd32 (mm s) CURRENT) -> rd32 (mm s) CURRENT <> INIT ->
    Z.land (mem_flags (rd32 (mm s) CURRENT) (mm s)) THREAD_MUSTJOIN = 0 ->
    pstep (s, K) (set_mm (mem_exit_final THREADS ZOMBIES CURRENT (mm s)) s, K)
| p_alloc s K n p s' :
    0 <= n < 2 ^ 31 -> request_fits n 0 s -> bmk_xmalloc n s = Ret (p, s') -> pstep (s, K) (s', <[p := n]> K)
| p_free s K p n s' : K !! p = Some n -> bmk_memfree p s = Ret s' -> pstep (s, K) (s', delete p K)
| p_store s K p n a v :
    K !! p = Some n -> p <= a -> a + 4 <= p + n -> pstep (s, K) (set_mm (wr32 (mm s) a v) s, K).

(** All of them.  The functions of the scheduler end at its calls of
    [bmk_sched]; the loops get as much fuel as the queues are long. *)
Inductive cstep : mstate * gmap Z Z -> mstate * gmap Z Z -> Prop :=
| c_plain c c' : pstep c c' -> cstep c c'
| c_dispatch s K l fuel ticks m' rest :
    tailq bt_entries (mm s) THREADS l -> (length l <= fuel)%nat -> Forall (fun k => Forall (thread_at (mm s)) (tk_woken k)) ticks ->
    mem_dispatch THREADS CURRENT fuel ticks (mm s) = Some (m', rest) -> cstep (s, K) (set_mm m' s, K)
| c_reap s K z fuel s' :
    on_queue THREADS (mm s) (rd32 (mm s) CURRENT) -> tailq bt_entries (mm s) ZOMBIES z -> (length z <= fuel)%nat ->
    one_reap fuel (rd32 (mm s) CURRENT) s = Some (Ret s') -> cstep (s, K) (s', K)
| c_create s K fuel bouncer name nm cookie thrflags f data t s' :
    on_queue THREADS (mm s) (rd32 (mm s) CURRENT) -> create_served s ->
    cstr (mm s) name nm -> Z.of_nat (length nm) <= NAME_MAXLEN - 1 -> (length nm < fuel)%nat ->
    0 <= name -> name + Z.of_nat (length nm) < bmk_membase (pages s) ->
    urange 32 f /\ urange 32 data /\ urange 32 bouncer ->
    mem_create THREADS fuel bouncer name cookie thrflags f data NULL 0 s = Ret (Some (t, s')) -> cstep (s, K) (s', K).

(** A queue in memory is one list. *)
Lemma tailq_unique m h l l' : tailq bt_entries m h l -> tailq bt_entries m h l' -> l = l'.
Proof.
  intros (q & Hs & Hq & _) (q' & Hs' & Hq' & _).
  pose proof (seg_foreach _ _ _ _ _ (length l + length l') Hs Hq ltac:(lia)) as E.
  pose proof (seg_foreach _ _ _ _ _ (length l + length l') Hs' Hq' ltac:(lia)) as E'; congruence.
Qed.
Lemma on_threads s K L ts S t : joint s K L ts S -> on_queue THREADS (mm s) t -> t ∈ threads S.
Proof. intros Hj (l & Hl & Ht); by rewrite (tailq_unique _ _ _ _ (h_threads _ _ _ _ _ _ (jt_holds _ _ _ _ _ Hj)) Hl). Qed.
Lemma thread_exists s K L ts S t : joint s K L ts S -> thread_at (mm s) t -> t ∈ ts.
Proof.
  intros Hj Ht; destruct (h_queues _ _ _ _ _ _ (jt_holds _ _ _ _ _ Hj)) as [_ Hin]; apply Hin, elem_of_app.
  destruct Ht as [Ht|(l & Hl & Ht)]; [left; by eapply on_threads|right].
  by rewrite (tailq_unique _ _ _ _ (h_zombies _ _ _ _ _ _ (jt_holds _ _ _ _ _ Hj)) Hl).
Qed.

(** What a step of the code amounts to; [plainly] when it is a [pstep]: the
    same threads exist, task blocks and stacks are left alone. *)
Definition simulated (S : sched mstate) L (s' : mstate) K' : Prop :=
  exists ls L' ts' S', runs (S, L) ls (S', L') /\ joint s' K' L' ts' S'.
Definition plainly (s : mstate) ts (S : sched mstate) L (s' : mstate) K' : Prop :=
  exists ls S', runs (S, L) ls (S', L) /\ joint s' K' L ts S' /\
    tcbs_kept (thr S) (thr S') /\ current_thread S' = current_thread S /\
    bmk_membase (pages s') = bmk_membase (pages s) /\ forall x, foreign s L ts x -> rd8 (mm s') x = rd8 (mm s) x.

(** An operation that stores to the scheduler's words. *)
Lemma sim_writes s K L ts S m' lab S1 :
  joint s K L ts S -> writes (footprint ts) (mm s) m' -> holds m' ts S1 -> sstep INIT (S, L) lab (S1, L) -> hp S1 = hp S ->
  runs (S, L) [lab; LOther] (set_hp (set_mm m' s) S1, L) /\ joint (set_mm m' s) K L ts (set_hp (set_mm m' s) S1).
Proof.
  intros Hj Hw Hh Hst Ehp; pose proof (sched_inv_step INIT _ _ _ (jt_inv _ _ _ _ _ Hj) Hst) as Hi1.
  rewrite (jt_hp _ _ _ _ _ Hj) in Ehp; pose proof (joint_writes s K L ts S m' S1 Hj Hw Hh Hi1 Ehp) as Hj'.
  split; [|exact Hj'].
  econstructor; [exact Hst|]; apply runs_heap; [|by rewrite Ehp].
  eapply memalloc_inv_mono; [apply (jt_heap _ _ _ _ _ Hj')|by apply map_union_subseteq_r, (jt_disj _ _ _ _ _ Hj')].
Qed.
Lemma plain_writes s K L ts S m' lab S1 :
  joint s K L ts S -> writes (footprint ts) (mm s) m' -> holds m' ts S1 -> sstep INIT (S, L) lab (S1, L) -> hp S1 = hp S ->
  tcbs_kept (thr S) (thr S1) -> current_thread S1 = current_thread S -> plainly s ts S L (set_mm m' s) K.
Proof.
  intros Hj Hw Hh Hst Ehp Hk Hc; destruct (sim_writes _ _ _ _ _ _ _ _ Hj Hw Hh Hst Ehp) as [Hr Hj'].
  eexists _, _; split_and!; [exact Hr|exact Hj'|exact Hk|exact Hc|done|].
  intros x [_ Hx]; by apply (writes_byte _ _ _ _ Hw).
Qed.

(** Memory changes outside the words of the scheduler state. *)
Lemma joint_heap s K L ts S s' K' :
  joint s K L ts S -> memalloc_inv s' (K' ∪ L) -> K' ##ₘ L -> bmk_membase (pages s') = bmk_membase (pages s) ->
  (forall a, a ∈ footprint ts -> rd32 (mm s') a = rd32 (mm s) a) -> joint s' K' L ts (set_hp s' S).
Proof.
  intros [Hi Ehp Hh Hst _ _] Hm Hd Hb Hf.
  constructor; [|done| |by rewrite Hb|done|done].
  - apply sched_inv_hp; [done|eapply memalloc_inv_mono; [exact Hm|by apply map_union_subseteq_r]|by rewrite Ehp].
  - apply (holds_frame (mm s)); [done|]; destruct Hh; by constructor.
Qed.

(** An operation of another part of the kernel. *)
Lemma sim_heap s K L ts S s' K' :
  joint s K L ts S -> memalloc_inv s' (K' ∪ L) -> K' ##ₘ L -> bmk_membase (pages s') = bmk_membase (pages s) ->
  (forall x, client_byte s L x -> rd8 (mm s') x = rd8 (mm s) x) -> plainly s ts S L s' K'.
Proof.
  intros Hj Hm Hd Hb Hf; exists [LOther], (set_hp s' S); split_and!; [| |done|done|done|by intros x [Hx _]; apply Hf].
  { apply runs_heap; [|by rewrite (jt_hp _ _ _ _ _ Hj)]; eapply memalloc_inv_mono; [exact Hm|by apply map_union_subseteq_r]. }
  apply (joint_heap s K); [done..|]; intros a Ha; apply rd32_same; intros x Hx; apply Hf.
  destruct (joint_word _ _ _ _ _ _ Hj Ha) as [?|(t & _ & _ & HL & ?)]; [left; lia|right; exists t, SIZEOF_THREAD; split; [done|lia]].
Qed.

Lemma client_union s K L x : K ##ₘ L -> client_byte s L x -> client_byte s (K ∪ L) x.
Proof. intros Hd [?|(p & n & Hp & ?)]; [by left|right; exists p, n; by rewrite lookup_union_Some by done; auto]. Qed.

Lemma sim_alloc s K L ts S n p s' :
  joint s K L ts S -> 0 <= n < 2 ^ 31 -> request_fits n 0 s -> bmk_xmalloc n s = Ret (p, s') -> plainly s ts S L s' (<[p := n]> K).
Proof.
  intros Hj Hn Hf E; pose proof (joint_sched_in _ _ _ _ _ Hj) as Hin; pose proof (jt_disj _ _ _ _ _ Hj) as Hd.
  destruct (sched_in_alloc _ _ _ s _ ts S n p s' Hin Hn Hf E) as ([Hm _ _] & _ & _ & _ & Hnone & Hfr & _).
  apply lookup_union_None in Hnone as [HK HL]; rewrite insert_union_l in Hm.
  apply (sim_heap s K L ts S); [done|done|by apply map_disjoint_insert_l_2|by apply (xmalloc_membase n s p)|].
  intros x Hx; by apply Hfr, client_union.
Qed.

Lemma sim_free s K L ts S p n s' :
  joint s K L ts S -> K !! p = Some n -> bmk_memfree p s = Ret s' -> plainly s ts S L s' (delete p K).
Proof.
  intros Hj HK E; pose proof (jt_disj _ _ _ _ _ Hj) as Hd.
  assert (L !! p = None) as HLp by (by apply (map_disjoint_Some_l K L p n)).
  destruct (memfree_frame s (K ∪ L) p n s' (jt_heap _ _ _ _ _ Hj)) as (Hp & Hm & Hfr); [by rewrite lookup_union_Some by done; left|done|].
  rewrite delete_union, (delete_id L) in Hm, Hfr by done.
  assert (delete p K ##ₘ L) as Hd' by (by apply map_disjoint_delete_l).
  apply (sim_heap s K L ts S); [done|done|done|by rewrite Hp|]; intros x Hx; by apply Hfr, client_union.
Qed.

Lemma sim_store s K L ts S p n a v : joint s K L ts S -> K !! p = Some n -> p <= a -> a + 4 <= p + n ->
  plainly s ts S L (set_mm (wr32 (mm s) a v) s) K.
Proof.
  intros Hj HK Ha Hb; pose proof (jt_heap _ _ _ _ _ Hj) as Hm; pose proof (jt_disj _ _ _ _ _ Hj) as Hd.
  assert ((K ∪ L) !! p = Some n) as Hp by (by rewrite lookup_union_Some by done; left).
  apply (sim_heap s K L ts S); [done| |done|done|].
  - apply word_write_inv; [done|right; by exists p, n].
  - intros x Hx; cbn [mm set_mm]; apply rd8_wr32_ne.
    pose proof (alloc_above _ _ _ _ Hm Hp); destruct Hx as [?|(t & k & HL & ?)]; [lia|].
    assert ((K ∪ L) !! t = Some k) as Ht by (by rewrite lookup_union_Some by done; right).
    assert (t <> p) as Hne by (intros ->; by rewrite (map_disjoint_Some_l K L p n) in HL).
    pose proof (alloc_disjoint _ _ _ _ _ _ Hm Ht Hp Hne); lia.
Qed.

(** A thread that is created without a stack gets one of its own. *)
Lemma created_stack bouncer nm cookie thrflags f data t (S S' : sched mstate) th :
  bmk_sched_create bouncer nm cookie thrflags f data NULL 0 S = Ret (t, S') -> thr S' !! t = Some th ->
  Z.testbit (bt_flags th) 3 = false /\ btcb_sp th = bt_stackbase th + THREAD_STACKSIZE - 8.
Proof.
  unfold bmk_sched_create; destruct (h_xmalloc SIZEOF_THREAD (hp S)) as [[p h1]|]; [|done]; cbn [mbind outcome_bind].
  rewrite Z.eqb_refl; unfold c_assert; cbn [Z.eqb mbind outcome_bind]; destruct (stackalloc h1) as [[sb h2]|]; [|done].
  cbn [mbind outcome_bind]; unfold bmk_cpu_sched_create, stack_push.
  destruct (copy_name nm) as [n|]; [|done]; cbn [mbind outcome_bind]; intros [= <- <-]; cbn [thr set_threads set_thr].
  rewrite lookup_insert_eq; intros [= <-]; cbn; split; [done|lia].
Qed.

Lemma create_joint s K L ts S fuel bouncer name nm cookie thrflags f data t s' :
  joint s K L ts S -> current_thread S ∈ threads S -> create_served s ->
  cstr (mm s) name nm -> Z.of_nat (length nm) <= NAME_MAXLEN - 1 -> (length nm < fuel)%nat ->
  0 <= name -> name + Z.of_nat (length nm) < bmk_membase (pages s) ->
  urange 32 f /\ urange 32 data /\ urange 32 bouncer ->
  mem_create THREADS fuel bouncer name cookie thrflags f data NULL 0 s = Ret (Some (t, s')) ->
  exists ls S' th, runs (S, L) ls (S', thread_allocs t th L) /\ joint s' K (thread_allocs t th L) (t :: ts) S' /\
    thr S !! t = None /\ thr S' = <[t := th]> (thr S) /\ current_thread S' = current_thread S /\
    Z.testbit (bt_flags th) 3 = false /\ btcb_sp th = bt_stackbase th + THREAD_STACKSIZE - 8 /\ btcb_ip th = bouncer /\
    rd32 (mm s') (btcb_sp th) = data /\ rd32 (mm s') (btcb_sp th + 4) = f /\
    bmk_membase (pages s') = bmk_membase (pages s) /\ forall x, foreign s L ts x -> rd8 (mm s') x = rd8 (mm s) x.
Proof.
  intros Hj Hc Hsrv Hstr Hl Hfu Hn0 Hn1 Hargs E; pose proof (joint_sched_in _ _ _ _ _ Hj) as Hin; pose proof Hj as [Hi Ehp _ Hst Hm Hd].
  pose proof (create_ok THREADS ZOMBIES CURRENT fuel bouncer name nm cookie thrflags f data NULL 0 s (K ∪ L) ts S Hl Hfu) as Hok.
  rewrite E in Hok; destruct Hok as (S' & th & Ecr & Hth & Hin' & Hdata & Hf & Hip & Hb1 & Hb2 & Hfr); [|done..|].
  { intros x Hx; left; lia. }
  assert (set_hp s S = S) as ES by (rewrite <- Ehp; by destruct S); rewrite ES in Ecr.
  destruct (created_stack _ _ _ _ _ _ _ _ _ _ Ecr Hth) as [H3 Hsp].
  pose proof (sched_create_spec _ _ _ _ _ _ _ _ _ _ _ (K ∪ L) ltac:(rewrite Ehp; exact Hm) ltac:(by rewrite Ehp) ltac:(done) Ecr)
    as (th' & h' & ES' & _ & _ & Hnone & Hns & Hstk & _).
  assert (th' = th) as -> by (rewrite ES' in Hth; cbn in Hth; rewrite lookup_insert_eq in Hth; congruence).
  apply lookup_union_None in Hnone as [HKt HLt]; destruct (Hstk H3) as [[HKs HLs]%lookup_union_None _].
  assert (thread_allocs t th (K ∪ L) = K ∪ thread_allocs t th L /\ K ##ₘ thread_allocs t th L) as [Eu Hdu].
  { unfold thread_allocs; rewrite H3; split; [rewrite (insert_union_r _ _ t) by done; by apply insert_union_r|].
    apply map_disjoint_insert_r_2; [done|by apply map_disjoint_insert_r_2]. }
  rewrite Eu in Hin'; destruct Hin' as [Hm' Hh' _].
  pose proof (st_create INIT S L _ _ _ _ _ _ _ _ _ _ Hc ltac:(by rewrite Ehp) ltac:(done) Ecr) as Hstep.
  rewrite (getthr_Some _ _ _ Hth) in Hstep; pose proof (sched_inv_step INIT _ _ _ Hi Hstep) as Hi'.
  assert (memalloc_inv s' (thread_allocs t th L)) as Hm'' by (eapply memalloc_inv_mono; [exact Hm'|by apply map_union_subseteq_r]).
  exists [LCreate t; LOther], (set_hp s' S'), th; split_and!; try done.
  - econstructor; [exact Hstep|]; apply runs_heap; [done|by rewrite Hb2].
  - constructor; [apply sched_inv_hp; [done|done|by rewrite Hb2]|done| |by rewrite Hb1|done|done].
    destruct Hh'; by constructor.
  - destruct (thr S !! t) as [th0|] eqn:E0; [|done]; exfalso; destruct (decide (t = INIT)) as [->|Hne].
    + by apply Hns, (si_init _ _ Hi).
    + pose proof (si_own _ _ Hi _ _ E0 Hne) as Hown; cbn [snd] in Hown; congruence.
  - by rewrite ES'.
  - by rewrite ES'.
  - intros x [Hx Hxo]; apply Hfr; [by apply client_union| |done]; intros a Ha; apply Hxo; by apply links_foot.
Qed.

Lemma dispatch_joint s K L ts S l fuel ticks m' rest :
  joint s K L ts S -> tailq bt_entries (mm s) THREADS l -> (length l <= fuel)%nat ->
  Forall (fun k => Forall (thread_at (mm s)) (tk_woken k)) ticks ->
  mem_dispatch THREADS CURRENT fuel ticks (mm s) = Some (m', rest) -> simulated S L (set_mm m' s) K.
Proof.
  intros Hj Hl Hf Hw E; pose proof (jt_holds _ _ _ _ _ Hj) as Hh; pose proof (jt_inv _ _ _ _ _ Hj) as Hi.
  rewrite (tailq_unique _ _ _ _ Hl (h_threads _ _ _ _ _ _ Hh)) in Hf.
  assert (Forall (fun k => Forall (fun t => t ∈ ts) (tk_woken k)) ticks) as HF.
  { eapply Forall_impl; [exact Hw|]; intros k Hk; eapply Forall_impl; [exact Hk|]; intros t; by eapply thread_exists. }
  pose proof (dispatch_ok _ _ _ ts ticks (mm s) S fuel Hh Hf HF) as Hd.
  destruct (sched_dispatch ticks S) as [[S1 r]|] eqn:Es; [|congruence].
  destruct Hd as (m1 & E1 & Hh1 & Hw1); rewrite E in E1; injection E1 as <- <-.
  eexists _, L, ts, _; eapply sim_writes; [exact Hj|exact Hw1|exact Hh1|by eapply st_dispatch|].
  destruct (sched_inv_known _ _ _ Hi) as [Hn Hk]; apply sched_dispatch_spec in Es as (pre & k & t & T' & l' & _ & _ & _ & ->); [|done..].
  cbn; apply (idle_frame pre S).
Qed.

Lemma pstep_plainly s K s' K' L ts S : joint s K L ts S -> pstep (s, K) (s', K') -> plainly s ts S L s' K'.
Proof.
  intros Hj Hc; pose proof (jt_holds _ _ _ _ _ Hj) as Hh; pose proof (h_current _ _ _ _ _ _ Hh) as Ecur.
  assert (current_thread S ∈ ts) as Hcur by (apply (h_queues _ _ _ _ _ _ Hh), (si_cur _ _ (jt_inv _ _ _ _ _ Hj))).
  assert (forall f t, benign f -> (forall th, btcb_sp (f th) = btcb_sp th /\ btcb_ip (f th) = btcb_ip th) ->
    tcbs_kept (thr S) (alter f t (thr S))) as Hk by (intros; by apply kept_alter, benign_frozen).
  inversion Hc as [? ? t Ht|? ? t Ht|? ? t tm Ht Htm|? ? now nsec|? ? Hq Hne Hmj|? ? n p ? Hn Hf E|? ? p n ? HK E|? ? p n a v HK Ha Hb]; subst.
  - apply (thread_exists _ _ _ _ _ _ Hj) in Ht; eapply plain_writes;
      [done|by apply wake_writes, writes_refl|by apply holds_wake|apply st_wake|done|by apply Hk; [apply benign_wake|]|done].
  - apply (thread_exists _ _ _ _ _ _ Hj) in Ht; eapply plain_writes;
      [done|by apply block_writes, writes_refl|by apply holds_block|apply st_block|done|by apply Hk; [apply benign_block|]|done].
  - apply (thread_exists _ _ _ _ _ _ Hj) in Ht; eapply plain_writes;
      [done|by apply setwakeup_writes, writes_refl|by apply holds_wakeup|by apply st_setwakeup|done|by apply Hk; [apply benign_with_wakeup|]|done].
  - destruct (nanosleep_ok _ _ _ (mm s) ts S now nsec Hh Hcur) as [H1 W1].
    eapply plain_writes; [done|exact W1|exact H1|apply st_nanosleep|done| |done].
    etransitivity; [by apply Hk; [apply benign_with_wakeup|]|]; by apply kept_alter, benign_frozen; [apply benign_clear_runnable|].
  - rewrite Ecur in Hq, Hne; apply (on_threads _ _ _ _ _ _ Hj) in Hq; destruct (exit_ok _ _ _ (mm s) ts S Hh Hq) as [H1 W1].
    eapply plain_writes; [done|exact W1|exact H1|apply st_exit; [done|done|by eapply exit_gate_None, (jt_inv _ _ _ _ _ Hj)]|done| |done].
    by apply Hk; [apply benign_clear_runnable|].
  - by eapply sim_alloc.
  - by eapply sim_free.
  - by eapply sim_store.
Qed.

Lemma cstep_simulated s K s' K' L ts S : joint s K L ts S -> cstep (s, K) (s', K') -> simulated S L s' K'.
Proof.
  intros Hj Hc; pose proof (jt_holds _ _ _ _ _ Hj) as Hh; pose proof (h_current _ _ _ _ _ _ Hh) as Ecur.
  inversion Hc as [? ? Hp|? ? l fuel ticks m' rest Hl Hf Hw E|? ? z fuel ? Hq Hz Hf E|
    ? ? fuel bouncer name nm cookie thrflags f data t ? Hq Hs Hstr Hl Hfu H0 H1 Ha E]; subst.
  - destruct (pstep_plainly _ _ _ _ _ _ _ Hj Hp) as (ls & S' & Hr & Hj' & _); by exists ls, L, ts, S'.
  - by eapply dispatch_joint.
  - rewrite Ecur in Hq, E; apply (on_threads _ _ _ _ _ _ Hj) in Hq; rewrite (tailq_unique _ _ _ _ Hz (h_zombies _ _ _ _ _ _ Hh)) in Hf.
    destruct (one_reap_ok s K' L ts S fuel Hj Hq Hf) as (s1 & ts1 & ls & E1 & Hj1 & Hr & _); rewrite E in E1; injection E1 as <-.
    by eexists ls, _, ts1, _.
  - rewrite Ecur in Hq; apply (on_threads _ _ _ _ _ _ Hj) in Hq.
    destruct (create_joint s K' L ts S fuel bouncer name nm cookie thrflags f data t s') as (ls & S' & th & Hr & Hj' & _); [done..|].
    by eexists ls, _, _, S'.
Qed.

Lemma csteps_simulated c c' : rtc cstep c c' -> forall L ts S, joint (fst c) (snd c) L ts S -> simulated S L (fst c') (snd c').
Proof.
  induction 1 as [[s K]|[s K] [s1 K1] c2 Hst _ IH]; intros L ts S Hj; [by exists [], L, ts, S; split; [constructor|]|].
  destruct (cstep_simulated _ _ _ _ _ _ _ Hj Hst) as (l1 & L1 & ts1 & S1 & Hr1 & Hj1).
  destruct (IH L1 ts1 S1 Hj1) as (l2 & L2 & ts2 & S2 & Hr2 & Hj2).
  exists (l1 ++ l2), L2, ts2, S2; split; [by eapply runs_app|done].
Qed.

(** C2: the scheduler and the allocator in one memory.  Start with a memory
    that holds a heap and a scheduler state, and let the operations of
    sched.c run on it in any order, with other parts of the kernel that
    allocate, store into what they hold and release it.  At any time the
    memory holds a scheduler state that the step relation on lists reaches,
    so that its theorems apply; the release loop, if it is run, returns;
    everything the others hold is disjoint from the structures and stacks of
    the threads, and its release succeeds. *)
Theorem one_memory_simulation s0 K0 L0 ts0 S0 s K :
  joint s0 K0 L0 ts0 S0 -> rtc cstep (s0, K0) (s, K) ->
  exists ls L ts S, runs (S0, L0) ls (S, L) /\ joint s K L ts S /\
    (on_queue THREADS (mm s) (rd32 (mm s) CURRENT) -> forall fuel, (length (zombies S) <= fuel)%nat ->
       exists s', one_reap fuel (rd32 (mm s) CURRENT) s = Some (Ret s')) /\
    (forall p n, K !! p = Some n -> (exists s', bmk_memfree p s = Ret s') /\
       forall q m, L !! q = Some m -> p + n <= q \/ q + m <= p).
Proof.
  intros Hj Hr; destruct (csteps_simulated _ _ Hr L0 ts0 S0 Hj) as (ls & L & ts & S & Hls & Hj'); cbn [fst snd] in Hj'.
  exists ls, L, ts, S; split_and!; [done|done| |].
  - intros Hq fuel Hf; pose proof (h_current _ _ _ _ _ _ (jt_holds _ _ _ _ _ Hj')) as Ecur; rewrite Ecur in *.
    apply (on_threads _ _ _ _ _ _ Hj') in Hq; destruct (one_reap_ok s K L ts S fuel Hj' Hq Hf) as (s' & _ & _ & E & _); by exists s'.
  - intros p n HK; pose proof (jt_disj _ _ _ _ _ Hj') as Hd; pose proof (jt_heap _ _ _ _ _ Hj') as Hm.
    assert ((K ∪ L) !! p = Some n) as Hp by (by rewrite lookup_union_Some by done; left); split.
    + destruct (memfree_spec s (K ∪ L) p Hm) as (s' & E & _); [by eexists|by exists s'].
    + intros q m Hq; apply (alloc_disjoint s (K ∪ L)); [done|done|by rewrite lookup_union_Some by done; right|].
      intros ->; by rewrite (map_disjoint_Some_l K L q n) in Hq.
Qed.

(** ** Boot *)

(** [bmk_sched_init]; [name] is the address of the string "init". *)
Definition mem_sched_init (fuel : nat) (name : Z) (m : mem) : option mem :=
  '(m, _) ← bmk_strncpy fuel m INIT name (NAME_MAXLEN - 1);
  let m := mem_set_flags INIT 0 m in
  let m := mem_setwakeup INIT (-1) m in
  let m := mem_set_runnable INIT m in
  let m := TAILQ_INSERT_TAIL bt_entries THREADS INIT m in
  Some (wr32 m CURRENT INIT).

(** Static storage before it: both queues as TAILQ_HEAD_INITIALIZER leaves
    them, [init_thread] cleared, nothing overlapping. *)
Record static_storage (m : mem) (name : Z) : Prop := {
  ss_apart : apart (footprint [INIT]);
  ss_heads : forall h, h = THREADS \/ h = ZOMBIES -> rd32 m (tqh_first h) = NULL /\ rd32 m (tqh_last h) = tqh_first h;
  ss_init : 0 < INIT /\ forall x, INIT <= x < INIT + SIZEOF_THREAD -> rd8 m x = 0;
  ss_name : cstr m name [105; 110; 105; 116] /\ (name + 4 < INIT \/ INIT + SIZEOF_THREAD <= name);
}.

(** [init_thread] is filled in; the queues are left alone. *)
Lemma init_filled m name fuel :
  static_storage m name -> (4 < fuel)%nat ->
  exists m1, bmk_strncpy fuel m INIT name (NAME_MAXLEN - 1) = Some (m1, INIT) /\
    let m4 := mem_set_runnable INIT (mem_setwakeup INIT (-1) (mem_set_flags INIT 0 m1)) in
    load_thread m4 INIT = set_runnable (BmkThread ([105; 110; 105; 116] ++ replicate 12 0) [0; 0] (-1) 0 0 0 0 0) /\
    forall a, a ∈ footprint [] -> rd32 m4 a = rd32 m a.
Proof.
  intros [Hap Hheads [H0 Hz] [Hc Hn]] Hf; unfold SIZEOF_THREAD in *.
  destruct (bmk_strncpy_fits m INIT name [105; 110; 105; 116] (16 - 1) fuel Hc ltac:(cbn; lia) Hf ltac:(cbn; lia)) as (m1 & E1 & Hc1 & Hz1 & Ho1).
  exists m1; split; [exact E1|]; set (m4 := mem_set_runnable INIT (mem_setwakeup INIT (-1) (mem_set_flags INIT 0 m1))).
  assert (only_in m1 m4 (INIT + 24) (INIT + 36)) as Ho4.
  { intros x Hx; unfold m4, mem_set_runnable, mem_set_flags, mem_setwakeup, st64; by rewrite !rd8_wr32_ne by lia. }
  assert (only_in m m4 INIT (INIT + 60)) as Ho by (eapply only_in_chain; [exact Ho1|exact Ho4|lia..]).
  assert (forall k, 16 <= k -> k + 4 <= 24 \/ 36 <= k /\ k + 4 <= 60 -> rd32 m4 (INIT + k) = 0) as Hr.
  { intros k ? ?; rewrite (rd32_only_in _ _ _ _ _ Ho4), (rd32_only_in _ _ _ _ _ Ho1) by lia; unfold rd32; by rewrite !Hz by lia. }
  assert (load_thread m4 INIT = set_runnable (BmkThread ([105; 110; 105; 116] ++ replicate 12 0) [0; 0] (-1) 0 0 0 0 0)) as Hld.
  { rewrite (load_filled m4 INIT [105; 110; 105; 116] THREAD_RUNNABLE 0 0 0); [reflexivity|..].
    - eapply cstr_only_in; [exact Ho4| |exact Hc1]; cbn; lia.
    - cbn; lia.
    - intros i Hi; rewrite (Ho4 (INIT + i)) by lia; apply Hz1; cbn in *; lia.
    - apply Hr; lia.
    - apply Hr; lia.
    - unfold m4, mem_set_runnable; rewrite ld64_flags; by apply ld64_st64.
    - assert (mem_flags INIT (mem_setwakeup INIT (-1) (mem_set_flags INIT 0 m1)) = 0) as Ef.
      { unfold mem_flags, mem_setwakeup, st64, mem_set_flags; rewrite !(rd32_wr32_ne _ _ _ (INIT + 32)) by lia; by rewrite rd32_wr32_eq. }
      unfold m4, mem_set_runnable; rewrite Ef; unfold mem_set_flags; by rewrite rd32_wr32_eq.
    - apply Hr; lia.
    - apply Hr; lia.
    - apply Hr; lia.
    - apply Hr; lia. }
  assert (forall a, a ∈ footprint [] -> rd32 m4 a = rd32 m a) as Hfr.
  { intros a Ha; apply (rd32_only_in _ _ _ _ _ Ho); pose proof (outside_thread _ _ _ INIT [] a Hap Ha); unfold SIZEOF_THREAD in *; lia. }
  exact (conj Hld Hfr).
Qed.

Lemma sched_init_ok m name fuel (h : mstate) :
  static_storage m name -> (4 < fuel)%nat ->
  exists m', mem_sched_init fuel name m = Some m' /\ holds m' [INIT] (bmk_sched_init INIT h).
Proof.
  intros Hss Hf; destruct (init_filled m name fuel Hss Hf) as (m1 & E1 & Hld & Hfr); destruct Hss as [Hap Hheads [H0 _] _].
  set (m4 := mem_set_runnable INIT (mem_setwakeup INIT (-1) (mem_set_flags INIT 0 m1))) in *.
  assert (holds m4 [INIT] (Sched {[INIT := load_thread m4 INIT]} [] [] [] (rd32 m CURRENT) 0 h)) as Hh.
  { pose proof (cells_apart _ _ CURRENT [INIT] [] [] Hap ltac:(constructor) ltac:(by intros ? ?%elem_of_nil)) as Hca.
    assert (forall a, a ∈ [tqh_last THREADS; tqh_first THREADS; tqh_last ZOMBIES; tqh_first ZOMBIES] -> a ∈ footprint []) as Hin
      by (intros a Ha; apply links_foot; exact Ha).
    destruct (Hheads THREADS (or_introl eq_refl)), (Hheads ZOMBIES (or_intror eq_refl)).
    constructor; cbn [threads zombies current_thread thr].
    - done.
    - exists (tqh_first THREADS); split_and!; [done|rewrite Hfr; [done|apply Hin; set_solver +]|rewrite Hfr; [done|apply Hin; set_solver +]| |constructor].
      rewrite Permutation_app_comm in Hca; by apply apart_sub in Hca.
    - exists (tqh_first ZOMBIES); split_and!; [done|rewrite Hfr; [done|apply Hin; set_solver +]|rewrite Hfr; [done|apply Hin; set_solver +]| |constructor].
      by apply apart_sub in Hca.
    - apply Hfr; rewrite foot_in; by left.
    - intros t; rewrite lookup_singleton_is_Some, elem_of_cons, elem_of_nil; naive_solver.
    - intros t th [<- <-]%lookup_singleton_Some; split; [done|rewrite Hld; by vm_compute].
    - split; [constructor|by intros ? ?%elem_of_nil]. }
  assert (urange 32 INIT) as Hu.
  { destruct Hap as (_ & _ & HF); rewrite Forall_forall in HF; apply HF, fields_foot with INIT; [by left|by left]. }
  apply (holds_link_tail _ _ _ _ _ _ INIT) in Hh; [|by left|by intros ?%elem_of_nil|done|unfold NULL; lia].
  apply (holds_set_current _ _ _ _ _ _ INIT) in Hh; [|done].
  eexists; split; [unfold mem_sched_init; rewrite E1; reflexivity|].
  rewrite Hld in Hh; exact Hh.
Qed.

(** The kernel starts in such a state, before anything is allocated. *)
Lemma boot_joint m name fuel p :
  static_storage m name -> (4 < fuel)%nat -> pg_wf p ->
  (forall a, a ∈ footprint [INIT] -> a + 4 <= bmk_membase p) ->
  exists m', mem_sched_init fuel name m = Some m' /\
    joint (memalloc_boot m' p) ∅ ∅ [INIT] (bmk_sched_init INIT (memalloc_boot m' p)).
Proof.
  intros Hss Hf Hp Hst; assert (exists m', mem_sched_init fuel name m = Some m') as [m' E].
  { destruct (sched_init_ok m name fuel (memalloc_boot m p) Hss Hf) as (m' & ? & _); by exists m'. }
  destruct (sched_init_ok m name fuel (memalloc_boot m' p) Hss Hf) as (m2 & E2 & Hh); rewrite E in E2; injection E2 as <-.
  assert (memalloc_inv (memalloc_boot m' p) ∅) as Hm
    by (exists ∅; split; [by apply boot_ok|]; intros q n; by rewrite lookup_empty).
  assert (INIT ∈ footprint [INIT]) as HI by (apply fields_foot with INIT; by left).
  exists m'; split; [done|]; constructor; [|done|exact Hh| |by rewrite map_empty_union|apply map_disjoint_empty_l].
  - apply sched_inv_boot; [exact Hm|]; change (INIT < bmk_membase p); pose proof (Hst INIT HI); lia.
  - intros a Ha; split; [|by apply Hst]; destruct (ss_apart _ _ Hss) as (_ & _ & HF); rewrite Forall_forall in HF; apply (HF a Ha).
Qed.
End OneMemory.

(** A machine at boot with the strings "init" and "n", a thread that is
    created, and a client that allocates. *)
Definition demo_static : mem :=
  wr8 (wr32 (wr32 (wr32 ∅ 0x1004 0x1000) 0x1014 0x1010) 0x4000 0x74696e69) 0x4010 110.
Definition demo_b0 : mstate :=
  memalloc_boot (default ∅ (mem_sched_init 0x1000 0x1020 0x2000 5 0x4000 demo_static)) demo_pg.
Definition demo_b1 : Z * mstate :=
  match mem_create 0x1000 2 0x100100 0x4010 0 0 0x100600 77 NULL 0 demo_b0 with Ret (Some x) => x | _ => (0, demo_b0) end.
Definition demo_b2 : Z * mstate := match bmk_xmalloc 100 (snd demo_b1) with Ret x => x | Halt _ => (0, demo_b0) end.

Lemma demo_boot_joint :
  joint 0x1000 0x1010 0x1020 0x2000 demo_b0 ∅ ∅ [0x2000] (bmk_sched_init 0x2000 demo_b0).
Proof.
  destruct (boot_joint 0x1000 0x1010 0x1020 0x2000 demo_static 0x4000 5 demo_pg) as (m' & E & Hj).
  - constructor.
    + apart_concrete.
    + intros h [->| ->]; by vm_compute.
    + split; [done|]; unfold SIZEOF_THREAD; intros x Hx; unfold demo_static; rewrite rd8_wr8_ne by lia; by rewrite !rd8_wr32_ne by lia.
    + split; [apply (bool_decide_unpack _); by vm_compute|by right].
  - lia.
  - by vm_compute.
  - assert (Forall (fun a => a + 4 <= 0x200000) (footprint 0x1000 0x1010 0x1020 [0x2000])) as HF
      by (apply (bool_decide_unpack _); by vm_compute).
    by rewrite Forall_forall in HF.
  - unfold demo_b0; rewrite E; exact Hj.
Qed.

Lemma demo_create : mem_create 0x1000 2 0x100100 0x4010 0 0 0x100600 77 NULL 0 demo_b0 = Ret (Some demo_b1).
Proof.
  unfold demo_b1; assert (match mem_create 0x1000 2 0x100100 0x4010 0 0 0x100600 77 NULL 0 demo_b0 with
    | Ret (Some _) => true | _ => false end = true) as E by (vm_compute; reflexivity).
  destruct (mem_create 0x1000 2 0x100100 0x4010 0 0 0x100600 77 NULL 0 demo_b0) as [[x|]|]; [reflexivity|discriminate E..].
Qed.
Lemma demo_alloc : bmk_xmalloc 100 (snd demo_b1) = Ret demo_b2.
Proof.
  unfold demo_b2; assert (match bmk_xmalloc 100 (snd demo_b1) with Ret _ => true | _ => false end = true) as E
    by (vm_compute; reflexivity).
  destruct (bmk_xmalloc 100 (snd demo_b1)) as [x|]; [reflexivity|discriminate E].
Qed.
Lemma demo_name_below : 0x4010 + Z.of_nat (length [110]) < bmk_membase (pages demo_b0).
Proof. by vm_compute. Qed.
Lemma demo_on_queue : on_queue 0x1000 (mm demo_b0) (rd32 (mm demo_b0) 0x1020).
Proof.
  destruct demo_boot_joint as [_ _ Hh _ _ _]; rewrite (h_current _ _ _ _ _ _ Hh).
  exists [0x2000]; split; [exact (h_threads _ _ _ _ _ _ Hh)|by left].
Qed.

Lemma demo_step1 : cstep 0x1000 0x1010 0x1020 0x2000 (demo_b0, ∅) (snd demo_b1, ∅).
Proof.
  assert (create_served demo_b0) as Hs by (unfold demo_b0; apply boot_served; [by vm_compute|reflexivity]).
  assert (cstr (mm demo_b0) 0x4010 [110]) as Hc by (apply (bool_decide_unpack _); by vm_compute).
  pose proof demo_on_queue as Hq; pose proof demo_name_below as Hb; pose proof demo_create as E.
  revert Hq Hb E Hs Hc; generalize demo_b1 demo_b0; clear; intros [t s'] s Hq Hb E Hs Hc; cbn [snd].
  eapply c_create; [exact Hq|exact Hs|exact Hc|cbn; unfold NAME_MAXLEN; lia| |lia|exact Hb| |exact E]; [cbn; lia|].
  split_and!; by vm_compute.
Qed.
Lemma demo_step2 : cstep 0x1000 0x1010 0x1020 0x2000 (snd demo_b1, ∅) (snd demo_b2, {[fst demo_b2 := 100]}).
Proof.
  assert (request_fits 100 0 (snd demo_b1)) as Hf by fits_tac.
  pose proof demo_alloc as E; revert Hf E; generalize demo_b2 (snd demo_b1); clear; intros [p s'] s Hf E.
  cbn [fst snd]; rewrite <- (insert_empty (M := gmap Z) p 100); by apply c_plain, p_alloc.
Qed.

Lemma one_memory_simulation_witness : exists ls L ts S,
  sruns 0x2000 (bmk_sched_init 0x2000 demo_b0, ∅) ls (S, L) /\
  joint 0x1000 0x1010 0x1020 0x2000 (snd demo_b2) {[fst demo_b2 := 100]} L ts S /\
  (exists s', bmk_memfree (fst demo_b2) (snd demo_b2) = Ret s') /\
  rd32 (mm (snd demo_b2)) (tqh_first 0x1000) = fst demo_b1.
Proof.
  destruct (one_memory_simulation 0x1000 0x1010 0x1020 0x2000 demo_b0 ∅ ∅ [0x2000] (bmk_sched_init 0x2000 demo_b0)
    (snd demo_b2) {[fst demo_b2 := 100]} demo_boot_joint) as (ls & L & ts & S & Hr & Hj & _ & Hf).
  - eapply rtc_l; [exact demo_step1|eapply rtc_l; [exact demo_step2|apply rtc_refl]].
  - exists ls, L, ts, S; split_and!; [exact Hr|exact Hj| |by vm_compute].
    apply (Hf (fst demo_b2) 100); apply lookup_singleton_eq.
Defined.
