(* ===== verification/Locore.v ===== *)
(** * Locore: the assembly of arch/i386/locore32.S

    The entry from the boot loader, the context switch, the first steps of a
    thread and the interrupt stubs, as programs of a small i386 interpreter:
    registers, segment registers, the two flags the code depends on, memory
    and the trace of hardware events of Machdep.v.  An instruction takes one
    address; a label is the address of the instruction it stands before.  C
    functions are called at their addresses and are parameters. *)
From S2P Require Import Prelude Mem Pages Memalloc Heap Iface Alloc Sched Machdep.

(** ** The machine *)

Inductive reg := EAX | EBX | ECX | EDX | ESI | EDI | EBP | ESP.
#[global] Instance reg_eq_dec : EqDecision reg.
Proof. solve_decision. Defined.
Inductive sreg := CS | DS | ES | FS | GS | SS.

Record regs := Regs { r_eax : Z; r_ebx : Z; r_ecx : Z; r_edx : Z; r_esi : Z; r_edi : Z; r_ebp : Z; r_esp : Z }.
Record sregs := Sregs { r_cs : Z; r_ds : Z; r_es : Z; r_fs : Z; r_gs : Z; r_ss : Z }.

Definition getr (r : reg) (R : regs) : Z :=
  match r with
  | EAX => r_eax R | EBX => r_ebx R | ECX => r_ecx R | EDX => r_edx R
  | ESI => r_esi R | EDI => r_edi R | EBP => r_ebp R | ESP => r_esp R
  end.
Definition putr (r : reg) (v : Z) (R : regs) : regs :=
  let '(Regs a b c d si di bp sp) := R in
  match r with
  | EAX => Regs v b c d si di bp sp | EBX => Regs a v c d si di bp sp
  | ECX => Regs a b v d si di bp sp | EDX => Regs a b c v si di bp sp
  | ESI => Regs a b c d v di bp sp | EDI => Regs a b c d si v bp sp
  | EBP => Regs a b c d si di v sp | ESP => Regs a b c d si di bp v
  end.
Definition putsr (r : sreg) (v : Z) (R : sregs) : sregs :=
  let '(Sregs c d e f g s) := R in
  match r with
  | CS => Sregs v d e f g s | DS => Sregs c v e f g s | ES => Sregs c d v f g s
  | FS => Sregs c d e v g s | GS => Sregs c d e f v s | SS => Sregs c d e f g v
  end.

Record machine := Machine {
  m_regs : regs;
  m_sregs : sregs;
  m_eip : Z;
  m_if : bool;  (* interrupts enabled *)
  m_zf : bool;
  m_mem : mem;
  m_ev : list event;
}.
Definition m_reg (s : machine) (r : reg) : Z := getr r (m_regs s).

Definition setr (r : reg) (v : Z) (s : machine) : machine :=
  Machine (putr r v (m_regs s)) (m_sregs s) (m_eip s) (m_if s) (m_zf s) (m_mem s) (m_ev s).
Definition setsr (r : sreg) (v : Z) (s : machine) : machine :=
  Machine (m_regs s) (putsr r v (m_sregs s)) (m_eip s) (m_if s) (m_zf s) (m_mem s) (m_ev s).
Definition jump (a : Z) (s : machine) : machine :=
  Machine (m_regs s) (m_sregs s) a (m_if s) (m_zf s) (m_mem s) (m_ev s).
Definition set_if (b : bool) (s : machine) : machine :=
  Machine (m_regs s) (m_sregs s) (m_eip s) b (m_zf s) (m_mem s) (m_ev s).
Definition set_zf (b : bool) (s : machine) : machine :=
  Machine (m_regs s) (m_sregs s) (m_eip s) (m_if s) b (m_mem s) (m_ev s).
Definition store (a v : Z) (s : machine) : machine :=
  Machine (m_regs s) (m_sregs s) (m_eip s) (m_if s) (m_zf s) (wr32 (m_mem s) a v) (m_ev s).
Definition event_ (e : event) (s : machine) : machine :=
  Machine (m_regs s) (m_sregs s) (m_eip s) (m_if s) (m_zf s) (m_mem s) (m_ev s ++ [e]).

(** ** Instructions *)

Inductive operand := Imm (v : Z) | Reg (r : reg) | Mem (disp : Z) (r : reg).

Inductive instr :=
| Ipush (o : operand)
| Ipop (r : reg)
| Imov (src dst : operand)
| Imovseg (src : reg) (dst : sreg)
| Imovb_al (v : Z)
| Iadd (v : Z) (r : reg)
| Ixor (src dst : reg)
| Icmp (v : Z) (r : reg)
| Ioutb_al (port : Z)
| Icli | Isti | Icld | Ihlt
| Ilgdt (r : reg)
| Ilidt (r : reg)
| Icall (o : operand)
| Iret_ | Ilret | Iiret
| Ijmp (l : Z)
| Ijne (l : Z).

Definition ea (d : Z) (r : reg) (s : machine) : Z := u32 (m_reg s r + d).
Definition oread (o : operand) (s : machine) : Z :=
  match o with Imm v => u32 v | Reg r => m_reg s r | Mem d r => rd32 (m_mem s) (ea d r s) end.
Definition owrite (o : operand) (v : Z) (s : machine) : machine :=
  match o with Imm _ => s | Reg r => setr r v s | Mem d r => store (ea d r s) v s end.

Definition push (v : Z) (s : machine) : machine :=
  let sp := u32 (m_reg s ESP + -4) in store sp v (setr ESP sp s).
Definition top (s : machine) : Z := rd32 (m_mem s) (m_reg s ESP).
Definition word (d : Z) (s : machine) : Z := rd32 (m_mem s) (ea d ESP s).
Definition drop4 (s : machine) : machine := setr ESP (u32 (m_reg s ESP + 4)) s.

Definition next (s : machine) : machine := jump (m_eip s + 1) s.
(** A pseudo-descriptor in memory: the limit and the base. *)
Definition rd16 (m : mem) (a : Z) : Z := rd8 m a + 2 ^ 8 * rd8 m (a + 1).

Definition exec (i : instr) (s : machine) : machine :=
  match i with
  | Ipush o => next (push (oread o s) s)
  | Ipop r => next (setr r (top s) (drop4 s))
  | Imov src dst => next (owrite dst (oread src s) s)
  | Imovseg r x => next (setsr x (wrap 16 (m_reg s r)) s)
  | Imovb_al v => next (setr EAX (m_reg s EAX - m_reg s EAX mod 256 + u8 v) s)
  | Iadd v r => let x := u32 (m_reg s r + v) in next (set_zf (x =? 0) (setr r x s))
  | Ixor a b => let x := Z.lxor (m_reg s b) (m_reg s a) in next (set_zf (x =? 0) (setr b x s))
  | Icmp v r => next (set_zf (m_reg s r =? u32 v) s)
  | Ioutb_al port => next (event_ (Outb port (m_reg s EAX mod 256)) s)
  | Icli => next (set_if false (event_ Cli s))
  | Isti => next (set_if true (event_ Sti s))
  | Icld => next s
  | Ihlt => next (event_ Hlt s)
  | Ilgdt r => next (event_ (Lgdt (rd16 (m_mem s) (m_reg s r)) (rd32 (m_mem s) (m_reg s r + 2))) s)
  | Ilidt r => next (event_ (Lidt (rd16 (m_mem s) (m_reg s r)) (rd32 (m_mem s) (m_reg s r + 2))) s)
  | Icall o => let a := oread o s in jump a (push (m_eip s + 1) s)
  | Iret_ => jump (top s) (drop4 s)
  | Ilret => jump (top s) (setsr CS (wrap 16 (word 4 s)) (setr ESP (u32 (m_reg s ESP + 8)) s))
  | Iiret =>
      jump (top s) (setsr CS (wrap 16 (word 4 s)) (set_if (Z.testbit (word 8 s) 9) (set_zf (Z.testbit (word 8 s) 6)
        (setr ESP (u32 (m_reg s ESP + 12)) s))))
  | Ijmp l => jump l s
  | Ijne l => if m_zf s then next s else jump l s
  end.

Fixpoint exec_seq (l : list instr) (s : machine) : machine :=
  match l with [] => s | i :: l => exec_seq l (exec i s) end.

(** Instructions after which the next one in the block is executed. *)
Definition falls_through (i : instr) : bool :=
  match i with Icall _ | Iret_ | Ilret | Iiret | Ijmp _ | Ijne _ => false | _ => true end.

Section Run.
(** The program, and the C functions at their addresses. *)
Variable code : Z -> option instr.
Variable cfun : Z -> option (machine -> machine).

Definition step (s : machine) : option machine :=
  match code (m_eip s) with
  | Some i => Some (exec i s)
  | None => f ← cfun (m_eip s); Some (f s)
  end.
Fixpoint run (n : nat) (s : machine) : option machine :=
  match n with O => Some s | S n => s ← step s; run n s end.

(** The block [l] is at address [a]. *)
Definition loaded (a : Z) (l : list instr) : Prop :=
  forall i x, l !! i = Some x -> code (a + Z.of_nat i) = Some x.

Lemma run_app n k s s' : run n s = Some s' -> run (n + k) s = run k s'.
Proof.
  revert s; induction n as [|n IH]; intros s; cbn; [by intros [= ->]|].
  destruct (step s) as [s1|]; cbn; [apply IH|done].
Qed.

Lemma loaded_cons a i l : loaded a (i :: l) -> code a = Some i /\ loaded (a + 1) l.
Proof.
  intros Hl; split; [specialize (Hl 0%nat i eq_refl); by rewrite Z.add_0_r in Hl|].
  intros k x Hk; specialize (Hl (S k) x Hk); by replace (a + 1 + Z.of_nat k) with (a + Z.of_nat (S k)) by lia.
Qed.
Lemma loaded_app a l1 l2 : loaded a (l1 ++ l2) -> loaded a l1 /\ loaded (a + Z.of_nat (length l1)) l2.
Proof.
  intros Hl; split; intros i x Hi.
  - apply Hl; by apply lookup_app_l_Some.
  - rewrite <- Z.add_assoc, <- Nat2Z.inj_add; apply Hl; by rewrite lookup_app_r, Nat.add_sub' by lia.
Qed.

Lemma exec_falls_through i s : falls_through i = true -> m_eip (exec i s) = m_eip s + 1.
Proof. destruct i as [| |? dst| | | | | | | | | | | | | | | | | |]; try done; by destruct dst. Qed.

(** A block whose inner instructions fall through is executed in order. *)
Lemma run_block a l s :
  loaded a l -> m_eip s = a -> forallb falls_through (removelast l) = true ->
  run (length l) s = Some (exec_seq l s).
Proof.
  revert a s; induction l as [|i l IH]; intros a s Hl Ha Hf; [done|].
  apply loaded_cons in Hl as [Hi Hl]; cbn [length run exec_seq].
  unfold step; rewrite Ha, Hi; cbn [mbind option_bind].
  destruct l as [|j l]; [done|]; change (removelast (i :: j :: l)) with (i :: removelast (j :: l)) in Hf; cbn [forallb] in Hf.
  apply andb_prop in Hf as [Hf0 Hf]; apply (IH (a + 1)); [done| |done].
  by rewrite exec_falls_through, Ha.
Qed.
End Run.

(** ** The program *)

Definition MULTIBOOT_HEADER_MAGIC : Z := 0x1BADB002.
Definition MULTIBOOT_BOOTLOADER_MAGIC : Z := 0x2BADB002.
Definition MULTIBOOT_PAGE_ALIGN : Z := 0x00000001.
Definition MYMULTIBOOT_FLAGS : Z := Z.lor MULTIBOOT_PAGE_ALIGN 0x00000002.
(** The three words of the section .multiboot. *)
Definition multiboot_section : list Z :=
  [MULTIBOOT_HEADER_MAGIC; MYMULTIBOOT_FLAGS; u32 (- (MULTIBOOT_HEADER_MAGIC + MYMULTIBOOT_FLAGS))].

Definition stack_size : Z := 65536.

(** Addresses of the C functions and objects the code refers to. *)
Record symbols := Symbols {
  x_bootstack : Z; x_nomultimesg : Z; x_bmk_init : Z; x_bmk_main : Z; x_bmk_cons_puts : Z;
  x_bmk_isr : Z; x_bmk_isr_clock : Z }.

(** [_start32]; [nomultiboot] and [haltme] are its 10th and 13th instruction. *)
Definition start32_code (x : symbols) (base : Z) : list instr :=
  [ Icld; Imov (Imm (x_bootstack x + stack_size)) (Reg ESP);
    Ipush (Reg EBX); Ipush (Reg EAX); Icall (Imm (x_bmk_init x)); Ipop EAX;
    Icmp MULTIBOOT_BOOTLOADER_MAGIC EAX; Ijne (base + 10);
    Icall (Imm (x_bmk_main x)); Ijmp (base + 13);
    (* nomultiboot: *) Ipush (Imm (x_nomultimesg x)); Icall (Imm (x_bmk_cons_puts x)); Ihlt;
    (* haltme: *) Icli; Ihlt; Ijmp (base + 13) ].

Definition lgdt_code : list instr :=
  [ Imov (Mem 4 ESP) (Reg EAX); Ilgdt EAX; Imov (Imm 0x10) (Reg EAX);
    Imovseg EAX DS; Imovseg EAX ES; Imovseg EAX GS; Imovseg EAX SS; Imovseg EAX FS;
    Ipop EAX; Ipush (Imm 0x8); Ipush (Reg EAX); Ilret ].
Definition lidt_code : list instr := [ Imov (Mem 4 ESP) (Reg EAX); Ilidt EAX; Iret_ ].

Definition insr_code : list instr := [ Iiret ].
Definition isr_clock_code (x : symbols) : list instr :=
  [ Icli; Icall (Imm (x_bmk_isr_clock x)); Imovb_al 0x20; Ioutb_al 0x20; Isti; Iiret ].
Definition INTRSTUB (x : symbols) (intnum : Z) : list instr :=
  [ Icli; Ipush (Reg EAX); Ipush (Reg EBX); Ipush (Reg ECX); Ipush (Reg EDX); Ipush (Imm intnum);
    Icall (Imm (x_bmk_isr x)); Iadd 4 ESP; Ipop EDX; Ipop ECX; Ipop EBX; Ipop EAX; Isti; Iiret ].

Definition sched_bouncer_code : list instr :=
  [ Ipop EAX; Ipop EBX; Ipush (Imm 0); Ixor EBP EBP; Ipush (Reg EAX); Icall (Reg EBX) ].

(** [bmk_cpu_sched_switch]; the label 1 is its 11th instruction. *)
Definition switch_out_code (base : Z) : list instr :=
  [ Imov (Mem 4 ESP) (Reg ECX); Imov (Mem 8 ESP) (Reg EDX);
    Ipush (Reg EBP); Ipush (Reg EBX); Ipush (Reg ESI); Ipush (Reg EDI);
    Imov (Reg ESP) (Mem 0 ECX); Imov (Mem 0 EDX) (Reg ESP);
    Imov (Imm (base + 11)) (Mem 4 ECX); Ipush (Mem 4 EDX); Iret_ ].
Definition switch_in_code : list instr := [ Ipop EDI; Ipop ESI; Ipop EBX; Ipop EBP; Iret_ ].
Definition sched_switch_code (base : Z) : list instr := switch_out_code base ++ switch_in_code.

(** ** Symbolic execution *)

(** The [n] bytes at [t] and the addresses from [lo] to [hi] are disjoint. *)
Definition away (t n lo hi : Z) : Prop := t + n <= lo \/ hi <= t.

(** [exec1] executes the first instruction of the block; sums of a register
    and offsets are brought to the form [r + c] and, where the context bounds
    them, freed of their wrap-around. *)
Ltac zconst t := match t with Z0 => idtac | Zpos _ => idtac | Zneg _ => idtac end.
Ltac zfold :=
  repeat match goal with
  | |- context [?a + ?b] => zconst a; zconst b; let c := eval vm_compute in (a + b) in change (a + b) with c
  end.
Ltac subs :=
  repeat match goal with
  | |- context [?a - ?b] => zconst b; let c := eval vm_compute in (- b) in change (a - b) with (a + c)
  end.
Ltac wraps :=
  repeat rewrite wrap_add_l; repeat rewrite <- Z.add_assoc; zfold;
  repeat rewrite (wrap_id 32) by (unfold urange in *; lia); rewrite ?Z.add_0_r.
Ltac exec1 :=
  match goal with |- context [exec_seq (?i :: ?l) ?s] => change (exec_seq (i :: l) s) with (exec_seq l (exec i s)) end;
  cbv beta iota zeta delta [exec next jump setr setsr set_if set_zf store event_ push top word drop4 oread owrite ea m_reg getr putr putsr
       m_regs m_sregs m_eip m_if m_zf m_mem m_ev r_eax r_ebx r_ecx r_edx r_esi r_edi r_ebp r_esp]; wraps.
Ltac away_lia := unfold away, urange in *; lia.
(** Reads through writes elsewhere. *)
Ltac rdmem := repeat first [rewrite rd32_wr32_eq | rewrite rd32_wr32_ne by away_lia | rewrite wrap_id by apply rd32_range
  | rewrite wrap_id by (unfold urange in *; lia)].

(** ** The context switch *)

Section Switch.
Variable code : Z -> option instr.
Variable cfun : Z -> option (machine -> machine).
Variable base : Z.
Hypothesis Hcode : loaded code base (sched_switch_code base).
Hypothesis Hbase : urange 32 (base + 11).

(** A thread has called [bmk_cpu_sched_switch(prev, next)]: its return
    address and the arguments are on its stack; the two task blocks, the part
    of this stack that is used and the word below the saved stack of the
    next thread do not overlap. *)
Record at_switch (s : machine) (prev nxt : Z) : Prop := {
  as_eip : m_eip s = base;
  as_prev : rd32 (m_mem s) (m_reg s ESP + 4) = prev;
  as_next : rd32 (m_mem s) (m_reg s ESP + 8) = nxt;
  as_stack : 16 <= m_reg s ESP /\ m_reg s ESP + 12 <= 2 ^ 32;
  as_regs : forall r, urange 32 (m_reg s r);
  as_tcbs : prev + 8 <= 2 ^ 32 /\ nxt + 8 <= 2 ^ 32 /\ away prev 8 nxt (nxt + 8);
  as_away : away prev 8 (m_reg s ESP - 16) (m_reg s ESP + 12) /\ away nxt 8 (m_reg s ESP - 16) (m_reg s ESP + 12);
  as_sp : 4 <= rd32 (m_mem s) nxt;
  as_away_sp : forall sp, sp = rd32 (m_mem s) nxt ->
    away nxt 8 (sp - 4) sp /\ away (m_reg s ESP - 16) 28 (sp - 4) sp /\ away prev 8 (sp - 4) sp;
}.

Lemma switch_out s prev nxt (e := m_reg s ESP) (sp := rd32 (m_mem s) nxt) :
  at_switch s prev nxt ->
  exists s', run code cfun 11 s = Some s' /\ m_eip s' = rd32 (m_mem s) (nxt + 4) /\ m_reg s' ESP = sp /\
    rd32 (m_mem s') prev = e - 16 /\ rd32 (m_mem s') (prev + 4) = base + 11 /\
    rd32 (m_mem s') (e - 16) = m_reg s EDI /\ rd32 (m_mem s') (e - 12) = m_reg s ESI /\
    rd32 (m_mem s') (e - 8) = m_reg s EBX /\ rd32 (m_mem s') (e - 4) = m_reg s EBP /\
    (forall x, ~ prev <= x < prev + 8 -> ~ e - 16 <= x < e -> ~ sp - 4 <= x < sp -> rd8 (m_mem s') x = rd8 (m_mem s) x).
Proof.
  intros [He Hp Hn Hst Hr Ht [Hap Han] Hsp Has]; destruct (Has _ eq_refl) as (Hnsp & Hes & Hps); clear Has.
  apply loaded_app in Hcode as [Hout _].
  pose proof (Hr EBX); pose proof (Hr ESI); pose proof (Hr EDI); pose proof (Hr EBP); pose proof (Hr ESP).
  pose proof (rd32_range (m_mem s) (m_reg s ESP + 4)); pose proof (rd32_range (m_mem s) (m_reg s ESP + 8)).
  pose proof (rd32_range (m_mem s) nxt).
  destruct s as [[a b c d si di bp esp] sr ip ifl zf m ev]; subst e sp.
  cbn [m_reg m_regs getr r_eax r_ebx r_ecx r_edx r_esi r_edi r_ebp r_esp m_mem m_eip] in *.
  rewrite !Hp, !Hn in *.
  eexists; split.
  { etransitivity; [exact (run_block code cfun base (switch_out_code base) (Machine _ _ _ _ _ _ _) Hout He eq_refl)|]; apply f_equal; unfold switch_out_code.
    exec1; rewrite Hp; exec1; rewrite Hn. do 5 exec1; exec1.
    set (m1 := wr32 (wr32 (wr32 (wr32 (wr32 m _ _) _ _) _ _) _ _) _ _).
    assert (rd32 m1 nxt = rd32 m nxt) as E1 by (unfold m1; rdmem; done); rewrite E1.
    exec1; exec1; exec1; reflexivity. }
  cbn [exec_seq m_reg m_regs getr r_esp m_mem m_eip]; subs.
  split_and!; [rdmem; done|done|rdmem; done..|].
  intros x Hx1 Hx2 Hx3; by rewrite !rd8_wr32_ne by lia.
Qed.

(** A thread that has been switched away is resumed: the words it saved are
    loaded back and it returns from its call. *)
Lemma switch_in s e :
  m_eip s = base + 11 -> m_reg s ESP = e - 16 -> 16 <= e -> e + 4 <= 2 ^ 32 ->
  exists s', run code cfun 5 s = Some s' /\ m_eip s' = rd32 (m_mem s) e /\ m_reg s' ESP = u32 (e + 4) /\
    m_reg s' EDI = rd32 (m_mem s) (e - 16) /\ m_reg s' ESI = rd32 (m_mem s) (e - 12) /\
    m_reg s' EBX = rd32 (m_mem s) (e - 8) /\ m_reg s' EBP = rd32 (m_mem s) (e - 4) /\ m_mem s' = m_mem s.
Proof.
  intros He Hs Hlo Hhi; apply loaded_app in Hcode as [_ Hin].
  destruct s as [[a b c d si di bp esp] sr ip ifl zf m ev].
  cbn [m_reg m_regs getr r_esp m_mem m_eip] in *; subst esp ip.
  eexists; split.
  { etransitivity; [exact (run_block code cfun (base + 11) switch_in_code (Machine _ _ _ _ _ _ _) Hin eq_refl eq_refl)|].
    apply f_equal; unfold switch_in_code; subs; do 5 exec1; reflexivity. }
  cbn [exec_seq m_reg m_regs getr r_edi r_esi r_ebx r_ebp r_esp m_mem m_eip]; subs.
  by split_and!.
Qed.

(** C14: a context switch and the switch back are transparent to the thread.  A
    thread calls [bmk_cpu_sched_switch(a, b)] in state [s]; whatever runs then
    leaves its task block [a] and the stack from its saved words up as they
    were; when another thread [c] calls [bmk_cpu_sched_switch(c, a)], the
    first one continues behind its call, with its return address popped and
    the registers a C function must preserve as they were. *)
Theorem context_switch_roundtrip s s1 s2 a b c (e := m_reg s ESP) :
  at_switch s a b -> run code cfun 11 s = Some s1 ->
  (forall x, e - 16 <= x < e + 4 \/ a <= x < a + 8 -> rd8 (m_mem s2) x = rd8 (m_mem s1) x) ->
  at_switch s2 c a -> away c 8 (e - 16) (e + 4) -> away (m_reg s2 ESP - 16) 16 (e - 16) (e + 4) ->
  exists s3, run code cfun 16 s2 = Some s3 /\ m_eip s3 = rd32 (m_mem s) e /\ m_reg s3 ESP = u32 (e + 4) /\
    m_reg s3 EBX = m_reg s EBX /\ m_reg s3 ESI = m_reg s ESI /\ m_reg s3 EDI = m_reg s EDI /\
    m_reg s3 EBP = m_reg s EBP.
Proof.
  intros Hs Hrun Hkeep Hs2 Hc Hst2; pose proof Hs as [_ _ _ Hst _ _ [Haw _] _ Hsp].
  specialize (Hsp _ eq_refl) as (_ & Hsp & _).
  destruct (switch_out s a b Hs) as (s1' & Hrun' & _ & _ & Ha & Ha4 & Hdi & Hsi & Hbx & Hbp & Hfr).
  rewrite Hrun in Hrun'; injection Hrun' as <-; subst e; set (e := m_reg s ESP) in *.
  assert (forall x, e - 16 <= x /\ x + 4 <= e + 4 \/ a <= x /\ x + 4 <= a + 8 -> rd32 (m_mem s2) x = rd32 (m_mem s1) x) as Hk.
  { intros x ?; unfold rd32; by rewrite !Hkeep by lia. }
  destruct (switch_out s2 c a Hs2) as (s2' & Hrun2 & Heip & Hesp & _ & _ & _ & _ & _ & _ & Hfr2).
  rewrite Hk, Ha4 in Heip by lia; rewrite Hk, Ha in Hesp, Hfr2 by lia.
  assert (forall x, e - 16 <= x -> x + 4 <= e + 4 -> rd32 (m_mem s2') x = rd32 (m_mem s1) x) as Hk2.
  { intros x ??; rewrite <- Hk by lia; unfold rd32; by rewrite !Hfr2 by away_lia. }
  destruct (switch_in s2' e Heip Hesp) as (s3 & Hrun3 & Heip3 & Hesp3 & Hdi3 & Hsi3 & Hbx3 & Hbp3 & _); [lia..|].
  rewrite !Hk2 in * by lia.
  exists s3; split; [change 16%nat with (11 + 5)%nat; by rewrite (run_app _ _ _ _ _ _ Hrun2)|].
  split; [|by split_and!; congruence].
  rewrite Heip3; unfold rd32; by rewrite !Hfr by away_lia.
Qed.
End Switch.

(** ** The first steps of a thread *)

Lemma sched_create_stack f arg stack h sp h' :
  bmk_cpu_sched_create f arg stack h = (sp, h') ->
  sp = stack - 8 /\ rd32 (mm h') sp = u32 arg /\ rd32 (mm h') (sp + 4) = u32 f.
Proof.
  unfold bmk_cpu_sched_create, stack_push; intros [= <- <-]; cbn [h_poke memalloc_ops mm set_mm].
  split_and!; [lia|apply rd32_wr32_eq|].
  replace (stack - 4 - 4 + 4) with (stack - 4) by lia; rewrite rd32_wr32_ne by lia; apply rd32_wr32_eq.
Qed.

Lemma bouncer_runs code cfun bb s :
  loaded code bb sched_bouncer_code -> m_eip s = bb -> 4 <= m_reg s ESP -> m_reg s ESP + 8 < 2 ^ 32 ->
  exists s', run code cfun 6 s = Some s' /\ m_eip s' = rd32 (m_mem s) (m_reg s ESP + 4) /\
    m_reg s' ESP = m_reg s ESP - 4 /\ rd32 (m_mem s') (m_reg s ESP) = rd32 (m_mem s) (m_reg s ESP) /\ m_reg s' EBP = 0 /\
    (forall x, ~ m_reg s ESP - 4 <= x < m_reg s ESP + 8 -> rd8 (m_mem s') x = rd8 (m_mem s) x).
Proof.
  intros Hb He Hlo Hhi.
  destruct s as [[a b c d si di bp esp] sr ip ifl zf m ev]; cbn [m_reg m_regs getr r_esp m_mem m_eip] in *; subst ip.
  eexists; split.
  { etransitivity; [exact (run_block code cfun bb sched_bouncer_code (Machine _ _ _ _ _ _ _) Hb eq_refl eq_refl)|].
    apply f_equal; unfold sched_bouncer_code; do 6 exec1; reflexivity. }
  cbn [exec_seq m_reg m_regs getr r_ebp r_esp m_mem m_eip]; subs.
  split_and!; [done|done|rdmem; done|apply Z.lxor_nilpotent|].
  intros x Hx; by rewrite !rd8_wr32_ne by lia.
Qed.

(** A new thread starts in its function.  [bmk_cpu_sched_create] has put
    the function and its argument on the stack and the thread's task block
    holds that stack and the address of the bouncer; when it is first switched
    to, the function is called with the argument (the word above the return
    address), on the new stack, with the frame pointer cleared. *)
Theorem thread_start code cfun base bb s prev nxt f arg stack h sp h' :
  loaded code base (sched_switch_code base) -> urange 32 (base + 11) -> loaded code bb sched_bouncer_code ->
  bmk_cpu_sched_create f arg stack h = (sp, h') -> urange 32 f -> urange 32 arg -> stack < 2 ^ 32 ->
  at_switch base s prev nxt -> rd32 (m_mem s) nxt = sp -> rd32 (m_mem s) (nxt + 4) = bb ->
  (forall x, sp <= x < stack -> rd8 (m_mem s) x = rd8 (mm h') x) ->
  away prev 8 sp stack -> away (m_reg s ESP - 16) 16 sp stack ->
  exists s', run code cfun 17 s = Some s' /\ m_eip s' = f /\ m_reg s' ESP = sp - 4 /\
    rd32 (m_mem s') (m_reg s' ESP + 4) = arg /\ m_reg s' EBP = 0.
Proof.
  intros Hcode Hbase Hb Hcr Hf Ha Hst Hs Hsp Hip Hkeep Hap Has.
  apply sched_create_stack in Hcr as (Es & Harg & Hfun).
  destruct (switch_out code cfun base Hcode Hbase s prev nxt Hs) as (s1 & Hr1 & He1 & Hsp1 & _ & _ & _ & _ & _ & _ & Hfr).
  pose proof (as_sp _ _ _ _ Hs); rewrite Hsp in *; rewrite Hip in He1.
  assert (forall x, sp <= x -> x + 4 <= stack -> rd32 (m_mem s1) x = rd32 (mm h') x) as Hk.
  { intros x ??; unfold rd32; rewrite !Hfr by away_lia; by rewrite !Hkeep by lia. }
  destruct (bouncer_runs code cfun bb s1 Hb He1) as (s' & Hr2 & He2 & Hsp2 & Harg2 & Hbp & _); [rewrite Hsp1; lia..|].
  rewrite Hsp1 in *; rewrite !Hk in * by lia; rewrite Hfun, Harg, !wrap_id in * by done.
  exists s'; split; [change 17%nat with (11 + 6)%nat; by rewrite (run_app _ _ _ _ _ _ Hr1)|].
  split_and!; [done|done| |done].
  rewrite Hsp2; replace (sp - 4 + 4) with sp by lia; done.
Qed.

(** ** Calls of C functions *)

(** A call of a C function with [n] words of arguments keeps to the calling
    convention: it returns to its caller with the return address popped, the
    callee-saved registers as they were, and the stack of the caller above the
    arguments, up to [hi], untouched.  Everything else, other memory, segment
    registers and interrupt flag included, the function may change.  The
    theorems ask for this of the calls that are made, not of the function in
    arbitrary states. *)
Record c_abi (n hi : Z) (s s' : machine) : Prop := {
  ca_eip : m_eip s' = top s;
  ca_esp : m_reg s' ESP = u32 (m_reg s ESP + 4);
  ca_saved : m_reg s' EBX = m_reg s EBX /\ m_reg s' ESI = m_reg s ESI /\
             m_reg s' EDI = m_reg s EDI /\ m_reg s' EBP = m_reg s EBP;
  ca_stack : forall x, m_reg s ESP + 4 + 4 * n <= x < hi -> rd8 (m_mem s') x = rd8 (m_mem s) x;
}.

Lemma abi_rd32 n hi s s' x : c_abi n hi s s' -> m_reg s ESP + 4 + 4 * n <= x -> x + 4 <= hi ->
  rd32 (m_mem s') x = rd32 (m_mem s) x.
Proof. intros [] ??; unfold rd32; by rewrite !ca_stack0 by lia. Qed.

Section Calls.
Variable code : Z -> option instr.
Variable cfun : Z -> option (machine -> machine).

Lemma run_c s f : code (m_eip s) = None -> cfun (m_eip s) = Some f -> run code cfun 1 s = Some (f s).
Proof. intros Hc Hf; cbn; unfold step; by rewrite Hc, Hf. Qed.

(** The part of a stub up to and including the call of [bmk_isr]. *)
Definition stub_entry (x : symbols) (intnum : Z) : list instr := take 7 (INTRSTUB x intnum).
Definition stub_exit : list instr :=
  [Iadd 4 ESP; Ipop EDX; Ipop ECX; Ipop EBX; Ipop EAX; Isti; Iiret].
Lemma stub_parts x intnum : INTRSTUB x intnum = stub_entry x intnum ++ stub_exit.
Proof. done. Qed.

Lemma stub_enters x base intnum s (e := m_reg s ESP) :
  loaded code base (INTRSTUB x intnum) -> m_eip s = base -> 24 <= e -> e + 12 < 2 ^ 32 ->
  (forall r, urange 32 (m_reg s r)) -> urange 32 intnum -> urange 32 (x_bmk_isr x) -> urange 32 (base + 7) ->
  exists s1, run code cfun 7 s = Some s1 /\ m_eip s1 = x_bmk_isr x /\ m_if s1 = false /\
    m_reg s1 ESP = e - 24 /\ top s1 = base + 7 /\ rd32 (m_mem s1) (e - 20) = intnum /\
    m_reg s1 ESI = m_reg s ESI /\ m_reg s1 EDI = m_reg s EDI /\ m_reg s1 EBP = m_reg s EBP /\
    rd32 (m_mem s1) (e - 16) = m_reg s EDX /\ rd32 (m_mem s1) (e - 12) = m_reg s ECX /\
    rd32 (m_mem s1) (e - 8) = m_reg s EBX /\ rd32 (m_mem s1) (e - 4) = m_reg s EAX /\
    m_sregs s1 = m_sregs s /\ (forall a, e <= a -> rd8 (m_mem s1) a = rd8 (m_mem s) a).
Proof.
  intros Hl He Hlo Hhi Hr Hn Hx Hb; rewrite stub_parts in Hl; apply loaded_app in Hl as [Hl _].
  pose proof (Hr EAX); pose proof (Hr EBX); pose proof (Hr ECX); pose proof (Hr EDX).
  destruct s as [[a b c d si di bp esp] sr ip ifl zf m ev]; subst e.
  cbn [m_reg m_regs getr r_eax r_ebx r_ecx r_edx r_esi r_edi r_ebp r_esp m_mem m_eip] in *; subst ip.
  eexists; split.
  { etransitivity; [exact (run_block code cfun base (stub_entry x intnum) (Machine _ _ _ _ _ _ _) Hl eq_refl eq_refl)|].
    apply f_equal; unfold stub_entry, INTRSTUB; cbn [take]; do 7 exec1; reflexivity. }
  cbn [exec_seq]; cbv beta iota zeta delta [top m_reg m_regs getr r_esi r_edi r_ebp r_esp m_mem m_eip m_if m_sregs].
  subs.
  split_and!; try done; try (rdmem; done).
  intros y Hy; by rewrite !rd8_wr32_ne by lia.
Qed.

Lemma stub_leaves base s e :
  loaded code base stub_exit -> m_eip s = base -> m_reg s ESP = e - 20 -> 24 <= e -> e + 12 < 2 ^ 32 ->
  exists s', run code cfun 7 s = Some s' /\ m_eip s' = rd32 (m_mem s) e /\ m_reg s' ESP = e + 12 /\
    m_reg s' EDX = rd32 (m_mem s) (e - 16) /\ m_reg s' ECX = rd32 (m_mem s) (e - 12) /\
    m_reg s' EBX = rd32 (m_mem s) (e - 8) /\ m_reg s' EAX = rd32 (m_mem s) (e - 4) /\
    m_reg s' ESI = m_reg s ESI /\ m_reg s' EDI = m_reg s EDI /\ m_reg s' EBP = m_reg s EBP /\
    m_if s' = Z.testbit (rd32 (m_mem s) (e + 8)) 9 /\
    m_sregs s' = putsr CS (wrap 16 (rd32 (m_mem s) (e + 4))) (m_sregs s) /\ m_mem s' = m_mem s.
Proof.
  intros Hl He Hs Hlo Hhi; destruct s as [[a b c d si di bp esp] [cs ds es fs gs ss] ip ifl zf m ev].
  cbn [m_reg m_regs getr r_esi r_edi r_ebp r_esp m_mem m_eip m_sregs] in *; subst ip esp.
  eexists; split.
  { etransitivity; [exact (run_block code cfun base stub_exit (Machine _ _ _ _ _ _ _) Hl eq_refl eq_refl)|].
    apply f_equal; unfold stub_exit; subs; do 7 exec1; reflexivity. }
  cbn [exec_seq m_reg m_regs getr r_eax r_ebx r_ecx r_edx r_esi r_edi r_ebp r_esp m_mem m_eip m_if m_sregs].
  subs; wraps; by split_and!.
Qed.

(** C18: an interrupt is invisible to the code it interrupts.  The processor has
    pushed flags, code segment and return address; the stub calls [bmk_isr]
    with the number of the line and interrupts off, and, whatever that call
    does within the calling convention (it may write any memory but the stack
    of its caller), returns to the interrupted instruction with every general
    register as it was and the interrupt flag of the interrupted code; memory
    is as [bmk_isr] left it. *)
Theorem intrstub_transparent x base intnum s isr (e := m_reg s ESP) :
  loaded code base (INTRSTUB x intnum) -> m_eip s = base -> 24 <= e -> e + 12 < 2 ^ 32 ->
  (forall r, urange 32 (m_reg s r)) -> urange 32 intnum -> urange 32 (x_bmk_isr x) -> urange 32 (base + 7) ->
  code (x_bmk_isr x) = None -> cfun (x_bmk_isr x) = Some isr ->
  (forall s1, run code cfun 7 s = Some s1 -> c_abi 1 (e + 12) s1 (isr s1)) ->
  exists s1 s', run code cfun 7 s = Some s1 /\ m_eip s1 = x_bmk_isr x /\ m_if s1 = false /\
    rd32 (m_mem s1) (m_reg s1 ESP + 4) = intnum /\
    run code cfun 15 s = Some s' /\ m_eip s' = rd32 (m_mem s) e /\ m_reg s' ESP = e + 12 /\
    (forall r, r <> ESP -> m_reg s' r = m_reg s r) /\ m_if s' = Z.testbit (rd32 (m_mem s) (e + 8)) 9 /\
    m_mem s' = m_mem (isr s1).
Proof.
  intros Hl He Hlo Hhi Hr Hn Hx Hb Hc Hf Habi; subst e; set (e := m_reg s ESP) in *.
  destruct (stub_enters x base intnum s Hl He Hlo Hhi Hr Hn Hx Hb)
    as (s1 & Hr1 & He1 & Hif1 & Hsp1 & Htop & Harg & Hsi & Hdi & Hbp & Hdx & Hcx & Hbx & Hax & Hsr & Hfr).
  fold e in Hsp1, Harg, Hdx, Hcx, Hbx, Hax, Hfr.
  specialize (Habi s1 Hr1) as Ha; pose proof Ha as [Ae Asp (_ & Asi & Adi & Abp) _].
  rewrite Htop in Ae; rewrite Hsp1, wrap_id in Asp by (unfold urange; lia).
  rewrite stub_parts in Hl; apply loaded_app in Hl as [_ Hl]; cbn [length stub_entry take INTRSTUB] in Hl.
  destruct (stub_leaves (base + 7) (isr s1) e Hl Ae)
    as (s' & Hr2 & He2 & Hsp2 & Ddx & Dcx & Dbx & Dax & Dsi & Ddi & Dbp & Dif & _ & Dm); [lia..|].
  assert (forall a, e - 16 <= a -> a + 4 <= e + 12 -> rd32 (m_mem (isr s1)) a = rd32 (m_mem s1) a) as Hk
    by (intros a ??; apply (abi_rd32 _ _ _ _ _ Ha); lia).
  rewrite Hk in He2, Ddx, Dcx, Dbx, Dax, Dif by lia.
  assert (forall a, e <= a -> rd32 (m_mem s1) a = rd32 (m_mem s) a) as Hw
    by (intros a ?; unfold rd32; by rewrite !Hfr by lia).
  rewrite Hw in He2, Dif by lia.
  exists s1, s'; split_and!; [done|done|done| | |done|done| |done|done].
  - rewrite Hsp1; by replace (e - 24 + 4) with (e - 20) by lia.
  - change 15%nat with (7 + (1 + 7))%nat; rewrite (run_app _ _ _ _ _ _ Hr1).
    rewrite (run_app _ _ 1 7 _ (isr s1)); [done|]; apply run_c; by rewrite He1.
  - intros [] Hne; try done; congruence.
Qed.

Lemma al_byte a v : (a - a mod 256 + u8 v) mod 256 = u8 v.
Proof. unfold wrap; change (2 ^ 8) with 256; Z.div_mod_to_equations; lia. Qed.

(** The stub of the clock interrupt saves no register: it returns to the
    interrupted instruction and acknowledges the interrupt, but the low byte
    of EAX is then 0x20 whatever it was before, and ECX and EDX are what
    [bmk_isr_clock] left. *)
Theorem isr_clock_clobbers x base s clk (e := m_reg s ESP) :
  loaded code base (isr_clock_code x) -> m_eip s = base -> 4 <= e -> e + 12 < 2 ^ 32 ->
  urange 32 (x_bmk_isr_clock x) -> urange 32 (base + 2) ->
  code (x_bmk_isr_clock x) = None -> cfun (x_bmk_isr_clock x) = Some clk ->
  (forall s1, run code cfun 2 s = Some s1 -> c_abi 0 (e + 12) s1 (clk s1)) ->
  exists s1 s', run code cfun 7 s = Some s' /\ m_eip s' = rd32 (m_mem s) e /\ m_reg s' ESP = e + 12 /\
    m_reg s' EAX mod 256 = 0x20 /\ m_reg s' ECX = m_reg (clk s1) ECX /\ m_reg s' EDX = m_reg (clk s1) EDX /\
    m_if s' = Z.testbit (rd32 (m_mem s) (e + 8)) 9 /\ m_ev s' = m_ev (clk s1) ++ [Outb 0x20 0x20; Sti].
Proof.
  intros Hl He Hlo Hhi Hx Hb Hc Hf Habi; subst e.
  apply (loaded_app code base [Icli; Icall (Imm (x_bmk_isr_clock x))] [Imovb_al 0x20; Ioutb_al 0x20; Isti; Iiret]) in Hl as [Hl1 Hl2].
  destruct s as [[a b c d si di bp esp] sr ip ifl zf m ev]; cbn [m_reg m_regs getr r_esp m_mem m_eip] in *; subst ip.
  pose proof (run_block code cfun base _ (Machine (Regs a b c d si di bp esp) sr base ifl zf m ev) Hl1 eq_refl eq_refl) as Hr1.
  revert Hr1; exec1; exec1; cbn [exec_seq]; intros Hr1.
  match type of Hr1 with _ = Some ?s => set (s1 := s) in Hr1 end.
  specialize (Habi s1 Hr1) as Ha; pose proof Ha as [Ae Asp _ Afr].
  assert (top s1 = base + 2) as Et by (cbv beta iota zeta delta [s1 top m_reg getr m_regs r_esp m_mem]; by rewrite rd32_wr32_eq, wrap_id).
  assert (m_reg s1 ESP = esp + -4) as Es by done.
  rewrite Et in Ae; rewrite Es, <- Z.add_assoc, wrap_id in Asp by (unfold urange; lia); change (-4 + 4) with 0 in Asp.
  assert (forall a, esp <= a -> a + 4 <= esp + 12 -> rd32 (m_mem (clk s1)) a = rd32 m a) as Hk.
  { intros y ??; rewrite (abi_rd32 _ _ _ _ _ Ha) by (rewrite ?Es; lia); cbn [m_mem s1]; rewrite rd32_wr32_ne by lia; done. }
  assert (run code cfun 1 s1 = Some (clk s1)) as Hrc by (apply run_c; done).
  exists s1; destruct (clk s1) as [[a' b' c' d' si' di' bp' esp'] sr' ip' ifl' zf' m' ev'].
  cbn [m_reg m_regs getr r_eax r_ecx r_edx r_esp m_mem m_eip m_ev] in *; subst ip'; rewrite Z.add_0_r in Asp; subst esp'.
  eexists; split.
  { change 7%nat with (2 + (1 + 4))%nat; rewrite (run_app _ _ _ _ _ _ Hr1), (run_app _ _ _ _ _ _ Hrc).
    etransitivity; [exact (run_block code cfun (base + 2) _ (Machine _ _ _ _ _ _ _) Hl2 eq_refl eq_refl)|].
    apply f_equal; do 4 exec1; reflexivity. }
  cbn [exec_seq m_reg m_regs getr r_eax r_ecx r_edx r_esp m_mem m_eip m_if m_ev]; wraps.
  rewrite !Hk by lia.
  rewrite !al_byte; split_and!; try done; by rewrite <- app_assoc.
Qed.

(** [bmk_cpu_lgdt] returns to its caller with the new descriptor table, code
    segment 0x8 and all data segments 0x10. *)
Theorem lgdt_returns base s (e := m_reg s ESP) :
  loaded code base lgdt_code -> m_eip s = base -> 4 <= e -> e + 8 < 2 ^ 32 -> urange 32 (rd32 (m_mem s) e) ->
  exists s', run code cfun 12 s = Some s' /\ m_eip s' = rd32 (m_mem s) e /\ m_reg s' ESP = e + 4 /\
    m_sregs s' = Sregs 0x8 0x10 0x10 0x10 0x10 0x10 /\
    m_ev s' = m_ev s ++ [Lgdt (rd16 (m_mem s) (rd32 (m_mem s) (e + 4))) (rd32 (m_mem s) (rd32 (m_mem s) (e + 4) + 2))].
Proof.
  intros Hl He Hlo Hhi Hra; destruct s as [[a b c d si di bp esp] [cs ds es fs gs ss] ip ifl zf m ev]; subst e.
  cbn [m_reg m_regs getr r_esp m_mem m_eip m_ev] in *; subst ip.
  eexists; split.
  { etransitivity; [exact (run_block code cfun base lgdt_code (Machine _ _ _ _ _ _ _) Hl eq_refl eq_refl)|].
    apply f_equal; unfold lgdt_code; do 12 exec1; reflexivity. }
  cbn [exec_seq m_reg m_regs getr r_esp m_mem m_eip m_sregs m_ev]; wraps; rdmem.
  by split_and!.
Qed.

(** Once in the loop [haltme] the machine stays there. *)
Lemma haltme_forever x base n s :
  loaded code base (start32_code x base) -> base + 13 <= m_eip s <= base + 15 ->
  exists s', run code cfun n s = Some s' /\ base + 13 <= m_eip s' <= base + 15.
Proof.
  intros Hl; revert s; induction n as [|n IH]; intros s Hs; [by exists s|].
  cbn [run]; unfold step.
  assert (exists i, code (m_eip s) = Some i /\ base + 13 <= m_eip (exec i s) <= base + 15) as (i & -> & Hi).
  { assert (m_eip s = base + Z.of_nat 13 \/ m_eip s = base + Z.of_nat 14 \/ m_eip s = base + Z.of_nat 15) as [E|[E|E]] by lia;
      rewrite E; eexists; (split; [apply Hl; reflexivity|]); cbn; lia. }
  cbn [mbind option_bind]; by apply IH.
Qed.

(** The addresses [_start32] depends on. *)
Record start_ok (x : symbols) (base : Z) : Prop := {
  so_code : loaded code base (start32_code x base);
  so_base : 0 <= base /\ base + 15 < 2 ^ 32;
  so_stack : 16 <= x_bootstack x /\ x_bootstack x + stack_size < 2 ^ 32;
  so_init : urange 32 (x_bmk_init x);
  so_main : urange 32 (x_bmk_main x);
  so_puts : urange 32 (x_bmk_cons_puts x);
  so_mesg : urange 32 (x_nomultimesg x);
}.

(** Up to the call of [bmk_init], and up to its return. *)
Lemma start32_enters x base s (T := x_bootstack x + stack_size) :
  start_ok x base -> m_eip s = base -> (forall r, urange 32 (m_reg s r)) ->
  exists s1, run code cfun 5 s = Some s1 /\ m_eip s1 = x_bmk_init x /\ m_reg s1 ESP = T - 12 /\ top s1 = base + 5 /\
    rd32 (m_mem s1) (T - 8) = m_reg s EAX /\ rd32 (m_mem s1) (T - 4) = m_reg s EBX.
Proof.
  intros [Hl Hb Hst Hi _ _ _] He Hr; pose proof (Hr EAX); pose proof (Hr EBX); clear Hr; subst T.
  apply (loaded_app code base (take 5 (start32_code x base)) (drop 5 (start32_code x base))) in Hl as [Hl _].
  cbn [take start32_code] in Hl; change stack_size with 65536 in *.
  destruct s as [[a b c d si di bp esp] sr ip ifl zf m ev]; cbn [m_reg m_regs getr r_eax r_ebx m_eip m_mem] in *; subst ip.
  eexists; split.
  { etransitivity; [exact (run_block code cfun base _ (Machine _ _ _ _ _ _ _) Hl eq_refl eq_refl)|].
    apply f_equal; do 5 exec1; reflexivity. }
  cbn [exec_seq]; cbv beta iota zeta delta [top m_reg m_regs getr r_esp m_mem m_eip]; subs; wraps.
  split_and!; [done|lia|rdmem; done..].
Qed.

Lemma start32_init x base s init (T := x_bootstack x + stack_size) :
  start_ok x base -> m_eip s = base -> (forall r, urange 32 (m_reg s r)) ->
  code (x_bmk_init x) = None -> cfun (x_bmk_init x) = Some init ->
  (forall s1, run code cfun 5 s = Some s1 -> c_abi 0 T s1 (init s1)) ->
  exists s2, run code cfun 6 s = Some s2 /\ m_eip s2 = base + 5 /\ m_reg s2 ESP = T - 8 /\
    rd32 (m_mem s2) (T - 8) = m_reg s EAX /\ rd32 (m_mem s2) (T - 4) = m_reg s EBX.
Proof.
  intros Hok He Hr Hc Hf Ha; pose proof (so_stack _ _ Hok) as Hst; unfold stack_size in Hst.
  destruct (start32_enters x base s Hok He Hr) as (s1 & Hr1 & He1 & Hs1 & Ht1 & Hax & Hbx); fold T in Hs1, Hax, Hbx.
  specialize (Ha s1 Hr1); exists (init s1); split; [|split_and!].
  - change 6%nat with (5 + 1)%nat; rewrite (run_app _ _ _ _ _ _ Hr1); apply run_c; by rewrite He1.
  - rewrite (ca_eip _ _ _ _ Ha); done.
  - rewrite (ca_esp _ _ _ _ Ha), Hs1, wrap_id by (unfold T, stack_size, urange; lia); lia.
  - rewrite (abi_rd32 _ _ _ _ _ Ha) by lia; done.
  - rewrite (abi_rd32 _ _ _ _ _ Ha) by lia; done.
Qed.

(** The test of the magic and the two calls behind it. *)
Lemma start32_branch x base s T a b :
  start_ok x base -> m_eip s = base + 5 -> m_reg s ESP = T - 8 -> 16 <= T < 2 ^ 32 ->
  rd32 (m_mem s) (T - 8) = a -> rd32 (m_mem s) (T - 4) = b -> urange 32 b ->
  if a =? MULTIBOOT_BOOTLOADER_MAGIC
  then exists s1, run code cfun 4 s = Some s1 /\ m_eip s1 = x_bmk_main x /\ top s1 = base + 9 /\
         rd32 (m_mem s1) (m_reg s1 ESP + 4) = b
  else exists s1, run code cfun 5 s = Some s1 /\ m_eip s1 = x_bmk_cons_puts x /\ top s1 = base + 12 /\
         rd32 (m_mem s1) (m_reg s1 ESP + 4) = x_nomultimesg x.
Proof.
  intros [Hl Hb _ _ Hm Hp Hg] He Hs HT Ha Hbx Hrb.
  apply (loaded_app code base (take 5 (start32_code x base)) (drop 5 (start32_code x base))) in Hl as [_ Hl].
  cbn [take drop start32_code length] in Hl; change (Z.of_nat 5) with 5 in Hl.
  destruct s as [[a' b' c d si di bp esp] sr ip ifl zf m ev]; cbn [m_reg m_regs getr r_esp m_eip m_mem] in *; subst ip esp.
  pose proof (loaded_app code (base + 5) [Ipop EAX; Icmp MULTIBOOT_BOOTLOADER_MAGIC EAX; Ijne (base + 10)] _ Hl) as [Hl1 Hl2].
  cbn [length] in Hl2; change (Z.of_nat 3) with 3 in Hl2; rewrite <- Z.add_assoc in Hl2; change (5 + 3) with 8 in Hl2.
  assert (run code cfun 3 (Machine (Regs a' b' c d si di bp (T - 8)) sr (base + 5) ifl zf m ev) =
    Some (Machine (Regs a b' c d si di bp (T - 4)) sr (if a =? MULTIBOOT_BOOTLOADER_MAGIC then base + 8 else base + 10) ifl (a =? MULTIBOOT_BOOTLOADER_MAGIC) m ev)) as Hr.
  { etransitivity; [exact (run_block code cfun (base + 5) _ (Machine _ _ _ _ _ _ _) Hl1 eq_refl eq_refl)|].
    apply f_equal; rewrite <- Ha; subs; exec1; exec1; exec1; cbn [exec_seq].
    rewrite (wrap_id 32 MULTIBOOT_BOOTLOADER_MAGIC) by done.
    by destruct (rd32 m (T + -8) =? MULTIBOOT_BOOTLOADER_MAGIC). }
  destruct (a =? MULTIBOOT_BOOTLOADER_MAGIC).
  - apply (loaded_app code (base + 8) [Icall (Imm (x_bmk_main x))]) in Hl2 as [Hi _].
    eexists; split.
    { change 4%nat with (3 + 1)%nat; rewrite (run_app _ _ _ _ _ _ Hr).
      etransitivity; [exact (run_block code cfun (base + 8) _ (Machine _ _ _ _ _ _ _) Hi eq_refl eq_refl)|].
      apply f_equal; subs; exec1; reflexivity. }
    cbn [exec_seq]; cbv beta iota zeta delta [top m_reg m_regs getr r_esp m_mem m_eip]; wraps.
    split_and!; [done|rdmem; done|]; rewrite rd32_wr32_ne by lia; rewrite <- Hbx; subs; done.
  - apply (loaded_app code (base + 8) [Icall (Imm (x_bmk_main x)); Ijmp (base + 13)]) in Hl2 as [_ Hi].
    apply (loaded_app code _ [Ipush (Imm (x_nomultimesg x)); Icall (Imm (x_bmk_cons_puts x))]) in Hi as [Hi _].
    cbn [length] in Hi; rewrite <- Z.add_assoc in Hi; change (8 + Z.of_nat 2) with 10 in Hi.
    eexists; split.
    { change 5%nat with (3 + 2)%nat; rewrite (run_app _ _ _ _ _ _ Hr).
      etransitivity; [exact (run_block code cfun (base + 10) _ (Machine _ _ _ _ _ _ _) Hi eq_refl eq_refl)|].
      apply f_equal; subs; exec1; exec1; reflexivity. }
    cbn [exec_seq]; cbv beta iota zeta delta [top m_reg m_regs getr r_esp m_mem m_eip]; wraps.
    split_and!; [done|rdmem; lia|rdmem; done].
Qed.

(** After a call that returns to the instruction before or at the loop, the
    machine halts for good. *)
Lemma halts x base s f k i :
  start_ok x base -> code (m_eip s) = None -> cfun (m_eip s) = Some f -> m_eip (f s) = base + Z.of_nat k ->
  start32_code x base !! k = Some i -> m_eip (exec i (f s)) = base + 13 ->
  forall n, exists s', run code cfun (2 + n) s = Some s' /\ base + 13 <= m_eip s' <= base + 15.
Proof.
  intros Hok Hc Hf Hret Hi He n; destruct (haltme_forever x base n (exec i (f s)) (so_code _ _ Hok)) as (s' & Hrn & Hs'); [lia|].
  exists s'; split; [|done]; change (2 + n)%nat with (1 + (1 + n))%nat; rewrite (run_app _ _ 1 _ s (f s)) by (by apply run_c).
  rewrite (run_app _ _ 1 n (f s) (exec i (f s))); [done|].
  cbn [run]; unfold step; rewrite Hret; by rewrite (so_code _ _ Hok k i Hi).
Qed.

(** C26: the entry from the boot loader.  [_start32] calls [bmk_init] on the
    boot stack; if the loader left the multiboot magic in EAX it then calls
    [bmk_main] with the pointer the loader left in EBX, otherwise
    [bmk_cons_puts] with the message that it was not multibooted; when that
    call returns the machine halts for good.  The calls are assumed to keep to
    the calling convention. *)
Theorem start32_correct x base s init main puts (T := x_bootstack x + stack_size) :
  start_ok x base -> m_eip s = base -> (forall r, urange 32 (m_reg s r)) ->
  code (x_bmk_init x) = None -> cfun (x_bmk_init x) = Some init ->
  code (x_bmk_main x) = None -> cfun (x_bmk_main x) = Some main ->
  code (x_bmk_cons_puts x) = None -> cfun (x_bmk_cons_puts x) = Some puts ->
  (forall s1, run code cfun 5 s = Some s1 -> c_abi 0 T s1 (init s1)) ->
  (forall s1, run code cfun 10 s = Some s1 -> m_eip s1 = x_bmk_main x -> c_abi 1 T s1 (main s1)) ->
  (forall s1, run code cfun 11 s = Some s1 -> m_eip s1 = x_bmk_cons_puts x -> c_abi 1 T s1 (puts s1)) ->
  (exists s0, run code cfun 5 s = Some s0 /\ m_eip s0 = x_bmk_init x /\ m_reg s0 ESP = T - 12) /\
  if m_reg s EAX =? MULTIBOOT_BOOTLOADER_MAGIC
  then exists s1, run code cfun 10 s = Some s1 /\ m_eip s1 = x_bmk_main x /\
         rd32 (m_mem s1) (m_reg s1 ESP + 4) = m_reg s EBX /\
         forall n, exists s', run code cfun (12 + n) s = Some s' /\ base + 13 <= m_eip s' <= base + 15
  else exists s1, run code cfun 11 s = Some s1 /\ m_eip s1 = x_bmk_cons_puts x /\
         rd32 (m_mem s1) (m_reg s1 ESP + 4) = x_nomultimesg x /\
         forall n, exists s', run code cfun (13 + n) s = Some s' /\ base + 13 <= m_eip s' <= base + 15.
Proof.
  intros Hok He Hr Hci Hfi Hcm Hfm Hcp Hfp Hai Ham Hap.
  destruct (start32_init x base s init Hok He Hr Hci Hfi Hai) as (s2 & Hr2 & He2 & Hs2 & Hax & Hbx); fold T in Hs2, Hax, Hbx.
  pose proof (so_stack _ _ Hok) as Hst; fold T in Hst.
  pose proof (start32_branch x base s2 T _ _ Hok He2 Hs2 ltac:(unfold T, stack_size in *; lia) Hax Hbx (Hr EBX)) as Hbr.
  split; [destruct (start32_enters x base s Hok He Hr) as (s0 & ? & ? & ? & _); by exists s0|].
  destruct (m_reg s EAX =? MULTIBOOT_BOOTLOADER_MAGIC).
  - destruct Hbr as (s1 & Hr1 & He1 & Ht1 & Harg).
    assert (run code cfun 10 s = Some s1) as Hr10 by (change 10%nat with (6 + 4)%nat; by rewrite (run_app _ _ _ _ _ _ Hr2)).
    exists s1; split_and!; [done|done|done|]; intros n; change (12 + n)%nat with (10 + (2 + n))%nat; rewrite (run_app _ _ _ _ _ _ Hr10).
    apply (halts x base s1 main 9 (Ijmp (base + 13)) Hok); [by rewrite He1|by rewrite He1| |done|done].
    by rewrite (ca_eip _ _ _ _ (Ham s1 Hr10 He1)).
  - destruct Hbr as (s1 & Hr1 & He1 & Ht1 & Harg).
    assert (run code cfun 11 s = Some s1) as Hr11 by (change 11%nat with (6 + 5)%nat; by rewrite (run_app _ _ _ _ _ _ Hr2)).
    pose proof (ca_eip _ _ _ _ (Hap s1 Hr11 He1)) as Hret; rewrite Ht1 in Hret.
    exists s1; split_and!; [done|done|done|]; intros n; change (13 + n)%nat with (11 + (2 + n))%nat; rewrite (run_app _ _ _ _ _ _ Hr11).
    apply (halts x base s1 puts 12 Ihlt Hok); [by rewrite He1|by rewrite He1|done|done|cbn; lia].
Qed.
End Calls.

(** ** A program in memory *)

Definition place (a : Z) (l : list instr) (z : Z) : option instr := if a <=? z then l !! Z.to_nat (z - a) else None.
Definition demo_syms : symbols := Symbols 0x110000 0x100480 0x100500 0x100510 0x100520 0x100530 0x100540.
Definition demo_code (z : Z) : option instr :=
  if z <? 0x100100 then place 0x100000 (sched_switch_code 0x100000) z
  else if z <? 0x100200 then place 0x100100 sched_bouncer_code z
  else if z <? 0x100300 then place 0x100200 (INTRSTUB demo_syms 10) z
  else place 0x100300 (start32_code demo_syms 0x100300) z.
(** C functions that write to a fixed address and return. *)
Definition demo_ret (s : machine) : machine :=
  let s' := jump (top s) (drop4 s) in
  Machine (m_regs s') (m_sregs s') (m_eip s') (m_if s') (m_zf s') (wr32 (m_mem s') 0xb8000 0x41) (m_ev s').
Definition demo_cfun (z : Z) : option (machine -> machine) := if 0x100500 <=? z then Some demo_ret else None.

Ltac loaded_concrete :=
  let i := fresh "i" in let Hi := fresh "Hi" in
  intros i ? Hi; repeat (destruct i as [|i]; [injection Hi as <-; vm_compute; reflexivity|]); discriminate Hi.

Lemma demo_switch_loaded : loaded demo_code 0x100000 (sched_switch_code 0x100000).
Proof. loaded_concrete. Qed.
Lemma demo_bouncer_loaded : loaded demo_code 0x100100 sched_bouncer_code.
Proof. loaded_concrete. Qed.
Lemma demo_stub_loaded : loaded demo_code 0x100200 (INTRSTUB demo_syms 10).
Proof. loaded_concrete. Qed.
Lemma demo_start_loaded : loaded demo_code 0x100300 (start32_code demo_syms 0x100300).
Proof. loaded_concrete. Qed.

Lemma demo_ret_abi n hi s : 0 <= n -> hi <= 0xb8000 \/ 0xb8004 <= m_reg s ESP -> c_abi n hi s (demo_ret s).
Proof.
  intros Hn Ha; destruct s as [[] ? ? ? ? ? ?]; split; [done|done|done|].
  intros x Hx; cbn [demo_ret m_mem m_reg m_regs getr r_esp jump drop4 setr] in *; apply rd8_wr32_ne; lia.
Qed.
(** A test of the state that is reached. *)
Lemma reached (P : machine -> bool) code cfun n s s1 : run code cfun n s = Some s1 ->
  match run code cfun n s with Some s => P s | None => false end = true -> P s1 = true.
Proof. by intros ->. Qed.

(** Thread A (task block 0x2000, stack pointer 0x3000) switches to the new
    thread B (task block 0x2010, stack top 0x4000). *)
Definition demo_regs (sp : Z) : regs := Regs 1 2 3 4 5 6 7 sp.
Definition demo_new : Z * mstate := bmk_cpu_sched_create 0x100600 77 0x4000 demo_s.
Definition demo_m0 : mem :=
  wr32 (wr32 (wr32 (wr32 (wr32 (mm (snd demo_new)) 0x3000 0x100700) 0x3004 0x2000) 0x3008 0x2010)
    0x2010 (fst demo_new)) 0x2014 0x100100.
Definition demo_A : machine := Machine (demo_regs 0x3000) (Sregs 8 16 16 16 16 16) 0x100000 true false demo_m0 [].
Definition demo_A1 : machine := default demo_A (run demo_code demo_cfun 11 demo_A).
(** Later B calls the switch back to A. *)
Definition demo_B : machine :=
  Machine (Regs 0 0 0 0 0 0 0 0x3f00) (Sregs 8 16 16 16 16 16) 0x100000 true false
    (wr32 (wr32 (wr32 (m_mem demo_A1) 0x3f00 0x100800) 0x3f04 0x2010) 0x3f08 0x2000) [].

Ltac at_switch_concrete :=
  split; [done|by vm_compute|by vm_compute|by vm_compute|intros []; by vm_compute|unfold away; vm_compute; intuition congruence
    |unfold away; vm_compute; intuition congruence|by vm_compute|intros ? ->; unfold away; vm_compute; intuition congruence].

Lemma demo_A_ok : at_switch 0x100000 demo_A 0x2000 0x2010.
Proof. at_switch_concrete. Qed.
Lemma demo_B_ok : at_switch 0x100000 demo_B 0x2010 0x2000.
Proof. at_switch_concrete. Qed.

Lemma context_switch_roundtrip_witness :
  exists s3, run demo_code demo_cfun 16 demo_B = Some s3 /\ m_eip s3 = 0x100700 /\ m_reg s3 EBX = 2.
Proof.
  destruct (context_switch_roundtrip demo_code demo_cfun 0x100000 demo_switch_loaded ltac:(by vm_compute)
    demo_A demo_A1 demo_B 0x2000 0x2010 0x2010 demo_A_ok ltac:(by vm_compute)) as (s3 & ? & He & _ & Hb & _).
  - intros x Hx; cbn [m_mem demo_B]; change (m_reg demo_A ESP) with 0x3000 in Hx; rewrite !rd8_wr32_ne by lia; done.
  - exact demo_B_ok.
  - by vm_compute; left.
  - by vm_compute; right.
  - exists s3; split; [assumption|split; [rewrite He; by vm_compute|rewrite Hb; by vm_compute]].
Defined.

Lemma thread_start_witness :
  exists s', run demo_code demo_cfun 17 demo_A = Some s' /\ m_eip s' = 0x100600 /\
    rd32 (m_mem s') (m_reg s' ESP + 4) = 77.
Proof.
  destruct (thread_start demo_code demo_cfun 0x100000 0x100100 demo_A 0x2000 0x2010 0x100600 77 0x4000 demo_s
    (fst demo_new) (snd demo_new) demo_switch_loaded ltac:(by vm_compute) demo_bouncer_loaded) as (s' & ? & ? & _ & ? & _).
  - reflexivity.
  - by vm_compute.
  - by vm_compute.
  - by vm_compute.
  - exact demo_A_ok.
  - by vm_compute.
  - by vm_compute.
  - intros x Hx; change (fst demo_new) with 0x3ff8 in Hx; cbn [m_mem demo_A]; unfold demo_m0; by rewrite !rd8_wr32_ne by lia.
  - by vm_compute; left.
  - by vm_compute; left.
  - exists s'; split_and!; assumption.
Defined.

Lemma intrstub_transparent_witness :
  exists s', run demo_code demo_cfun 15
    (Machine (demo_regs 0x3000) (Sregs 8 16 16 16 16 16) 0x100200 true false (wr32 (wr32 ∅ 0x3000 0x100700) 0x3008 0x202) []) =
    Some s' /\ m_eip s' = 0x100700 /\ m_reg s' EAX = 1 /\ m_if s' = true.
Proof.
  destruct (intrstub_transparent demo_code demo_cfun demo_syms 0x100200 10
    (Machine (demo_regs 0x3000) (Sregs 8 16 16 16 16 16) 0x100200 true false (wr32 (wr32 ∅ 0x3000 0x100700) 0x3008 0x202) [])
    demo_ret demo_stub_loaded) as (s1 & s' & _ & _ & _ & _ & ? & He & _ & Hr & Hif & _).
  1-3: by vm_compute.
  1: intros []; by vm_compute.
  1-3: by vm_compute.
  1-2: reflexivity.
  1: intros s1 _; apply demo_ret_abi; [lia|left; vm_compute; discriminate].
  exists s'; split; [assumption|]; split; [rewrite He; by vm_compute|split; [by rewrite Hr|rewrite Hif; by vm_compute]].
Defined.

Lemma start32_correct_witness :
  exists s1, run demo_code demo_cfun 10
    (Machine (Regs MULTIBOOT_BOOTLOADER_MAGIC 0x9000 0 0 0 0 0 0) (Sregs 8 16 16 16 16 16) 0x100300 false false ∅ []) =
    Some s1 /\ m_eip s1 = x_bmk_main demo_syms /\ rd32 (m_mem s1) (m_reg s1 ESP + 4) = 0x9000.
Proof.
  destruct (start32_correct demo_code demo_cfun demo_syms 0x100300
    (Machine (Regs MULTIBOOT_BOOTLOADER_MAGIC 0x9000 0 0 0 0 0 0) (Sregs 8 16 16 16 16 16) 0x100300 false false ∅ [])
    demo_ret demo_ret demo_ret) as (_ & s1 & ? & ? & ? & _).
  - split; [exact demo_start_loaded|by vm_compute..].
  - reflexivity.
  - intros []; by vm_compute.
  - reflexivity.
  - reflexivity.
  - reflexivity.
  - reflexivity.
  - reflexivity.
  - reflexivity.
  - intros s1 E; apply demo_ret_abi; [lia|right].
    apply Z.leb_le, (reached (fun s => 0xb8004 <=? m_reg s ESP) _ _ _ _ _ E); by vm_compute.
  - intros s1 E _; apply demo_ret_abi; [lia|right].
    apply Z.leb_le, (reached (fun s => 0xb8004 <=? m_reg s ESP) _ _ _ _ _ E); by vm_compute.
  - intros s1 E He; pose proof (reached (fun s => negb (m_eip s =? 0x100520)) _ _ _ _ _ E ltac:(by vm_compute)) as Hn.
    cbv beta in Hn; rewrite He in Hn; discriminate Hn.
  - exists s1; split_and!; assumption.
Defined.

(** The words of the multiboot header add up to 0, as a boot loader checks. *)
Lemma multiboot_checksum : foldr Z.add 0 multiboot_section mod 2 ^ 32 = 0.
Proof. by vm_compute. Qed.
