(* ===== verification/Switch.v ===== *)
(** * Switch: the scheduler's threads on the machine

    sched.c switches threads by storing [current_thread] and calling
    [bmk_cpu_sched_switch] of locore32.S on the task blocks inside the two
    thread structures.  Here the memory that holds the scheduler state
    (SchedMem.v) is the memory of the machine that executes the assembly
    (Locore.v).  The invariant [sys_ok] says what the memory holds of every
    thread that does not run, and the theorems that a switch resumes exactly
    the context that was saved, and keeps the invariant, over every sequence
    of switches and of steps of the running threads. *)
From S2P Require Import Prelude Mem Cells Tailq Iface Sched SchedMem Locore.

(** ** Contexts *)

(** What is saved of a thread that does not run: a thread that has called
    [bmk_cpu_sched_switch], with the stack pointer [e] at its return address,
    or a new one, whose stack [bmk_cpu_sched_create] has prepared. *)
Inductive ctx :=
| Suspended (e ret bx si di bp : Z)
| Fresh (sp f arg : Z).

(** [&thread->bt_tcb]. *)
Definition bt_tcb (t : Z) : Z := t + 44.
Definition with_tcb (sp ip : Z) (th : bmk_thread) : bmk_thread :=
  BmkThread (bt_name th) (bt_tls th) (bt_wakeup_time th) (bt_flags th) (bt_errno th) (bt_stackbase th) sp ip.

(** ** Threads and their stacks in memory *)

Section Layout.
Variables THREADS ZOMBIES CURRENT : Z.
Local Abbreviation footprint := (footprint THREADS ZOMBIES CURRENT).
Local Abbreviation holds := (holds THREADS ZOMBIES CURRENT).

(** Saving a context in the task block of [t]. *)
Lemma holds_tcb {H} m m' ts (S : sched H) t sp ip :
  holds m ts S -> t ∈ ts ->
  (forall a, a ∈ footprint ts -> a <> bt_tcb t -> a <> bt_tcb t + 4 -> rd32 m' a = rd32 m a) ->
  rd32 m' (bt_tcb t) = sp -> rd32 m' (bt_tcb t + 4) = ip ->
  holds m' ts (upd (with_tcb sp ip) t S).
Proof.
  intros Hh Ht Hf Hsp Hip; apply (holds_field _ _ _ m); [done|done| | |].
  - intros a Ha Hna; apply Hf; [done|..]; intros ->; apply Hna; unfold fields, bt_tcb; rewrite !elem_of_cons; [tauto|].
    replace (t + 44 + 4) with (t + 48) by lia; tauto.
  - assert (forall a, a ∈ fields t -> a <> t + 44 -> a <> t + 48 -> rd32 m' a = rd32 m a) as Hk.
    { intros a Ha ??; apply Hf; [by eapply fields_foot|unfold bt_tcb; lia..]. }
    unfold bt_tcb in *; replace (t + 44 + 4) with (t + 48) in * by lia.
    unfold load_thread, with_tcb, ld64; cbn; rewrite Hsp, Hip.
    rewrite !Hk; [done|..]; first [lia|unfold fields; rewrite !elem_of_cons; tauto].
  - destruct (getthr_load _ _ _ m ts S t Hh Ht) as [_ Hu]; exact Hu.
Qed.

(** The task block of a thread, and its stack, among those of the others. *)
Lemma tcb_foot ts t : t ∈ ts -> bt_tcb t ∈ footprint ts /\ bt_tcb t + 4 ∈ footprint ts.
Proof.
  intros Ht; unfold bt_tcb; replace (t + 44 + 4) with (t + 48) by lia; split;
    (eapply fields_foot; [exact Ht|]; unfold fields; rewrite !elem_of_cons; tauto).
Qed.
Lemma tcb_range ts t : apart (footprint ts) -> t ∈ ts -> 0 <= bt_tcb t /\ bt_tcb t + 8 <= 2 ^ 32.
Proof.
  intros (_ & Hs & HF) Ht; rewrite Forall_forall in HF; destruct (tcb_foot ts t Ht) as [H1 H2].
  pose proof (HF _ H1) as R1; assert (tqe_prev bt_entries t ∈ footprint ts) as H3.
  { apply links_foot; unfold links; rewrite elem_of_app; right; apply list_elem_of_In, in_flat_map.
    exists t; split; [by apply list_elem_of_In|cbn; tauto]. }
  pose proof (HF _ H3) as R3; unfold urange, bt_tcb, tqe_prev, bt_entries in *; lia.
Qed.
Lemma tcb_apart ts t u : apart (footprint ts) -> t ∈ ts -> u ∈ ts -> t <> u -> away (bt_tcb t) 8 (bt_tcb u) (bt_tcb u + 8).
Proof.
  intros Hap Ht Hu Hne; destruct (tcb_foot ts t Ht) as [T1 T2], (tcb_foot ts u Hu) as [U1 U2].
  assert (forall a b, a ∈ [bt_tcb t; bt_tcb t + 4] -> b ∈ [bt_tcb u; bt_tcb u + 4] -> a <> b) as Hd.
  { intros a b Ha Hb ->; apply (fields_apart THREADS ZOMBIES CURRENT ts t u b Hap Ht Hu Hne); unfold bt_tcb in *;
      rewrite !elem_of_cons, elem_of_nil in Ha, Hb; unfold fields; rewrite !elem_of_cons;
      [replace (t + 44 + 4) with (t + 48) in * by lia|replace (u + 44 + 4) with (u + 48) in * by lia]; tauto. }
  destruct Hap as (_ & Hs & _).
  assert (bt_tcb t <> bt_tcb u) as N1 by (apply Hd; set_solver +).
  assert (bt_tcb t <> bt_tcb u + 4) as N2 by (apply Hd; set_solver +).
  assert (bt_tcb t + 4 <> bt_tcb u) as N3 by (apply Hd; set_solver +).
  pose proof (Hs _ _ T1 U1 N1); pose proof (Hs _ _ T1 U2 N2); pose proof (Hs _ _ T2 U1 N3); unfold away; lia.
Qed.
Lemma tcb_current ts t : apart (footprint ts) -> t ∈ ts -> away (bt_tcb t) 8 CURRENT (CURRENT + 4).
Proof.
  intros Hap Ht; assert (CURRENT ∈ footprint ts) as Ic by (rewrite foot_in; by left).
  destruct (tcb_foot ts t Ht) as [F1 F2]; pose proof Hap as (_ & Hs & _).
  destruct (field_not_link THREADS ZOMBIES CURRENT ts t (t + 44) Hap Ht) as [_ N1]; [unfold fields; set_solver +|].
  destruct (field_not_link THREADS ZOMBIES CURRENT ts t (t + 48) Hap Ht) as [_ N2]; [unfold fields; set_solver +|].
  pose proof (Hs _ _ F1 Ic ltac:(unfold bt_tcb; done)); pose proof (Hs _ _ F2 Ic ltac:(unfold bt_tcb; lia)); unfold away; lia.
Qed.


(** Every thread [t] has its stack from [fst (stk t)] to [snd (stk t)]. *)
Variable stk : Z -> Z * Z.

Record layout (ts : list Z) : Prop := {
  l_stack : forall t, t ∈ ts -> 0 <= fst (stk t) /\ fst (stk t) + 32 <= snd (stk t) < 2 ^ 32;
  l_apart : forall t u, t ∈ ts -> u ∈ ts -> t <> u -> snd (stk t) <= fst (stk u) \/ snd (stk u) <= fst (stk t);
  l_foot : forall t a, t ∈ ts -> a ∈ footprint ts -> away a 4 (fst (stk t)) (snd (stk t));
}.

Lemma tcb_stack ts t u : layout ts -> t ∈ ts -> u ∈ ts -> away (bt_tcb t) 8 (fst (stk u)) (snd (stk u)).
Proof.
  intros [Hst _ Hf] Ht Hu; destruct (tcb_foot ts t Ht) as [T1 T2]; pose proof (Hst u Hu).
  pose proof (Hf u _ Hu T1); pose proof (Hf u _ Hu T2); unfold away in *; lia.
Qed.

End Layout.
Arguments holds_tcb {THREADS ZOMBIES CURRENT H} _ _ _ _ _ _ _ _ _ _ _ _.
Arguments tcb_foot {THREADS ZOMBIES CURRENT} _ _ _.
Arguments tcb_range {THREADS ZOMBIES CURRENT} _ _ _ _.
Arguments tcb_apart {THREADS ZOMBIES CURRENT} _ _ _ _ _ _ _.
Arguments tcb_current {THREADS ZOMBIES CURRENT} _ _ _ _.
Arguments tcb_stack {THREADS ZOMBIES CURRENT stk} _ _ _ _ _ _.
Arguments l_apart {THREADS ZOMBIES CURRENT stk} _ _ _ _ _ _ _.
Arguments l_foot {THREADS ZOMBIES CURRENT stk} _ _ _ _ _ _.

Section Switch.
Variable code : Z -> option instr.
Variable cfun : Z -> option (machine -> machine).
(** The addresses of the two routines of locore32.S, and of the variables of
    sched.c. *)
Variables base bouncer : Z.
Variables THREADS ZOMBIES CURRENT : Z.
Hypothesis Hcode : loaded code base (sched_switch_code base).
Hypothesis Hbase : urange 32 (base + 11).
Hypothesis Hbouncer : loaded code bouncer sched_bouncer_code.
Local Abbreviation footprint := (footprint THREADS ZOMBIES CURRENT).
Local Abbreviation holds := (holds THREADS ZOMBIES CURRENT).

(** [sched_switch], compiled: store [current_thread], push the arguments,
    call. *)
Definition sched_switch (ret prev next : Z) (s : machine) : machine :=
  let s := store CURRENT next s in
  let s := push (bt_tcb prev) (push (bt_tcb next) s) in
  jump base (push ret s).

(** The stack pointer and address in the task block, the words on the stack,
    and where they end. *)
Definition ctx_sp (c : ctx) : Z := match c with Suspended e _ _ _ _ _ => e - 16 | Fresh sp _ _ => sp end.
Definition ctx_ip (c : ctx) : Z := match c with Suspended _ _ _ _ _ _ => base + 11 | Fresh _ _ _ => bouncer end.
Definition ctx_words (c : ctx) : list (Z * Z) :=
  match c with
  | Suspended e ret bx si di bp => [(e - 16, di); (e - 12, si); (e - 8, bx); (e - 4, bp); (e, ret)]
  | Fresh sp f arg => [(sp, arg); (sp + 4, f)]
  end.
Definition ctx_top (c : ctx) : Z := match c with Suspended e _ _ _ _ _ => e + 4 | Fresh sp _ _ => sp + 8 end.
(** Instructions until the thread is back in its own code. *)
Definition ctx_steps (c : ctx) : nat := match c with Suspended _ _ _ _ _ _ => 16 | Fresh _ _ _ => 17 end.

(** The machine runs on in the context: behind the call, with the registers a
    C function preserves, or at the entry of the function of a new thread,
    with its argument above the return address. *)
Definition resumes (c : ctx) (s : machine) : Prop :=
  match c with
  | Suspended e ret bx si di bp =>
      m_eip s = ret /\ m_reg s ESP = u32 (e + 4) /\ m_reg s EBX = bx /\ m_reg s ESI = si /\ m_reg s EDI = di /\ m_reg s EBP = bp
  | Fresh sp f arg => m_eip s = f /\ m_reg s ESP = sp - 4 /\ rd32 (m_mem s) (m_reg s ESP + 4) = arg /\ m_reg s EBP = 0
  end.

Section Stacks.
Variable stk : Z -> Z * Z.
Local Abbreviation layout := (layout THREADS ZOMBIES CURRENT stk).

Definition saved_in (m : mem) (t : Z) (c : ctx) : Prop :=
  rd32 m (bt_tcb t) = ctx_sp c /\ rd32 m (bt_tcb t + 4) = ctx_ip c /\
  Forall (fun p => rd32 m (fst p) = snd p) (ctx_words c) /\
  fst (stk t) + 4 <= ctx_sp c /\ ctx_top c <= snd (stk t).

(** The whole system: the memory of the machine holds the scheduler state;
    of every thread in [C], a thread that exists and does not run, it holds
    the saved context. *)
Record sys_ok {H} (ts : list Z) (S : sched H) (C : gmap Z ctx) (s : machine) : Prop := {
  sy_layout : layout ts;
  sy_holds : holds (m_mem s) ts S;
  sy_current : current_thread S ∈ ts;
  sy_saved : forall t c, C !! t = Some c -> t ∈ ts /\ t <> current_thread S /\ saved_in (m_mem s) t c;
}.

(** A saved context is where its words are. *)
Lemma ctx_word_bounds c a v : (a, v) ∈ ctx_words c -> ctx_sp c <= a /\ a + 4 <= ctx_top c.
Proof. clear; destruct c; cbn; rewrite !elem_of_cons, elem_of_nil; naive_solver lia. Qed.
Lemma saved_words m m' c :
  (forall x, ctx_sp c <= x < ctx_top c -> rd8 m' x = rd8 m x) ->
  Forall (fun p => rd32 m (fst p) = snd p) (ctx_words c) -> Forall (fun p => rd32 m' (fst p) = snd p) (ctx_words c).
Proof.
  intros Hx; rewrite !Forall_forall; intros Hw [a v] Hp; specialize (Hw _ Hp); cbn in *; rewrite <- Hw.
  pose proof (ctx_word_bounds _ _ _ Hp); apply rd32_same; intros; apply Hx; lia.
Qed.
Lemma saved_keep m m' t c : saved_in m t c ->
  (forall x, fst (stk t) <= x < snd (stk t) \/ bt_tcb t <= x < bt_tcb t + 8 -> rd8 m' x = rd8 m x) -> saved_in m' t c.
Proof.
  intros (H1 & H2 & H3 & H4 & H5) Hx; split_and!; [| | |done|done].
  - rewrite <- H1; apply rd32_same; intros; apply Hx; lia.
  - rewrite <- H2; apply rd32_same; intros; apply Hx; lia.
  - eapply saved_words; [|exact H3]; intros x Hs; apply Hx; lia.
Qed.

(** ** The call *)

(** The running thread may switch: there is room on its stack, and the
    registers hold 32-bit values. *)
Definition can_switch (t : Z) (s : machine) : Prop :=
  fst (stk t) + 32 <= m_reg s ESP <= snd (stk t) /\ forall r, urange 32 (m_reg s r).

Lemma push_shape v s (e := m_reg s ESP) : 4 <= e < 2 ^ 32 ->
  m_reg (push v s) ESP = e - 4 /\ (forall r, r <> ESP -> m_reg (push v s) r = m_reg s r) /\
  m_mem (push v s) = wr32 (m_mem s) (e - 4) v.
Proof.
  intros He; assert (u32 (m_reg s ESP + -4) = e - 4) as E by (subst e; rewrite wrap_id by (unfold urange; lia); lia).
  unfold push; rewrite E; clear E He; revert e; destruct s as [[] ? ? ? ? ? ?]; intros e; split_and!; [done|by intros []|done].
Qed.

Lemma sched_switch_shape ret p n s (e := m_reg s ESP) :
  12 <= e < 2 ^ 32 ->
  let s1 := sched_switch ret p n s in
  m_eip s1 = base /\ m_reg s1 ESP = e - 12 /\ (forall r, r <> ESP -> m_reg s1 r = m_reg s r) /\
  m_mem s1 = wr32 (wr32 (wr32 (wr32 (m_mem s) CURRENT n) (e - 4) (bt_tcb n)) (e - 8) (bt_tcb p)) (e - 12) ret.
Proof.
  intros He; unfold sched_switch; cbv zeta.
  assert (m_reg (store CURRENT n s) ESP = e) as E0 by done.
  destruct (push_shape (bt_tcb n) (store CURRENT n s)) as (A1 & A2 & A3); [lia|]; rewrite E0 in *.
  set (sa := push (bt_tcb n) _) in *; clearbody sa.
  destruct (push_shape (bt_tcb p) sa) as (B1 & B2 & B3); [lia|]; rewrite A1 in *; set (sb := push _ sa) in *; clearbody sb.
  destruct (push_shape ret sb) as (D1 & D2 & D3); [lia|]; rewrite B1 in *; set (sd := push _ sb) in *; clearbody sd.
  split_and!; [done|change (m_reg (jump base sd) ESP) with (m_reg sd ESP); lia| |].
  - intros r Hr; change (m_reg (jump base sd) r) with (m_reg sd r); by rewrite D2, B2, A2.
  - change (m_mem (jump base sd)) with (m_mem sd); rewrite D3, B3, A3.
    replace (e - 4 - 4 - 4) with (e - 12) by lia; replace (e - 4 - 4) with (e - 8) by lia; done.
Qed.

Section Step.
Context {H : Type} (ts : list Z) (S : sched H) (C : gmap Z ctx) (s : machine).
Hypothesis Hok : sys_ok ts S C s.
Local Abbreviation p := (current_thread S).
Local Abbreviation e := (m_reg s ESP - 12).
Variables (n : Z) (c : ctx) (ret : Z).
Hypothesis Hn : C !! n = Some c.
Hypothesis Hcan : can_switch p s.
Hypothesis Hret : urange 32 ret.
Local Abbreviation s1 := (sched_switch ret p n s).

(** Where things are. *)
Lemma switch_places :
  n ∈ ts /\ p <> n /\ 20 <= e /\ fst (stk p) + 20 <= e /\ e + 12 <= snd (stk p) < 2 ^ 32 /\
  fst (stk n) + 4 <= ctx_sp c /\ ctx_sp c + 8 <= ctx_top c /\ ctx_top c <= snd (stk n) < 2 ^ 32 /\ 0 <= fst (stk n) /\
  (snd (stk p) <= fst (stk n) \/ snd (stk n) <= fst (stk p)) /\
  (forall a, a ∈ footprint ts -> away a 4 (fst (stk p)) (snd (stk p)) /\ away a 4 (fst (stk n)) (snd (stk n))).
Proof.
  destruct (sy_saved _ _ _ _ Hok n c Hn) as (Hin & Hne & _ & _ & _ & Hlo & Hhi).
  pose proof (sy_current _ _ _ _ Hok) as Hp; pose proof (sy_layout _ _ _ _ Hok) as [Hst Hap Hf]; destruct Hcan as [Hroom _].
  pose proof (Hst p Hp); pose proof (Hst n Hin); pose proof (Hap p n Hp Hin ltac:(done)).
  assert (ctx_sp c + 8 <= ctx_top c) by (destruct c; cbn; lia).
  split_and!; try done; try lia; intros a Ha; by split; apply Hf.
Qed.

Lemma switch_mem : m_eip s1 = base /\ m_reg s1 ESP = e /\ (forall r, r <> ESP -> m_reg s1 r = m_reg s r) /\
  rd32 (m_mem s1) (e + 4) = bt_tcb p /\ rd32 (m_mem s1) (e + 8) = bt_tcb n /\ rd32 (m_mem s1) e = ret /\
  rd32 (m_mem s1) CURRENT = n /\ holds (m_mem s1) ts (set_current n S) /\
  (forall x, ~ CURRENT <= x < CURRENT + 4 -> ~ e <= x < e + 12 -> rd8 (m_mem s1) x = rd8 (m_mem s) x).
Proof.
  destruct switch_places as (Hin & Hne & He & Hlo & Hhi & _ & _ & _ & _ & _ & Hf).
  destruct (sched_switch_shape ret p n s ltac:(lia)) as (H1 & H2 & H3 & H4).
  pose proof (sy_holds _ _ _ _ Hok) as Hh; pose proof (h_apart _ _ _ _ _ _ Hh) as Hap; pose proof (sy_current _ _ _ _ Hok) as Hp.
  destruct (tcb_range ts p Hap Hp), (tcb_range ts n Hap Hin).
  assert (CURRENT ∈ footprint ts) as Ic by (rewrite foot_in; by left); destruct (Hf _ Ic) as [Hc _].
  assert (urange 32 n) as Hun by (unfold urange, bt_tcb in *; destruct Hap as (_ & _ & HF); rewrite Forall_forall in HF;
    apply (HF n); eapply fields_foot; [exact Hin|unfold fields; set_solver +]).
  rewrite H4; split_and!; [done|done|done|..]; replace (e + 4) with (m_reg s ESP - 8) by lia; replace (e + 8) with (m_reg s ESP - 4) by lia.
  1-4: rdmem; away_lia || done.
  - apply (holds_frame (wr32 (m_mem s) CURRENT n)); [|by apply holds_set_current].
    intros a Ha; destruct (Hf a Ha) as [Hx _]; rewrite !rd32_wr32_ne by away_lia; done.
  - intros x ??; rewrite !rd8_wr32_ne by lia; done.
Qed.

Lemma switch_at : at_switch base s1 (bt_tcb p) (bt_tcb n) /\ rd32 (m_mem s1) (bt_tcb n) = ctx_sp c /\
  rd32 (m_mem s1) (bt_tcb n + 4) = ctx_ip c.
Proof.
  destruct switch_places as (Hin & Hne & He & Hlo & Hhi & Hsl & Hst & Hsh & H0 & Hd & Hf).
  destruct switch_mem as (H1 & H2 & H3 & H4 & H5 & H6 & H7 & H8 & H9).
  pose proof (sy_layout _ _ _ _ Hok) as Hly; pose proof (sy_current _ _ _ _ Hok) as Hp.
  pose proof (h_apart _ _ _ _ _ _ (sy_holds _ _ _ _ Hok)) as Hap.
  pose proof (tcb_range ts p Hap Hp); pose proof (tcb_range ts n Hap Hin); pose proof (tcb_apart ts p n Hap Hp Hin Hne).
  pose proof (tcb_stack ts p p Hly Hp Hp); pose proof (tcb_stack ts n p Hly Hin Hp).
  pose proof (tcb_stack ts p n Hly Hp Hin); pose proof (tcb_stack ts n n Hly Hin Hin).
  destruct (sy_saved _ _ _ _ Hok n c Hn) as (_ & _ & Hsp & Hip & _).
  assert (forall a, a = bt_tcb n \/ a = bt_tcb n + 4 -> rd32 (m_mem s1) a = rd32 (m_mem s) a) as Hkeep.
  { intros a Ha; pose proof (tcb_current ts n Hap Hin); apply rd32_same; intros x Hx; apply H9; away_lia. }
  rewrite !Hkeep by tauto; split_and!; [|done|done].
  destruct Hcan as [_ Hr].
  constructor; rewrite ?H2; [done|done|done|lia| |away_lia|split; away_lia|rewrite Hkeep, Hsp by tauto; lia|].
  - intros r; destruct (decide (r = ESP)) as [->|Hrn]; [rewrite H2; pose proof (Hr ESP) as Hre; unfold urange in *; lia|by rewrite H3].
  - intros sp ->; rewrite Hkeep, Hsp by tauto; split_and!; away_lia.
Qed.

(** The context the running thread leaves behind. *)
Definition left_behind : ctx := Suspended e ret (m_reg s EBX) (m_reg s ESI) (m_reg s EDI) (m_reg s EBP).

(** The bytes a switch does not touch: all but [current_thread], the two
    stacks and the task block of the running thread. *)
Definition untouched (x : Z) : Prop :=
  ~ CURRENT <= x < CURRENT + 4 /\ ~ fst (stk p) <= x < snd (stk p) /\ ~ fst (stk n) <= x < snd (stk n) /\
  ~ bt_tcb p <= x < bt_tcb p + 8.

(** Memory after the first eleven instructions. *)
Lemma switch_out_sys : exists s2, run code cfun 11 s1 = Some s2 /\ m_eip s2 = ctx_ip c /\ m_reg s2 ESP = ctx_sp c /\
  saved_in (m_mem s2) p left_behind /\ holds (m_mem s2) ts (upd (with_tcb (e - 16) (base + 11)) p (set_current n S)) /\
  (forall t x, t ∈ ts -> t <> p -> fst (stk t) <= x < snd (stk t) \/ bt_tcb t <= x < bt_tcb t + 8 ->
     ~ (t = n /\ ctx_sp c - 4 <= x < ctx_sp c) -> rd8 (m_mem s2) x = rd8 (m_mem s) x) /\
  (forall x, untouched x -> rd8 (m_mem s2) x = rd8 (m_mem s) x).
Proof.
  destruct switch_places as (Hin & Hne & He & Hlo & Hhi & Hsl & Hst & Hsh & H0 & Hd & Hf).
  destruct switch_mem as (H1 & H2 & H3 & H4 & H5 & H6 & H7 & H8 & H9); destruct switch_at as (Hat & Hsp & Hip).
  pose proof (sy_layout _ _ _ _ Hok) as Hly; pose proof (sy_current _ _ _ _ Hok) as Hp.
  pose proof (h_apart _ _ _ _ _ _ (sy_holds _ _ _ _ Hok)) as Hap.
  destruct (switch_out code cfun base Hcode Hbase s1 (bt_tcb p) (bt_tcb n) Hat)
    as (s2 & Hrun & Heip & Hesp & Ha & Hb & Hdi & Hsi & Hbx & Hbp & Hfr).
  rewrite Hsp, H2 in *; rewrite Hip in Heip; pose proof (tcb_stack ts p p Hly Hp Hp); pose proof (tcb_stack ts p n Hly Hp Hin).
  exists s2; split_and!; [done|done|done| | | |].
  - unfold saved_in, left_behind; cbn [ctx_sp ctx_ip ctx_words ctx_top]; split_and!; [done|done| |lia|lia].
    assert (rd32 (m_mem s2) e = ret) as Er by (rewrite <- H6; apply rd32_same; intros x Hx; apply Hfr; away_lia).
    rewrite !H3 in * by done; repeat constructor; cbn [fst snd]; done.
  - apply (holds_tcb (m_mem s1)); [done|done| |done|done].
    intros a Hfa Hna Hnb; destruct (Hf a Hfa) as [Hfp Hfn]; destruct (@tcb_foot THREADS ZOMBIES CURRENT ts p Hp) as [F1 F2]; destruct Hap as (_ & Hs & _).
    pose proof (Hs _ _ Hfa F1 Hna); pose proof (Hs _ _ Hfa F2 Hnb).
    apply rd32_same; intros x Hx; apply Hfr; away_lia.
  - intros t x Ht Htp Hx Hnx; assert (CURRENT ∈ footprint ts) as Ic by (rewrite foot_in; by left).
    pose proof (tcb_apart ts p t Hap Hp Ht ltac:(done)) as A1; pose proof (tcb_stack ts p t Hly Hp Ht) as A2.
    pose proof (tcb_stack ts t p Hly Ht Hp) as A3; pose proof (tcb_stack ts t n Hly Ht Hin) as A4.
    pose proof (l_foot _ Hly t _ Ht Ic) as A5; pose proof (l_apart _ Hly t p Ht Hp Htp) as A6; pose proof (tcb_current ts t Hap Ht) as A7.
    assert (t = n \/ snd (stk t) <= fst (stk n) \/ snd (stk n) <= fst (stk t)) as Htn
      by (destruct (decide (t = n)) as [|Hn']; [by left|right; by apply (l_apart _ Hly)]).
    rewrite Hfr, H9; [done|..].
    + clear - Hx A5 A7; away_lia.
    + clear - Hx A3 A6 Hlo Hhi; away_lia.
    + clear - Hx A1 A2; away_lia.
    + clear - Hx A3 A6 Hlo Hhi; away_lia.
    + intros Hsx; destruct Hx as [Hx|Hx]; [|clear - Hx A4 Hsx Hsl Hst Hsh; away_lia].
      destruct Htn as [->|Htn]; [by apply Hnx|]; clear - Hx Hsx Htn Hsl Hst Hsh; lia.
  - intros x (U1 & U2 & U3 & U4); rewrite Hfr, H9; [done|done|clear - U2 Hlo Hhi; lia|clear - U4; lia|clear - U2 Hlo Hhi; lia|].
    clear - U3 Hsl Hst Hsh; lia.
Qed.

(** The rest of the switch: the next thread is back in its own code; outside
    its stack nothing has changed. *)
Lemma switch_in_sys s2 :
  m_eip s2 = ctx_ip c -> m_reg s2 ESP = ctx_sp c -> Forall (fun p => rd32 (m_mem s2) (fst p) = snd p) (ctx_words c) ->
  exists s3, run code cfun (ctx_steps c - 11) s2 = Some s3 /\ resumes c s3 /\
    forall x, ~ fst (stk n) <= x < snd (stk n) -> rd8 (m_mem s3) x = rd8 (m_mem s2) x.
Proof.
  destruct switch_places as (Hin & Hne & He & Hlo & Hhi & Hsl & Hst & Hsh & H0 & Hd & Hf); intros Hip Hsp Hw.
  destruct c as [e' ret' bx si di bp|sp f arg]; cbn [ctx_ip ctx_sp ctx_words ctx_top ctx_steps] in *.
  - rewrite !Forall_cons in Hw; cbn [fst snd] in Hw; destruct Hw as (W1 & W2 & W3 & W4 & W5 & _).
    destruct (switch_in code cfun base Hcode s2 e' Hip Hsp) as (s3 & Hr & R1 & R2 & R3 & R4 & R5 & R6 & R7); [lia..|].
    exists s3; split_and!; [done| |by rewrite R7]; cbn [resumes]; split_and!; congruence.
  - rewrite !Forall_cons in Hw; cbn [fst snd] in Hw; destruct Hw as (W1 & W2 & _).
    destruct (bouncer_runs code cfun bouncer s2 Hbouncer Hip) as (s3 & Hr & R1 & R2 & R3 & R4 & R5); [lia..|].
    rewrite Hsp in *; exists s3; split_and!; [done| |intros x Hx; apply R5; lia].
    cbn [resumes]; split_and!; [congruence|done|rewrite R2; replace (sp - 4 + 4) with sp by lia; congruence|done].
Qed.

Lemma switch_sys : exists s3, run code cfun (ctx_steps c) s1 = Some s3 /\ resumes c s3 /\
  sys_ok ts (upd (with_tcb (e - 16) (base + 11)) p (set_current n S)) (<[p := left_behind]> (delete n C)) s3 /\
  forall x, untouched x -> rd8 (m_mem s3) x = rd8 (m_mem s) x.
Proof.
  destruct switch_places as (Hin & Hne & He & Hlo & Hhi & Hsl & Hst & Hsh & H0 & Hd & Hf).
  pose proof (sy_layout _ _ _ _ Hok) as Hly; pose proof (sy_current _ _ _ _ Hok) as Hp.
  destruct (sy_saved _ _ _ _ Hok n c Hn) as (_ & _ & _ & _ & Hw & _).
  destruct switch_out_sys as (s2 & Hrun & Heip & Hesp & Hleft & Hh & Hfr & Hun).
  destruct (switch_in_sys s2 Heip Hesp) as (s3 & Hrun3 & Hres & Hk).
  { eapply saved_words; [|exact Hw]; intros x Hx; apply (Hfr n); [done|done|left; lia|lia]. }
  assert (forall t x, t ∈ ts -> t <> n -> fst (stk t) <= x < snd (stk t) \/ bt_tcb t <= x < bt_tcb t + 8 ->
    rd8 (m_mem s3) x = rd8 (m_mem s2) x) as Hkeep.
  { intros t x Ht Htn Hx; apply Hk; pose proof (l_apart _ Hly t n Ht Hin Htn) as A1; pose proof (tcb_stack ts t n Hly Ht Hin) as A2.
    clear - Hx A1 A2; away_lia. }
  exists s3; split_and!; [|done| |by intros x Hx; rewrite Hk, Hun; [done|done|apply Hx]].
  - assert (ctx_steps c = 11 + (ctx_steps c - 11))%nat as -> by (by destruct c); by rewrite (run_app _ _ _ _ _ _ Hrun).
  - constructor; [done| |done|].
    + eapply holds_frame; [|exact Hh]; intros a Ha; destruct (Hf a Ha) as [_ A]; apply rd32_same; intros x Hx; apply Hk.
      clear - Hx A; away_lia.
    + intros t c'; destruct (decide (t = p)) as [->|Htp].
      * rewrite lookup_insert_eq; intros [= <-]; split_and!; [done|exact Hne|]; eapply saved_keep; [exact Hleft|]; intros x Hx; by apply (Hkeep p).
      * rewrite lookup_insert_ne, lookup_delete_Some by done; intros [Htn Hc]; destruct (sy_saved _ _ _ _ Hok t c' Hc) as (Ht & _ & Hs).
        split_and!; [done|exact (not_eq_sym Htn)|]; eapply saved_keep; [exact Hs|]; intros x Hx.
        rewrite (Hkeep t) by done; apply (Hfr t); [done|done|done|naive_solver].
Qed.
End Step.

(** ** The system *)

Record sys (H : Type) := Sys { y_ts : list Z; y_sched : sched H; y_ctx : gmap Z ctx; y_mach : machine }.
Arguments Sys {_} _ _ _ _.
Arguments y_ts {_} _.
Arguments y_sched {_} _.
Arguments y_ctx {_} _.
Arguments y_mach {_} _.
Definition good {H} (y : sys H) : Prop := sys_ok (y_ts y) (y_sched y) (y_ctx y) (y_mach y).

(** The running thread executes its own code, the scheduler's functions
    included: it may do anything to the machine and create, wake, block and
    free threads, as long as the memory holds a scheduler state in which it
    is still current, it leaves the stacks and task blocks of the suspended
    threads alone, and a thread it adds is prepared as a new one.  Or it
    calls [sched_switch], which the machine executes. *)
Inductive sys_step {H} : sys H -> sys H -> Prop :=
| sys_run ts S C s ts' S' C' s' :
    layout ts' -> holds (m_mem s') ts' S' -> current_thread S' = current_thread S -> current_thread S ∈ ts' ->
    (forall t c, C' !! t = Some c -> t ∈ ts' /\ t <> current_thread S /\
       ((C !! t = Some c /\ forall x, fst (stk t) <= x < snd (stk t) \/ bt_tcb t <= x < bt_tcb t + 8 ->
                              rd8 (m_mem s') x = rd8 (m_mem s) x) \/
        (exists sp f arg, c = Fresh sp f arg /\ saved_in (m_mem s') t c))) ->
    sys_step (Sys ts S C s) (Sys ts' S' C' s')
| sys_switch ts S C s n c ret s' :
    C !! n = Some c -> can_switch (current_thread S) s -> urange 32 ret ->
    run code cfun (ctx_steps c) (sched_switch ret (current_thread S) n s) = Some s' ->
    sys_step (Sys ts S C s)
      (Sys ts (upd (with_tcb (m_reg s ESP - 12 - 16) (base + 11)) (current_thread S) (set_current n S))
         (<[current_thread S := left_behind s ret]> (delete n C)) s').

Lemma sys_step_good {H} (y y' : sys H) : sys_step y y' -> good y -> good y'.
Proof.
  intros Hs Hg; destruct Hs as [ts S C s ts' S' C' s' Hl Hh Ec Hin HC|ts S C s n c ret s' Hn Hc Hr Hrun]; unfold good in *; cbn [y_ts y_sched y_ctx y_mach] in *.
  - constructor; [done|done|by rewrite Ec|]; intros t c Ht; destruct (HC t c Ht) as (? & ? & [[Hold Hk]|(? & ? & ? & _ & ?)]);
      rewrite Ec; split_and!; try done.
    destruct (sy_saved _ _ _ _ Hg t c Hold) as (_ & _ & Hs); by eapply saved_keep.
  - destruct (switch_sys ts S C s Hg n c ret Hn Hc Hr) as (s3 & Hrun3 & _ & Hok3 & _); rewrite Hrun in Hrun3; by injection Hrun3 as <-.
Qed.

(** Threads keep their contexts.  From a state in which the memory holds
    the scheduler state and the context of every thread that does not run,
    over any sequence of steps of running threads and of switches executed by
    the assembly, the memory goes on to do so; and whenever the running thread
    calls [sched_switch] to a thread that does not run, the machine gets there
    in 16 or 17 instructions, and continues in exactly the context that was
    saved: behind the thread's own call with the registers it had, or at the
    function of a new thread with its argument. *)
Theorem threads_keep_contexts {H} (y y' : sys H) :
  good y -> rtc sys_step y y' ->
  good y' /\
  forall n c ret, y_ctx y' !! n = Some c -> can_switch (current_thread (y_sched y')) (y_mach y') -> urange 32 ret ->
    exists s', run code cfun (ctx_steps c) (sched_switch ret (current_thread (y_sched y')) n (y_mach y')) = Some s' /\
      resumes c s' /\
      sys_step y' (Sys (y_ts y')
        (upd (with_tcb (m_reg (y_mach y') ESP - 28) (base + 11)) (current_thread (y_sched y')) (set_current n (y_sched y')))
        (<[current_thread (y_sched y') := left_behind (y_mach y') ret]> (delete n (y_ctx y'))) s').
Proof.
  intros Hg Hr; assert (good y') as Hg' by (induction Hr as [|? ? ? Hst _ IH]; [done|]; apply IH; by eapply sys_step_good).
  split; [done|]; destruct y' as [ts S C s]; cbn [y_ts y_sched y_ctx y_mach]; intros n c ret Hn Hc Hret.
  destruct (switch_sys ts S C s Hg' n c ret Hn Hc Hret) as (s' & Hrun & Hres & _).
  exists s'; split_and!; [done|done|].
  replace (m_reg s ESP - 28) with (m_reg s ESP - 12 - 16) by lia; by eapply sys_switch.
Qed.
End Stacks.
End Switch.

(** Two threads: 0x3000 runs, 0x2000 is new. *)
Definition demo_stk (t : Z) : Z * Z := if t =? 0x2000 then (0x8000, 0x9000) else (0xa000, 0xb000).
Definition demo_ym : mem :=
  wr32 (wr32 (wr32 (wr32 demo_sm 0x8ff8 77) 0x8ffc 0x100600) (bt_tcb 0x2000) 0x8ff8) (bt_tcb 0x2000 + 4) 0x100100.
Definition demo_ys : sched (list Z) := upd (with_tcb 0x8ff8 0x100100) 0x2000 demo_ss.
Definition demo_sys : sys (list Z) :=
  Sys _ [0x2000; 0x3000] demo_ys {[ 0x2000 := Fresh 0x8ff8 0x100600 77 ]}
    (Machine (demo_regs 0xaf00) (Sregs 8 16 16 16 16 16) 0x100000 true false demo_ym []).

Lemma demo_ts t : t ∈ [0x2000; 0x3000] <-> t = 0x2000 \/ t = 0x3000.
Proof. rewrite !elem_of_cons, elem_of_nil; tauto. Qed.

Lemma demo_layout : layout 0x1000 0x1010 0x1020 demo_stk [0x2000; 0x3000].
Proof.
  constructor.
  - intros t [-> | ->]%demo_ts; by vm_compute.
  - intros t u [-> | ->]%demo_ts [-> | ->]%demo_ts Hne; first [done|left; by vm_compute|right; by vm_compute].
  - assert (Forall (fun a => forall t, t ∈ [0x2000; 0x3000] -> away a 4 (fst (demo_stk t)) (snd (demo_stk t)))
      (footprint 0x1000 0x1010 0x1020 [0x2000; 0x3000])) as HF.
    { apply Forall_forall; intros a Ha t Ht; left; assert (a + 4 <= 0x8000).
      { assert (Forall (fun a => a + 4 <= 0x8000) (footprint 0x1000 0x1010 0x1020 [0x2000; 0x3000])) as HF by
          (apply (bool_decide_unpack _); by vm_compute). rewrite Forall_forall in HF; by apply HF. }
      apply demo_ts in Ht as [-> | ->]; cbn; lia. }
    intros t a Ht Ha; rewrite Forall_forall in HF; by apply HF.
Qed.

Lemma demo_good : good 0x100000 0x100100 0x1000 0x1010 0x1020 demo_stk demo_sys.
Proof.
  constructor; cbn [y_ts y_sched y_ctx y_mach demo_sys m_mem].
  - exact demo_layout.
  - apply (holds_tcb (wr32 (wr32 demo_sm 0x8ff8 77) 0x8ffc 0x100600)).
    + apply (holds_frame demo_sm); [|exact demo_holds]; intros a Ha.
      destruct (l_foot _ demo_layout 0x2000 a ltac:(apply demo_ts; by left) Ha) as [A|A];
        change (snd (demo_stk 0x2000)) with 0x9000 in A; change (fst (demo_stk 0x2000)) with 0x8000 in A;
        rewrite !rd32_wr32_ne by lia; reflexivity.
    + apply demo_ts; by left.
    + intros a Ha N1 N2.
      pose proof (h_apart _ _ _ _ _ _ demo_holds) as Hap.
      destruct (@tcb_foot 0x1000 0x1010 0x1020 [0x2000; 0x3000] 0x2000 ltac:(apply demo_ts; by left)) as [F1 F2].
      unfold demo_ym; rewrite (rd32_wr32_apart _ _ (bt_tcb 0x2000 + 4) _ _ Hap), (rd32_wr32_apart _ _ (bt_tcb 0x2000) _ _ Hap) by
        first [assumption|by apply not_eq_sym]; reflexivity.
    + by vm_compute.
    + by vm_compute.
  - apply demo_ts; by right.
  - intros t c [<- <-]%lookup_singleton_Some; split_and!; [apply demo_ts; by left|by vm_compute|].
    split_and!; [by vm_compute|by vm_compute|repeat constructor; by vm_compute|by vm_compute|by vm_compute].
Qed.

Lemma threads_keep_contexts_witness :
  exists s', run demo_code demo_cfun 17 (sched_switch 0x100000 0x1020 0x100700 0x3000 0x2000 (y_mach _ demo_sys)) = Some s' /\
    m_eip s' = 0x100600 /\ rd32 (m_mem s') (m_reg s' ESP + 4) = 77.
Proof.
  destruct (threads_keep_contexts demo_code demo_cfun 0x100000 0x100100 0x1000 0x1010 0x1020 demo_switch_loaded ltac:(by vm_compute)
    demo_bouncer_loaded demo_stk demo_sys demo_sys demo_good (rtc_refl _ _)) as [_ Hsw].
  destruct (Hsw 0x2000 (Fresh 0x8ff8 0x100600 77) 0x100700) as (s' & Hr & (He & _ & Ha & _) & _).
  - reflexivity.
  - split; [by vm_compute|intros []; by vm_compute].
  - by vm_compute.
  - exists s'; split_and!; assumption.
Defined.
