(* ===== verification/System.v ===== *)
(** * System: the kernel's threads on the machine, from boot on

    The memory of OneMemory.v, with queues, thread structures, stacks and heap,
    is the memory of the machine of Locore.v.  The running thread calls the
    operations of sched.c, allocates and releases, stores to its own stack and
    computes; when [bmk_sched] chooses another thread, the assembly switches
    to it.  The invariant says that every thread that exists and does not run
    has a saved context on a stack that belongs to it alone; the theorem, that
    a thread is always resumed in exactly the context it was left in, and that
    a new thread enters its function with its argument. *)
From S2P Require Import Prelude Mem Subr Pages Memalloc Heap Iface Alloc Sched SchedThms Cells Tailq TailqOps SchedMem Boot ThreadCreate OneMemory Locore Switch.

Section System.
Variable code : Z -> option instr.
Variable cfun : Z -> option (machine -> machine).
(** The addresses of the two routines of locore32.S, of the variables of
    sched.c, and the stack on which the kernel boots. *)
Variables base bouncer : Z.
Variables THREADS ZOMBIES CURRENT INIT : Z.
Variables lo hi : Z.
Hypothesis Hcode : loaded code base (sched_switch_code base).
Hypothesis Hbase : urange 32 (base + 11).
Hypothesis Hbouncer : loaded code bouncer sched_bouncer_code.
Local Abbreviation footprint := (footprint THREADS ZOMBIES CURRENT).
Local Abbreviation holds := (holds THREADS ZOMBIES CURRENT).
Local Abbreviation joint := (joint THREADS ZOMBIES CURRENT INIT).
Local Abbreviation foreign := (foreign THREADS ZOMBIES CURRENT).
Hypothesis Hboot : 0 <= lo /\ lo + 32 <= hi < 2 ^ 32.
Hypothesis Hapart : forall a, a ∈ footprint [INIT] -> away a 4 lo hi.

(** ** States and steps *)

(** The stack of a thread: [init_thread] runs on the boot stack, the others on
    the stack [bmk_sched_create] allocated. *)
Definition stk_at (m : mem) (t : Z) : Z * Z :=
  if decide (t = INIT) then (lo, hi) else (rd32 m (t + 40), rd32 m (t + 40) + THREAD_STACKSIZE).
Local Abbreviation saved m := (saved_in base bouncer (stk_at m) m).

(** Memory with the allocator's variables, what other parts of the kernel
    hold, the contexts of the threads that do not run, and the machine. *)
Record system := System { w_s : mstate; w_K : gmap Z Z; w_C : gmap Z ctx; w_r : machine }.

(** [bmk_sched] runs its loop to the end and chooses [n]. *)
Definition picks (s : mstate) (n : Z) (m' : mem) : Prop := exists l fuel ticks rest,
  tailq bt_entries (mm s) THREADS l /\ (length l <= fuel)%nat /\
  Forall (fun k => Forall (thread_at THREADS ZOMBIES (mm s)) (tk_woken k)) ticks /\
  mem_pick THREADS fuel ticks (mm s) = Some (n, m', rest).

Local Abbreviation running s := (rd32 (mm s) CURRENT).

(** Steps of the running thread, whose code may leave anything in the
    registers: operations that keep the threads, computation and stores on its
    own stack, stores to local variables of a thread that does not run (the
    [struct waiter] of rumpfiber.c, above what the switch saved), creation of a
    thread, release of the zombies, and [bmk_sched],
    which goes on with the same thread or switches to another one. *)
Inductive wstep : system -> system -> Prop :=
| w_plain s K C r s' K' r' :
    pstep THREADS ZOMBIES CURRENT INIT (s, K) (s', K') -> m_mem r' = mm s' -> wstep (System s K C r) (System s' K' C r')
| w_compute s K C r r' : m_mem r' = mm s -> wstep (System s K C r) (System s K C r')
| w_stack s K C r a v r' :
    fst (stk_at (mm s) (running s)) <= a -> a + 4 <= snd (stk_at (mm s) (running s)) -> m_mem r' = wr32 (mm s) a v ->
    wstep (System s K C r) (System (set_mm (wr32 (mm s) a v) s) K C r')
| w_waiter s K C r t c a v r' :
    C !! t = Some c -> ctx_top c <= a -> a + 4 <= snd (stk_at (mm s) t) -> m_mem r' = wr32 (mm s) a v ->
    wstep (System s K C r) (System (set_mm (wr32 (mm s) a v) s) K C r')
| w_create s K C r fuel name nm cookie thrflags f data t s' r' :
    on_queue THREADS (mm s) (running s) -> create_served s ->
    cstr (mm s) name nm -> Z.of_nat (length nm) <= NAME_MAXLEN - 1 -> (length nm < fuel)%nat ->
    0 <= name -> name + Z.of_nat (length nm) < bmk_membase (pages s) ->
    urange 32 f /\ urange 32 data /\ urange 32 bouncer ->
    mem_create THREADS fuel bouncer name cookie thrflags f data NULL 0 s = Ret (Some (t, s')) -> m_mem r' = mm s' ->
    wstep (System s K C r) (System s' K (<[t := Fresh (rd32 (mm s') (t + 44)) f data]> C) r')
| w_reap s K C r z fuel s' r' :
    on_queue THREADS (mm s) (running s) -> tailq bt_entries (mm s) ZOMBIES z -> (length z <= fuel)%nat ->
    one_reap ZOMBIES fuel (running s) s = Some (Ret s') -> m_mem r' = mm s' ->
    wstep (System s K C r) (System s' K (foldr delete C z) r')
| w_stay s K C r m' r' : picks s (running s) m' -> m_mem r' = m' -> wstep (System s K C r) (System (set_mm m' s) K C r')
| w_switch s K C r n m1 r1 ret c r' :
    picks s n m1 -> n <> running s -> m_mem r1 = m1 -> can_switch (stk_at m1) (running s) r1 -> urange 32 ret -> C !! n = Some c ->
    run code cfun (ctx_steps c) (sched_switch base CURRENT ret (running s) n r1) = Some r' ->
    wstep (System s K C r) (System (set_mm (m_mem r') s) K (<[running s := left_behind r1 ret]> (delete n C)) r').

(** ** The invariant *)

Record sys_inv (w : system) (L : gmap Z Z) (ts : list Z) (S : sched mstate) : Prop := {
  wi_joint : joint (w_s w) (w_K w) L ts S;
  wi_mem : m_mem (w_r w) = mm (w_s w);
  wi_boot : hi <= bmk_membase (pages (w_s w));
  wi_own : forall t th, thr S !! t = Some th -> t <> INIT -> Z.testbit (bt_flags th) 3 = false;
  wi_dom : forall t, is_Some (w_C w !! t) <-> is_Some (thr S !! t) /\ t <> current_thread S;
  wi_saved : forall t c, w_C w !! t = Some c -> saved (mm (w_s w)) t c;
}.

(** The stack of a thread in terms of the scheduler state. *)
Lemma stk_base m ts (S : sched mstate) t th : holds m ts S -> thr S !! t = Some th -> t <> INIT ->
  stk_at m t = (bt_stackbase th, bt_stackbase th + THREAD_STACKSIZE).
Proof.
  intros Hh Ht Hne; unfold stk_at; rewrite decide_False by done.
  destruct (h_thr _ _ _ _ _ _ Hh t th Ht) as [E _]; by rewrite <- load_stackbase, E.
Qed.

Section Layout.
Context (s : mstate) (K L : gmap Z Z) (ts : list Z) (S : sched mstate).
Hypothesis Hj : joint s K L ts S.
Hypothesis Hb : hi <= bmk_membase (pages s).
Hypothesis Hown : forall t th, thr S !! t = Some th -> t <> INIT -> Z.testbit (bt_flags th) 3 = false.

(** It is the boot stack, or held from the allocator. *)
Lemma stk_cases t : t ∈ ts -> (t = INIT /\ stk_at (mm s) t = (lo, hi)) \/
  exists th, t <> INIT /\ thr S !! t = Some th /\ L !! bt_stackbase th = Some THREAD_STACKSIZE /\
    (K ∪ L) !! bt_stackbase th = Some THREAD_STACKSIZE /\
    stk_at (mm s) t = (bt_stackbase th, bt_stackbase th + THREAD_STACKSIZE).
Proof.
  intros Ht; destruct (decide (t = INIT)) as [->|Hne]; [left; unfold stk_at; by rewrite decide_True by done|right].
  pose proof (jt_holds _ _ _ _ _ _ _ _ _ Hj) as Hh; destruct (proj2 (h_dom _ _ _ _ _ _ Hh t) Ht) as [th Hth]; exists th.
  assert (L !! bt_stackbase th = Some THREAD_STACKSIZE) as HL.
  { apply (si_stack _ _ (jt_inv _ _ _ _ _ _ _ _ _ Hj) t th); [done|done|by eapply Hown]. }
  split_and!; [done|done|done| |by eapply stk_base].
  rewrite lookup_union_Some by apply (jt_disj _ _ _ _ _ _ _ _ _ Hj); by right.
Qed.

Lemma stk_layout : layout THREADS ZOMBIES CURRENT (stk_at (mm s)) ts.
Proof.
  pose proof (jt_heap _ _ _ _ _ _ _ _ _ Hj) as Hm; pose proof (jt_disj _ _ _ _ _ _ _ _ _ Hj) as Hd.
  assert (forall p n, (K ∪ L) !! p = Some n -> hi < p /\ p + n < 2 ^ 32) as Hab
    by (intros p n Hp; destruct (alloc_above _ _ _ _ Hm Hp); lia).
  constructor.
  - intros t Ht; destruct (stk_cases t Ht) as [[_ ->]|(th & _ & _ & _ & HL & ->)]; cbn [fst snd]; [lia|].
    destruct (Hab _ _ HL); unfold THREAD_STACKSIZE in *; lia.
  - intros t u Ht Hu Hne; destruct (stk_cases t Ht) as [[-> ->]|(th & Hti & Hth & _ & HL & ->)],
      (stk_cases u Hu) as [[-> ->]|(uh & Hui & Huh & _ & HU & ->)]; cbn [fst snd]; [done| | |].
    + destruct (Hab _ _ HU); lia.
    + destruct (Hab _ _ HL); lia.
    + eapply alloc_disjoint; [exact Hm|exact HL|exact HU|]; intros E; apply Hne.
      apply (si_inj _ _ (jt_inv _ _ _ _ _ _ _ _ _ Hj) t u th uh); [done|done|done|done|by eapply Hown|by eapply Hown|done].
  - intros t a Ht Ha; destruct (joint_cases _ _ _ _ _ _ _ _ _ _ Hj Ha) as [Hst|(u & Hu & Hui & HLu & Hlo & Hhi)].
    + pose proof (jt_static _ _ _ _ _ _ _ _ _ Hj a Hst); destruct (stk_cases t Ht) as [[_ ->]|(th & _ & _ & _ & HL & ->)]; cbn [fst snd].
      * by apply Hapart.
      * destruct (alloc_above _ _ _ _ Hm HL); away_lia.
    + assert ((K ∪ L) !! u = Some SIZEOF_THREAD) as HLu' by (rewrite lookup_union_Some by done; by right).
      destruct (stk_cases t Ht) as [[_ ->]|(th & _ & _ & _ & HL & ->)]; cbn [fst snd]; [destruct (Hab _ _ HLu'); away_lia|].
      assert (u <> bt_stackbase th) as Hne by (intros E; rewrite E, HL in HLu'; discriminate HLu').
      destruct (alloc_disjoint _ _ _ _ _ _ Hm HLu' HL Hne); away_lia.
Qed.

(** The bytes of stacks belong to the threads, and are no words of the
    scheduler state. *)
Lemma stk_foreign L' t x : t ∈ ts -> (forall th, thr S !! t = Some th -> t <> INIT -> L' !! bt_stackbase th = Some THREAD_STACKSIZE) ->
  fst (stk_at (mm s) t) <= x < snd (stk_at (mm s) t) -> foreign s L' ts x.
Proof.
  intros Ht HL' Hx; split.
  - destruct (stk_cases t Ht) as [[_ E]|(th & Hne & Hth & _ & _ & E)]; rewrite E in Hx; cbn [fst snd] in Hx; [left; lia|].
    right; exists (bt_stackbase th), THREAD_STACKSIZE; split; [by apply HL'|done].
  - intros a Ha; pose proof (l_foot _ stk_layout t a Ht Ha); away_lia.
Qed.
Lemma stk_own t th : thr S !! t = Some th -> t <> INIT -> L !! bt_stackbase th = Some THREAD_STACKSIZE.
Proof. intros Hth Hne; apply (si_stack _ _ (jt_inv _ _ _ _ _ _ _ _ _ Hj) t th); [done|done|by eapply Hown]. Qed.
End Layout.

(** ** Steps that keep the threads *)

(** A context is kept when the task block and the saved words are. *)
Lemma saved_kept_ctx m m' ts ts' (S S' : sched mstate) t th th' c :
  holds m ts S -> holds m' ts' S' -> thr S !! t = Some th -> thr S' !! t = Some th' -> frozen th' = frozen th ->
  (forall x, ctx_sp c <= x < ctx_top c -> rd8 m' x = rd8 m x) -> saved m t c -> saved m' t c.
Proof.
  intros Hh Hh' Ht Ht' Ef Hx (H1 & H2 & H3 & H4 & H5).
  destruct (h_thr _ _ _ _ _ _ Hh t th Ht) as [E _], (h_thr _ _ _ _ _ _ Hh' t th' Ht') as [E' _]; injection Ef as Eb Ep Ei _.
  rewrite <- E, <- E' in Eb, Ep, Ei; cbn [bt_stackbase btcb_sp btcb_ip load_thread] in Eb, Ep, Ei.
  assert (stk_at m' t = stk_at m t) as Es by (unfold stk_at; by rewrite Eb).
  unfold bt_tcb in *; replace (t + 44 + 4) with (t + 48) in * by lia.
  unfold saved_in, bt_tcb; replace (t + 44 + 4) with (t + 48) by lia; rewrite Es; split_and!; [congruence|congruence| |done|done].
  by eapply saved_words.
Qed.
Lemma saved_kept m m' ts ts' (S S' : sched mstate) t th th' c :
  holds m ts S -> holds m' ts' S' -> thr S !! t = Some th -> thr S' !! t = Some th' -> frozen th' = frozen th ->
  (forall x, fst (stk_at m t) <= x < snd (stk_at m t) -> rd8 m' x = rd8 m x) -> saved m t c -> saved m' t c.
Proof.
  intros Hh Hh' Ht Ht' Ef Hx Hs; eapply saved_kept_ctx; [exact Hh|exact Hh'|exact Ht|exact Ht'|exact Ef| |exact Hs].
  intros x Hc; apply Hx; destruct Hs as (_ & _ & _ & H4 & H5); lia.
Qed.

Lemma kept_lookup T T' t th' : tcbs_kept T T' -> T' !! t = Some th' -> exists th, T !! t = Some th /\ frozen th' = frozen th.
Proof. intros Hk Ht; pose proof (Hk t) as E; rewrite Ht in E; destruct (T !! t) as [th|]; [exists th|done]; split; [done|by apply (inj Some)]. Qed.
Lemma frozen_own th th' : frozen th' = frozen th -> Z.testbit (bt_flags th') 3 = Z.testbit (bt_flags th) 3.
Proof. intros E; exact (f_equal snd E). Qed.

Lemma inv_kept s K C r L ts S s' K' r' S' :
  sys_inv (System s K C r) L ts S -> joint s' K' L ts S' -> m_mem r' = mm s' ->
  tcbs_kept (thr S) (thr S') -> current_thread S' = current_thread S -> bmk_membase (pages s') = bmk_membase (pages s) ->
  (forall t c x, C !! t = Some c -> t ∈ ts -> t <> current_thread S -> saved (mm s) t c -> ctx_sp c <= x < ctx_top c ->
     rd8 (mm s') x = rd8 (mm s) x) ->
  sys_inv (System s' K' C r') L ts S'.
Proof.
  intros [Hj _ Hb Ho Hd Hs] Hj' Hm Hk Hc Hp Hx; cbn [w_s w_K w_C w_r] in *.
  assert (forall t, is_Some (thr S' !! t) <-> is_Some (thr S !! t)) as Hdom.
  { intros t; rewrite <- !(fmap_is_Some frozen), (Hk t); done. }
  constructor; cbn [w_s w_K w_C w_r]; [done|done|by rewrite Hp| | |].
  - intros t th' Ht' Hne; destruct (kept_lookup _ _ _ _ Hk Ht') as (th & Ht & Ef); rewrite (frozen_own _ _ Ef); by eapply Ho.
  - intros t; by rewrite Hd, Hdom, Hc.
  - intros t c Ht; destruct (proj1 (Hd t) (mk_is_Some _ _ Ht)) as [[th Hth] Hne].
    destruct (proj2 (Hdom t) (mk_is_Some _ _ Hth)) as [th' Hth']; destruct (kept_lookup _ _ _ _ Hk Hth') as (th0 & Ht0 & Ef).
    rewrite Hth in Ht0; injection Ht0 as <-.
    eapply saved_kept_ctx; [apply (jt_holds _ _ _ _ _ _ _ _ _ Hj)|apply (jt_holds _ _ _ _ _ _ _ _ _ Hj')|exact Hth|exact Hth'|exact Ef| |by apply Hs].
    intros x; apply (Hx t c); [done| |done|by apply Hs]; apply (h_dom _ _ _ _ _ _ (jt_holds _ _ _ _ _ _ _ _ _ Hj)); by eexists.
Qed.
Lemma inv_foreign s K C r L ts S s' K' r' S' :
  sys_inv (System s K C r) L ts S -> joint s' K' L ts S' -> m_mem r' = mm s' ->
  tcbs_kept (thr S) (thr S') -> current_thread S' = current_thread S -> bmk_membase (pages s') = bmk_membase (pages s) ->
  (forall x, foreign s L ts x -> rd8 (mm s') x = rd8 (mm s) x) -> sys_inv (System s' K' C r') L ts S'.
Proof.
  intros Hi Hj' Hm Hk Hc Hp Hx; eapply inv_kept; [exact Hi|done..|]; destruct Hi as [Hj _ Hb Ho _ _]; cbn [w_s w_K] in *.
  intros t c x _ Ht _ (_ & _ & _ & Hlo & Hhi) Hc'; apply Hx; eapply (stk_foreign s K L ts S Hj Hb Ho L t); [exact Ht| |lia].
  intros th Hth Hne; eapply stk_own; [exact Hj|exact Ho|exact Hth|exact Hne].
Qed.

(** A store to a stack, above the context saved on it if there is one. *)
Lemma inv_stack s K C r L ts S u a v r' :
  sys_inv (System s K C r) L ts S -> u ∈ ts -> fst (stk_at (mm s) u) <= a -> a + 4 <= snd (stk_at (mm s) u) ->
  (forall c, C !! u = Some c -> ctx_top c <= a) -> m_mem r' = wr32 (mm s) a v ->
  exists S', sys_inv (System (set_mm (wr32 (mm s) a v) s) K C r') L ts S'.
Proof.
  intros Hi Hu Ha Ha' Hab Hm; pose proof Hi as [Hj _ Hb Ho _ _]; cbn [w_s w_K] in *.
  pose proof (stk_layout s K L ts S Hj Hb Ho) as Hly.
  exists (set_hp (set_mm (wr32 (mm s) a v) s) S); eapply inv_kept; [exact Hi| |exact Hm|done|done|done|].
  - apply (joint_heap _ _ _ _ s K); [done| |apply (jt_disj _ _ _ _ _ _ _ _ _ Hj)|done|].
    + apply word_write_inv; [apply (jt_heap _ _ _ _ _ _ _ _ _ Hj)|].
      destruct (stk_cases s K L ts S Hj Ho _ Hu) as [[_ E]|(th & _ & _ & _ & HL & E)]; rewrite E in Ha, Ha'; cbn [fst snd] in *; [left; lia|].
      right; by exists (bt_stackbase th), THREAD_STACKSIZE.
    + intros b Hbt; cbn [mm set_mm]; apply rd32_wr32_ne; pose proof (l_foot _ Hly _ _ Hu Hbt); away_lia.
  - intros t c x Hc Ht _ (_ & _ & _ & Hlo & Hhi) Hx; cbn [mm set_mm]; apply rd8_wr32_ne.
    destruct (decide (t = u)) as [->|Htu]; [specialize (Hab c Hc); lia|pose proof (l_apart _ Hly t _ Ht Hu Htu); lia].
Qed.

(** ** Threads come and go *)

Lemma inv_create s K C r L ts S fuel name nm cookie thrflags f data t s' r' :
  sys_inv (System s K C r) L ts S ->
  on_queue THREADS (mm s) (running s) -> create_served s ->
  cstr (mm s) name nm -> Z.of_nat (length nm) <= NAME_MAXLEN - 1 -> (length nm < fuel)%nat ->
  0 <= name -> name + Z.of_nat (length nm) < bmk_membase (pages s) ->
  urange 32 f /\ urange 32 data /\ urange 32 bouncer ->
  mem_create THREADS fuel bouncer name cookie thrflags f data NULL 0 s = Ret (Some (t, s')) -> m_mem r' = mm s' ->
  exists L' S', sys_inv (System s' K (<[t := Fresh (rd32 (mm s') (t + 44)) f data]> C) r') L' (t :: ts) S'.
Proof.
  intros [Hj _ Hb Ho Hd Hs] Hq Hsrv Hstr Hl Hfu H0 H1 Ha E Hm; cbn [w_s w_K w_C w_r] in *.
  pose proof (jt_holds _ _ _ _ _ _ _ _ _ Hj) as Hh; rewrite (h_current _ _ _ _ _ _ Hh) in Hq; apply (on_threads _ _ _ _ _ _ _ _ _ _ Hj) in Hq.
  destruct (create_joint _ _ _ _ s K L ts S fuel bouncer name nm cookie thrflags f data t s' Hj Hq Hsrv Hstr Hl Hfu H0 H1 Ha E)
    as (ls & S' & th & _ & Hj' & Hnone & ET & Ec & H3 & Hsp & Hip & Hdata & Hf & Hp & Hx).
  pose proof (jt_holds _ _ _ _ _ _ _ _ _ Hj') as Hh'.
  assert (thr S' !! t = Some th) as Ht by (by rewrite ET, lookup_insert_eq).
  assert (t <> INIT) as Hti by (intros ->; destruct (proj2 (si_dom _ _ (jt_inv _ _ _ _ _ _ _ _ _ Hj) INIT)) as [? Hi];
    [apply elem_of_app; left; apply (si_init _ _ (jt_inv _ _ _ _ _ _ _ _ _ Hj))|]; cbn in Hi; congruence).
  exists (thread_allocs t th L), S'; constructor; cbn [w_s w_K w_C w_r]; [done|done|by rewrite Hp| | |].
  - intros u uh; rewrite ET, lookup_insert_Some; intros [[<- <-]|[_ Hu]]; [done|by apply Ho].
  - intros u; rewrite ET, !lookup_insert_is_Some', Hd, Ec; split; [|naive_solver].
    intros [<-|[? ?]]; [|naive_solver]; split; [by left|]; intros ->; destruct (proj2 (si_dom _ _ (jt_inv _ _ _ _ _ _ _ _ _ Hj) (current_thread S)))
      as [? Hi]; [apply (si_cur _ _ (jt_inv _ _ _ _ _ _ _ _ _ Hj))|]; cbn in Hi; congruence.
  - intros u c; rewrite lookup_insert_Some; intros [[<- <-]|[Hne Hc]].
    + destruct (h_thr _ _ _ _ _ _ Hh' t th Ht) as [El _].
      assert (rd32 (mm s') (t + 44) = btcb_sp th /\ rd32 (mm s') (t + 48) = btcb_ip th) as [E44 E48] by (by rewrite <- El).
      unfold saved_in, bt_tcb; replace (t + 44 + 4) with (t + 48) by lia; rewrite (stk_base _ _ _ _ _ Hh' Ht Hti), E44, E48.
      cbn [ctx_sp ctx_ip ctx_words ctx_top fst snd]; split_and!; [done|done|by repeat constructor|unfold THREAD_STACKSIZE in *; lia..].
    + destruct (proj1 (Hd u) (mk_is_Some _ _ Hc)) as [[uh Huh] Huc].
      eapply (saved_kept (mm s) (mm s')); [exact Hh|exact Hh'|exact Huh|by rewrite ET, lookup_insert_ne|done| |by apply Hs].
      intros x Hxs; apply Hx; eapply stk_foreign; [exact Hj|done|exact Ho| | |exact Hxs].
      * apply (h_dom _ _ _ _ _ _ Hh); by eexists.
      * intros th0 Hth0 Hne0; eapply stk_own; [exact Hj|exact Ho|exact Hth0|exact Hne0].
Qed.

Lemma reaped_lookup l : forall S u, thr (reaped l S) !! u = if decide (u ∈ l) then None else thr S !! u.
Proof.
  induction l as [|t l IH]; intros S u; cbn [reaped]; [by rewrite decide_False by apply not_elem_of_nil|].
  rewrite IH; cbn [thr set_thr]; destruct (decide (u = t)) as [->|Hne].
  - rewrite lookup_delete_eq, (decide_True (P := t ∈ t :: l)) by (by left); by case_decide.
  - rewrite lookup_delete_ne by done; case_decide; [by rewrite decide_True by (by right)|].
    rewrite decide_False; [done|]; by rewrite elem_of_cons; intros [?|?].
Qed.
Lemma reaped_current l : forall S, current_thread (reaped l S) = current_thread S.
Proof. induction l as [|t l IH]; intros S; cbn [reaped]; [done|by rewrite IH]. Qed.

Lemma inv_reap s K C r L ts S z fuel s' r' :
  sys_inv (System s K C r) L ts S ->
  on_queue THREADS (mm s) (running s) -> tailq bt_entries (mm s) ZOMBIES z -> (length z <= fuel)%nat ->
  one_reap ZOMBIES fuel (running s) s = Some (Ret s') -> m_mem r' = mm s' ->
  exists L' ts' S', sys_inv (System s' K (foldr delete C z) r') L' ts' S'.
Proof.
  intros [Hj _ Hb Ho Hd Hs] Hq Hz Hf E Hm; cbn [w_s w_K w_C w_r] in *.
  pose proof (jt_holds _ _ _ _ _ _ _ _ _ Hj) as Hh; rewrite (h_current _ _ _ _ _ _ Hh) in Hq, E; apply (on_threads _ _ _ _ _ _ _ _ _ _ Hj) in Hq.
  pose proof (tailq_unique _ _ _ _ Hz (h_zombies _ _ _ _ _ _ Hh)) as ->.
  destruct (one_reap_ok _ _ _ _ s K L ts S fuel Hj Hq Hf) as (s1 & ts1 & ls & E1 & Hj1 & _ & Hp & _ & Hx).
  rewrite E in E1; injection E1 as <-; pose proof (jt_holds _ _ _ _ _ _ _ _ _ Hj1) as Hh1.
  set (S1 := set_hp s' (reaped (zombies S) S)) in *.
  assert (forall u uh, thr S1 !! u = Some uh <-> (u ∉ zombies S) /\ thr S !! u = Some uh) as HT.
  { intros u uh; unfold S1; cbn [thr set_hp]; rewrite reaped_lookup; case_decide; naive_solver. }
  assert (forall u th, thr S1 !! u = Some th -> u <> INIT -> Z.testbit (bt_flags th) 3 = false) as Ho1
    by (intros u th [_ Hu]%HT; by apply Ho).
  eexists _, ts1, S1; constructor; cbn [w_s w_K w_C w_r]; [exact Hj1|done|by rewrite Hp|done| |].
  - intros u; unfold S1 at 2; cbn [current_thread set_hp]; rewrite reaped_current; destruct (decide (u ∈ zombies S)) as [Hu|Hu].
    + rewrite lookup_foldr_delete by done; split; [by intros []|]; intros [[uh [? _]%HT] _]; done.
    + rewrite lookup_foldr_delete_not_elem_of, Hd by done; unfold is_Some; setoid_rewrite HT; naive_solver.
  - intros u c; destruct (decide (u ∈ zombies S)) as [Hu|Hu]; [by rewrite lookup_foldr_delete|].
    rewrite lookup_foldr_delete_not_elem_of by done; intros Hc; destruct (proj1 (Hd u) (mk_is_Some _ _ Hc)) as [[uh Huh] Huc].
    assert (thr S1 !! u = Some uh) as Hu1 by (by apply HT).
    eapply (saved_kept (mm s) (mm s')); [exact Hh|exact Hh1|exact Huh|exact Hu1|done| |by apply Hs].
    intros x Hxs; apply Hx; eapply stk_foreign; [exact Hj|done|exact Ho| | |exact Hxs].
    + apply (h_dom _ _ _ _ _ _ Hh); by eexists.
    + intros th0 Hth0 Hne0; rewrite Huh in Hth0; injection Hth0 as <-.
      eapply (stk_own s' K); [exact Hj1|exact Ho1|exact Hu1|exact Hne0].
Qed.

(** ** The choice *)

Lemma kept_idle pre : forall (S : sched mstate), tcbs_kept (thr S) (thr (idle pre S)).
Proof.
  assert (forall l (S : sched mstate), tcbs_kept (thr S) (thr (foldl (fun s t => bmk_sched_wake t s) S l))) as Hw.
  { induction l as [|t l IH]; intros S u; cbn [foldl]; [done|]; rewrite (IH (bmk_sched_wake t S) u); cbn [thr upd set_thr bmk_sched_wake].
    apply kept_alter, benign_frozen; [apply benign_wake|done]. }
  unfold idle; induction pre as [|k pre IH]; intros S u; cbn [foldl]; [done|]; rewrite (IH _ u); apply Hw.
Qed.
Lemma kept_woken T t : tcbs_kept T (woken_map T t).
Proof. unfold woken_map; destruct (is_runnable _); [by intros u|]; apply kept_alter, benign_frozen; [apply benign_timed_out|done]. Qed.

Lemma sched_inv_current init (S : sched mstate) L t :
  sched_inv init (S, L) -> t ∈ threads S ++ zombies S -> sched_inv init (set_current t S, L).
Proof. intros Hi Ht; eapply sched_inv_ext; [exact Hi|done|done|exact Ht|done|done|]; intros u th Hu; by exists th. Qed.

Lemma inv_picks s K C r L ts S n m' r' :
  sys_inv (System s K C r) L ts S -> picks s n m' -> m_mem r' = m' ->
  exists S', sys_inv (System (set_mm m' s) K C r') L ts S' /\ current_thread S' = current_thread S /\ n ∈ threads S'.
Proof.
  intros Hi (l & fuel & ticks & rest & Hl & Hf & Hw & E) Hm; pose proof Hi as [Hj _ Hb Ho _ _]; cbn [w_s w_K] in *.
  pose proof (jt_holds _ _ _ _ _ _ _ _ _ Hj) as Hh; pose proof (jt_inv _ _ _ _ _ _ _ _ _ Hj) as Hinv.
  rewrite (tailq_unique _ _ _ _ Hl (h_threads _ _ _ _ _ _ Hh)) in Hf.
  assert (Forall (fun k => Forall (fun t => t ∈ ts) (tk_woken k)) ticks) as HF.
  { eapply Forall_impl; [exact Hw|]; intros k Hk; eapply Forall_impl; [exact Hk|]; intros t; eapply thread_exists; exact Hj. }
  pose proof (pick_ok _ _ _ ts ticks (mm s) S fuel Hh Hf HF) as Hp.
  destruct (sched_pick ticks S) as [[[t S1] rest1]|] eqn:Es; [|congruence].
  destruct Hp as (m1 & E1 & Hh1 & Ec & _ & Hwr); rewrite E in E1; injection E1 as <- <- <-.
  destruct (sched_inv_known _ _ _ Hinv) as [Hn Hk].
  assert (exists S2 rest2, sched_dispatch ticks S = Some (S2, rest2) /\ S1 = set_current (current_thread S) S2) as (S2 & rest2 & Ed & E2).
  { unfold sched_dispatch; rewrite Es; cbn [mbind option_bind]; eexists _, _; split; [reflexivity|]; rewrite <- Ec.
    case_decide; by destruct S1. }
  pose proof (sched_inv_dispatch _ _ _ _ _ _ Hinv Ed) as Hi2.
  apply sched_pick_spec in Es as (pre & k & T' & l' & _ & _ & (l1 & l2 & Eth & _ & _ & -> & ->) & ES1); [|done..].
  destruct (idle_frame pre S) as (It & Iz & _ & Ic & Ih).
  assert (threads S1 = l1 ++ l2 ++ [n]) as Et1 by (by rewrite ES1).
  assert (sched_inv INIT (S1, L)) as Hi1.
  { rewrite E2; apply sched_inv_current; [done|]; assert (threads S2 = threads S1 /\ zombies S2 = zombies S1) as [-> ->] by (by rewrite E2).
    assert (zombies S1 = zombies S) as -> by (by rewrite ES1); rewrite Et1.
    pose proof (si_cur _ _ Hinv) as Hc; cbn [fst] in Hc; rewrite <- It, Eth, !elem_of_app, elem_of_cons in Hc.
    rewrite !elem_of_app, elem_of_cons, elem_of_nil; tauto. }
  assert (hp S1 = s) as Ehp by (rewrite ES1; cbn [hp set_threads set_thr]; rewrite Ih; apply (jt_hp _ _ _ _ _ _ _ _ _ Hj)).
  exists (set_hp (set_mm m' s) S1); split_and!; [|exact Ec|cbn [threads set_hp]; rewrite Et1, !elem_of_app; right; right; by left].
  eapply inv_foreign; [exact Hi|by eapply joint_writes|exact Hm| |exact Ec|done|].
  - cbn [thr set_hp]; rewrite ES1; cbn [thr set_threads set_thr]; etransitivity; [apply kept_idle|apply kept_woken].
  - intros x [_ Hx]; by apply (writes_byte _ _ _ _ Hwr).
Qed.

(** ** The switch *)

Lemma inv_sys_ok s K C r L ts S : sys_inv (System s K C r) L ts S ->
  sys_ok base bouncer THREADS ZOMBIES CURRENT (stk_at (mm s)) ts S C r.
Proof.
  intros [Hj Hm Hb Ho Hd Hs]; cbn [w_s w_K w_C w_r] in *; pose proof (jt_holds _ _ _ _ _ _ _ _ _ Hj) as Hh.
  constructor; [by eapply stk_layout|by rewrite Hm|apply (h_queues _ _ _ _ _ _ Hh), (si_cur _ _ (jt_inv _ _ _ _ _ _ _ _ _ Hj))|].
  intros t c Hc; destruct (proj1 (Hd t) (mk_is_Some _ _ Hc)) as [Ht Hne].
  split_and!; [by apply (h_dom _ _ _ _ _ _ Hh)|done|rewrite Hm; by apply Hs].
Qed.

Lemma stk_ext m m' ts (S S' : sched mstate) t th th' : holds m ts S -> holds m' ts S' -> thr S !! t = Some th -> thr S' !! t = Some th' ->
  bt_stackbase th' = bt_stackbase th -> stk_at m' t = stk_at m t.
Proof.
  intros Hh Hh' Ht Ht' E; destruct (decide (t = INIT)) as [->|Hne]; [unfold stk_at; by rewrite !decide_True by done|].
  by rewrite (stk_base _ _ _ _ _ Hh Ht Hne), (stk_base _ _ _ _ _ Hh' Ht' Hne), E.
Qed.

(** What a switch touches belongs to the kernel's threads. *)
Lemma switch_client s K C r L ts S n x : sys_inv (System s K C r) L ts S -> n ∈ ts -> ~ client_byte s (K ∪ L) x ->
  untouched CURRENT (stk_at (mm s)) S n x.
Proof.
  intros Hi Hn Hx; pose proof Hi as [Hj _ Hb Ho _ _]; cbn [w_s w_K] in *.
  pose proof (jt_holds _ _ _ _ _ _ _ _ _ Hj) as Hh; pose proof (jt_disj _ _ _ _ _ _ _ _ _ Hj) as Hd.
  assert (current_thread S ∈ ts) as Hc by (apply (h_queues _ _ _ _ _ _ Hh), (si_cur _ _ (jt_inv _ _ _ _ _ _ _ _ _ Hj))).
  assert (forall a, a ∈ footprint ts -> ~ a <= x < a + 4) as Hw.
  { intros a Ha Hax; apply Hx; apply (client_word_bytes s _ a); [|done].
    apply (in_client _ _ _ _ _ _ _ (joint_sched_in _ _ _ _ _ _ _ _ _ Hj)), Ha. }
  assert (forall t, t ∈ ts -> ~ fst (stk_at (mm s) t) <= x < snd (stk_at (mm s) t)) as Hst.
  { intros t Ht Hxt; apply Hx, client_union; [done|]; eapply (stk_foreign s K L ts S Hj Hb Ho L t); [done| |done].
    intros th Hth Hne; by eapply (stk_own s K L ts S). }
  destruct (tcb_foot (THREADS := THREADS) (ZOMBIES := ZOMBIES) (CURRENT := CURRENT) ts _ Hc) as [F1 F2].
  split_and!; [apply Hw, foot_in; by left|by apply Hst|by apply Hst|pose proof (Hw _ F1); pose proof (Hw _ F2); lia].
Qed.

Lemma inv_switch s K C r L ts S n ret :
  sys_inv (System s K C r) L ts S -> n ∈ threads S -> n <> current_thread S ->
  can_switch (stk_at (mm s)) (current_thread S) r -> urange 32 ret ->
  exists c r', C !! n = Some c /\ run code cfun (ctx_steps c) (sched_switch base CURRENT ret (current_thread S) n r) = Some r' /\
    resumes c r' /\
    exists S', sys_inv (System (set_mm (m_mem r') s) K (<[current_thread S := left_behind r ret]> (delete n C)) r') L ts S'.
Proof.
  intros Hi Hn Hne Hcan Hret; pose proof Hi as [Hj Hm Hb Ho Hd Hs]; cbn [w_s w_K w_C w_r] in *.
  pose proof (jt_holds _ _ _ _ _ _ _ _ _ Hj) as Hh; pose proof (jt_inv _ _ _ _ _ _ _ _ _ Hj) as Hinv.
  assert (n ∈ ts) as Hnt by (apply (h_queues _ _ _ _ _ _ Hh), elem_of_app; by left).
  destruct (proj2 (Hd n)) as [c Hc]; [split; [by apply (h_dom _ _ _ _ _ _ Hh)|done]|].
  destruct (switch_sys code cfun base bouncer THREADS ZOMBIES CURRENT Hcode Hbase Hbouncer (stk_at (mm s)) ts S C r
    (inv_sys_ok _ _ _ _ _ _ _ Hi) n c ret Hc Hcan Hret) as (r' & Hrun & Hres & [_ Hh2 Hc2 Hs2] & Hfr).
  exists c, r'; split_and!; [done|done|done|].
  set (wt := with_tcb (m_reg r ESP - 12 - 16) (base + 11)) in *; set (p := current_thread S) in *.
  assert (memalloc_inv (set_mm (m_mem r') s) (K ∪ L)) as Hm2.
  { apply client_write_inv; [apply (jt_heap _ _ _ _ _ _ _ _ _ Hj)|]; intros x Hx; rewrite <- Hm; apply Hfr; by eapply switch_client. }
  set (S2 := upd wt p (set_current n S)) in *.
  assert (forall t th2, thr S2 !! t = Some th2 -> exists th, thr S !! t = Some th /\ bt_stackbase th2 = bt_stackbase th /\ bt_flags th2 = bt_flags th) as HT.
  { intros t th2 (th & Ht & Eth)%alter_Some; exists th; split; [done|]; by destruct Eth as [-> | ->]. }
  exists (set_hp (set_mm (m_mem r') s) S2); constructor; cbn [w_s w_K w_C w_r]; [|done|done| | |].
  - constructor; [|done| |apply (jt_static _ _ _ _ _ _ _ _ _ Hj)|done|apply (jt_disj _ _ _ _ _ _ _ _ _ Hj)].
    + apply sched_inv_hp; [|eapply memalloc_inv_mono; [exact Hm2|apply map_union_subseteq_r, (jt_disj _ _ _ _ _ _ _ _ _ Hj)]|].
      * apply sched_inv_upd; [by apply benign_id|]; apply sched_inv_current; [done|apply elem_of_app; by left].
      * unfold S2; cbn [hp upd set_thr set_current]; by rewrite (jt_hp _ _ _ _ _ _ _ _ _ Hj).
    + destruct Hh2; by constructor.
  - intros t th2 Ht Hti; destruct (HT t th2 Ht) as (th & Hth & _ & ->); by eapply Ho.
  - intros t; cbn [thr current_thread set_hp S2 upd set_thr set_current]; rewrite lookup_alter_is_Some.
    destruct (decide (t = p)) as [->|Htp]; [rewrite lookup_insert_eq|rewrite lookup_insert_ne, lookup_delete_is_Some, Hd by done].
    + split; [|by eexists]; intros _; split; [|done]; apply (h_dom _ _ _ _ _ _ Hh), (h_queues _ _ _ _ _ _ Hh), (si_cur _ _ Hinv).
    + naive_solver.
  - intros t c2 Ht; destruct (Hs2 t c2 Ht) as (Hts & _ & Hsv); cbn [mm set_mm].
    destruct (proj2 (h_dom _ _ _ _ _ _ Hh2 t) Hts) as [th2 Ht2]; destruct (HT t th2 Ht2) as (th & Hth & Eb & _).
    unfold saved_in in *; by rewrite (stk_ext _ _ _ _ _ _ _ _ Hh Hh2 Hth Ht2 Eb).
Qed.

(** ** The whole system *)

Lemma wstep_inv w w' : wstep w w' -> (exists L ts S, sys_inv w L ts S) -> exists L ts S, sys_inv w' L ts S.
Proof.
  intros Hst (L & ts & S & Hi); pose proof (jt_holds _ _ _ _ _ _ _ _ _ (wi_joint _ _ _ _ Hi)) as Hh; pose proof (h_current _ _ _ _ _ _ Hh) as Ec.
  destruct Hst as [s K C r s' K' r' Hp Hm|s K C r r' Hm|s K C r a v r' Ha Hb Hm|s K C r t c a v r' Hc Ha Hb Hm|
    s K C r fuel name nm cookie thrflags f data t s' r' Hq Hsrv Hstr Hl Hfu H0 H1 Ha E Hm|s K C r z fuel s' r' Hq Hz Hf E Hm|
    s K C r m' r' Hp Hm|s K C r n m1 r1 ret c r' Hp Hne Hm Hcan Hret Hc Hrun]; cbn [w_s] in *.
  - destruct (pstep_plainly _ _ _ _ _ _ _ _ _ _ _ (wi_joint _ _ _ _ Hi) Hp) as (ls & S' & _ & Hj' & Hk & Hc & Hb & Hx).
    exists L, ts, S'; by eapply inv_foreign.
  - exists L, ts, S; destruct Hi; by constructor.
  - rewrite Ec in Ha, Hb; destruct (inv_stack _ _ _ _ _ _ _ (current_thread S) a v r' Hi) as [S' Hi']; [|done|done| |done|by exists L, ts, S'].
    + apply (h_queues _ _ _ _ _ _ Hh), (si_cur _ _ (jt_inv _ _ _ _ _ _ _ _ _ (wi_joint _ _ _ _ Hi))).
    + intros c Hc; by destruct (proj1 (wi_dom _ _ _ _ Hi _) (mk_is_Some _ _ Hc)).
  - destruct (proj1 (wi_dom _ _ _ _ Hi _) (mk_is_Some _ _ Hc)) as [Ht _]; destruct (wi_saved _ _ _ _ Hi t c Hc) as (_ & _ & _ & Hlo & Hhi).
    assert (ctx_sp c <= ctx_top c) by (destruct c; cbn; lia); cbn [w_s] in *.
    destruct (inv_stack _ _ _ _ _ _ _ t a v r' Hi) as [S' Hi']; [by apply (h_dom _ _ _ _ _ _ Hh)|lia|lia| |done|by exists L, ts, S'].
    intros c' Hc'; rewrite Hc in Hc'; by injection Hc' as <-.
  - destruct (inv_create _ _ _ _ _ _ _ _ _ _ _ _ _ _ _ _ _ Hi Hq Hsrv Hstr Hl Hfu H0 H1 Ha E Hm) as (L' & S' & Hi'); by eexists L', _, S'.
  - by eapply inv_reap.
  - destruct (inv_picks _ _ _ _ _ _ _ _ _ r' Hi Hp Hm) as (S' & Hi' & _); by exists L, ts, S'.
  - destruct (inv_picks _ _ _ _ _ _ _ _ _ r1 Hi Hp Hm) as (S1 & Hi1 & Ec1 & Hn1); rewrite Ec in *; rewrite <- Ec1 in *.
    destruct (inv_switch _ _ _ _ _ _ _ _ _ Hi1 Hn1 Hne Hcan Hret) as (c' & r2 & Hc' & Hrun' & _ & S2 & Hi2).
    rewrite Hc in Hc'; injection Hc' as <-; rewrite Hrun in Hrun'; injection Hrun' as <-; by exists L, ts, S2.
Qed.

(** C1: the kernel's threads on the machine.  From a state in which the
    memory holds heap, threads and the contexts of the threads that do not
    run, let the running threads call the operations of sched.c, create and
    release threads, allocate, compute, use their stacks, link and unlink the
    waiters on the stacks of others, and call [bmk_sched], in any order.  The memory goes on to hold them; and whenever
    [bmk_sched] chooses a thread other than the running one, that thread has a
    context, the assembly reaches it in 16 or 17 instructions, and the machine
    continues in exactly that context: behind the thread's own call with its
    registers and stack pointer, or, for a new thread, at the function it was
    created with, with its argument. *)
Theorem system_keeps_contexts w0 w :
  (exists L ts S, sys_inv w0 L ts S) -> rtc wstep w0 w ->
  (exists L ts S, sys_inv w L ts S) /\
  forall n m1 r1 ret, picks (w_s w) n m1 -> n <> running (w_s w) -> m_mem r1 = m1 ->
    can_switch (stk_at m1) (running (w_s w)) r1 -> urange 32 ret ->
    exists c r', w_C w !! n = Some c /\
      run code cfun (ctx_steps c) (sched_switch base CURRENT ret (running (w_s w)) n r1) = Some r' /\ resumes c r' /\
      wstep w (System (set_mm (m_mem r') (w_s w)) (w_K w) (<[running (w_s w) := left_behind r1 ret]> (delete n (w_C w))) r').
Proof.
  intros Hi Hr; assert (exists L ts S, sys_inv w L ts S) as Hw
    by (induction Hr as [|w0 w1 w2 Hst _ IH]; [done|]; apply IH; by eapply wstep_inv).
  split; [done|]; clear Hi Hr; intros n m1 r1 ret Hp Hne Hm Hcan Hret; destruct Hw as (L & ts & S & Hi), w as [s K C r]; cbn [w_s w_K w_C] in *.
  pose proof (h_current _ _ _ _ _ _ (jt_holds _ _ _ _ _ _ _ _ _ (wi_joint _ _ _ _ Hi))) as Ec; cbn [w_s] in Ec.
  destruct (inv_picks _ _ _ _ _ _ _ _ _ r1 Hi Hp Hm) as (S1 & Hi1 & Ec1 & Hn1).
  destruct (inv_switch (set_mm m1 s) K C r1 L ts S1 n ret Hi1 Hn1) as (c & r' & Hc & Hrun & Hres & _); [congruence| |done|].
  { rewrite Ec1, <- Ec; exact Hcan. }
  rewrite Ec1, <- Ec in Hrun; exists c, r'; split_and!; [done|done|done|]; by eapply w_switch.
Qed.

(** [bmk_sched_init] starts the system: one thread, on the boot stack. *)
Lemma start_inv s r : joint s ∅ ∅ [INIT] (bmk_sched_init INIT s) -> hi <= bmk_membase (pages s) -> m_mem r = mm s ->
  sys_inv (System s ∅ ∅ r) ∅ [INIT] (bmk_sched_init INIT s).
Proof.
  clear Hcode Hbase Hbouncer Hboot Hapart; intros Hj Hhi Hr; constructor; cbn [w_s w_K w_C w_r]; [done|done|done| | |].
  - intros t th Ht Hne; cbn [thr bmk_sched_init] in Ht; by apply lookup_singleton_Some in Ht as [<- _].
  - intros t; cbn [thr current_thread bmk_sched_init]; rewrite lookup_empty, lookup_singleton_is_Some.
    split; [by intros []|]; intros [-> ?]; done.
  - intros t c; by rewrite lookup_empty.
Qed.
Lemma boot_system m name fuel p :
  static_storage THREADS ZOMBIES CURRENT INIT m name -> (4 < fuel)%nat -> pg_wf p ->
  (forall a, a ∈ footprint [INIT] -> a + 4 <= bmk_membase p) -> hi <= bmk_membase p ->
  exists m', mem_sched_init THREADS CURRENT INIT fuel name m = Some m' /\
    forall r, m_mem r = m' -> sys_inv (System (memalloc_boot m' p) ∅ ∅ r) ∅ [INIT] (bmk_sched_init INIT (memalloc_boot m' p)).
Proof.
  intros Hss Hf Hp Hst Hhi; destruct (boot_joint _ _ _ _ m name fuel p Hss Hf Hp Hst) as (m' & E & Hj).
  exists m'; split; [done|]; intros r Hr; by apply start_inv.
Qed.
End System.

(** The machine of OneMemory at boot, on the boot stack at 0x8000: the initial
    thread creates one that runs the function at 0x100600 with argument 77,
    and calls [bmk_sched]. *)
Definition demo_machine (m : mem) : machine := Machine (demo_regs 0x8f00) (Sregs 8 16 16 16 16 16) 0x100000 true false m [].
Lemma demo_machine_mem m : m_mem (demo_machine m) = m.
Proof. reflexivity. Qed.
Definition demo_w0 : system := System demo_b0 ∅ ∅ (demo_machine (mm demo_b0)).
Definition demo_w1 : system :=
  System (snd demo_b1) ∅ {[fst demo_b1 := Fresh (rd32 (mm (snd demo_b1)) (fst demo_b1 + 44)) 0x100600 77]} (demo_machine (mm (snd demo_b1))).
Definition demo_picked : mem :=
  match mem_pick 0x1000 2 [Tick 0 []] (mm (snd demo_b1)) with Some (_, m, _) => m | None => ∅ end.

Lemma demo_boot_away a : a ∈ footprint 0x1000 0x1010 0x1020 [0x2000] -> away a 4 0x8000 0x9000.
Proof.
  assert (Forall (fun a => a + 4 <= 0x8000) (footprint 0x1000 0x1010 0x1020 [0x2000])) as HF
    by (apply (bool_decide_unpack _); by vm_compute).
  rewrite Forall_forall in HF; intros Ha; left; by apply HF.
Qed.

Lemma demo_w0_inv : exists L ts S, sys_inv 0x100000 0x100100 0x1000 0x1010 0x1020 0x2000 0x8000 0x9000 demo_w0 L ts S.
Proof.
  exists ∅, [0x2000], (bmk_sched_init 0x2000 demo_b0); apply start_inv; [exact demo_boot_joint|by vm_compute|apply demo_machine_mem].
Qed.

Lemma demo_w1_step : wstep demo_code demo_cfun 0x100000 0x100100 0x1000 0x1010 0x1020 0x2000 0x8000 0x9000 demo_w0 demo_w1.
Proof.
  assert (create_served demo_b0) as Hs by (unfold demo_b0; apply boot_served; [by vm_compute|reflexivity]).
  assert (cstr (mm demo_b0) 0x4010 [110]) as Hc by (apply (bool_decide_unpack _); by vm_compute).
  pose proof demo_on_queue as Hq; pose proof demo_name_below as Hb; pose proof demo_create as E; unfold demo_w0, demo_w1.
  revert Hq Hb E Hs Hc; generalize demo_b1 demo_b0; clear; intros [t s'] s Hq Hb E Hs Hc; cbn [fst snd].
  rewrite <- (insert_empty (M := gmap Z) t).
  eapply w_create; [exact Hq|exact Hs|exact Hc|cbn; unfold NAME_MAXLEN; lia| |lia|exact Hb| |exact E|reflexivity]; [cbn; lia|].
  split_and!; by vm_compute.
Qed.

Lemma demo_queue : tailq bt_entries (mm (snd demo_b1)) 0x1000 [2097160; 0x2000].
Proof.
  exists (0x2000 + 52); split_and!; [by vm_compute|by vm_compute|by vm_compute|apart_concrete|apply (bool_decide_unpack _); by vm_compute].
Qed.

Lemma demo_picks : picks 0x1000 0x1010 (snd demo_b1) (fst demo_b1) demo_picked /\ fst demo_b1 <> rd32 (mm (snd demo_b1)) 0x1020 /\
  can_switch (stk_at 0x2000 0x8000 0x9000 demo_picked) (rd32 (mm (snd demo_b1)) 0x1020) (demo_machine demo_picked).
Proof.
  assert (fst demo_b1 = 2097160 /\ rd32 (mm (snd demo_b1)) 0x1020 = 0x2000) as [-> ->] by (vm_compute; split; reflexivity).
  split; [|split; [discriminate|split; [vm_compute; split; discriminate|intros []; by vm_compute]]].
  assert (match mem_pick 0x1000 2 [Tick 0 []] (mm (snd demo_b1)) with Some (n, _, r) => bool_decide (n = 2097160 /\ r = []) | None => false end = true) as E
    by (vm_compute; reflexivity).
  exists [2097160; 0x2000], 2%nat, [Tick 0 []], []; split; [exact demo_queue|split; [cbn; lia|split; [repeat constructor|]]].
  unfold demo_picked; destruct (mem_pick 0x1000 2 [Tick 0 []] (mm (snd demo_b1))) as [[[n m] rest]|]; [|discriminate E].
  by apply bool_decide_eq_true in E as [-> ->].
Qed.

Lemma demo_w1_s : w_s demo_w1 = snd demo_b1.
Proof. reflexivity. Qed.
Lemma fresh_lookup (t sp f arg : Z) (c : ctx) : ({[t := Fresh sp f arg]} : gmap Z ctx) !! t = Some c -> exists sp', c = Fresh sp' f arg.
Proof. rewrite lookup_singleton_eq; intros [= <-]; by exists sp. Qed.
Lemma demo_w1_C c : w_C demo_w1 !! fst demo_b1 = Some c -> exists sp, c = Fresh sp 0x100600 77.
Proof. unfold demo_w1; cbn [w_C]; apply fresh_lookup. Qed.
Lemma demo_running : rd32 (mm (snd demo_b1)) 0x1020 = 0x2000.
Proof. by vm_compute. Qed.

Lemma system_keeps_contexts_witness : exists r',
  run demo_code demo_cfun 17 (sched_switch 0x100000 0x1020 0x100700 0x2000 (fst demo_b1) (demo_machine demo_picked)) = Some r' /\
  m_eip r' = 0x100600 /\ rd32 (m_mem r') (m_reg r' ESP + 4) = 77.
Proof.
  assert (urange 32 0x10000b) as H1 by (vm_compute; split; [discriminate|reflexivity]).
  assert (urange 32 0x100700) as H2 by (vm_compute; split; [discriminate|reflexivity]).
  assert (0 <= 0x8000 /\ 0x8000 + 32 <= 0x9000 < 2 ^ 32) as H3 by lia.
  destruct (system_keeps_contexts demo_code demo_cfun 0x100000 0x100100 0x1000 0x1010 0x1020 0x2000 0x8000 0x9000
    demo_switch_loaded H1 demo_bouncer_loaded H3 demo_boot_away demo_w0 demo_w1 demo_w0_inv
    (rtc_l _ _ _ _ demo_w1_step (rtc_refl _ _))) as [_ Hsw].
  rewrite demo_w1_s in Hsw; destruct demo_picks as (Hp & Hne & Hcan).
  destruct (Hsw (fst demo_b1) demo_picked (demo_machine demo_picked) 0x100700 Hp Hne (demo_machine_mem _) Hcan H2)
    as (c & r' & Hc & Hrun & Hres & _).
  destruct (demo_w1_C c Hc) as [sp E]; rewrite E in Hrun, Hres; destruct Hres as (He & _ & Ha & _).
  rewrite demo_running in Hrun; exists r'; split; [exact Hrun|split; [exact He|exact Ha]].
Defined.
