(* ===== verification/App.v ===== *)
(** * App: the demonstration application (app.c)

    [bmk_app_main] brings up the rump kernel and a network interface, fetches
    a page over HTTP when there is one, and checksums the disk, writing the
    result onto it when sector 0 asks for that.  The rump kernel's system
    calls and the MD5 functions are the interface [Services]; the C library
    functions on strings are modelled here over buffers, with [None] where
    they would run past the end of the object. *)
From S2P Require Import Prelude.

Definition bytes (s : string) : list Z := (fun c => Z.of_N (Ascii.N_of_ascii c)) <$> String.list_ascii_of_string s.
Definition NL : Z := 10.

(** ** The C library on buffers *)

Fixpoint cstring (buf : list Z) : option (list Z) :=
  match buf with [] => None | c :: buf => if c =? 0 then Some [] else cons c <$> cstring buf end.
Fixpoint starts (needle buf : list Z) : option bool :=
  match needle, buf with
  | [], _ => Some true
  | _ :: _, [] => None
  | n :: needle, c :: buf => if c =? n then starts needle buf else Some false
  end.
(** The offset of the first occurrence, if there is one before the NUL. *)
Fixpoint strstr (needle buf : list Z) : option (option nat) :=
  b ← starts needle buf;
  if (b : bool) then Some (Some O)
  else match buf with
       | [] => None
       | c :: buf => if c =? 0 then Some None else option_map S <$> strstr needle buf
       end.
Fixpoint strchr (x : Z) (buf : list Z) : option (option nat) :=
  match buf with
  | [] => None
  | c :: buf => if c =? x then Some (Some O) else if c =? 0 then Some None else option_map S <$> strchr x buf
  end.
Fixpoint strncmp (n : nat) (a b : list Z) : Z :=
  match n with
  | O => 0
  | S n => if negb (hd 0 a =? hd 0 b) then hd 0 a - hd 0 b else if hd 0 a =? 0 then 0 else strncmp n (tl a) (tl b)
  end.
(** [strlcat(dst, src, size)] with [size] the size of [dst]: the string
    [src] is cut so that the result is terminated. *)
Definition strlcat (dst src : list Z) : list Z :=
  match cstring dst with
  | None => dst
  | Some s =>
      let t := take (length dst - length s - 1) src in
      s ++ t ++ [0] ++ drop (length s + length t + 1) dst
  end.
Definition hexdigit (d : Z) : Z := if d <? 10 then 48 + d else 87 + d.
(** [%x] of an unsigned char, and [%02x]. *)
Definition fmt_x (b : Z) : list Z := if b <? 16 then [hexdigit b] else [hexdigit (b / 16); hexdigit (b mod 16)].
Definition fmt_02x (b : Z) : list Z := [hexdigit (b / 16); hexdigit (b mod 16)].
(** [snprintf] into a buffer of [size] bytes, seen as the string it leaves. *)
Definition snprintf (size : nat) (s : list Z) : list Z := take (size - 1) s.
Definition htons (x : Z) : Z := Z.lor (u16 (Z.shiftl x 8)) (Z.shiftr x 8).

(** ** The services the application calls *)

Record sockaddr_in := Sockaddr { sin_len : Z; sin_family : Z; sin_port : Z; sin_addr : Z }.

Class Services (W : Type) := {
  rump_init : W -> W;
  netconfig_ifup : string -> W -> Z * W;
  netconfig_dhcp : string -> W -> Z * W;
  socket : Z -> Z -> Z -> W -> Z * W;
  inet_addr : string -> Z;
  connect : Z -> sockaddr_in -> W -> Z * W;
  write : Z -> list Z -> W -> Z * W;
  read : Z -> Z -> W -> Z * list Z * W;       (* the result and the bytes stored *)
  open : string -> Z -> W -> Z * W;
  errno : W -> Z;
  pread : Z -> Z -> Z -> W -> Z * list Z * W;
  pwrite : Z -> list Z -> Z -> W -> Z * W;
  MD5_CTX : Type;
  MD5_Init : MD5_CTX;
  MD5_Update : MD5_CTX -> list Z -> MD5_CTX;
  MD5_Final : MD5_CTX -> list Z;
  PF_INET : Z; SOCK_STREAM : Z; AF_INET : Z; O_RDWR : Z; sizeof_sockaddr_in : Z;
  ENOENT : Z; ENXIO : Z }.

(** ** The program *)

Section App.
Context {W : Type} `{!Services W}.

(** The world, the variable [havenet] and what was printed. *)
Record appstate := AppState { world : W; havenet : bool; out : list Z }.

(** [err] ends the program with a code and a message; [Overrun]: an object
    was read past its end. *)
Inductive result (A : Type) :=
| Done (a : A) (s : appstate)
| Exit (code : Z) (msg : string) (s : appstate)
| Overrun (s : appstate)
| Spins (s : appstate).
Arguments Done {_} _ _.
Arguments Exit {_} _ _ _.
Arguments Overrun {_} _.
Arguments Spins {_} _.

Definition M (A : Type) : Type := appstate -> result A.
#[local] Instance M_ret : MRet M := fun A a s => Done a s.
#[local] Instance M_bind : MBind M := fun A B k m s =>
  match m s with Done a s => k a s | Exit c e s => Exit c e s | Overrun s => Overrun s | Spins s => Spins s end.
Definition err {A} (code : Z) (msg : string) : M A := fun s => Exit code msg s.
Definition call {A} (f : W -> A * W) : M A := fun s =>
  let '(a, w) := f (world s) in Done a (AppState w (havenet s) (out s)).
Definition printf (t : list Z) : M unit := fun s => Done tt (AppState (world s) (havenet s) (out s ++ t)).
Definition spins {A} : M A := fun s => Spins s.
Definition set_havenet (b : bool) : M unit := fun s => Done tt (AppState (world s) b (out s)).
Definition get_havenet : M bool := fun s => Done (havenet s) s.
Definition lift {A} (o : option A) : M A := fun s => match o with Some a => Done a s | None => Overrun s end.

Definition rumpkern_config : M unit :=
  _ ← call (fun w => (tt, rump_init w));
  r ← call (netconfig_ifup "wm0");
  rv ← (if r =? 0 then call (netconfig_dhcp "wm0")
        else r ← call (netconfig_ifup "pcn0");
             if r =? 0 then call (netconfig_dhcp "pcn0")
             else r ← call (netconfig_ifup "vioif0");
                  if r =? 0 then call (netconfig_dhcp "vioif0") else mret 1);
  set_havenet (rv =? 0).

Definition DESTHOST : string := "149.20.53.86".
Definition HTTPGET : list Z := bytes "GET / HTTP/1.0" ++ [NL; NL].

(** What a call stores at the start of a buffer. *)
Definition store (data buf : list Z) : list Z := data ++ drop (length data) buf.

(** What [nettest] does with the answer in the buffer. *)
Definition cut_response (buf : list Z) : option (list Z) :=
  p ← strstr (bytes "Content-Type") buf;
  match p with
  | None => Some buf
  | Some p =>
      q ← strchr NL (drop p buf);
      Some (match q with Some q => <[(p + q)%nat := 0]> buf | None => buf end)
  end.

(** [buf0] is what the uninitialised buffer on the stack holds. *)
Definition nettest (buf0 : list Z) : M unit :=
  s ← call (socket PF_INET SOCK_STREAM 0);
  if s =? -1 then err 1 "socket open failed"
  else
    let sin := Sockaddr sizeof_sockaddr_in AF_INET (htons 80) (inet_addr DESTHOST) in
    r ← call (connect s sin);
    if r =? -1 then err 1 "connect failed"
    else
      _ ← call (write s HTTPGET);
      rd ← call (read s 512);
      if fst rd <? 1 then err 1 "read failed"
      else
        buf ← lift (cut_response (store (snd rd) buf0));
        text ← lift (cstring buf);
        _ ← printf (bytes "got response:" ++ [NL] ++ text ++ [NL]);
        printf (bytes "[omitting rest ...]" ++ [NL]).

Definition TESTMAGIC : list Z := bytes "PLEASE WRITE ON THIS IMAGE".

(** The loop that reads the disk ([Spins] out of fuel). *)
Fixpoint md5_loop (fuel : nat) (fd : Z) (buf : list Z) (ctx : MD5_CTX) : M (list Z * MD5_CTX) :=
  rd ← call (read fd 512);
  let buf := store (snd rd) buf in
  if fst rd =? 512 then
    match fuel with
    | O => spins
    | S fuel => md5_loop fuel fd buf (MD5_Update ctx buf)
    end
  else mret (buf, ctx).

(** The sector with the result, built the way the code does. *)
Definition result_sector (md5sum : list Z) : list Z :=
  let buf := replicate 512 0 in
  let buf := strlcat buf (bytes "OK" ++ [NL]) in
  let buf := foldl (fun buf b => strlcat buf (snprintf 4 (fmt_02x b))) buf md5sum in
  strlcat buf [NL].

Definition disktest (fuel : nat) (buf0 : list Z) : M unit :=
  fd ← call (open "/dev/rld0d" O_RDWR);
  e ← call (fun w => (errno w, w));
  if (fd =? -1) && ((e =? ENOENT) || (e =? ENXIO)) then
    printf (bytes "no disk device available.  skipping test" ++ [NL])
  else
    _ ← printf (bytes "calculating md5sum of /dev/rld0d" ++ [NL]);
    r ← md5_loop fuel fd buf0 MD5_Init;
    let md5sum := MD5_Final (snd r) in
    _ ← printf (flat_map fmt_x md5sum);
    _ ← printf [NL];
    rd ← call (pread fd 512 0);
    if negb (fst rd =? 512) then err 1 "read sector 0"
    else
      let buf := store (snd rd) (fst r) in
      if negb (strncmp (length TESTMAGIC) buf (TESTMAGIC ++ [0]) =? 0) then mret tt
      else
        _ ← printf (bytes "writing test results onto image" ++ [NL]);
        _ ← call (pwrite fd (result_sector md5sum) 0);
        mret tt.

Definition bmk_app_main (fuel : nat) (buf0 buf1 : list Z) : M unit :=
  _ ← rumpkern_config;
  h ← get_havenet;
  _ ← (if (h : bool) then nettest buf0 else mret tt);
  _ ← disktest fuel buf1;
  printf ([NL] ++ bytes "THE END" ++ [NL]).
End App.
#[global] Existing Instances M_ret M_bind.
Arguments appstate : clear implicits.
Arguments result : clear implicits.
Arguments Done {_ _} _ _.
Arguments Exit {_ _} _ _ _.
Arguments Overrun {_ _} _.
Arguments Spins {_ _} _.

(** ** Strings in buffers *)

Lemma cstring_app s t : 0 ∉ s -> cstring (s ++ 0 :: t) = Some s.
Proof.
  induction s as [|c s IH]; cbn; [done|]; intros [Hc Hs]%not_elem_of_cons.
  rewrite (proj2 (Z.eqb_neq c 0)) by done; by rewrite IH.
Qed.
Lemma cstring_none s : 0 ∉ s -> cstring s = None.
Proof.
  induction s as [|c s IH]; cbn; [done|]; intros [Hc Hs]%not_elem_of_cons.
  rewrite (proj2 (Z.eqb_neq c 0)) by done; by rewrite IH.
Qed.

(** A string [s] in a buffer of [n] bytes that is zero behind it. *)
Definition sbuf (n : nat) (s : list Z) : list Z := s ++ replicate (n - length s) 0.

Lemma strlcat_sbuf n s t : 0 ∉ s -> (length s + length t < n)%nat -> strlcat (sbuf n s) t = sbuf n (s ++ t).
Proof.
  intros Hs Hn; unfold strlcat, sbuf; destruct (n - length s)%nat as [|k] eqn:E; [lia|]; cbn [replicate].
  rewrite cstring_app, length_app by done; cbn [length]; rewrite length_replicate, take_ge by lia.
  rewrite drop_app, drop_ge by lia; replace (length s + length t + 1 - length s)%nat with (S (length t)) by lia.
  cbn [drop app]; rewrite drop_replicate, !length_app; replace (n - (length s + length t))%nat with (S (k - length t)) by lia.
  by rewrite <- app_assoc.
Qed.

Lemma hexdigit_nz d : 0 <= d -> hexdigit d <> 0.
Proof. unfold hexdigit; destruct (d <? 10) eqn:E; [apply Z.ltb_lt in E|apply Z.ltb_ge in E]; lia. Qed.
Lemma fmt_nz b : 0 <= b -> 0 ∉ fmt_02x b.
Proof.
  intros Hb; unfold fmt_02x; pose proof (hexdigit_nz (b / 16)); pose proof (hexdigit_nz (b mod 16)).
  rewrite !not_elem_of_cons; split_and!; [| |apply not_elem_of_nil]; zlia.
Qed.

Lemma length_hex d : length (flat_map fmt_02x d) = (2 * length d)%nat.
Proof. induction d as [|b d IH]; [done|]; cbn [flat_map]; rewrite length_app, IH; cbn; lia. Qed.

(** What the result sector holds. *)
Definition result_text (md5sum : list Z) : list Z := bytes "OK" ++ [NL] ++ flat_map fmt_02x md5sum ++ [NL].

Lemma result_loop d s : Forall (Z.le 0) d -> 0 ∉ s -> (length s + 2 * length d < 512)%nat ->
  foldl (fun buf b => strlcat buf (snprintf 4 (fmt_02x b))) (sbuf 512 s) d = sbuf 512 (s ++ flat_map fmt_02x d) /\
  0 ∉ s ++ flat_map fmt_02x d.
Proof.
  revert s; induction d as [|b d IH]; intros s HF Hs Hl; cbn [foldl flat_map]; [by rewrite app_nil_r|].
  inversion HF; subst; cbn [length] in Hl; change (snprintf 4 (fmt_02x b)) with (fmt_02x b).
  rewrite strlcat_sbuf by (done || (cbn; lia)); rewrite app_assoc; apply IH; [done| |].
  - apply not_elem_of_app; split; [done|by apply fmt_nz].
  - rewrite length_app; cbn; lia.
Qed.
Lemma result_sector_text d : length d = 16%nat -> Forall (Z.le 0) d -> result_sector d = sbuf 512 (result_text d).
Proof.
  intros Hl HF; unfold result_sector, result_text; change (replicate 512 0) with (sbuf 512 []).
  rewrite strlcat_sbuf by (apply not_elem_of_nil || (cbn; lia)).
  destruct (result_loop d ([] ++ bytes "OK" ++ [NL])) as [E Hz]; [done| |cbn; lia|].
  { apply (bool_decide_unpack _); by vm_compute. }
  rewrite E, strlcat_sbuf; [by rewrite <- !app_assoc|done|rewrite !length_app, length_hex; cbn; lia].
Qed.

(** Reading the sector back: the checksum of an "OK" result. *)
Definition unhex (c : Z) : option Z :=
  if (48 <=? c) && (c <=? 57) then Some (c - 48) else if (97 <=? c) && (c <=? 102) then Some (c - 87) else None.
Fixpoint parse_hex (n : nat) (t : list Z) : option (list Z * list Z) :=
  match n, t with
  | O, _ => Some ([], t)
  | S n, a :: b :: t => h ← unhex a; l ← unhex b; r ← parse_hex n t; Some (16 * h + l :: fst r, snd r)
  | _, _ => None
  end.
Definition parse_result (sector : list Z) : option (list Z) :=
  t ← cstring sector;
  match t with
  | 79 :: 75 :: 10 :: t => r ← parse_hex 16 t; if bool_decide (snd r = [NL]) then Some (fst r) else None
  | _ => None
  end.

Lemma unhex_hexdigit d : 0 <= d < 16 -> unhex (hexdigit d) = Some d.
Proof.
  intros Hd; assert (forall k, (k < 16)%nat -> unhex (hexdigit (Z.of_nat k)) = Some (Z.of_nat k)) as H.
  { intros k Hk; do 16 (destruct k as [|k]; [done|]); lia. }
  specialize (H (Z.to_nat d)); rewrite Z2Nat.id in H by lia; apply H; lia.
Qed.
Lemma parse_hex_fmt d t : Forall (urange 8) d -> parse_hex (length d) (flat_map fmt_02x d ++ t) = Some (d, t).
Proof.
  induction d as [|b d IH]; intros HF; [done|]; inversion HF as [|? ? Hb HF']; subst; cbn [length flat_map fmt_02x app parse_hex].
  rewrite !unhex_hexdigit by zlia; cbn [mbind option_bind]; rewrite (IH HF'); cbn; repeat f_equal; zlia.
Qed.

Lemma result_text_ok d : length d = 16%nat -> Forall (Z.le 0) d -> (0 ∉ result_text d) /\ length (result_text d) = 36%nat.
Proof.
  intros Hl HF; split; [|unfold result_text; rewrite !length_app, length_hex; cbn; lia].
  destruct (result_loop d (bytes "OK" ++ [NL])) as [_ Hz]; [done| |cbn; lia|].
  { apply (bool_decide_unpack _); by vm_compute. }
  unfold result_text; rewrite !not_elem_of_app in *; split_and!; try tauto; apply (bool_decide_unpack _); by vm_compute.
Qed.
Lemma u8_nonneg d : Forall (urange 8) d -> Forall (Z.le 0) d.
Proof. intros HF; eapply Forall_impl; [exact HF|]; intros x; unfold urange; lia. Qed.
Lemma result_sector_length d : length d = 16%nat -> Forall (Z.le 0) d -> length (result_sector d) = 512%nat.
Proof.
  intros Hl HF; rewrite result_sector_text by done; unfold sbuf; rewrite length_app, length_replicate.
  destruct (result_text_ok d Hl HF) as [_ ->]; lia.
Qed.

(** C29: the test result written onto the image can be read back: from the
    sector that [disktest] builds with [strlcat] and ["%02x"], a reader
    recovers exactly the 16 bytes of the checksum. *)
Theorem result_roundtrip d :
  length d = 16%nat -> Forall (urange 8) d -> parse_result (result_sector d) = Some d.
Proof.
  intros Hl HF; pose proof (u8_nonneg d HF) as HF0; destruct (result_text_ok d Hl HF0) as [Hz Hlen].
  rewrite (result_sector_text d Hl HF0); unfold sbuf; rewrite Hlen.
  unfold parse_result; change (replicate (512 - 36) 0) with (0 :: replicate 475 0); rewrite cstring_app by done.
  unfold result_text; cbn -[parse_hex]; rewrite <- Hl, parse_hex_fmt by done; cbn.
  by rewrite bool_decide_eq_true_2.
Qed.

Lemma result_roundtrip_witness : parse_result (result_sector (seqZ 3 16)) = Some (seqZ 3 16).
Proof. by apply (result_roundtrip (seqZ 3 16)); [|apply (bool_decide_unpack _); vm_compute]. Defined.

(** On the console the checksum is printed with ["%x"], which drops leading
    zeros: two checksums can look the same. *)
Lemma checksum_print_ambiguous : exists d1 d2,
  length d1 = 16%nat /\ length d2 = 16%nat /\ Forall (urange 8) d1 /\ Forall (urange 8) d2 /\ d1 <> d2 /\
  flat_map fmt_x d1 = flat_map fmt_x d2.
Proof.
  exists (0x1 :: 0x23 :: replicate 14 0), (0x12 :: 0x3 :: replicate 14 0).
  split_and!; [done|done|apply (bool_decide_unpack _); by vm_compute|apply (bool_decide_unpack _); by vm_compute|done|done].
Qed.

(** ** The disk test *)

(** What the documentation of the calls promises of the open disk device [fd]
    with contents [content w] and file position [pos w], and of the MD5
    functions.  Reads succeed up to the end of the disk.  Opening the disk and
    writing to it may fail: the program tests the first and not the second,
    and a write that reports all its bytes has stored them. *)
Class DiskLaws (W : Type) `{!Services W} (fd : Z) (content : W -> list Z) (pos : W -> nat) : Prop := {
  open_fd : fd <> -1;
  read_disk w n : let d := take (Z.to_nat n) (drop (pos w) (content w)) in
    exists w', read fd n w = (Z.of_nat (length d), d, w') /\ content w' = content w /\ pos w' = (pos w + length d)%nat;
  pread_disk w n off : let d := take (Z.to_nat n) (drop (Z.to_nat off) (content w)) in
    exists w', pread fd n off w = (Z.of_nat (length d), d, w') /\ content w' = content w;
  pwrite_disk w data off : (Z.to_nat off + length data <= length (content w))%nat ->
    fst (pwrite fd data off w) = Z.of_nat (length data) ->
      content (snd (pwrite fd data off w)) = take (Z.to_nat off) (content w) ++ data ++ drop (Z.to_nat off + length data) (content w);
  md5_nil c : MD5_Update c [] = c;
  md5_app c a b : MD5_Update (MD5_Update c a) b = MD5_Update c (a ++ b);
  md5_digest c : length (MD5_Final c) = 16%nat /\ Forall (urange 8) (MD5_Final c) }.

Section Disk.
Context {W : Type} `{!Services W} {fd : Z} {content : W -> list Z} {pos : W -> nat} `{!DiskLaws W fd content pos}.

(** The disk is there and is opened at its beginning; or there is none, and
    opening it fails with one of the two codes that say so. *)
Definition disk_opens (w : W) : Prop :=
  exists w', open "/dev/rld0d" O_RDWR w = (fd, w') /\ content w' = content w /\ pos w' = O.
Definition disk_absent (w w' : W) : Prop :=
  open "/dev/rld0d" O_RDWR w = (-1, w') /\ (errno w' = ENOENT \/ errno w' = ENXIO).

(** The checksum of a disk: MD5 of its whole sectors. *)
Definition checksum (disk : list Z) : list Z := MD5_Final (MD5_Update MD5_Init (take (512 * (length disk / 512)) disk)).

Lemma call_eq {A} (f : W -> A * W) s a w : f (world s) = (a, w) -> call f s = Done a (AppState w (havenet s) (out s)).
Proof. intros E; unfold call; by rewrite E. Qed.

Lemma store_full data buf : length data = length buf -> store data buf = data.
Proof. intros E; unfold store; by rewrite E, drop_all, app_nil_r. Qed.
Lemma store_length data buf : (length data <= length buf)%nat -> length (store data buf) = length buf.
Proof. intros E; unfold store; rewrite length_app, length_drop; lia. Qed.

Lemma md5_loop_ok fuel buf ctx (s : appstate W) :
  let c := content (world s) in let p := pos (world s) in
  let k := ((length c - p) / 512)%nat in
  length buf = 512%nat -> (k <= fuel)%nat ->
  exists buf' w', md5_loop fuel fd buf ctx s =
    Done (buf', MD5_Update ctx (take (512 * k) (drop p c))) (AppState w' (havenet s) (out s)) /\
    content w' = c /\ length buf' = 512%nat.
Proof.
  revert buf ctx s; induction fuel as [|fuel IH]; intros buf ctx s c p k Hb Hk; subst c p k.
  all: destruct (read_disk (world s) 512) as (w' & Er & Hc & Hp); change (Z.to_nat 512) with 512%nat in *.
  all: set (c := content (world s)) in *; set (p := pos (world s)) in *; set (d := take 512 (drop p c)) in *.
  all: assert (length d = Nat.min 512 (length c - p)) as Hd by (unfold d; rewrite length_take, length_drop; done).
  all: cbn [md5_loop]; unfold mbind, M_bind; rewrite (call_eq (read fd 512) s _ w') by exact Er; cbn [fst snd].
  - assert ((length c - p) / 512 = 0)%nat as E0 by lia; apply Nat.div_small_iff in E0; [|done].
    rewrite (proj2 (Z.eqb_neq _ _)) by lia; exists (store d buf), w'; split_and!; [|done|rewrite store_length; lia].
    rewrite Nat.div_small by done; cbn [take]; rewrite md5_nil; done.
  - destruct (decide (length d = 512%nat)) as [E|E].
    + rewrite E; cbn [Z.eqb Z.of_nat]. change (Z.of_nat 512 =? 512) with true; cbv iota.
      rewrite store_full by lia.
      destruct (IH d (MD5_Update ctx d) (AppState w' (havenet s) (out s))) as (buf' & w'' & E1 & E2 & E3); cbn [world] in *.
      { done. }
      { rewrite Hc, Hp, E; fold c p in Hk |- *.
        replace (length c - p)%nat with (length c - (p + 512) + 1 * 512)%nat in Hk by lia; rewrite Nat.div_add in Hk by done; lia. }
      exists buf', w''; rewrite E1; cbn [havenet out]; split_and!; [|by rewrite E2|done].
      do 2 f_equal; rewrite md5_app, Hc, Hp, E; f_equal; unfold d.
      replace (length c - p)%nat with (length c - (p + 512) + 1 * 512)%nat by lia; rewrite Nat.div_add by done.
      replace (512 * ((length c - (p + 512)) / 512 + 1))%nat with (512 + 512 * ((length c - (p + 512)) / 512))%nat by lia.
      by rewrite <- drop_drop, take_take_drop.
    + rewrite (proj2 (Z.eqb_neq _ _)) by lia; exists (store d buf), w'; split_and!; [|done|rewrite store_length; lia].
      rewrite Nat.div_small by lia; cbn [take]; by rewrite md5_nil.
Qed.

Lemma strncmp_prefix n a b : length b = n -> 0 ∉ b -> (strncmp n a (b ++ [0]) =? 0) = bool_decide (take n a = b).
Proof.
  revert a b; induction n as [|n IH]; intros a [|x b] Hl Hb; try done; cbn in Hl.
  apply not_elem_of_cons in Hb as [Hx Hb]; cbn [strncmp hd tl app].
  destruct a as [|y a]; cbn [hd tl take].
  - rewrite (proj2 (Z.eqb_neq 0 x)) by done; cbn [negb]; rewrite bool_decide_eq_false_2 by done; apply Z.eqb_neq; lia.
  - destruct (Z.eqb_spec y x) as [->|Hne]; cbn [negb].
    + rewrite (proj2 (Z.eqb_neq x 0)) by done; rewrite IH by (done || lia); apply bool_decide_ext; split; congruence.
    + rewrite (proj2 (Z.eqb_neq _ _)) by lia; rewrite bool_decide_eq_false_2; [done|congruence].
Qed.

Definition disk_header : list Z := bytes "calculating md5sum of /dev/rld0d" ++ [NL].
Definition wants_result (disk : list Z) : bool := bool_decide (take (length TESTMAGIC) disk = TESTMAGIC).

Lemma take_magic (disk : list Z) : take (length TESTMAGIC) (take 512 disk) = take (length TESTMAGIC) disk.
Proof. rewrite take_take; f_equal. Qed.

(** What is printed for a disk, and what becomes of it. *)
Definition disk_report (disk : list Z) : list Z :=
  disk_header ++ flat_map fmt_x (checksum disk) ++ [NL] ++
  (if wants_result disk then bytes "writing test results onto image" ++ [NL] else []).
Definition disk_after (disk : list Z) : list Z :=
  if wants_result disk then sbuf 512 (result_text (checksum disk)) ++ drop 512 disk else disk.

(** The result is written when sector 0 asks for it and the device takes it. *)
Definition disk_writable (disk : list Z) : Prop :=
  wants_result disk = true -> forall w, content w = disk -> fst (pwrite fd (result_sector (checksum disk)) 0 w) = 512.

(** The disk test.  With a disk of at least one sector, [disktest] ends
    after at most one pass over it, prints the MD5 checksum of its whole
    sectors, and changes the disk exactly when sector 0 begins with the
    magic string: then, if the device takes the write, sector 0 becomes the
    result text padded with zeros and the rest stays.  A shorter disk makes it
    exit with an error, the disk unchanged. *)
Lemma disktest_ok fuel buf0 (s : appstate W) :
  let disk := content (world s) in
  disk_opens (world s) -> length buf0 = 512%nat -> (length disk / 512 <= fuel)%nat ->
  exists w',
    if (512 <=? length disk)%nat then
      disktest fuel buf0 s = Done tt (AppState w' (havenet s) (out s ++ disk_report disk)) /\
      (disk_writable disk -> content w' = disk_after disk)
    else
      disktest fuel buf0 s =
        Exit 1 "read sector 0" (AppState w' (havenet s) (out s ++ disk_header ++ flat_map fmt_x (checksum disk) ++ [NL])) /\
      content w' = disk.
Proof.
  intros disk (w1 & E1 & C1 & P1) Hb Hf; subst disk; unfold disk_report, disk_after, disk_writable; set (disk := content (world s)) in *.
  destruct (md5_loop_ok fuel buf0 MD5_Init (AppState w1 (havenet s) (out s ++ disk_header))) as (buf1 & w2 & E2 & C2 & L2);
    cbn [world havenet out] in *; [done|by rewrite C1, P1, Nat.sub_0_r|].
  rewrite C1 in C2; rewrite C1, P1, drop_0, Nat.sub_0_r in E2; unfold disk_header in E2 at 1.
  destruct (pread_disk w2 512 0) as (w3 & E3 & C3); change (Z.to_nat 512) with 512%nat in E3; change (Z.to_nat 0) with O in E3.
  rewrite C2, drop_0 in E3; rewrite C2 in C3.
  destruct (Nat.leb_spec 512 (length disk)) as [Hlen|Hlen].
  all: unfold disktest, mbind, M_bind; rewrite (call_eq _ s _ _ E1); unfold call at 1; cbn [world havenet out].
  all: rewrite (proj2 (Z.eqb_neq _ _) open_fd); cbn [andb]; unfold printf at 1; cbn [world havenet out].
  all: rewrite E2; cbn [fst snd]; fold (checksum disk); unfold printf at 1 2; cbn [world havenet out].
  all: rewrite (call_eq (pread fd 512 0) _ _ w3) by exact E3; cbn [fst snd world havenet out].
  all: rewrite length_take, <- ?app_assoc; fold disk_header.
  - rewrite Nat.min_l by done; change (negb (Z.of_nat 512 =? 512)) with false; cbv iota.
    rewrite store_full by (rewrite length_take; lia).
    rewrite strncmp_prefix, take_magic by (done || (apply (bool_decide_unpack _); by vm_compute)).
    change (bool_decide (take (length TESTMAGIC) disk = TESTMAGIC)) with (wants_result disk).
    destruct (wants_result disk); cbn [negb]; [|exists w3; rewrite app_nil_r; by split].
    unfold printf; cbn [world havenet out]; destruct (md5_digest (MD5_Update MD5_Init (take (512 * (length disk / 512)) disk))) as [Hd Hr].
    fold (checksum disk) in Hd, Hr.
    assert (result_sector (checksum disk) = sbuf 512 (result_text (checksum disk))) as Ers.
    { apply result_sector_text; [done|by apply u8_nonneg]. }
    pose proof (result_sector_length (checksum disk) Hd (u8_nonneg _ Hr)) as Hrl.
    pose proof (pwrite_disk w3 (result_sector (checksum disk)) 0 ltac:(rewrite Hrl, C3; cbn; lia)) as C4.
    destruct (pwrite fd (result_sector (checksum disk)) 0 w3) as [n w4] eqn:E4; cbn [fst snd] in C4.
    rewrite (call_eq (pwrite fd (result_sector (checksum disk)) 0) _ _ w4) by exact E4; exists w4; cbn [havenet out]; split.
    + unfold mret, M_ret; by rewrite <- !app_assoc.
    + intros Hw; specialize (Hw eq_refl w3 C3); rewrite E4 in Hw; rewrite C4 by (rewrite Hrl; exact Hw).
      rewrite Hrl, C3, Ers; done.
  - rewrite Nat.min_r by lia; rewrite (proj2 (Z.eqb_neq _ _)) by lia; cbn [negb]; exists w3; split; [|done].
    unfold err; by rewrite <- ?app_assoc.
Qed.
End Disk.

(** ** The network test *)

Lemma starts_found needle b : starts needle (needle ++ b) = Some true.
Proof. induction needle as [|n needle IH]; [done|]; cbn; by rewrite Z.eqb_refl. Qed.
Lemma starts_terminated needle resp rest : 0 ∉ needle -> (forall b, resp <> needle ++ b) ->
  starts needle (resp ++ 0 :: rest) = Some false.
Proof.
  revert needle; induction resp as [|c resp IH]; intros [|n needle] Hn Hno; cbn [starts app].
  - by destruct (Hno []).
  - by rewrite (proj2 (Z.eqb_neq 0 n)) by set_solver.
  - by destruct (Hno (c :: resp)).
  - destruct (Z.eqb_spec c n) as [->|]; [|done]; apply IH; [set_solver|].
    intros b E; by apply (Hno b); rewrite E.
Qed.
Lemma starts_unterminated needle buf : needle <> [] -> (forall b, buf <> needle ++ b) -> starts needle buf <> Some true.
Proof.
  intros _; revert buf; induction needle as [|n needle IH]; intros buf Hno; [by destruct (Hno buf)|].
  destruct buf as [|c buf]; [done|]; cbn; destruct (Z.eqb_spec c n) as [->|]; [|done].
  apply IH; intros b E; by apply (Hno b); rewrite E.
Qed.

Definition occurs (needle resp : list Z) : Prop := exists a b, resp = a ++ needle ++ b.
Lemma occurs_cons needle c resp : occurs needle resp -> occurs needle (c :: resp).
Proof. intros (a & b & ->); by exists (c :: a), b. Qed.

(** [strstr] on a terminated string finds the first occurrence. *)
Lemma strstr_first needle a b rest :
  0 ∉ needle -> 0 ∉ a -> (forall a' b', a ++ needle ++ b = a' ++ needle ++ b' -> (length a <= length a')%nat) ->
  strstr needle ((a ++ needle ++ b) ++ 0 :: rest) = Some (Some (length a)).
Proof.
  intros Hn; induction a as [|c a IH]; intros Ha Hmin; cbn [app length].
  - rewrite <- app_assoc; destruct needle as [|n needle]; [by destruct b|]; cbn [strstr app].
    by rewrite (starts_found (n :: needle) (b ++ 0 :: rest) : starts (n :: needle) (n :: needle ++ b ++ 0 :: rest) = _).
  - cbn [strstr]; assert (starts needle ((c :: a ++ needle ++ b) ++ 0 :: rest) = Some false) as E.
    { apply starts_terminated; [done|]; intros b' E; specialize (Hmin [] b'); cbn in Hmin; specialize (Hmin E); lia. }
    cbn [app] in E; rewrite E; cbn [mbind option_bind]; apply not_elem_of_cons in Ha as [Hc Ha].
    rewrite (proj2 (Z.eqb_neq c 0)) by done; rewrite IH; [done|done|].
    intros a' b' E'; specialize (Hmin (c :: a') b'); cbn in Hmin; rewrite E' in Hmin; specialize (Hmin eq_refl); lia.
Qed.
Lemma strstr_absent needle resp rest : 0 ∉ needle -> needle <> [] -> 0 ∉ resp -> ~ occurs needle resp ->
  strstr needle (resp ++ 0 :: rest) = Some None.
Proof.
  intros Hn Hne; induction resp as [|c resp IH]; intros Hr Ho; cbn [app strstr].
  - assert (starts needle ([] ++ 0 :: rest) = Some false) as E
      by (apply starts_terminated; [done|]; intros b E; by destruct needle).
    cbn [app] in E; by rewrite E.
  - assert (starts needle ((c :: resp) ++ 0 :: rest) = Some false) as E.
    { apply starts_terminated; [done|]; intros b E; apply Ho; by exists [], b. }
    cbn [app] in E; rewrite E; cbn [mbind option_bind]; apply not_elem_of_cons in Hr as [Hc Hr].
    rewrite (proj2 (Z.eqb_neq c 0)) by done; rewrite IH; [done|done|]; intros Ho'; by apply Ho, occurs_cons.
Qed.
Lemma strstr_overrun needle buf : needle <> [] -> 0 ∉ buf -> ~ occurs needle buf -> strstr needle buf = None.
Proof.
  intros Hne; induction buf as [|c buf IH]; intros Hr Ho; cbn [strstr].
  - by destruct needle.
  - pose proof (starts_unterminated needle (c :: buf) Hne) as Hs.
    assert (starts needle (c :: buf) <> Some true) as Hst by (apply Hs; intros b E; apply Ho; by exists [], b).
    destruct (starts needle (c :: buf)) as [[]|]; [done| |done]; cbn [mbind option_bind].
    apply not_elem_of_cons in Hr as [Hc Hr]; rewrite (proj2 (Z.eqb_neq c 0)) by done.
    rewrite IH; [done|done|]; intros Ho'; by apply Ho, occurs_cons.
Qed.
Lemma strchr_found x c d : 0 ∉ c -> x ∉ c -> strchr x (c ++ x :: d) = Some (Some (length c)).
Proof.
  induction c as [|y c IH]; cbn; [by rewrite Z.eqb_refl|]; rewrite !not_elem_of_cons; intros [H0 ?] [Hx ?].
  by rewrite (proj2 (Z.eqb_neq y x)), (proj2 (Z.eqb_neq y 0)), IH by done.
Qed.
Lemma strchr_absent x s rest : 0 ∉ s -> x ∉ s -> x <> 0 -> strchr x (s ++ 0 :: rest) = Some None.
Proof.
  intros Hs Hx H0; induction s as [|y s IH]; cbn [strchr app]; [by rewrite (proj2 (Z.eqb_neq 0 x)) by done|].
  rewrite !not_elem_of_cons in Hs, Hx; destruct Hs, Hx.
  by rewrite (proj2 (Z.eqb_neq y x)), (proj2 (Z.eqb_neq y 0)), IH by done.
Qed.

Definition CT : list Z := bytes "Content-Type".

Lemma starts_dec (needle resp : list Z) : {b | resp = needle ++ b} + {forall b, resp <> needle ++ b}.
Proof.
  destruct (decide (take (length needle) resp = needle)) as [E|E].
  - left; exists (drop (length needle) resp); rewrite <- (take_drop (length needle) resp) at 1; by rewrite E.
  - right; intros b ->; apply E; by rewrite take_app_length.
Defined.
(** The first occurrence, if there is one. *)
Lemma first_occurrence needle resp :
  (exists a b, resp = a ++ needle ++ b /\ forall a' b', resp = a' ++ needle ++ b' -> (length a <= length a')%nat) \/ ~ occurs needle resp.
Proof.
  induction resp as [|c resp IH].
  - destruct (decide (needle = [])) as [->|Hne]; [left; exists [], []; split; [done|]; intros; cbn; lia|right].
    intros (a & b & E); destruct a; [destruct needle|]; done.
  - destruct (starts_dec needle (c :: resp)) as [[b E]|Hno]; [left; exists [], b; split; [done|]; intros; cbn; lia|].
    destruct IH as [(a & b & E & Hmin)|Hno']; [left; exists (c :: a), b; split; [by rewrite E|]|right].
    + intros [|c' a'] b' E'; [by destruct (Hno b')|]; injection E' as -> E'; specialize (Hmin a' b' E'); cbn; lia.
    + intros ([|c' a'] & b' & E'); [by destruct (Hno b')|]; injection E' as -> E'; apply Hno'; by exists a', b'.
Qed.
Lemma first_unique (needle a b a' b' : list Z) : a ++ needle ++ b = a' ++ needle ++ b' -> length a = length a' -> a = a' /\ b = b'.
Proof. intros E Hl; apply app_inj_1 in E as [-> E]; [|done]; split; [done|]; by apply app_inv_head in E. Qed.
Lemma line_unique c d c' d' : c ++ NL :: d = c' ++ NL :: d' -> NL ∉ c -> NL ∉ c' -> c = c'.
Proof.
  revert c'; induction c as [|x c IH]; intros [|y c'] E Hc Hc'; cbn in E; [done|injection E as <- _; by apply not_elem_of_cons in Hc' as [? _]|injection E as -> _; by apply not_elem_of_cons in Hc as [? _]|].
  injection E as -> E; f_equal; apply IH; [done|set_solver|set_solver].
Qed.

(** What [nettest] prints of an answer that arrived as a string: all of it
    without a "Content-Type" line, otherwise everything up to the end of
    the first such line. *)
Lemma cut_response_ok resp rest :
  0 ∉ resp ->
  exists t, (cut_response (resp ++ 0 :: rest) ≫= cstring) = Some t /\
    (~ occurs CT resp -> t = resp) /\
    (forall a b, resp = a ++ CT ++ b -> (forall a' b', resp = a' ++ CT ++ b' -> (length a <= length a')%nat) ->
       (NL ∉ b -> t = resp) /\ (forall c d, b = c ++ NL :: d -> NL ∉ c -> t = a ++ CT ++ c)).
Proof.
  intros Hr; assert (0 ∉ CT) as H0 by (apply (bool_decide_unpack _); by vm_compute).
  assert (NL ∉ CT) as HnC by (apply (bool_decide_unpack _); by vm_compute).
  unfold cut_response; fold CT.
  destruct (first_occurrence CT resp) as [(a & b & Hab & Hmin)|Hno].
  - subst resp; rewrite strstr_first by (done || set_solver); cbn [mbind option_bind].
    rewrite <- !app_assoc, drop_app_length.
    assert ((0 ∉ a) /\ (0 ∉ b)) as [Ha Hb] by (rewrite !not_elem_of_app in Hr; tauto).
    destruct (decide (NL ∈ b)) as [Hin|Hin].
    + apply list_elem_of_split_l in Hin as (c & d & -> & Hc).
      assert (strchr NL (CT ++ (c ++ NL :: d) ++ 0 :: rest) = Some (Some (length (CT ++ c)))) as ->.
      { rewrite <- (strchr_found NL (CT ++ c) (d ++ 0 :: rest)); [by rewrite <- !app_assoc| |]; set_solver. }
      cbn [mbind option_bind]; exists (a ++ CT ++ c); split_and!.
      * rewrite insert_app_r, <- !app_assoc, (app_assoc CT c), insert_app_r_alt, Nat.sub_diag by lia; cbn [list_insert].
        rewrite (app_assoc a), app_assoc; rewrite <- (app_assoc a); apply cstring_app; set_solver.
      * intros Hno; destruct Hno; by exists a, (c ++ NL :: d).
      * intros a2 b2 E Hmin2; assert (a2 = a /\ b2 = c ++ NL :: d) as [-> ->] by (apply (first_unique CT); [done|]; apply Nat.le_antisymm; [by eapply Hmin2|by eapply Hmin]).
        split; [set_solver|]; intros c2 d2 E2 Hc2; assert (c2 = c) as ->; [|done].
        symmetry; by apply (line_unique c d c2 d2).
    + assert (strchr NL (CT ++ b ++ 0 :: rest) = Some None) as ->.
      { rewrite app_assoc; apply strchr_absent; [set_solver|set_solver|done]. }
      cbn [mbind option_bind]; exists (a ++ CT ++ b); split_and!.
      * rewrite <- cstring_app with (t := rest) by done; by rewrite <- !app_assoc.
      * done.
      * intros a2 b2 E Hmin2; assert (a2 = a /\ b2 = b) as [-> ->] by (apply (first_unique CT); [done|]; apply Nat.le_antisymm; [by eapply Hmin2|by eapply Hmin]).
        split; [done|]; intros c d -> Hc; set_solver.
  - rewrite strstr_absent by done; cbn [mbind option_bind]; exists resp; split_and!; [by apply cstring_app|done|].
    intros a b E; destruct Hno; by exists a, b.
Qed.

Section Net.
Context {W : Type} `{!Services W}.

(** The calls of [nettest] up to the answer: connected to port 80, request
    sent, [data] received. *)
Definition answered (w : W) (data : list Z) (w' : W) : Prop :=
  exists s w1 rc w2 rw w3 rv,
    socket PF_INET SOCK_STREAM 0 w = (s, w1) /\ s <> -1 /\
    connect s (Sockaddr sizeof_sockaddr_in AF_INET 0x5000 (inet_addr DESTHOST)) w1 = (rc, w2) /\ rc <> -1 /\
    write s HTTPGET w2 = (rw, w3) /\ read s 512 w3 = (rv, data, w') /\ 1 <= rv.

Lemma nettest_answered buf0 (s : appstate W) data w' : answered (world s) data w' ->
  nettest buf0 s =
    match cut_response (store data buf0) ≫= cstring with
    | Some t => Done tt (AppState w' (havenet s)
        (out s ++ (bytes "got response:" ++ [NL] ++ t ++ [NL]) ++ bytes "[omitting rest ...]" ++ [NL]))
    | None => Overrun (AppState w' (havenet s) (out s))
    end.
Proof.
  intros (sk & w1 & rc & w2 & rw & w3 & rv & E1 & H1 & E2 & H2 & E3 & E4 & H4).
  unfold nettest, mbind, M_bind; rewrite (call_eq (socket _ _ _) s sk w1), (proj2 (Z.eqb_neq _ _) H1) by exact E1.
  change (htons 80) with 0x5000; rewrite (call_eq (connect _ _) _ rc w2), (proj2 (Z.eqb_neq _ _) H2) by exact E2.
  rewrite (call_eq (write _ _) _ rw w3) by exact E3; rewrite (call_eq (read _ _) _ (rv, data) w') by exact E4.
  cbn [fst snd]; rewrite (proj2 (Z.ltb_ge _ _) H4); cbn [world havenet out].
  unfold option_bind; destruct (cut_response (store data buf0)) as [b|]; cbn [lift]; [|done].
  destruct (cstring b) as [t|]; cbn [lift]; [|done]; unfold printf; cbn [world havenet out]; by rewrite <- !app_assoc.
Qed.

(** The network test.  Once an answer has arrived, it is printed as far
    as the end of its first "Content-Type" line, or whole, provided the
    buffer holds a NUL behind the bytes received.  The code never writes
    one: an answer that fills the buffer and has no such line is read past
    the end of the array. *)
Theorem nettest_correct buf0 (s : appstate W) data w' :
  answered (world s) data w' ->
  (forall resp rest, store data buf0 = resp ++ 0 :: rest -> 0 ∉ resp ->
     exists t, nettest buf0 s = Done tt (AppState w' (havenet s)
       (out s ++ (bytes "got response:" ++ [NL] ++ t ++ [NL]) ++ bytes "[omitting rest ...]" ++ [NL])) /\
       (~ occurs CT resp -> t = resp) /\
       (forall a b, resp = a ++ CT ++ b -> (forall a' b', resp = a' ++ CT ++ b' -> (length a <= length a')%nat) ->
          (NL ∉ b -> t = resp) /\ (forall c d, b = c ++ NL :: d -> NL ∉ c -> t = a ++ CT ++ c))) /\
  (length data = length buf0 -> 0 ∉ data -> ~ occurs CT data ->
     nettest buf0 s = Overrun (AppState w' (havenet s) (out s))).
Proof.
  intros Ha; pose proof (nettest_answered buf0 s data w' Ha) as E; split.
  - intros resp rest Eb Hr; destruct (cut_response_ok resp rest Hr) as (t & Et & Ht).
    rewrite Eb, Et in E; by exists t.
  - intros Hl H0 Ho; rewrite E, store_full by done; unfold cut_response; by rewrite strstr_overrun.
Qed.

(** The interfaces are tried in order, and the first that comes up is
    configured. *)
Fixpoint config_ref (names : list string) (w : W) : Z * W :=
  match names with
  | [] => (1, w)
  | n :: names => let '(r, w) := netconfig_ifup n w in if r =? 0 then netconfig_dhcp n w else config_ref names w
  end.
Lemma rumpkern_config_ref (s : appstate W) :
  rumpkern_config s =
    let '(rv, w) := config_ref ["wm0"; "pcn0"; "vioif0"] (rump_init (world s)) in
    Done tt (AppState w (rv =? 0) (out s)).
Proof.
  unfold rumpkern_config, mbind, M_bind, call, set_havenet; cbn [world havenet out config_ref].
  repeat (match goal with |- context [netconfig_ifup ?n ?w] => destruct (netconfig_ifup n w) as [? ?] end;
    cbn [world havenet out]; destruct (_ =? 0); cbn [world havenet out];
    [by match goal with |- context [netconfig_dhcp ?n ?w] => destruct (netconfig_dhcp n w) as [? ?] end|]).
  done.
Qed.
End Net.

(** ** The whole program *)

Definition net_report (t : list Z) : list Z :=
  (bytes "got response:" ++ [NL] ++ t ++ [NL]) ++ bytes "[omitting rest ...]" ++ [NL].
Definition the_end : list Z := [NL] ++ bytes "THE END" ++ [NL].

Section Main.
Context {W : Type} `{!Services W} {fd : Z} {content : W -> list Z} {pos : W -> nat} `{!DiskLaws W fd content pos}.

Definition no_disk : list Z := bytes "no disk device available.  skipping test" ++ [NL].

(** How the program ends from the disk test on, in the world [w] with [o]
    printed so far: with a disk of at least one sector, with a shorter one, and
    without a disk. *)
Definition disk_part (fuel : nat) (w : W) (h : bool) (o : list Z) (r : result W unit) : Prop :=
  let disk := content w in
  (disk_opens (fd := fd) (content := content) (pos := pos) w -> (512 <= length disk)%nat -> (length disk / 512 <= fuel)%nat ->
     exists w', r = Done tt (AppState w' h (o ++ disk_report disk ++ the_end)) /\
       (disk_writable (fd := fd) (content := content) disk -> content w' = disk_after disk)) /\
  (disk_opens (fd := fd) (content := content) (pos := pos) w -> (length disk < 512)%nat ->
     exists w', r = Exit 1 "read sector 0" (AppState w' h (o ++ disk_header ++ flat_map fmt_x (checksum disk) ++ [NL])) /\
       content w' = disk) /\
  (forall w', disk_absent w w' -> r = Done tt (AppState w' h (o ++ no_disk ++ the_end))).

Lemma main_disk fuel buf1 w h o : length buf1 = 512%nat ->
  disk_part fuel w h o ((_ ← disktest fuel buf1; printf the_end) (AppState w h o)).
Proof.
  intros Hb; split_and!.
  - intros Ho Hl Hf; destruct (disktest_ok fuel buf1 (AppState w h o) Ho Hb Hf) as (w' & E); cbn [world havenet out] in E.
    rewrite (proj2 (Nat.leb_le _ _) Hl) in E; destruct E as [E C]; exists w'; split; [|done].
    unfold mbind, M_bind; rewrite E; unfold printf; cbn [world havenet out]; by rewrite <- app_assoc.
  - intros Ho Hl; assert (length (content w) / 512 <= fuel)%nat as Hf by (rewrite Nat.div_small; lia).
    destruct (disktest_ok fuel buf1 (AppState w h o) Ho Hb Hf) as (w' & E); cbn [world havenet out] in E.
    rewrite (proj2 (Nat.leb_gt _ _) Hl) in E; destruct E as [E C]; exists w'; split; [|done].
    unfold mbind, M_bind; by rewrite E.
  - intros w' [Eo He]; unfold disktest, mbind, M_bind; rewrite (call_eq (open "/dev/rld0d" O_RDWR) (AppState w h o) _ _ Eo); unfold call; cbn [world havenet out].
    assert ((errno w' =? ENOENT) || (errno w' =? ENXIO) = true) as -> by (apply orb_true_iff; rewrite !Z.eqb_eq; exact He).
    change ((-1 =? -1) && true) with true; cbv iota; unfold printf; cbn [world havenet out]; by rewrite <- app_assoc.
Qed.

(** C27: the program as a whole.  It configures the first network interface
    that comes up and runs the network test exactly when the configuration
    succeeded.  Provided the network test gets an answer that ends with a NUL
    inside the buffer (otherwise it exits with an error or runs over the
    buffer, see [nettest_correct]), its report is printed and the disk test
    follows.  With a disk of at least one sector the checksum of the disk and
    the closing line are printed, and the disk changes exactly when its first
    sector asks for the result, provided that the device takes the write, whose
    result the program ignores; a shorter disk makes the program exit with an
    error; and without a disk a message and the closing line are printed.
    Reads of the disk are assumed not to fail. *)
Theorem app_main_correct fuel buf0 buf1 (s : appstate W) rv w1 :
  config_ref ["wm0"; "pcn0"; "vioif0"] (rump_init (world s)) = (rv, w1) -> length buf1 = 512%nat ->
  (rv <> 0 -> disk_part fuel w1 false (out s) (bmk_app_main fuel buf0 buf1 s)) /\
  (rv = 0 -> forall data w2 resp rest,
     answered w1 data w2 -> store data buf0 = resp ++ 0 :: rest -> 0 ∉ resp ->
     exists t, (cut_response (resp ++ 0 :: rest) ≫= cstring) = Some t /\
       disk_part fuel w2 true (out s ++ net_report t) (bmk_app_main fuel buf0 buf1 s)).
Proof.
  intros Ec Hb; pose proof (rumpkern_config_ref s) as Er; rewrite Ec in Er.
  assert (forall h, (rv =? 0) = h -> bmk_app_main fuel buf0 buf1 s =
    (_ ← (if h then nettest buf0 else mret tt); _ ← disktest fuel buf1; printf the_end) (AppState w1 h (out s))) as Em.
  { intros h <-; unfold bmk_app_main, mbind, M_bind; by rewrite Er. }
  split.
  - intros Hrv; rewrite (Em false) by (by apply Z.eqb_neq).
    exact (main_disk fuel buf1 w1 false (out s) Hb).
  - intros -> data w2 resp rest Ha Eb Hr; rewrite (Em true) by done.
    destruct (cut_response_ok resp rest Hr) as (t & Et & _); exists t; split; [done|].
    pose proof (nettest_answered buf0 (AppState w1 true (out s)) data w2 Ha) as En; rewrite Eb, Et in En; cbn [havenet out] in En.
    fold (net_report t) in En; unfold mbind at 1, M_bind at 1; rewrite En.
    exact (main_disk fuel buf1 w2 true (out s ++ net_report t) Hb).
Qed.
End Main.

(** ** A machine with a disk *)

(** A disk and a position in it, no network; a connection, when one is made
    all the same, answers with a short header. *)
Record dworld := DWorld { d_disk : list Z; d_pos : nat; d_net : bool }.
Definition demo_read (fd n : Z) (w : dworld) : Z * list Z * dworld :=
  if fd =? 3 then
    let d := take (Z.to_nat n) (drop (d_pos w) (d_disk w)) in
    (Z.of_nat (length d), d, DWorld (d_disk w) (d_pos w + length d) (d_net w))
  else let d := bytes "Content-Type: a" ++ [NL; 66] in (Z.of_nat (length d), d, w).
#[export] Instance demo_services : Services dworld := {
  rump_init w := w;
  netconfig_ifup n w := (if d_net w then 0 else -1, w);
  netconfig_dhcp n w := (0, w);
  socket _ _ _ w := (4, w); inet_addr _ := 0; connect _ _ w := (0, w); write _ d w := (Z.of_nat (length d), w);
  read := demo_read;
  open _ _ w := (3, DWorld (d_disk w) 0 (d_net w)); errno _ := 0;
  pread fd n off w := let d := take (Z.to_nat n) (drop (Z.to_nat off) (d_disk w)) in (Z.of_nat (length d), d, w);
  pwrite fd data off w := (Z.of_nat (length data),
    DWorld (take (Z.to_nat off) (d_disk w) ++ data ++ drop (Z.to_nat off + length data) (d_disk w)) (d_pos w) (d_net w));
  MD5_CTX := list Z; MD5_Init := []; MD5_Update c d := c ++ d; MD5_Final c := u8 <$> take 16 (c ++ replicate 16 0);
  PF_INET := 2; SOCK_STREAM := 1; AF_INET := 2; O_RDWR := 2; sizeof_sockaddr_in := 16; ENOENT := 2; ENXIO := 6 }.

#[export] Instance demo_disk : DiskLaws dworld 3 d_disk d_pos.
Proof.
  split; intros.
  - done.
  - subst d; by eexists.
  - subst d; by eexists.
  - done.
  - apply app_nil_r.
  - symmetry; apply app_assoc.
  - split; [change (length (u8 <$> take 16 ((c : list Z) ++ replicate 16 0)) = 16%nat); rewrite length_fmap, length_take, length_app, length_replicate; lia|].
    apply Forall_fmap, Forall_forall; intros x _; by apply wrap_range.
Qed.

(** Two sectors, the first with the magic string. *)
Definition demo_image : list Z := sbuf 1024 TESTMAGIC.

Lemma app_main_correct_witness :
  exists w', d_disk w' = disk_after demo_image /\
    bmk_app_main 2 (replicate 512 0) (replicate 512 0) (AppState (DWorld demo_image 0 false) false []) =
      Done tt (AppState w' false (disk_report demo_image ++ the_end)).
Proof.
  destruct (app_main_correct (fd := 3) (content := d_disk) (pos := d_pos) 2 (replicate 512 0) (replicate 512 0) (AppState (DWorld demo_image 0 false) false [])
    1 (DWorld demo_image 0 false)) as [H _].
  - reflexivity.
  - reflexivity.
  - destruct (H ltac:(lia)) as (Hd & _).
    destruct Hd as (w' & E & C).
    + by exists (DWorld demo_image 0 false).
    + apply Nat.leb_le; by vm_compute.
    + apply Nat.leb_le; by vm_compute.
    + exists w'; split; [apply C|exact E].
      intros _ w _; vm_compute; reflexivity.
Defined.

Lemma nettest_correct_witness :
  exists t, nettest (replicate 512 0) (AppState (DWorld [] 0 true) true []) =
    Done tt (AppState (DWorld [] 0 true) true (net_report t)) /\ t = bytes "Content-Type: a".
Proof.
  destruct (nettest_correct (replicate 512 0) (AppState (DWorld [] 0 true) true []) (bytes "Content-Type: a" ++ [NL; 66]) (DWorld [] 0 true)) as [H _].
  { exists 4, (DWorld [] 0 true), 0, (DWorld [] 0 true), 16, (DWorld [] 0 true), 17; split_and!; by vm_compute. }
  destruct (H (bytes "Content-Type: a" ++ [NL; 66]) (replicate 494 0)) as (t & E & _ & Ht).
  { reflexivity. }
  { apply (bool_decide_unpack _); by vm_compute. }
  exists t; split; [exact E|].
  destruct (Ht [] (bytes ": a" ++ [NL; 66]) eq_refl) as [_ Hc]; [intros a' b' _; cbn; lia|].
  apply (Hc (bytes ": a") [66] eq_refl); apply (bool_decide_unpack _); by vm_compute.
Defined.
